(* ===== verification/_CoqProject ===== *)
-Q . S2P
Prelude.v
Sets.v
External.v
Schema.v
Effects.v
Evolution.v
Cimd.v
Jose.v
Keys.v
OAuth.v
Config.v
Identity.v
Google.v
Database.v
Credentials.v
Tokens.v
Logout.v
Browser.v
Http.v
CimdTransport.v
Web.v
Startup.v
HttpTheory.v
CimdTheory.v
OAuthTheory.v
GoogleTheory.v
KeysTheory.v
ConfigTheory.v
CredentialsSpec.v
CredentialsTheory.v
CredentialsInvariant.v
CredentialsProgress.v
StoresSpec.v
DatabaseTheory.v
LogoutTheory.v
BrowserTheory.v
StoresInvariant.v
Transitions.v
Concurrency.v
ConcurrencyTheory.v
Pools.v
System.v
Confinement.v
Framing.v
Drafts.v
Revoking.v
Atomicity.v
Contest.v
Contenders.v
Deciders.v
Promises.v
Requests.v
AtomicConsent.v
AtomicBrowser.v
AtomicSignIn.v
AtomicLogout.v
Readers.v
Politeness.v
Revocation.v
Settling.v
Composition.v
Serving.v
Steps.v
Latecomers.v
ConcurrencyProperties.v
SystemProperties.v
Termination.v
WebTheory.v
Inert.v
WebProperties.v
Instances.v
CredentialsProperties.v
HttpInstances.v
Scenario.v
TokenInstances.v
Flow.v
Witnesses.v
PolicyWitnesses.v
WebWitnesses.v
ConcurrencyWitnesses.v
