(* ===== verification/Prelude.v ===== *)
(** * eri, a dedicated OAuth/OpenID provider: verification library

    eri (src/src, Rust) signs users in with Google and issues authorization
    codes, access tokens, identity tokens and rotating refresh tokens to
    first-party clients and to clients known by a metadata document. Its
    state is a PostgreSQL database; its handlers issue SQL statements inside
    transactions, read clocks, draw secrets, and answer HTTP.

    ** How the program is modelled

    The database is a record of finite maps, one per table, with the
    constraints of the migrations as checks of each write (Schema.v). An
    [async fn] of a store is a [prog]: a tree of effects, one constructor per
    kind (a statement, BEGIN, COMMIT, ROLLBACK, the end of a transaction's
    scope, a fresh identifier, 32 random bytes, the two clocks). Effects.v
    runs a program in isolation against a world (the committed database and
    the working copies of the open transaction and its savepoints) and an
    oracle: every clock reading, identifier, random draw and failure. A
    statement can fail before or after it took effect, a COMMIT can take
    effect and lose its answer. What holds for every oracle holds whatever
    the environment does. Programs are finite trees: they need no fuel.

    Code outside src/ is an interface: External.v (sha2, base64, url, uuid),
    Jose.v (jsonwebtoken), Cimd.v and Google.v (JSON, HTTP answers), Schema.v
    (jsonb), Http.v (http, axum, form_urlencoded). A class holds the
    operations, another class the documented laws a theorem may ask for;
    Instances.v, TokenInstances.v and HttpInstances.v instantiate all of them
    with concrete functions, on which the witnesses run.

    ** The files, in order

    - Prelude.v, Sets.v: results, strings as bytes, ordered string sets,
      tables, tactics.
    - External.v, Schema.v (migrations/), Effects.v, Evolution.v (the order
      along which rows change).
    - One file per source file: Cimd.v (cimd.rs), Jose.v and Keys.v
      (keys.rs), OAuth.v (oauth.rs), Config.v (config.rs), Identity.v
      (identity.rs), Google.v (google.rs), Database.v (database.rs),
      Credentials.v (credentials.rs), Tokens.v (tokens.rs), Logout.v
      (logout.rs), Browser.v (browser.rs), Http.v (the pure part of web.rs)
      and Web.v (its handlers, the router, [serve]); CimdTransport.v (the
      resolver and the transport of cimd.rs); Startup.v (main.rs and the pool
      of database.rs). Definitions keep the source's names; a statement of
      the code is a [stmt], with the rows it locks.
    - HttpTheory.v, CimdTheory.v, OAuthTheory.v, GoogleTheory.v,
      KeysTheory.v, ConfigTheory.v: the policies and the start-up.
    - CredentialsSpec.v, StoresSpec.v: what the stores promise, as relations
      between the committed database before and after, with no statements,
      locks, savepoints or failures. CredentialsTheory.v, DatabaseTheory.v,
      LogoutTheory.v, BrowserTheory.v: the programs implement it.
    - CredentialsInvariant.v, CredentialsProgress.v, StoresInvariant.v: what
      every operation preserves, and when exchanges succeed.
    - System.v: all operations of all stores, in any order; reachable
      databases. SystemProperties.v, CredentialsProperties.v: the theorems on
      histories.
    - Transitions.v: those specifications as one atomic transition system,
      every transition of which preserves the well-formedness of the whole
      database.
    - Concurrency.v: programs interleaved effect by effect over one database.
      ConcurrencyTheory.v: a logic of rely and guarantee for one program,
      with a ledger of what it did to the committed database and may do to
      it; Pools.v: what it gives for pools of programs; Framing.v, Contest.v:
      what a program keeps to itself, and rows spent once. Confinement.v
      (statements), Contenders.v, Deciders.v (operations): the stores.
    - Drafts.v, Revoking.v: the working copy of a transaction as its changes
      on top of what others commit. Atomicity.v, Promises.v (credentials),
      Requests.v, AtomicConsent.v, AtomicBrowser.v, AtomicSignIn.v (browser
      and users), AtomicLogout.v (revocations and logouts), Readers.v: each
      operation publishes one transition at its COMMIT, or none.
      Politeness.v: that of all operations.
    - Revocation.v, Settling.v: a revoked session has no live family;
      Latecomers.v: operations that begin after its revocation.
      Composition.v: programs made of operations; Serving.v: every handler,
      so every request, is one; Steps.v: pools of them as runs of the
      transition system. ConcurrencyProperties.v: the theorems on pools.
    - Termination.v: how many effects each operation and handler has.
      WebTheory.v, Inert.v, WebProperties.v: handlers as sequences of store
      operations; handlers that only read; requests.
    - Instances.v, Scenario.v, TokenInstances.v, HttpInstances.v, Flow.v,
      Witnesses.v, PolicyWitnesses.v, WebWitnesses.v, ConcurrencyWitnesses.v:
      concrete libraries, histories, and the theorems at work on them.

    ** What is shown

    - Credentials: an exchange or a rotation does all its specification says
      or nothing; a code is redeemed once; a replayed code or refresh token
      revokes its family; a revoked family or session never yields tokens
      again; a well-presented code or token succeeds.
    - Browser authorizations: a request is decided once, a callback claimed
      once, a sign-in happens entirely or not at all, a code is stored only
      for an open request and binds only what was asked.
    - Logout ends one session and every family it ever had, for good.
    - Every reachable database is well-formed, and no row ever goes back.
    - Served concurrently, with their effects interleaved in any way, requests
      behave as if each operation were one atomic transition, so every moment
      of every interleaving has a well-formed database. Each operation that
      answers what it changed (all but the revocation of a token, the local
      logout and the look-up of a user, whose answers do not tell) takes
      effect once, at its COMMIT, and there, between the committed databases
      before and after, meets its specification. At most one of the requests
      that redeem a code, rotate a token, finish a logout, decide a consent
      page, claim a callback or sign a request in succeeds; and once a logout
      is committed, whatever is still running, all refresh families of the
      session are revoked and nothing more is had of it.
    - Policies: which requests the client policy accepts, redirects, PKCE,
      CIMD documents and their cache, key loading, token round trips, the
      checks on Google's identity tokens and keys.
    - HTTP: every request is answered (no handler panics), with a bounded
      number of effects, by operations of the stores alone, so that all the
      above holds of the served system; redirects go only to where they are
      registered; a request from the page of a site nobody registered changes
      nothing; headers, cookies, preflights and escaping.

    ** Bounds

    Integers are [Z] with the code's saturation and bounds written out
    ([i64_saturating_add], [u64_max], chrono's range in Database.v);
    timestamps are microseconds, monotonic instants nanoseconds. [chars] uses
    the string's length as fuel, one unit per code point at least. The retry
    loops of web.rs run twice ([for_attempts]).

    ** Not modelled

    - What PostgreSQL does is an assumption, stated in Concurrency.v: READ
      COMMITTED, row locks, UNIQUE. The theorems on what a failed operation
      left (CredentialsProperties.v, SystemProperties.v) and on which requests
      succeed are of operations that run one after another. The model waits
      and never deadlocks a statement away; PostgreSQL's deadlock errors are
      failures like any other.
    - Argument parsing and the shutdown signal of main.rs, the migration
      runner (its result is the tables of Schema.v), DNS and TLS of cimd.rs,
      the HTTP clients, file reading, PEM and TOML parsing: input and output,
      arguments of the definitions that use them. lib.rs only re-exports. The
      benchmark of examples/ is a client of the server. *)

From Stdlib Require Import Ascii String ZArith Lia Bool.
From stdpp Require Export base strings list gmap fin_maps option decidable.

(** [clear dependent] may name a hypothesis that an earlier step cleared. *)
#[export] Set Warnings "-clear-no-such-hyp".

(** ** Scope and notations *)

Declare Scope eri_scope.
Delimit Scope eri_scope with eri.

(** Boolean equality on any type with decidable equality. *)
Notation "a ==? b" := (bool_decide (a = b)) (at level 70, no associativity) : eri_scope.
Notation "a <>? b" := (negb (bool_decide (a = b))) (at level 70, no associativity) : eri_scope.

Open Scope eri_scope.

(** ** Results *)

(** Rust's [Result<A, E>]. *)
Inductive result (A E : Type) : Type :=
| Ok (a : A)
| Err (e : E).
Arguments Ok {A E} a.
Arguments Err {A E} e.

(** [Result::is_ok]. *)
Definition is_ok {A E} (r : result A E) : bool :=
  match r with Ok _ => true | Err _ => false end.

(** [Result::is_err]. *)
Definition is_err {A E} (r : result A E) : bool := negb (is_ok r).

(** [Option::ok_or]. *)
Definition ok_or {A E} (o : option A) (e : E) : result A E :=
  match o with Some a => Ok a | None => Err e end.

(** [Result::map_err]. *)
Definition map_err {A E F} (f : E -> F) (r : result A E) : result A F :=
  match r with Ok a => Ok a | Err e => Err (f e) end.

(** [Result::map]. *)
Definition map_ok {A B E} (f : A -> B) (r : result A E) : result B E :=
  match r with Ok a => Ok (f a) | Err e => Err e end.

(** The [?] operator on [Result]. *)
Definition rbind {A B E} (r : result A E) (k : A -> result B E) : result B E :=
  match r with Ok a => k a | Err e => Err e end.

Notation "'try!' x <- c ; k" := (rbind c (fun x => k))
  (at level 100, x name, c at next level, k at level 200, right associativity) : eri_scope.

(** [iter.map(f).collect::<Result<Vec<_>, _>>()]. *)
Fixpoint try_map {A B E} (f : A -> result B E) (l : list A) : result (list B) E :=
  match l with
  | [] => Ok []
  | x :: l' => try! y <- f x; try! ys <- try_map f l'; Ok (y :: ys)
  end.

(** [Option::is_some_and] and [Option::is_none_or]. *)
Definition is_some_and {A} (o : option A) (f : A -> bool) : bool :=
  match o with Some a => f a | None => false end.
Definition is_none_or {A} (o : option A) (f : A -> bool) : bool :=
  match o with Some a => f a | None => true end.
Definition is_some {A} (o : option A) : bool :=
  match o with Some _ => true | None => false end.
Definition is_none {A} (o : option A) : bool := negb (is_some o).
(** [Option::or_else]. *)
Definition or_else {A} (o : option A) (k : option A) : option A :=
  match o with Some a => Some a | None => k end.
(** [Option::filter]. *)
Definition opt_filter {A} (f : A -> bool) (o : option A) : option A :=
  match o with Some a => if f a then Some a else None | None => None end.

(** ** Bytes and strings

    A Rust [String] is its sequence of UTF-8 bytes, here a [string] of
    8-bit characters; so is a [Vec<u8>]. *)

Definition byte_in (lo hi : N) (a : ascii) : bool :=
  ((lo <=? N_of_ascii a)%N && (N_of_ascii a <=? hi)%N).
Definition is_ascii_digit (a : ascii) : bool := byte_in 48 57 a.
Definition is_ascii_upper (a : ascii) : bool := byte_in 65 90 a.
Definition is_ascii_lower (a : ascii) : bool := byte_in 97 122 a.
Definition is_ascii_alphanumeric (a : ascii) : bool :=
  is_ascii_digit a || is_ascii_upper a || is_ascii_lower a.
Definition is_ascii_hexdigit (a : ascii) : bool :=
  is_ascii_digit a || byte_in 65 70 a || byte_in 97 102 a.
(** [u8::is_ascii_graphic]: ['!'..='~']. *)
Definition is_ascii_graphic (a : ascii) : bool := byte_in 33 126 a.
Definition is_ascii_byte (a : ascii) : bool := byte_in 0 127 a.

(** [u8::to_ascii_lowercase]. *)
Definition ascii_lower (a : ascii) : ascii :=
  if is_ascii_upper a then ascii_of_N (N_of_ascii a + 32) else a.

Fixpoint to_ascii_lowercase (s : string) : string :=
  match s with
  | EmptyString => EmptyString
  | String a s' => String (ascii_lower a) (to_ascii_lowercase s')
  end.
Definition eq_ignore_ascii_case (s t : string) : bool :=
  to_ascii_lowercase s ==? to_ascii_lowercase t.

(** [s.bytes().all(p)]. *)
Fixpoint bytes_all (p : ascii -> bool) (s : string) : bool :=
  match s with
  | EmptyString => true
  | String a s' => p a && bytes_all p s'
  end.

Definition str_empty (s : string) : bool := s ==? EmptyString.
Definition len (s : string) : Z := Z.of_nat (String.length s).

(** [str::strip_prefix] and [str::starts_with]. *)
Fixpoint strip_prefix (p s : string) : option string :=
  match p, s with
  | EmptyString, _ => Some s
  | String a p', String b s' => if a ==? b then strip_prefix p' s' else None
  | String _ _, EmptyString => None
  end.
Definition starts_with (p s : string) : bool := is_some (strip_prefix p s).

Fixpoint str_rev_app (s acc : string) : string :=
  match s with
  | EmptyString => acc
  | String a s' => str_rev_app s' (String a acc)
  end.
Definition str_rev (s : string) : string := str_rev_app s EmptyString.
Definition ends_with (p s : string) : bool := starts_with (str_rev p) (str_rev s).

(** [s.split_at(s.find(p).unwrap_or(s.len()))]: the longest prefix with no
    byte satisfying [p], and what follows it. *)
Fixpoint split_find (p : ascii -> bool) (s : string) : string * string :=
  match s with
  | EmptyString => (EmptyString, EmptyString)
  | String a s' =>
      if p a then (EmptyString, s)
      else let '(u, v) := split_find p s' in (String a u, v)
  end.

(** [s.contains(c)]. *)
Definition str_contains (c : ascii) (s : string) : bool :=
  negb (bytes_all (fun a => a <>? c) s).

(** [s.split(p)]: always at least one piece. *)
Fixpoint split_on (p : ascii -> bool) (s : string) : list string :=
  match s with
  | EmptyString => [EmptyString]
  | String a s' =>
      match split_on p s' with
      | [] => [] (* not reached: a split has at least one piece *)
      | x :: xs => if p a then EmptyString :: x :: xs else String a x :: xs
      end
  end.
Definition split_char (c : ascii) : string -> list string := split_on (fun a => a ==? c).

(** [s.split_once(c)]. *)
Fixpoint split_once (c : ascii) (s : string) : option (string * string) :=
  match s with
  | EmptyString => None
  | String a s' =>
      if a ==? c then Some (EmptyString, s')
      else match split_once c s' with
           | Some (u, v) => Some (String a u, v)
           | None => None
           end
  end.

(** [slice.join(sep)]. *)
Fixpoint str_join (sep : string) (l : list string) : string :=
  match l with
  | [] => EmptyString
  | [x] => x
  | x :: l' => x +:+ sep +:+ str_join sep l'
  end.

(** [s.parse::<uN>()] with largest value [max]: an optional leading [+],
    then at least one digit and nothing else; [None] on overflow. *)
Definition digit_value (a : ascii) : Z := Z.of_N (N_of_ascii a) - 48.
Fixpoint parse_digits (max acc : Z) (s : string) : option Z :=
  match s with
  | EmptyString => Some acc
  | String a s' =>
      if is_ascii_digit a then
        let acc' := (acc * 10 + digit_value a)%Z in
        if (acc' <=? max)%Z then parse_digits max acc' s' else None
      else None
  end.
Definition parse_unsigned (max : Z) (s : string) : option Z :=
  let digits := match s with String "+" s' => s' | _ => s end in
  if str_empty digits then None else parse_digits max 0 digits.
Definition u16_max : Z := 65535.
Definition u64_max : Z := 18446744073709551615.
Definition i64_min : Z := -9223372036854775808.
Definition i64_max : Z := 9223372036854775807.

(** [i64::saturating_add] and [u64::saturating_sub]. *)
Definition i64_saturating_add (a b : Z) : Z := Z.max i64_min (Z.min i64_max (a + b)).
Definition u64_saturating_sub (a b : Z) : Z := Z.max 0 (a - b).

(** [s.chars()]: the code points of the UTF-8 bytes. A byte that starts no
    well-formed sequence (none does in a Rust string) counts as itself. *)
Fixpoint chars_fuel (fuel : nat) (s : string) : list N :=
  match fuel, s with
  | O, _ | _, EmptyString => []
  | S n, String a s1 =>
      let x := N_of_ascii a in
      let c (b : ascii) : N := N.land (N_of_ascii b) 63 in
      match s1 with
      | String b1 s2 =>
          if (x <? 192)%N then x :: chars_fuel n s1
          else if (x <? 224)%N then (N.land x 31 * 64 + c b1)%N :: chars_fuel n s2
          else match s2 with
               | String b2 s3 =>
                   if (x <? 240)%N
                   then (N.land x 15 * 4096 + c b1 * 64 + c b2)%N :: chars_fuel n s3
                   else match s3 with
                        | String b3 s4 =>
                            (N.land x 7 * 262144 + c b1 * 4096 + c b2 * 64 + c b3)%N
                              :: chars_fuel n s4
                        | EmptyString => [x]
                        end
               | EmptyString => [x]
               end
      | EmptyString => [x]
      end
  end.
Definition chars (s : string) : list N := chars_fuel (String.length s) s.

Definition in_range (lo hi c : N) : bool := ((lo <=? c)%N && (c <=? hi)%N).

(** [char::is_whitespace] (the Unicode White_Space property). *)
Definition is_whitespace (c : N) : bool :=
  in_range 9 13 c || (c =? 32)%N || (c =? 133)%N || (c =? 160)%N || (c =? 5760)%N
  || in_range 8192 8202 c || (c =? 8232)%N || (c =? 8233)%N || (c =? 8239)%N
  || (c =? 8287)%N || (c =? 12288)%N.

(** [char::is_control] (the Unicode category Cc). *)
Definition is_control (c : N) : bool := in_range 0 31 c || in_range 127 159 c.

(** [s.trim().is_empty()]. *)
Definition trim_is_empty (s : string) : bool := forallb is_whitespace (chars s).
(** [s.trim() == s]. *)
Definition is_trimmed (s : string) : bool :=
  match chars s with
  | [] => true
  | c :: cs => negb (is_whitespace c) && negb (is_whitespace (List.last cs c))
  end.

(** [str::trim] on header text, which is printable ASCII or a tab. *)
Definition ascii_space (a : ascii) : bool := byte_in 9 13 a || (N_of_ascii a =? 32)%N.
Fixpoint trim_start (s : string) : string :=
  match s with
  | EmptyString => EmptyString
  | String a s' => if ascii_space a then trim_start s' else s
  end.
Definition trim (s : string) : string := str_rev (trim_start (str_rev (trim_start s))).

(** [std::str::from_utf8]: whether the bytes are well-formed UTF-8. *)
Definition continuation (a : ascii) : bool := byte_in 128 191 a.
Fixpoint utf8_fuel (fuel : nat) (s : string) : bool :=
  match fuel, s with
  | _, EmptyString => true
  | O, _ => false
  | S n, String a s1 =>
      if byte_in 0 127 a then utf8_fuel n s1
      else
        match s1 with
        | EmptyString => false
        | String b s2 =>
            if byte_in 194 223 a then continuation b && utf8_fuel n s2
            else
              match s2 with
              | EmptyString => false
              | String c s3 =>
                  if byte_in 224 239 a then
                    (if byte_in 224 224 a then byte_in 160 191 b
                     else if byte_in 237 237 a then byte_in 128 159 b else continuation b)
                    && continuation c && utf8_fuel n s3
                  else
                    match s3 with
                    | EmptyString => false
                    | String d s4 =>
                        byte_in 240 244 a
                        && (if byte_in 240 240 a then byte_in 144 191 b
                            else if byte_in 244 244 a then byte_in 128 143 b else continuation b)
                        && continuation c && continuation d && utf8_fuel n s4
                    end
              end
        end
  end.
Definition from_utf8 (s : string) : bool := utf8_fuel (String.length s) s.

(** ** [BTreeSet<String>]

    Its elements in iteration order: sorted by bytes, without duplicates. *)

Fixpoint bset_insert (x : string) (l : list string) : list string :=
  match l with
  | [] => [x]
  | y :: l' =>
      match String.compare x y with
      | Lt => x :: l
      | Eq => l
      | Gt => y :: bset_insert x l'
      end
  end.
Definition bset_of_list (l : list string) : list string :=
  fold_left (fun s x => bset_insert x s) l [].
Definition bset_contains (s : list string) (x : string) : bool :=
  existsb (fun y => y ==? x) s.
Definition bset_subset (s t : list string) : bool := forallb (bset_contains t) s.
Definition bset_extend (s l : list string) : list string :=
  fold_left (fun s x => bset_insert x s) l s.

Definition str_lt (x y : string) : Prop := String.compare x y = Lt.

(** ** Finite maps as tables *)

(** The row of a table that satisfies [p], if any (unique when [p] tests a
    column with a UNIQUE constraint). *)
Definition find_row {V} (p : N -> V -> bool) (m : gmap N V) : option (N * V) :=
  List.find (fun kv => p kv.1 kv.2) (map_to_list m).
(** Some row satisfies [p]. *)
Definition exists_row {V} (p : N -> V -> bool) (m : gmap N V) : bool :=
  is_some (find_row p m).
(** [UPDATE ... WHERE]: maps the rows satisfying [p] through [f]. *)
Definition update_rows {V} (p : N -> V -> bool) (f : N -> V -> V) (m : gmap N V) : gmap N V :=
  map_imap (fun k v => Some (if p k v then f k v else v)) m.

(** A table that only gains rows, its present rows changing along [le]. *)
Definition table_le `{Countable K} {V} (le : V -> V -> Prop) (m m' : gmap K V) : Prop :=
  forall k v, m !! k = Some v -> exists v', m' !! k = Some v' /\ le v v'.

(** * Lemmas *)

(** ** Booleans and options *)

Lemma is_some_true {A} (o : option A) : is_some o = true <-> is_Some o.
Proof. destruct o; simpl; split; intros H; [by eexists|done|done|by destruct H]. Qed.
Lemma is_some_false {A} (o : option A) : is_some o = false <-> o = None.
Proof. by destruct o. Qed.
Lemma is_none_true {A} (o : option A) : is_none o = true <-> o = None.
Proof. by destruct o. Qed.
Lemma is_none_false {A} (o : option A) : is_none o = false <-> is_Some o.
Proof. unfold is_none. rewrite negb_false_iff. apply is_some_true. Qed.

Lemma bool_decide_neq_false {A} `{EqDecision A} (x y : A) : (x <>? y) = false <-> x = y.
Proof. rewrite negb_false_iff. apply bool_decide_eq_true. Qed.
Lemma bool_decide_neq_true {A} `{EqDecision A} (x y : A) : (x <>? y) = true <-> x <> y.
Proof. rewrite negb_true_iff. apply bool_decide_eq_false. Qed.

Lemma ok_or_Ok {A E} (o : option A) (e : E) a : ok_or o e = Ok a <-> o = Some a.
Proof. destruct o; simpl; split; congruence. Qed.
Lemma map_err_Ok {A E F} (f : E -> F) (r : result A E) a : map_err f r = Ok a <-> r = Ok a.
Proof. destruct r; simpl; split; congruence. Qed.
Lemma rbind_Ok {A B E} (r : result A E) (k : A -> result B E) b :
  rbind r k = Ok b <-> exists a, r = Ok a /\ k a = Ok b.
Proof.
  destruct r as [x|e]; simpl; split; [by eauto|by intros (? & [= ->] & ?)|done|by intros (? & ? & ?)].
Qed.
Lemma opt_filter_Some {A} (f : A -> bool) o a :
  opt_filter f o = Some a <-> o = Some a /\ f a = true.
Proof.
  destruct o as [b|]; simpl; [|split; [done|by intros [? ?]]].
  destruct (f b) eqn:Hb; split;
    [by intros [= ->]|by intros [[= ->] ?]|done|intros [[= ->] ?]; congruence].
Qed.

Create Rewrite HintDb bools.
#[export] Hint Rewrite @is_some_true @is_some_false @is_none_true @is_none_false
  @bool_decide_neq_false @bool_decide_neq_true @bool_decide_eq_true @bool_decide_eq_false
  @ok_or_Ok @map_err_Ok @opt_filter_Some
  orb_true_iff orb_false_iff andb_true_iff negb_true_iff negb_false_iff
  Z.leb_le Z.leb_gt Z.ltb_lt Z.ltb_ge Z.eqb_eq Z.eqb_neq N.eqb_eq N.eqb_neq
  Nat.eqb_eq Nat.eqb_neq Nat.leb_le Nat.leb_gt Nat.ltb_lt Nat.ltb_ge : bools.

(** Turns boolean tests of hypothesis [H] into propositions. *)
Tactic Notation "bools" "in" hyp(H) := autorewrite with bools in H.
Ltac bools_all :=
  repeat match goal with
  | H : ?b = true |- _ => progress autorewrite with bools in H
  | H : ?b = false |- _ => progress autorewrite with bools in H
  end; destruct_and?.

(** Splits on the guard of the first [if] of hypothesis [H]. *)
Ltac case_if H :=
  match type of H with
  | context [if ?b then _ else _] => let E := fresh "E" in destruct b eqn:E
  end.

(** ** Strings *)

#[global] Arguments String.append : simpl nomatch.

Lemma str_app_assoc (s t u : string) : (s +:+ t) +:+ u = s +:+ (t +:+ u).
Proof. induction s as [|a s IH]; [done|]. simpl. by rewrite IH. Qed.
Lemma str_app_nil_r (s : string) : s +:+ EmptyString = s.
Proof. induction s as [|a s IH]; [done|]. simpl. by rewrite IH. Qed.
Lemma str_length_app (s t : string) :
  String.length (s +:+ t) = (String.length s + String.length t)%nat.
Proof. induction s as [|a s IH]; [done|]. simpl. by rewrite IH. Qed.
Lemma len_app s t : len (s +:+ t) = (len s + len t)%Z.
Proof. unfold len. rewrite str_length_app. lia. Qed.
Lemma len_nonneg s : (0 <= len s)%Z.
Proof. unfold len. lia. Qed.
Lemma str_empty_true s : str_empty s = true <-> s = EmptyString.
Proof. apply bool_decide_eq_true. Qed.
Lemma str_empty_false s : str_empty s = false <-> s <> EmptyString.
Proof. apply bool_decide_eq_false. Qed.

Lemma bytes_all_app p s t : bytes_all p (s +:+ t) = bytes_all p s && bytes_all p t.
Proof. induction s as [|a s IH]; [done|]. simpl. by rewrite IH, andb_assoc. Qed.
Lemma bytes_all_impl (p q : ascii -> bool) s :
  (forall a, p a = true -> q a = true) -> bytes_all p s = true -> bytes_all q s = true.
Proof.
  intros Hi. induction s as [|a s IH]; [done|]. simpl. rewrite !andb_true_iff.
  intros [Ha Hs]. by auto.
Qed.

Lemma bytes_all_rev_app q s acc : bytes_all q (str_rev_app s acc) = bytes_all q s && bytes_all q acc.
Proof.
  revert acc. induction s as [|a s IH]; intros acc; simpl; [done|]. rewrite IH. simpl.
  by rewrite andb_assoc, (andb_comm (bytes_all q s) (q a)).
Qed.
Lemma bytes_all_trim_start q s : bytes_all q s = true -> bytes_all q (trim_start s) = true.
Proof.
  induction s as [|a s IH]; simpl; [done|]. intros [Ha Hs]%andb_true_iff.
  destruct (ascii_space a); [auto|]. simpl. by rewrite Ha.
Qed.
Lemma bytes_all_trim q s : bytes_all q s = true -> bytes_all q (trim s) = true.
Proof.
  intros Hs. unfold trim, str_rev. rewrite bytes_all_rev_app, andb_true_r.
  apply bytes_all_trim_start. rewrite bytes_all_rev_app, andb_true_r. by apply bytes_all_trim_start.
Qed.

(** Splitting. *)
Lemma bytes_all_split_on p q s : bytes_all q s = true -> Forall (fun x => bytes_all q x = true) (split_on p s).
Proof.
  induction s as [|a s IH]; simpl; [by repeat constructor|]. intros [Ha Hs]%andb_true_iff.
  specialize (IH Hs). destruct (split_on p s) as [|x xs]; [done|]. inversion IH; subst.
  destruct (p a); repeat (constructor; try done). simpl. by rewrite Ha.
Qed.
Lemma bytes_all_split_once c q s u v :
  split_once c s = Some (u, v) -> bytes_all q s = true -> bytes_all q u = true /\ bytes_all q v = true.
Proof.
  revert u. induction s as [|a s IH]; simpl; intros u; [done|]. intros Hs [Ha Hq]%andb_true_iff.
  destruct (a ==? c); [by simplify_eq|]. destruct (split_once c s) as [[u' v']|]; simplify_eq.
  destruct (IH _ eq_refl Hq) as [H1 H2]. simpl. by rewrite Ha.
Qed.
Lemma split_on_cons p s : exists x xs, split_on p s = x :: xs.
Proof.
  induction s as [|a s (x & xs & IH)]; simpl; [by eauto|]. rewrite IH. destruct (p a); eauto.
Qed.
Lemma split_char_none c s : bytes_all (fun a => a <>? c) s = true -> split_char c s = [s].
Proof.
  unfold split_char. induction s as [|a s IH]; [done|]. simpl.
  rewrite andb_true_iff, negb_true_iff. intros [-> Hs]. by rewrite (IH Hs).
Qed.
Lemma split_char_app c s t :
  bytes_all (fun a => a <>? c) s = true -> split_char c (s +:+ String c t) = s :: split_char c t.
Proof.
  unfold split_char. induction s as [|a s IH]; intros Hs; simpl.
  - destruct (split_on_cons (fun a => a ==? c) t) as (x & xs & ->). by rewrite bool_decide_eq_true_2.
  - simpl in Hs. rewrite andb_true_iff, negb_true_iff in Hs. destruct Hs as [-> Hs]. by rewrite (IH Hs).
Qed.

Lemma str_join_cons sep x y l : str_join sep (x :: y :: l) = x +:+ (sep +:+ str_join sep (y :: l)).
Proof. done. Qed.

(** Joining pieces that do not hold the separator, then splitting. *)
Lemma split_char_join c l : l <> [] -> Forall (fun s => bytes_all (fun a => a <>? c) s = true) l ->
  split_char c (str_join (String c EmptyString) l) = l.
Proof.
  intros Hne Hall. destruct l as [|s l]; [done|]. clear Hne. revert s Hall.
  induction l as [|s' l IH]; intros s Hall; inversion_clear Hall as [|? ? Hs Hall'].
  - by apply split_char_none.
  - rewrite str_join_cons. change (String c EmptyString +:+ ?x) with (String c x).
    by rewrite split_char_app, IH.
Qed.

(** [strip_prefix] takes exactly the prefix away. *)
Lemma strip_prefix_Some p s t : strip_prefix p s = Some t <-> s = p +:+ t.
Proof.
  revert s. induction p as [|a p IH]; intros s; simpl; [by split; [intros [= ->]|intros ->]|].
  destruct s as [|b s]; [split; [done|by intros [=]]|].
  case_bool_decide as Hab; [|by split; [done|by intros [= ->]]].
  rewrite IH. subst. split; [by intros ->|by intros [= ->]].
Qed.
Lemma starts_with_true p s : starts_with p s = true <-> exists t, s = p +:+ t.
Proof.
  unfold starts_with. rewrite is_some_true. unfold is_Some.
  by split; intros [t H]; exists t; apply strip_prefix_Some in H || apply strip_prefix_Some.
Qed.

(** ** Tables *)

Section Tables.
Context {V : Type}.
Implicit Types (m : gmap N V) (p : N -> V -> bool).

Lemma find_row_Some p m k v : find_row p m = Some (k, v) -> m !! k = Some v /\ p k v = true.
Proof.
  intros H. apply List.find_some in H as [Hin Hp]. split; [|exact Hp].
  apply elem_of_map_to_list. by apply list_elem_of_In.
Qed.

Lemma find_row_None p m k v : find_row p m = None -> m !! k = Some v -> p k v = false.
Proof.
  intros H Hk. apply (List.find_none _ _ H (k, v)).
  by apply list_elem_of_In, elem_of_map_to_list.
Qed.

(** A row that satisfies a test no other row satisfies is the one found. *)
Lemma find_row_unique p m k v :
  m !! k = Some v -> p k v = true ->
  (forall k' v', m !! k' = Some v' -> p k' v' = true -> k' = k) ->
  find_row p m = Some (k, v).
Proof.
  intros Hk Hp Hu. destruct (find_row p m) as [[k' v']|] eqn:Hf.
  - apply find_row_Some in Hf as [Hk' Hp']. pose proof (Hu _ _ Hk' Hp'). naive_solver.
  - pose proof (find_row_None _ _ _ _ Hf Hk). congruence.
Qed.

Lemma exists_row_false p m :
  exists_row p m = false <-> forall k v, m !! k = Some v -> p k v = false.
Proof.
  unfold exists_row. rewrite is_some_false. split.
  - intros H k v Hk. by eapply find_row_None.
  - intros H. destruct (find_row p m) as [[k v]|] eqn:Hf; [|done].
    apply find_row_Some in Hf as [Hk Hp]. rewrite (H _ _ Hk) in Hp. done.
Qed.

Lemma lookup_update_rows p (f : N -> V -> V) m k :
  update_rows p f m !! k = (fun v => if p k v then f k v else v) <$> m !! k.
Proof. unfold update_rows. rewrite map_lookup_imap. by destruct (m !! k). Qed.
End Tables.

Section TableOrder.
Context `{Countable K} {V : Type}.
Implicit Types (m : gmap K V) (le : V -> V -> Prop).

#[export] Instance table_le_preorder le `{!PreOrder le} : PreOrder (table_le (K:=K) le).
Proof.
  split.
  - intros m k v Hk. by exists v.
  - intros m1 m2 m3 H1 H2 k v Hk. destruct (H1 _ _ Hk) as (v' & Hk' & Hle).
    destruct (H2 _ _ Hk') as (v'' & Hk'' & Hle'). exists v''. split; [done|by etrans].
Qed.

Lemma table_le_insert le `{!PreOrder le} m k v : m !! k = None -> table_le le m (<[k := v]> m).
Proof.
  intros Hk k' v' Hk'. exists v'. split; [|done].
  rewrite lookup_insert_ne; [done|]. congruence.
Qed.

Lemma table_le_replace le `{!PreOrder le} m k v v' :
  m !! k = Some v -> le v v' -> table_le le m (<[k := v']> m).
Proof.
  intros Hk Hle k1 v1 Hk1. destruct (decide (k = k1)) as [->|Hne].
  - exists v'. rewrite lookup_insert_eq. split; [done|]. by simplify_eq.
  - exists v1. by rewrite lookup_insert_ne.
Qed.

Lemma table_le_alter le `{!PreOrder le} (f : V -> V) m k :
  (forall v, le v (f v)) -> table_le le m (alter f k m).
Proof.
  intros Hf k1 v1 Hk1. destruct (decide (k = k1)) as [->|Hne].
  - exists (f v1). by rewrite lookup_alter_eq, Hk1.
  - exists v1. by rewrite lookup_alter_ne.
Qed.
End TableOrder.

Lemma table_le_update_rows {V} (le : V -> V -> Prop) `{!PreOrder le} p (f : N -> V -> V) m :
  (forall k v, le v (f k v)) -> table_le le m (update_rows p f m).
Proof.
  intros Hf k v Hk. exists (if p k v then f k v else v). rewrite lookup_update_rows, Hk. simpl.
  split; [done|]. by destruct (p k v).
Qed.
