(* ===== verification/Sets.v ===== *)
(** * Sets: [BTreeSet<String>] as sorted lists

    Membership, sortedness and canonicity of the sets of Prelude.v, and what
    their sizes say of the lists they come from. *)

From Stdlib Require Import Ascii String ZArith Lia Sorting.Sorted.
From S2P Require Import Prelude.

Lemma ascii_compare_lt_trans a b c :
  Ascii.compare a b = Lt -> Ascii.compare b c = Lt -> Ascii.compare a c = Lt.
Proof. unfold Ascii.compare. rewrite !N.compare_lt_iff. lia. Qed.

Lemma ascii_compare_refl a : Ascii.compare a a = Eq.
Proof. apply N.compare_refl. Qed.
Lemma str_compare_refl x : String.compare x x = Eq.
Proof. induction x as [|a x IH]; simpl; [done|]. by rewrite ascii_compare_refl. Qed.

#[export] Instance str_lt_trans : Transitive str_lt.
Proof.
  unfold str_lt. intros x. induction x as [|a x IH]; intros [|b y] [|c z]; simpl; try done.
  destruct (Ascii.compare a b) eqn:Hab; destruct (Ascii.compare b c) eqn:Hbc; try done.
  - apply Ascii.compare_eq_iff in Hab as ->, Hbc as ->. intros Hxy Hyz.
    rewrite ascii_compare_refl. by eapply IH.
  - apply Ascii.compare_eq_iff in Hab as ->. by rewrite Hbc.
  - apply Ascii.compare_eq_iff in Hbc as ->. by rewrite Hab.
  - by rewrite (ascii_compare_lt_trans a b c).
Qed.

Lemma str_lt_irrefl x : ~ str_lt x x.
Proof.
  unfold str_lt. by rewrite str_compare_refl.
Qed.

Lemma str_compare_gt x y : String.compare x y = Gt -> str_lt y x.
Proof. unfold str_lt. intros H. by rewrite String.compare_antisym, H. Qed.

(** ** Membership *)

Lemma elem_of_bset_insert x y l : y ∈ bset_insert x l <-> y = x \/ y ∈ l.
Proof.
  induction l as [|z l IH]; simpl; [set_solver|].
  destruct (String.compare x z) eqn:Hc; [apply String.compare_eq_iff in Hc as ->| |]; set_solver.
Qed.

Lemma elem_of_bset_extend s l y : y ∈ bset_extend s l <-> y ∈ s \/ y ∈ l.
Proof.
  unfold bset_extend. revert s. induction l as [|x l IH]; intros s; simpl; [set_solver|].
  rewrite IH, elem_of_bset_insert. set_solver.
Qed.

Lemma elem_of_bset_of_list l y : y ∈ bset_of_list l <-> y ∈ l.
Proof. change (bset_of_list l) with (bset_extend [] l). rewrite elem_of_bset_extend. set_solver. Qed.

Lemma bset_contains_true s x : bset_contains s x = true <-> x ∈ s.
Proof.
  unfold bset_contains. rewrite existsb_exists. setoid_rewrite bool_decide_eq_true.
  setoid_rewrite <- list_elem_of_In. naive_solver.
Qed.

Lemma bset_subset_true s t : bset_subset s t = true <-> s ⊆ t.
Proof.
  unfold bset_subset. rewrite forallb_forall. setoid_rewrite bset_contains_true.
  setoid_rewrite <- list_elem_of_In. done.
Qed.

(** ** Sortedness *)

Definition bset_sorted (l : list string) : Prop := StronglySorted str_lt l.

Lemma bset_insert_sorted x l : bset_sorted l -> bset_sorted (bset_insert x l).
Proof.
  induction 1 as [|y l Hs IH Hy]; simpl; [by repeat constructor|].
  destruct (String.compare x y) eqn:Hc.
  - by constructor.
  - constructor; [by constructor|]. constructor; [done|].
    eapply List.Forall_impl; [|exact Hy]. intros z Hz. by trans y.
  - constructor; [done|]. apply Forall_forall. intros z Hz%list_elem_of_In%elem_of_bset_insert.
    destruct Hz as [->|Hz]; [by apply str_compare_gt|]. rewrite Forall_forall in Hy. by apply Hy, list_elem_of_In.
Qed.

Lemma bset_of_list_sorted l : bset_sorted (bset_of_list l).
Proof.
  unfold bset_of_list. generalize (SSorted_nil str_lt). generalize (@nil string).
  induction l as [|x l IH]; intros s Hs; simpl; [done|]. apply IH. by apply bset_insert_sorted.
Qed.

Lemma bset_sorted_nodup l : bset_sorted l -> NoDup l.
Proof.
  induction 1 as [|x l Hs IH Hx]; constructor; [|done].
  intros Hin. rewrite Forall_forall in Hx. by apply (str_lt_irrefl x), Hx, list_elem_of_In.
Qed.

(** A sorted list is determined by its elements. *)
Lemma bset_sorted_ext l l' : bset_sorted l -> bset_sorted l' -> (forall x, x ∈ l <-> x ∈ l') -> l = l'.
Proof.
  intros Hl. revert l'. induction Hl as [|x l Hs IH Hx]; intros [|y l'] Hl' Hin.
  - done.
  - specialize (Hin y). set_solver.
  - specialize (Hin x). set_solver.
  - inversion_clear Hl' as [|? ? Hs' Hy]. rewrite Forall_forall in Hx, Hy.
    assert (x = y) as ->.
    { destruct (proj1 (elem_of_cons l' x y) (proj1 (Hin x) ltac:(set_solver))) as [|Hxl]; [done|].
      destruct (proj1 (elem_of_cons l y x) (proj2 (Hin y) ltac:(set_solver))) as [|Hyl]; [done|].
      exfalso. apply (str_lt_irrefl x). trans y; [by apply Hx, list_elem_of_In|by apply Hy, list_elem_of_In]. }
    f_equal. apply IH; [done|]. intros z. specialize (Hin z). rewrite !elem_of_cons in Hin.
    split; intros Hz.
    + destruct (proj1 Hin (or_intror Hz)) as [->|]; [|done]. exfalso. by apply (str_lt_irrefl y), Hx, list_elem_of_In.
    + destruct (proj2 Hin (or_intror Hz)) as [->|]; [|done]. exfalso. by apply (str_lt_irrefl y), Hy, list_elem_of_In.
Qed.

Lemma bset_of_list_ext l l' : (forall x, x ∈ l <-> x ∈ l') -> bset_of_list l = bset_of_list l'.
Proof.
  intros H. apply bset_sorted_ext; [apply bset_of_list_sorted..|].
  intros x. by rewrite !elem_of_bset_of_list.
Qed.

(** ** Sizes *)

Lemma bset_of_list_length_le l : (length (bset_of_list l) <= length l)%nat.
Proof.
  apply NoDup_incl_length; [by apply NoDup_ListNoDup, bset_sorted_nodup, bset_of_list_sorted|].
  intros x Hx. apply list_elem_of_In, elem_of_bset_of_list. by apply list_elem_of_In.
Qed.

(** The set of a list is as long as the list exactly when nothing repeats. *)
Lemma bset_of_list_length l : length (bset_of_list l) = length l <-> NoDup l.
Proof.
  split.
  - intros Hl. apply NoDup_ListNoDup.
    eapply (NoDup_incl_NoDup (l := bset_of_list l)); [by apply NoDup_ListNoDup, bset_sorted_nodup, bset_of_list_sorted|lia|].
    intros x Hx. apply list_elem_of_In, elem_of_bset_of_list. by apply list_elem_of_In.
  - intros Hn. apply Nat.le_antisymm; [apply bset_of_list_length_le|].
    apply NoDup_incl_length; [by apply NoDup_ListNoDup|].
    intros x Hx. apply list_elem_of_In, elem_of_bset_of_list. by apply list_elem_of_In.
Qed.
