(* ===== verification/External.v ===== *)
(** * External: the third-party code the program calls

    One class per dependency, a record of the operations the code uses, and
    one class of laws per dependency, each law a documented behaviour the
    proofs rely on. Definitions take the operations as arguments; only the
    theorems that need a law mention it. *)

From Stdlib Require Import Ascii String ZArith.
From S2P Require Import Prelude.

(** [Uuid], a 128-bit identifier. *)
Abbreviation Uuid := N (only parsing).

(** ** The [sha2] and [base64] crates

    [sha256 s] is the 32-byte digest; [b64_encode]/[b64_decode] are the
    engine [URL_SAFE_NO_PAD]. *)
Class Crypto := {
  sha256 : string -> string;
  b64_encode : string -> string;
  b64_decode : string -> option string;
}.

(** The URL-safe alphabet of RFC 4648 section 5. *)
Definition b64url_char (a : ascii) : bool :=
  is_ascii_alphanumeric a || (a ==? "-"%char) || (a ==? "_"%char).

Class CryptoLaws `{Crypto} : Prop := {
  sha256_length s : len (sha256 s) = 32%Z;
  b64_decode_encode s : b64_decode (b64_encode s) = Some s;
  b64_encode_alphabet s : bytes_all b64url_char (b64_encode s) = true;
  b64_encode_32 s : len s = 32%Z -> len (b64_encode s) = 43%Z;
}.

(** ** The [url] crate *)
Inductive Host : Type :=
| Domain (d : string)
| Ipv4 (a b c d : Z)
| Ipv6 (segments : list Z).

#[export] Instance Host_eq_dec : EqDecision Host.
Proof. solve_decision. Defined.

(** The accessors of [Url] that the program calls. *)
Record Url := {
  url_as_str : string;
  url_scheme : string;
  url_username : string;
  url_password : option string;
  url_host : option Host;
  url_port : option Z;
  url_port_or_known_default : option Z;
  url_path : string;
  url_query : option string;
  url_fragment : option string;
  url_cannot_be_a_base : bool;
  url_origin : string; (* [url.origin().ascii_serialization()] *)
}.

Class UrlLib := {
  url_parse : string -> option Url;
  url_join : Url -> string -> option Url;
}.

(** [IpAddr::is_loopback] of a host. *)
Definition ipv4_is_loopback (a : Z) : bool := (a =? 127)%Z.
Definition ipv6_localhost : list Z := [0; 0; 0; 0; 0; 0; 0; 1]%Z.

(** ** The [uuid] crate: [Uuid]'s [Display] and [FromStr] *)
Class UuidLib := {
  uuid_text : Uuid -> string;
  uuid_parse : string -> option Uuid;
}.

Class UuidLaws `{UuidLib} : Prop := {
  uuid_parse_text u : (u < 2 ^ 128)%N -> uuid_parse (uuid_text u) = Some u;
  uuid_text_visible u : bytes_all is_ascii_graphic (uuid_text u) = true /\ uuid_text u <> EmptyString;
}.
