(* ===== verification/Schema.v ===== *)
(** * Schema: the PostgreSQL tables of migrations/

    One record per row type, one finite map per table keyed by the primary
    key, and for every INSERT the constraints of the migrations (primary
    keys, UNIQUE, REFERENCES, CHECK), whose violation is an error. Times are
    microseconds since the Unix epoch, the resolution of [timestamptz]; an
    interval of days is 24-hour days, which is what the server computes when
    its time zone has no daylight saving (UTC). *)

From Stdlib Require Import ZArith.
From S2P Require Import Prelude External.

Definition micros : Z := 1000000.
Definition seconds (n : Z) : Z := n * micros.
Definition minutes (n : Z) : Z := seconds (n * 60).
Definition days (n : Z) : Z := seconds (n * 86400).

(** [DateTime::<Utc>::timestamp]: whole seconds, rounded down. *)
Definition timestamp (t : Z) : Z := t / micros.

(** ** Rows *)

Record session_rec := {
  ps_token_hash : string;
  ps_user_id : Uuid;
  ps_auth_time : Z;
  ps_expires_at : Z;
  ps_revoked_at : option Z;
  ps_upstream_auth_time : option Z;
}.

Record code_rec := {
  ac_code_hash : string;
  ac_session_id : Uuid;
  ac_client_id : string;
  ac_redirect_uri : string;
  ac_scopes : list string;
  ac_resource : string;
  ac_code_challenge : string;
  ac_issue_refresh_token : bool;
  ac_issued_at : Z;
  ac_expires_at : Z;
  ac_consumed_at : option Z;
  ac_oidc_nonce : option string;
  ac_upstream_auth_time : option Z;
  ac_cimd_binding : option string;
}.

Record family_rec := {
  rf_source_code_id : Uuid;
  rf_session_id : Uuid;
  rf_user_id : Uuid;
  rf_client_id : string;
  rf_scopes : list string;
  rf_resource : string;
  rf_issued_at : Z;
  rf_expires_at : Z;
  rf_revoked_at : option Z;
  rf_upstream_auth_time : option Z;
  rf_cimd_binding : option string;
}.

Record member_rec := {
  rt_family_id : Uuid;
  rt_token_hash : string;
  rt_issued_at : Z;
  rt_consumed_at : option Z;
  rt_successor_id : option Uuid;
}.

(** [browser_authorizations.stage]: the values its CHECK allows. *)
Inductive Stage : Type :=
| awaiting_start
| awaiting_google
| callback_claimed
| awaiting_consent
| approved
| denied
| failed
| expired.

#[export] Instance Stage_eq_dec : EqDecision Stage.
Proof. solve_decision. Defined.

Record browser_rec := {
  ba_stage : Stage;
  ba_upstream_state_hash : option string;
  ba_browser_binding_hash : option string;
  ba_upstream_nonce : option string;
  ba_upstream_verifier : option string;
  ba_claim_hash : option string;
  ba_csrf_hash : option string;
  ba_session_id : option Uuid;
  ba_client_id : string;
  ba_redirect_uri : string;
  ba_scopes : list string;
  ba_resource : string;
  ba_code_challenge : string;
  ba_downstream_state : option string;
  ba_oidc_nonce : option string;
  ba_created_at : Z;
  ba_expires_at : Z;
  ba_cimd_binding : option string;
  ba_allow_pre_authorization : bool;
}.

Record logout_rec := {
  lc_csrf_hash : string;
  lc_session_id : Uuid;
  lc_client_id : string;
  lc_post_logout_redirect_uri : string;
  lc_downstream_state : option string;
  lc_created_at : Z;
  lc_expires_at : Z;
  lc_consumed_at : option Z;
}.

Record profile_rec := {
  up_name : option string;
  up_given_name : option string;
  up_family_name : option string;
  up_picture : option string;
  up_verified_email : option string;
  up_updated_at : Z;
}.

#[export] Instance session_rec_eq_dec : EqDecision session_rec.
Proof. solve_decision. Defined.
#[export] Instance code_rec_eq_dec : EqDecision code_rec.
Proof. solve_decision. Defined.
#[export] Instance family_rec_eq_dec : EqDecision family_rec.
Proof. solve_decision. Defined.
#[export] Instance member_rec_eq_dec : EqDecision member_rec.
Proof. solve_decision. Defined.
#[export] Instance browser_rec_eq_dec : EqDecision browser_rec.
Proof. solve_decision. Defined.
#[export] Instance logout_rec_eq_dec : EqDecision logout_rec.
Proof. solve_decision. Defined.
#[export] Instance profile_rec_eq_dec : EqDecision profile_rec.
Proof. solve_decision. Defined.

(** ** The database *)

Record DB := {
  users : gmap Uuid unit;
  external_identities : gmap (string * string) Uuid;
  user_profiles : gmap Uuid profile_rec;
  provider_sessions : gmap Uuid session_rec;
  authorization_codes : gmap Uuid code_rec;
  refresh_families : gmap Uuid family_rec;
  refresh_token_members : gmap Uuid member_rec;
  browser_authorizations : gmap Uuid browser_rec;
  logout_challenges : gmap Uuid logout_rec;
}.

#[export] Instance DB_eq_dec : EqDecision DB.
Proof. solve_decision. Defined.

Definition empty_db : DB :=
  {| users := ∅; external_identities := ∅; user_profiles := ∅; provider_sessions := ∅;
     authorization_codes := ∅; refresh_families := ∅; refresh_token_members := ∅;
     browser_authorizations := ∅; logout_challenges := ∅ |}.

Definition set_users (m : gmap Uuid unit) (d : DB) : DB :=
  {| users := m; external_identities := external_identities d; user_profiles := user_profiles d;
     provider_sessions := provider_sessions d; authorization_codes := authorization_codes d;
     refresh_families := refresh_families d; refresh_token_members := refresh_token_members d;
     browser_authorizations := browser_authorizations d; logout_challenges := logout_challenges d |}.
Definition set_identities (m : gmap (string * string) Uuid) (d : DB) : DB :=
  {| users := users d; external_identities := m; user_profiles := user_profiles d;
     provider_sessions := provider_sessions d; authorization_codes := authorization_codes d;
     refresh_families := refresh_families d; refresh_token_members := refresh_token_members d;
     browser_authorizations := browser_authorizations d; logout_challenges := logout_challenges d |}.
Definition set_profiles (m : gmap Uuid profile_rec) (d : DB) : DB :=
  {| users := users d; external_identities := external_identities d; user_profiles := m;
     provider_sessions := provider_sessions d; authorization_codes := authorization_codes d;
     refresh_families := refresh_families d; refresh_token_members := refresh_token_members d;
     browser_authorizations := browser_authorizations d; logout_challenges := logout_challenges d |}.
Definition set_sessions (m : gmap Uuid session_rec) (d : DB) : DB :=
  {| users := users d; external_identities := external_identities d; user_profiles := user_profiles d;
     provider_sessions := m; authorization_codes := authorization_codes d;
     refresh_families := refresh_families d; refresh_token_members := refresh_token_members d;
     browser_authorizations := browser_authorizations d; logout_challenges := logout_challenges d |}.
Definition set_codes (m : gmap Uuid code_rec) (d : DB) : DB :=
  {| users := users d; external_identities := external_identities d; user_profiles := user_profiles d;
     provider_sessions := provider_sessions d; authorization_codes := m;
     refresh_families := refresh_families d; refresh_token_members := refresh_token_members d;
     browser_authorizations := browser_authorizations d; logout_challenges := logout_challenges d |}.
Definition set_families (m : gmap Uuid family_rec) (d : DB) : DB :=
  {| users := users d; external_identities := external_identities d; user_profiles := user_profiles d;
     provider_sessions := provider_sessions d; authorization_codes := authorization_codes d;
     refresh_families := m; refresh_token_members := refresh_token_members d;
     browser_authorizations := browser_authorizations d; logout_challenges := logout_challenges d |}.
Definition set_members (m : gmap Uuid member_rec) (d : DB) : DB :=
  {| users := users d; external_identities := external_identities d; user_profiles := user_profiles d;
     provider_sessions := provider_sessions d; authorization_codes := authorization_codes d;
     refresh_families := refresh_families d; refresh_token_members := m;
     browser_authorizations := browser_authorizations d; logout_challenges := logout_challenges d |}.
Definition set_browser (m : gmap Uuid browser_rec) (d : DB) : DB :=
  {| users := users d; external_identities := external_identities d; user_profiles := user_profiles d;
     provider_sessions := provider_sessions d; authorization_codes := authorization_codes d;
     refresh_families := refresh_families d; refresh_token_members := refresh_token_members d;
     browser_authorizations := m; logout_challenges := logout_challenges d |}.
Definition set_logouts (m : gmap Uuid logout_rec) (d : DB) : DB :=
  {| users := users d; external_identities := external_identities d; user_profiles := user_profiles d;
     provider_sessions := provider_sessions d; authorization_codes := authorization_codes d;
     refresh_families := refresh_families d; refresh_token_members := refresh_token_members d;
     browser_authorizations := browser_authorizations d; logout_challenges := m |}.

(** ** Errors of a statement: [sqlx::Error] *)
Inductive DbError : Type :=
| DbFault          (* connection, protocol or pool failure *)
| DbConstraint     (* a constraint of the schema *)
| DbRowNotFound    (* [fetch_one] on no row *)
| DbDecode.        (* NULL in a column read into a type that is not an [Option] *)

(** The predefined value a row must not repeat, over a table. *)
Definition taken {V} (col : V -> option string) (x : option string) (m : gmap Uuid V) : bool :=
  match x with
  | None => false
  | Some _ => exists_row (fun _ v => col v ==? x) m
  end.

Definition hash_ok (h : string) : bool := (len h =? 32)%Z.
Definition opt_hash_ok (h : option string) : bool := is_none_or h hash_ok.

(** ** INSERT with the constraints of the migrations *)

Definition insert_session_row (id : Uuid) (r : session_rec) (d : DB) : result DB DbError :=
  let ok :=
    is_none (provider_sessions d !! id)
    && hash_ok (ps_token_hash r)
    && negb (taken (fun s => Some (ps_token_hash s)) (Some (ps_token_hash r)) (provider_sessions d))
    && is_some (users d !! ps_user_id r)
    && (ps_expires_at r <=? ps_auth_time r + days 30)%Z in
  if ok then Ok (set_sessions (<[id := r]> (provider_sessions d)) d) else Err DbConstraint.

(** The CHECK of 202610110004 on [cimd_binding] uses PostgreSQL's jsonb
    functions: [cimd_shape client_id binding] is its value. *)
Class JsonDb := {
  (* [$n::jsonb] followed by [::text] on reading; [None] when the text is not JSON *)
  jsonb_text : string -> option string;
  cimd_shape : string -> string -> bool;
}.

Definition cimd_check `{JsonDb} (client : string) (b : option string) : bool :=
  is_none_or b (cimd_shape client).

Definition insert_code_row `{JsonDb} (id : Uuid) (r : code_rec) (d : DB) : result DB DbError :=
  let ok :=
    is_none (authorization_codes d !! id)
    && hash_ok (ac_code_hash r)
    && negb (taken (fun s => Some (ac_code_hash s)) (Some (ac_code_hash r)) (authorization_codes d))
    && is_some (provider_sessions d !! ac_session_id r)
    && negb (str_empty (ac_client_id r))
    && negb (str_empty (ac_redirect_uri r))
    && negb (str_empty (ac_resource r))
    && (ac_expires_at r <=? ac_issued_at r + seconds 60)%Z
    && cimd_check (ac_client_id r) (ac_cimd_binding r) in
  if ok then Ok (set_codes (<[id := r]> (authorization_codes d)) d) else Err DbConstraint.

Definition insert_family_row `{JsonDb} (id : Uuid) (r : family_rec) (d : DB) : result DB DbError :=
  let ok :=
    is_none (refresh_families d !! id)
    && negb (exists_row (fun _ f => rf_source_code_id f ==? rf_source_code_id r) (refresh_families d))
    && is_some (authorization_codes d !! rf_source_code_id r)
    && is_some (provider_sessions d !! rf_session_id r)
    && is_some (users d !! rf_user_id r)
    && (rf_expires_at r <=? rf_issued_at r + days 30)%Z
    && cimd_check (rf_client_id r) (rf_cimd_binding r) in
  if ok then Ok (set_families (<[id := r]> (refresh_families d)) d) else Err DbConstraint.

Definition insert_member_row (id : Uuid) (r : member_rec) (d : DB) : result DB DbError :=
  let ok :=
    is_none (refresh_token_members d !! id)
    && is_some (refresh_families d !! rt_family_id r)
    && hash_ok (rt_token_hash r)
    && negb (taken (fun s => Some (rt_token_hash s)) (Some (rt_token_hash r)) (refresh_token_members d))
    && is_none_or (rt_successor_id r) (fun s => is_some (refresh_token_members d !! s)) in
  if ok then Ok (set_members (<[id := r]> (refresh_token_members d)) d) else Err DbConstraint.

(** The constraints of [browser_authorizations] on a row at key [id], the
    other rows being those of [d] (used by INSERT and by UPDATE). *)
Definition browser_row_ok `{JsonDb} (id : Uuid) (r : browser_rec) (d : DB) : bool :=
  let others := delete id (browser_authorizations d) in
  opt_hash_ok (ba_upstream_state_hash r)
  && negb (taken ba_upstream_state_hash (ba_upstream_state_hash r) others)
  && opt_hash_ok (ba_browser_binding_hash r)
  && opt_hash_ok (ba_claim_hash r)
  && negb (taken ba_claim_hash (ba_claim_hash r) others)
  && opt_hash_ok (ba_csrf_hash r)
  && is_none_or (ba_session_id r) (fun s => is_some (provider_sessions d !! s))
  && (ba_expires_at r <=? ba_created_at r + minutes 10)%Z
  && cimd_check (ba_client_id r) (ba_cimd_binding r).

Definition insert_browser_row `{JsonDb} (id : Uuid) (r : browser_rec) (d : DB) : result DB DbError :=
  if is_none (browser_authorizations d !! id) && browser_row_ok id r d
  then Ok (set_browser (<[id := r]> (browser_authorizations d)) d) else Err DbConstraint.

(** UPDATE of the row at [id], if there is one. *)
Definition update_browser_row `{JsonDb} (id : Uuid) (f : browser_rec -> browser_rec) (d : DB)
    : result DB DbError :=
  match browser_authorizations d !! id with
  | None => Ok d
  | Some r =>
      if browser_row_ok id (f r) d
      then Ok (set_browser (<[id := f r]> (browser_authorizations d)) d) else Err DbConstraint
  end.

Definition insert_logout_row (id : Uuid) (r : logout_rec) (d : DB) : result DB DbError :=
  let ok :=
    is_none (logout_challenges d !! id)
    && hash_ok (lc_csrf_hash r)
    && is_some (provider_sessions d !! lc_session_id r)
    && (lc_expires_at r <=? lc_created_at r + minutes 10)%Z in
  if ok then Ok (set_logouts (<[id := r]> (logout_challenges d)) d) else Err DbConstraint.

Definition google_issuer_text : string := "https://accounts.google.com".

Definition insert_identity_row (issuer subject : string) (user : Uuid) (d : DB) : result DB DbError :=
  let ok :=
    (issuer ==? google_issuer_text)
    && negb (str_empty subject)
    && is_some (users d !! user)
    && is_none (external_identities d !! (issuer, subject))
    && forallb (fun kv => negb ((kv.2 ==? user) && (kv.1.1 ==? issuer)))
         (map_to_list (external_identities d)) in
  if ok then Ok (set_identities (<[(issuer, subject) := user]> (external_identities d)) d)
  else Err DbConstraint.

(** [INSERT INTO users DEFAULT VALUES]: the server draws the id. *)
Definition insert_user_row (id : Uuid) (d : DB) : result DB DbError :=
  if is_none (users d !! id) then Ok (set_users (<[id := tt]> (users d)) d) else Err DbConstraint.
