(* ===== verification/Effects.v ===== *)
(** * Effects: the code's asynchronous operations as programs over a database

    A [prog A] is a program that issues SQL statements, opens, commits and
    rolls back transactions, draws identifiers and secrets and reads clocks,
    one constructor per effect. [run] executes it in isolation against a
    [World] (the committed database and the working copies of the open
    transaction and its savepoints) with an [Oracle] that fixes what the
    environment decides: clock readings, fresh identifiers, random bytes,
    and which statements fail. *)

From Stdlib Require Import ZArith.
From S2P Require Import Prelude External Schema.

(** ** Statements *)

(** The rows a statement locks: [FOR UPDATE], UPDATE and INSERT. *)
Inductive RowId : Type :=
| RowUser (id : Uuid)
| RowProfile (id : Uuid)
| RowSession (id : Uuid)
| RowCode (id : Uuid)
| RowFamily (id : Uuid)
| RowMember (id : Uuid)
| RowBrowser (id : Uuid)
| RowLogout (id : Uuid)
| RowIdentity (issuer subject : string). (* [pg_advisory_xact_lock] *)

#[export] Instance RowId_eq_dec : EqDecision RowId.
Proof. solve_decision. Defined.

(** A statement: the rows it locks, and what it answers and leaves.
    [clock_timestamp()] is evaluated per row, so a statement is given a
    reading for each row id; a statement that evaluates it once uses the
    reading of row 0. *)
Record stmt (R : Type) := Stmt {
  locks : DB -> list RowId;
  exec : (Uuid -> Z) -> DB -> result (R * DB) DbError;
}.
Arguments Stmt {R} _ _.
Arguments locks {R} _ _.
Arguments exec {R} _ _ _.

(** A SELECT without FOR UPDATE. *)
Definition select {R} (f : (Uuid -> Z) -> DB -> R) : stmt R :=
  Stmt (fun _ => []) (fun clk d => Ok (f clk d, d)).
(** A SELECT ... FOR UPDATE. *)
Definition select_for_update {R} (lk : DB -> list RowId) (f : (Uuid -> Z) -> DB -> R) : stmt R :=
  Stmt lk (fun clk d => Ok (f clk d, d)).
(** A statement that only changes the database. *)
Definition modify (lk : DB -> list RowId) (f : (Uuid -> Z) -> DB -> result DB DbError) : stmt unit :=
  Stmt lk (fun clk d => match f clk d with Ok d' => Ok (tt, d') | Err e => Err e end).

(** [fetch_one] and [fetch_optional]: the former fails on no row. *)
Definition fetch_one {R} (s : stmt (option R)) : stmt R :=
  Stmt (locks s) (fun clk d =>
    match exec s clk d with
    | Ok (Some r, d') => Ok (r, d')
    | Ok (None, _) => Err DbRowNotFound
    | Err e => Err e
    end).

(** [SELECT clock_timestamp()]. *)
Definition clock_timestamp : stmt Z := select (fun clk _ => clk 0%N).

(** ** Programs *)

Inductive prog (A : Type) : Type :=
| Ret (a : A)
| Sql {R : Type} (s : stmt R) (k : result R DbError -> prog A)
| Begin (k : result unit DbError -> prog A)
| Commit (k : result unit DbError -> prog A)
| Rollback (k : result unit DbError -> prog A)
| EndTx (k : prog A)        (* the [Transaction] value goes out of scope *)
| NewUuid (k : Uuid -> prog A)      (* [Uuid::new_v4()] *)
| RandomBytes (k : string -> prog A) (* [OsRng.fill_bytes] on 32 bytes *)
| InstantNow (k : Z -> prog A)      (* [Instant::now()] *)
| UtcNow (k : Z -> prog A).         (* [chrono::Utc::now()] *)
Arguments Ret {A} a.
Arguments Sql {A R} s k.
Arguments Begin {A} k.
Arguments Commit {A} k.
Arguments Rollback {A} k.
Arguments EndTx {A} k.
Arguments NewUuid {A} k.
Arguments RandomBytes {A} k.
Arguments InstantNow {A} k.
Arguments UtcNow {A} k.

Fixpoint bind {A B} (p : prog A) (f : A -> prog B) : prog B :=
  match p with
  | Ret a => f a
  | Sql s k => Sql s (fun r => bind (k r) f)
  | Begin k => Begin (fun r => bind (k r) f)
  | Commit k => Commit (fun r => bind (k r) f)
  | Rollback k => Rollback (fun r => bind (k r) f)
  | EndTx k => EndTx (bind k f)
  | NewUuid k => NewUuid (fun r => bind (k r) f)
  | RandomBytes k => RandomBytes (fun r => bind (k r) f)
  | InstantNow k => InstantNow (fun r => bind (k r) f)
  | UtcNow k => UtcNow (fun r => bind (k r) f)
  end.

(** Fallible programs: [async fn ... -> Result<A, E>]. *)
Definition M (E A : Type) : Type := prog (result A E).

Definition ret {E A} (a : A) : M E A := Ret (Ok a).
Definition raise {E A} (e : E) : M E A := Ret (Err e).
Definition lift {E A} (r : result A E) : M E A := Ret r.
(** [?] after [.await]. *)
Definition bindE {E A B} (p : M E A) (f : A -> M E B) : M E B :=
  bind p (fun r => match r with Ok a => f a | Err e => Ret (Err e) end).

Notation "x <- p ;; k" := (bindE p (fun x => k))
  (at level 100, p at next level, right associativity) : eri_scope.
Notation "p ;;; k" := (bindE p (fun _ => k))
  (at level 100, right associativity) : eri_scope.

(** [#[from] sqlx::Error] of an error type. *)
Class FromDb (E : Type) := from_db : DbError -> E.
#[export] Instance from_db_self : FromDb DbError := fun e => e.

Section Operations.
Context {E : Type} `{!FromDb E}.

Definition sql {R} (s : stmt R) : M E R :=
  Sql s (fun r => Ret (map_err from_db r)).
Definition begin_tx : M E unit := Begin (fun r => Ret (map_err from_db r)).
Definition commit : M E unit := Commit (fun r => Ret (map_err from_db r)).
Definition rollback : M E unit := Rollback (fun r => Ret (map_err from_db r)).

(** [let mut tx = pool.begin().await?; body] in a function whose end drops
    [tx]: a transaction that was not committed is rolled back. *)
Definition with_tx {A} (body : M E A) : M E A :=
  bind (begin_tx ;;; body) (fun r => EndTx (Ret r)).

(** [if let Err(error) = r { tx.rollback().await?; return Err(error) }]. *)
Definition or_rollback {A} (r : result A E) : M E A :=
  match r with
  | Ok a => ret a
  | Err e => rollback ;;; raise e
  end.

Definition new_uuid : M E Uuid := NewUuid (fun u => Ret (Ok u)).
Definition random_bytes : M E string := RandomBytes (fun s => Ret (Ok s)).
(** A computation that reads [Instant::now()] once. *)
Definition at_instant {A} (f : Z -> A) : M E A := InstantNow (fun t => Ret (Ok (f t))).
Definition utc_now : M E Z := UtcNow (fun t => Ret (Ok t)).
End Operations.

(** A fallible computation on the monotonic clock, followed by [?]. *)
Definition try_instant {E A} (f : Z -> result A E) : M E A := InstantNow (fun t => Ret (f t)).

(** ** Worlds and oracles *)

(** [w_tx] is the open transaction's working copy, below those of its
    savepoints; empty when no transaction is open. *)
Record World := {
  w_db : DB;
  w_tx : list DB;
  w_tick : nat;
}.

Inductive Fault : Type :=
| NoFault
| FailBefore   (* the statement is not executed, and the client sees an error *)
| FailAfter.   (* it is executed, but the client sees an error *)

Record Oracle := {
  o_clock : nat -> Uuid -> Z;
  o_instant : nat -> Z;
  o_utc : nat -> Z;
  o_uuid : nat -> Uuid;
  o_random : nat -> string;
  o_fault : nat -> Fault;
}.

(** The database a statement sees: the innermost working copy. *)
Definition view (w : World) : DB :=
  match w_tx w with
  | [] => w_db w
  | d :: _ => d
  end.
Definition set_view (d : DB) (w : World) : World :=
  match w_tx w with
  | [] => {| w_db := d; w_tx := []; w_tick := w_tick w |}
  | _ :: tx => {| w_db := w_db w; w_tx := d :: tx; w_tick := w_tick w |}
  end.
Definition tick (w : World) : World :=
  {| w_db := w_db w; w_tx := w_tx w; w_tick := S (w_tick w) |}.
Definition push_tx (w : World) : World :=
  {| w_db := w_db w; w_tx := view w :: w_tx w; w_tick := w_tick w |}.
(** Discards the innermost working copy. *)
Definition pop_tx (w : World) : World :=
  {| w_db := w_db w; w_tx := tail (w_tx w); w_tick := w_tick w |}.
(** Publishes the innermost working copy to the level below. *)
Definition merge_tx (w : World) : World :=
  match w_tx w with
  | [] => w
  | [d] => {| w_db := d; w_tx := []; w_tick := w_tick w |}
  | d :: _ :: tx => {| w_db := w_db w; w_tx := d :: tx; w_tick := w_tick w |}
  end.
Definition drop_tx (w : World) : World :=
  {| w_db := w_db w; w_tx := []; w_tick := w_tick w |}.

Fixpoint run {A} (o : Oracle) (p : prog A) (w : World) : A * World :=
  match p with
  | Ret a => (a, w)
  | Sql s k =>
      let n := w_tick w in
      match o_fault o n with
      | FailBefore => run o (k (Err DbFault)) (tick w)
      | f =>
          match exec s (o_clock o n) (view w) with
          | Err e => run o (k (Err e)) (tick w)
          | Ok (r, d) =>
              let answer := match f with NoFault => Ok r | _ => Err DbFault end in
              run o (k answer) (tick (set_view d w))
          end
      end
  | Begin k =>
      match o_fault o (w_tick w) with
      | NoFault => run o (k (Ok tt)) (tick (push_tx w))
      | _ => run o (k (Err DbFault)) (tick w)
      end
  | Commit k =>
      match o_fault o (w_tick w) with
      | NoFault => run o (k (Ok tt)) (tick (merge_tx w))
      | FailBefore => run o (k (Err DbFault)) (tick (pop_tx w))
      | FailAfter => run o (k (Err DbFault)) (tick (merge_tx w))
      end
  | Rollback k =>
      match o_fault o (w_tick w) with
      | NoFault => run o (k (Ok tt)) (tick (pop_tx w))
      | _ => run o (k (Err DbFault)) (tick (pop_tx w))
      end
  | EndTx k => run o k (tick (drop_tx w))
  | NewUuid k => run o (k (o_uuid o (w_tick w))) (tick w)
  | RandomBytes k => run o (k (o_random o (w_tick w))) (tick w)
  | InstantNow k => run o (k (o_instant o (w_tick w))) (tick w)
  | UtcNow k => run o (k (o_utc o (w_tick w))) (tick w)
  end.

(** A world with no transaction open, as the operations start. *)
Definition idle (d : DB) (n : nat) : World := {| w_db := d; w_tx := []; w_tick := n |}.

(** ** Statement-wise properties *)

(** Every statement the program may issue, whatever is answered to the
    previous ones, satisfies [P]. *)
Fixpoint stmts_ok (P : forall R, stmt R -> Prop) {A} (p : prog A) : Prop :=
  match p with
  | Ret _ => True
  | Sql s k => P _ s /\ forall r, stmts_ok P (k r)
  | Begin k | Commit k | Rollback k => forall r, stmts_ok P (k r)
  | EndTx k => stmts_ok P k
  | NewUuid k => forall r, stmts_ok P (k r)
  | RandomBytes k => forall r, stmts_ok P (k r)
  | InstantNow k | UtcNow k => forall r, stmts_ok P (k r)
  end.

(** A statement that takes the database along [le], if it succeeds. *)
Definition stmt_steps (le : DB -> DB -> Prop) (R : Type) (s : stmt R) : Prop :=
  forall clk d r d', exec s clk d = Ok (r, d') -> le d d'.

(** Each working copy is ahead of the one below it. *)
Fixpoint chain (le : DB -> DB -> Prop) (c : DB) (tx : list DB) : Prop :=
  match tx with
  | [] => True
  | d :: tx' => le (match tx' with [] => c | d' :: _ => d' end) d /\ chain le c tx'
  end.

(** ** Program logic

    [wp p Q c tx]: from committed database [c] and working copies [tx],
    whatever the oracle decides, [p] ends with an answer, a committed
    database and working copies satisfying [Q]. [ewp] splits the answer of
    a fallible program. *)

Definition wp {A} (p : prog A) (Q : A -> DB -> list DB -> Prop) (c : DB) (tx : list DB) : Prop :=
  forall o n, let '(a, w) := run o p {| w_db := c; w_tx := tx; w_tick := n |} in
              Q a (w_db w) (w_tx w).

Definition ewp {E A} (m : M E A) (Q : A -> DB -> list DB -> Prop) (R : E -> DB -> list DB -> Prop)
    (c : DB) (tx : list DB) : Prop :=
  wp m (fun r => match r with Ok a => Q a | Err e => R e end) c tx.

(** [calm_wp o m Q c tx]: under the oracle [o], at any tick, [m] answers
    [Q]. *)
Definition calm (o : Oracle) : Prop := forall n, o_fault o n = NoFault.

Definition calm_wp (o : Oracle) {A} (p : prog A) (Q : A -> DB -> list DB -> Prop) (c : DB)
    (tx : list DB) : Prop :=
  forall n, let '(a, w) := run o p {| w_db := c; w_tx := tx; w_tick := n |} in
            Q a (w_db w) (w_tx w).

(** [keeps P p]: run in isolation from a database satisfying [P], the
    program leaves one, and no open transaction. *)
Definition keeps (P : DB -> Prop) {A} (p : prog A) : Prop :=
  forall o d n a w, run o p (idle d n) = (a, w) -> P d -> P (w_db w) /\ w_tx w = [].

Lemma run_bind {A B} o (p : prog A) (f : A -> prog B) w :
  run o (bind p f) w = let '(a, w') := run o p w in run o (f a) w'.
Proof.
  revert w. induction p as [a|R s k IH|k IH|k IH|k IH|k IH|k IH|k IH|k IH|k IH]; intros w; simpl;
    try reflexivity; try apply IH.
  - destruct (o_fault o (w_tick w)), (exec s (o_clock o (w_tick w)) (view w)) as [[r d]|e];
      simpl; apply IH.
  - destruct (o_fault o (w_tick w)); apply IH.
  - destruct (o_fault o (w_tick w)); apply IH.
  - destruct (o_fault o (w_tick w)); apply IH.
Qed.

Lemma wp_bind {A B} (p : prog A) (f : A -> prog B) Q c tx :
  wp p (fun a => wp (f a) Q) c tx -> wp (bind p f) Q c tx.
Proof.
  intros H o n. rewrite run_bind. specialize (H o n).
  destruct (run o p _) as [a [c' tx' n']]. exact (H o n').
Qed.

Lemma wp_run {A} (p : prog A) (Q : A -> DB -> list DB -> Prop) c n o r w :
  wp p Q c [] -> run o p (idle c n) = (r, w) -> Q r (w_db w) (w_tx w).
Proof. intros HQ Hr. specialize (HQ o n). unfold idle in Hr. by rewrite Hr in HQ. Qed.

Lemma wp_mono {A} (p : prog A) (Q Q' : A -> DB -> list DB -> Prop) c tx :
  wp p Q c tx -> (forall a c' tx', Q a c' tx' -> Q' a c' tx') -> wp p Q' c tx.
Proof.
  intros H HQ o n. specialize (H o n). destruct (run o p _) as [a w]. by apply HQ.
Qed.

Section Rules.
Context {E : Type} `{!FromDb E}.
Implicit Types (c d : DB) (tx : list DB).

Lemma ewp_ret {A} (a : A) (Q : A -> DB -> list DB -> Prop) (R : E -> DB -> list DB -> Prop) c tx :
  Q a c tx -> ewp (ret a) Q R c tx.
Proof. intros H o n. exact H. Qed.

Lemma ewp_raise {A} (e : E) (Q : A -> DB -> list DB -> Prop) R c tx :
  R e c tx -> ewp (raise e) Q R c tx.
Proof. intros H o n. exact H. Qed.

Lemma ewp_lift {A} (r : result A E) Q R c tx :
  (match r with Ok a => Q a c tx | Err e => R e c tx end) -> ewp (lift r) Q R c tx.
Proof. intros H o n. simpl. by destruct r. Qed.

Lemma ewp_bindE {A B} (m : M E A) (f : A -> M E B) Q R c tx :
  ewp m (fun a => ewp (f a) Q R) R c tx -> ewp (bindE m f) Q R c tx.
Proof.
  intros H. apply wp_bind. eapply wp_mono; [exact H|].
  intros [a|e] c' tx' HQ; [exact HQ|intros o n; exact HQ].
Qed.

Lemma ewp_mono {A} (m : M E A) (Q Q' : A -> DB -> list DB -> Prop) (R R' : E -> DB -> list DB -> Prop)
    c tx :
  ewp m Q R c tx ->
  (forall a c' tx', Q a c' tx' -> Q' a c' tx') ->
  (forall e c' tx', R e c' tx' -> R' e c' tx') ->
  ewp m Q' R' c tx.
Proof. intros H HQ HR. eapply wp_mono; [exact H|]. intros []; naive_solver. Qed.

(** A statement in a transaction changes the innermost working copy only;
    if it fails, that copy is whatever it is. *)
Lemma ewp_sql_tx {B} (s : stmt B) Q (R : E -> DB -> list DB -> Prop) c d tx :
  (forall clk r d', exec s clk d = Ok (r, d') -> Q r c (d' :: tx)) ->
  (forall e d', R (from_db e) c (d' :: tx)) ->
  ewp (sql s) Q R c (d :: tx).
Proof.
  intros HQ HR o n. simpl. unfold view, set_view; simpl.
  destruct (o_fault o n); simpl;
    [destruct (exec s (o_clock o n) d) as [[r d']|e] eqn:Hs; simpl; eauto|eauto|
     destruct (exec s (o_clock o n) d) as [[r d']|e] eqn:Hs; simpl; eauto].
Qed.

(** A statement outside a transaction commits by itself. *)
Lemma ewp_sql_auto {B} (s : stmt B) Q (R : E -> DB -> list DB -> Prop) c :
  (forall clk r d', exec s clk c = Ok (r, d') ->
     Q r d' [] /\ R (from_db DbFault) d' []) ->
  (forall e, R (from_db e) c []) ->
  ewp (sql s) Q R c [].
Proof.
  intros HQ HR o n. simpl. unfold view, set_view; simpl.
  destruct (o_fault o n); simpl; [|by apply HR|];
    destruct (exec s (o_clock o n) c) as [[r d']|e] eqn:Hs; simpl; try by apply HR.
  - by eapply HQ.
  - by eapply (HQ _ _ _ Hs).
Qed.

Lemma ewp_commit Q (R : E -> DB -> list DB -> Prop) c d :
  Q tt d [] -> R (from_db DbFault) c [] -> R (from_db DbFault) d [] ->
  ewp commit Q R c [d].
Proof. intros HQ H1 H2 o n. simpl. by destruct (o_fault o n). Qed.

Lemma ewp_commit_savepoint Q (R : E -> DB -> list DB -> Prop) c d d' tx :
  Q tt c (d :: tx) -> R (from_db DbFault) c (d' :: tx) -> R (from_db DbFault) c (d :: tx) ->
  ewp commit Q R c (d :: d' :: tx).
Proof. intros HQ H1 H2 o n. simpl. by destruct (o_fault o n). Qed.

Lemma ewp_begin Q (R : E -> DB -> list DB -> Prop) c tx :
  Q tt c (match tx with [] => c | d :: _ => d end :: tx) -> R (from_db DbFault) c tx ->
  ewp begin_tx Q R c tx.
Proof. intros HQ H1 o n. simpl. unfold push_tx, view; simpl. by destruct (o_fault o n). Qed.

Lemma ewp_rollback Q (R : E -> DB -> list DB -> Prop) c tx :
  Q tt c (tail tx) -> R (from_db DbFault) c (tail tx) -> ewp rollback Q R c tx.
Proof. intros HQ H1 o n. simpl. by destruct (o_fault o n). Qed.

(** A transaction starts from the committed database; when its body ends,
    no working copy is left. *)
Lemma ewp_with_tx {A} (body : M E A) Q (R : E -> DB -> list DB -> Prop) c :
  ewp body (fun a c' _ => Q a c' []) (fun e c' _ => R e c' []) c [c] ->
  R (from_db DbFault) c [] ->
  ewp (with_tx body) Q R c [].
Proof.
  intros H HR. apply wp_bind.
  eapply wp_mono.
  - eapply (ewp_bindE begin_tx (fun _ => body) (fun a c' _ => Q a c' []) (fun e c' _ => R e c' [])).
    by apply ewp_begin.
  - intros [] c' tx' Hr o n; exact Hr.
Qed.

Lemma ewp_or_rollback {A} (r : result A E) Q (R : E -> DB -> list DB -> Prop) c tx :
  (match r with
   | Ok a => Q a c tx
   | Err e => R e c (tail tx) /\ R (from_db DbFault) c (tail tx)
   end) ->
  ewp (or_rollback r) Q R c tx.
Proof.
  destruct r as [a|e]; simpl.
  - apply ewp_ret.
  - intros [H1 H2]. apply ewp_bindE, ewp_rollback; [by apply ewp_raise|done].
Qed.

Lemma ewp_new_uuid Q (R : E -> DB -> list DB -> Prop) c tx :
  (forall u, Q u c tx) -> ewp new_uuid Q R c tx.
Proof. intros H o n. simpl. apply H. Qed.

Lemma ewp_random_bytes Q (R : E -> DB -> list DB -> Prop) c tx :
  (forall s, Q s c tx) -> ewp random_bytes Q R c tx.
Proof. intros H o n. simpl. apply H. Qed.

Lemma ewp_at_instant {A} (f : Z -> A) Q (R : E -> DB -> list DB -> Prop) c tx :
  (forall t, Q (f t) c tx) -> ewp (at_instant f) Q R c tx.
Proof. intros H o n. simpl. apply H. Qed.

Lemma ewp_try_instant {A} (f : Z -> result A E) Q (R : E -> DB -> list DB -> Prop) c tx :
  (forall t, match f t with Ok a => Q a c tx | Err e => R e c tx end) ->
  ewp (try_instant f) Q R c tx.
Proof. intros H o n. simpl. specialize (H (o_instant o n)). by destruct (f _). Qed.

Lemma ewp_utc_now Q (R : E -> DB -> list DB -> Prop) c tx :
  (forall t, Q t c tx) -> ewp utc_now Q R c tx.
Proof. intros H o n. simpl. apply H. Qed.

Lemma wp_ewp {A} (m : M E A) (Q : result A E -> DB -> list DB -> Prop) c tx :
  ewp m (fun a => Q (Ok a)) (fun e => Q (Err e)) c tx -> wp m Q c tx.
Proof. intros HQ. eapply wp_mono; [exact HQ|]. by intros []. Qed.

(** From the logic back to [run]. *)
Lemma ewp_run {A} (m : M E A) (Q : A -> DB -> list DB -> Prop) (R : E -> DB -> list DB -> Prop) c n o r w :
  ewp m Q R c [] -> run o m (idle c n) = (r, w) ->
  match r with Ok a => Q a (w_db w) (w_tx w) | Err e => R e (w_db w) (w_tx w) end.
Proof. intros H Hr. specialize (H o n). unfold idle in Hr. by rewrite Hr in H; destruct r. Qed.
End Rules.

(** ** Programs all of whose statements go along a preorder *)

Section Steps.
Context (le : DB -> DB -> Prop) `{!PreOrder le}.

Lemma chain_set_view d w : chain le (w_db w) (w_tx w) -> le (view w) d ->
  chain le (w_db (set_view d w)) (w_tx (set_view d w)) /\ le (w_db w) (w_db (set_view d w)).
Proof.
  unfold view, set_view. destruct (w_tx w) as [|d1 [|d2 tx]]; simpl; intros Hc Hle.
  - done.
  - split; [|done]. split; [by etrans; [apply Hc|]|done].
  - split; [|done]. destruct Hc as [H1 H2]. split; [by etrans|done].
Qed.

Lemma chain_merge w : chain le (w_db w) (w_tx w) ->
  chain le (w_db (merge_tx w)) (w_tx (merge_tx w)) /\ le (w_db w) (w_db (merge_tx w)).
Proof.
  unfold merge_tx. destruct (w_tx w) as [|d1 [|d2 [|d3 tx]]] eqn:Htx; simpl; intros Hc.
  - rewrite Htx. done.
  - by destruct Hc.
  - destruct Hc as (H1 & H2 & _). split; [|done]. split; [by etrans|done].
  - destruct Hc as (H1 & H2 & H3). split; [|done]. split; [by etrans|done].
Qed.

Lemma chain_pop w : chain le (w_db w) (w_tx w) ->
  chain le (w_db (pop_tx w)) (w_tx (pop_tx w)).
Proof. unfold pop_tx. destruct (w_tx w) as [|d tx]; simpl; [done|by intros [_ ?]]. Qed.

Lemma chain_push w : chain le (w_db w) (w_tx w) ->
  chain le (w_db (push_tx w)) (w_tx (push_tx w)).
Proof. unfold push_tx, view. simpl. intros Hc. split; [|done]. by destruct (w_tx w). Qed.

Lemma run_steps {A} o (p : prog A) w a w' :
  stmts_ok (stmt_steps le) p -> chain le (w_db w) (w_tx w) -> run o p w = (a, w') ->
  le (w_db w) (w_db w').
Proof.
  revert w. induction p as [x|R s k IH|k IH|k IH|k IH|k IH|k IH|k IH|k IH|k IH]; simpl;
    intros w Hs Hc Hr.
  - by simplify_eq.
  - destruct Hs as [Hs Hk].
    assert (Hexec : forall r d, exec s (o_clock o (w_tick w)) (view w) = Ok (r, d) ->
              chain le (w_db (set_view d w)) (w_tx (set_view d w))
              /\ le (w_db w) (w_db (set_view d w))).
    { intros r d He. apply chain_set_view; [done|]. by eapply Hs. }
    destruct (o_fault o (w_tick w)); [|by eapply (IH _ (tick w)); eauto|];
      destruct (exec s _ (view w)) as [[r d]|e] eqn:He;
      try (by eapply (IH _ (tick w)); eauto);
      destruct (Hexec _ _ eq_refl) as [Hc' Hle];
      (etrans; [exact Hle|]); by eapply (IH _ (tick (set_view d w))); eauto.
  - destruct (o_fault o (w_tick w)); [|by eapply (IH _ (tick w)); eauto..].
    eapply (IH _ (tick (push_tx w))); eauto. by apply chain_push.
  - pose proof (chain_merge _ Hc) as [Hm Hle]. pose proof (chain_pop _ Hc) as Hp.
    destruct (o_fault o (w_tick w)).
    + etrans; [exact Hle|]. by eapply (IH _ (tick (merge_tx w))); eauto.
    + by eapply (IH _ (tick (pop_tx w))); eauto.
    + etrans; [exact Hle|]. by eapply (IH _ (tick (merge_tx w))); eauto.
  - pose proof (chain_pop _ Hc) as Hp.
    destruct (o_fault o (w_tick w)); by eapply (IH _ (tick (pop_tx w))); eauto.
  - by eapply (IH (tick (drop_tx w))); eauto.
  - by eapply (IH _ (tick w)); eauto.
  - by eapply (IH _ (tick w)); eauto.
  - by eapply (IH _ (tick w)); eauto.
  - by eapply (IH _ (tick w)); eauto.
Qed.
End Steps.

Lemma stmts_ok_bind (P : forall R, stmt R -> Prop) {A B} (p : prog A) (f : A -> prog B) :
  stmts_ok P p -> (forall a, stmts_ok P (f a)) -> stmts_ok P (bind p f).
Proof. intros Hp Hf. induction p; simpl in *; try destruct_and!; eauto. Qed.

Lemma stmts_ok_bindE (P : forall R, stmt R -> Prop) {E A B} (p : M E A) (f : A -> M E B) :
  stmts_ok P p -> (forall a, stmts_ok P (f a)) -> stmts_ok P (bindE p f).
Proof. intros Hp Hf. apply stmts_ok_bind; [done|]. by intros []. Qed.

Lemma stmts_ok_sql (P : forall R, stmt R -> Prop) {E} `{!FromDb E} {R} (s : stmt R) :
  P _ s -> stmts_ok P (sql (E:=E) s).
Proof. by split. Qed.

Lemma stmts_ok_with_tx (P : forall R, stmt R -> Prop) {E} `{!FromDb E} {A} (m : M E A) :
  stmts_ok P m -> stmts_ok P (with_tx m).
Proof. intros H. apply stmts_ok_bind; [by apply stmts_ok_bindE|done]. Qed.

Lemma stmts_ok_or_rollback (P : forall R, stmt R -> Prop) {E} `{!FromDb E} {A} (r : result A E) :
  stmts_ok P (or_rollback r).
Proof. destruct r; [exact I|]. by apply stmts_ok_bindE; [intros []|]. Qed.

Lemma stmt_steps_select le `{!Reflexive le} {R} (f : (Uuid -> Z) -> DB -> R) :
  stmt_steps le R (select f).
Proof. intros clk d r d' H. simpl in H. by simplify_eq. Qed.

Lemma stmt_steps_for_update le `{!Reflexive le} {R} lk (f : (Uuid -> Z) -> DB -> R) :
  stmt_steps le R (select_for_update lk f).
Proof. intros clk d r d' H. simpl in H. by simplify_eq. Qed.

Lemma stmt_steps_fetch_one le {R} (s : stmt (option R)) :
  stmt_steps le _ s -> stmt_steps le R (fetch_one s).
Proof.
  intros Hs clk d r d' H. simpl in H.
  destruct (exec s clk d) as [[[r'|] d1]|] eqn:He; simplify_eq. by eapply Hs.
Qed.

Lemma stmt_steps_modify le lk f :
  (forall clk d d', f clk d = Ok d' -> le d d') -> stmt_steps le unit (modify lk f).
Proof.
  intros Hf clk d r d' H. simpl in H. destruct (f clk d) eqn:He; simplify_eq. by eapply Hf.
Qed.

Create HintDb stmts.
#[export] Hint Resolve stmt_steps_select stmt_steps_for_update stmt_steps_fetch_one : stmts.

(** Goes through a program, leaving its statements to the hints of [stmts]. *)
Ltac solve_stmts :=
  repeat first
    [ progress intros
    | done
    | solve [auto 2 with stmts nocore]
    | apply stmts_ok_bindE
    | apply stmts_ok_with_tx
    | apply stmts_ok_or_rollback
    | apply stmts_ok_sql; solve [eauto with stmts typeclass_instances]
    | case_match ].

(** ** Symbolic execution

    [ewp_step] applies the rule of the program's head. For a statement it
    leaves the successful case (the answer and the new working copy with the
    equation [Hexec]) and the failing case. *)
Ltac ewp_step :=
  lazymatch goal with
  | |- ewp (bindE _ _) _ _ _ _ => apply ewp_bindE
  | |- ewp (ret _) _ _ _ _ => apply ewp_ret
  | |- ewp (raise _) _ _ _ _ => apply ewp_raise
  | |- ewp (lift _) _ _ _ _ => apply ewp_lift
  | |- ewp (with_tx _) _ _ _ _ => apply ewp_with_tx
  | |- ewp (sql _) _ _ _ (_ :: _) =>
      apply ewp_sql_tx;
      [let clk := fresh "clk" in let r := fresh "r" in let d := fresh "d" in
       intros clk r d Hexec; simpl in Hexec
      |intros ? ?]
  | |- ewp (sql _) _ _ _ [] =>
      apply ewp_sql_auto;
      [let clk := fresh "clk" in let r := fresh "r" in let d := fresh "d" in
       intros clk r d Hexec; simpl in Hexec
      |intros ?]
  | |- ewp commit _ _ _ [_] => apply ewp_commit
  | |- ewp commit _ _ _ (_ :: _ :: _) => apply ewp_commit_savepoint
  | |- ewp begin_tx _ _ _ _ => apply ewp_begin
  | |- ewp rollback _ _ _ _ => apply ewp_rollback
  | |- ewp (or_rollback _) _ _ _ _ => apply ewp_or_rollback
  | |- ewp new_uuid _ _ _ _ => apply ewp_new_uuid; intros ?
  | |- ewp random_bytes _ _ _ _ => apply ewp_random_bytes; intros ?
  | |- ewp (at_instant _) _ _ _ _ => apply ewp_at_instant; intros ?
  | |- ewp (try_instant _) _ _ _ _ => apply ewp_try_instant; intros ?
  | |- ewp utc_now _ _ _ _ => apply ewp_utc_now; intros ?
  end; cbv beta.

(** Substitutes the answer and the working copy of a statement. *)
Ltac answered H := simpl in H; injection H as <- <-; simpl.

(** ** Programs that keep an invariant *)

(** A read outside a transaction, then the rest. *)
Lemma keeps_read {E} `{!FromDb E} {A B} P (s : stmt B) (k : B -> M E A) :
  (forall clk d r d', exec s clk d = Ok (r, d') -> d' = d) ->
  (forall b, keeps P (k b)) -> keeps P (b <- sql s ;; k b).
Proof.
  intros Hs Hk o d n r w Hr Hp. unfold bindE in Hr. rewrite run_bind in Hr. simpl in Hr.
  unfold view, set_view in Hr; simpl in Hr.
  destruct (o_fault o n); [|by simpl in Hr; simplify_eq|];
    (destruct (exec s _ d) as [[b d']|e] eqn:He; simpl in Hr; [|by simplify_eq]);
    apply Hs in He as ->; [by eapply (Hk b o d (S n))|by simplify_eq].
Qed.

Lemma keeps_raise {E A} P (e : E) : keeps P (raise (A:=A) e).
Proof. intros o d n r w Hr Hp. simpl in Hr. by simplify_eq. Qed.
Lemma keeps_ret {E A} P (a : A) : keeps P (ret (E:=E) a).
Proof. intros o d n r w Hr Hp. simpl in Hr. by simplify_eq. Qed.
Lemma keeps_try_instant {E A B} P (f : Z -> result B E) (k : B -> M E A) :
  (forall b, keeps P (k b)) -> keeps P (b <- try_instant f ;; k b).
Proof.
  intros Hk o d n r w Hr Hp. unfold bindE in Hr. simpl in Hr.
  destruct (f _) as [b|e]; [|by simpl in Hr; simplify_eq]. by eapply (Hk b o d (S n)).
Qed.

(** ** Progress when nothing fails

    With an oracle that injects no failure the rules have no failing
    case, so they prove that an operation succeeds. *)

Section Calm.
Context (o : Oracle) (Hcalm : calm o) {E : Type} `{!FromDb E}.
Implicit Types (c d : DB) (tx : list DB).

Lemma calm_ret {A} (a : A) Q c tx : Q (Ok a) c tx -> calm_wp o (ret (E:=E) a) Q c tx.
Proof. by intros HQ n. Qed.
Lemma calm_raise {A} (e : E) Q c tx : Q (Err e) c tx -> calm_wp o (raise (A:=A) e) Q c tx.
Proof. by intros HQ n. Qed.
Lemma calm_lift {A} (r : result A E) Q c tx : Q r c tx -> calm_wp o (lift r) Q c tx.
Proof. by intros HQ n. Qed.

Lemma calm_bindE {A B} (m : M E A) (f : A -> M E B) Q c tx :
  calm_wp o m (fun r c' tx' =>
    match r with Ok a => calm_wp o (f a) Q c' tx' | Err e => Q (Err e) c' tx' end) c tx ->
  calm_wp o (bindE m f) Q c tx.
Proof.
  intros HQ n. unfold bindE. rewrite run_bind. specialize (HQ n).
  destruct (run o m _) as [[a|e] [c' tx' n']]; [exact (HQ n')|exact HQ].
Qed.

Lemma calm_sql_tx {B} (s : stmt B) Q c d tx :
  (forall n, match exec s (o_clock o n) d with
             | Ok (r, d') => Q (Ok r) c (d' :: tx)
             | Err e => Q (Err (from_db e)) c (d :: tx)
             end) ->
  calm_wp o (sql (E:=E) s) Q c (d :: tx).
Proof.
  intros HQ n. specialize (HQ n). unfold calm_wp, view, set_view; simpl. rewrite Hcalm.
  unfold view; simpl. by destruct (exec s (o_clock o n) d) as [[r d']|e].
Qed.

Lemma calm_sql_auto {B} (s : stmt B) Q c :
  (forall n, match exec s (o_clock o n) c with
             | Ok (r, d') => Q (Ok r) d' []
             | Err e => Q (Err (from_db e)) c []
             end) ->
  calm_wp o (sql (E:=E) s) Q c [].
Proof.
  intros HQ n. specialize (HQ n). unfold calm_wp, view, set_view; simpl. rewrite Hcalm.
  unfold view; simpl. by destruct (exec s (o_clock o n) c) as [[r d']|e].
Qed.

Lemma calm_commit Q c d : Q (Ok tt) d [] -> calm_wp o (commit (E:=E)) Q c [d].
Proof. intros HQ n. simpl. by rewrite Hcalm. Qed.
Lemma calm_commit_savepoint Q c d d' tx : Q (Ok tt) c (d :: tx) -> calm_wp o (commit (E:=E)) Q c (d :: d' :: tx).
Proof. intros HQ n. simpl. by rewrite Hcalm. Qed.
Lemma calm_begin Q c tx :
  Q (Ok tt) c (match tx with [] => c | d :: _ => d end :: tx) -> calm_wp o (begin_tx (E:=E)) Q c tx.
Proof. intros HQ n. simpl. by rewrite Hcalm. Qed.
Lemma calm_rollback Q c tx : Q (Ok tt) c (tail tx) -> calm_wp o (rollback (E:=E)) Q c tx.
Proof. intros HQ n. simpl. by rewrite Hcalm. Qed.

Lemma calm_with_tx {A} (body : M E A) Q c :
  calm_wp o body (fun r c' _ => Q r c' []) c [c] -> calm_wp o (with_tx body) Q c [].
Proof.
  intros HQ n. unfold with_tx. rewrite run_bind. unfold bindE. rewrite run_bind. simpl.
  rewrite Hcalm. simpl. specialize (HQ (S n)). unfold push_tx, tick, view; simpl.
  by destruct (run o body _) as [r w].
Qed.

Lemma calm_new_uuid Q c tx : (forall n, Q (Ok (o_uuid o n)) c tx) -> calm_wp o (new_uuid (E:=E)) Q c tx.
Proof. intros HQ n. apply HQ. Qed.
Lemma calm_random_bytes Q c tx :
  (forall n, Q (Ok (o_random o n)) c tx) -> calm_wp o (random_bytes (E:=E)) Q c tx.
Proof. intros HQ n. apply HQ. Qed.
Lemma calm_at_instant {A} (f : Z -> A) Q c tx :
  (forall n, Q (Ok (f (o_instant o n))) c tx) -> calm_wp o (at_instant (E:=E) f) Q c tx.
Proof. intros HQ n. apply HQ. Qed.
Lemma calm_try_instant {A} (f : Z -> result A E) Q c tx :
  (forall n, Q (f (o_instant o n)) c tx) -> calm_wp o (try_instant f) Q c tx.
Proof. intros HQ n. apply HQ. Qed.
Lemma calm_utc_now Q c tx : (forall n, Q (Ok (o_utc o n)) c tx) -> calm_wp o (utc_now (E:=E)) Q c tx.
Proof. intros HQ n. apply HQ. Qed.

Lemma calm_mono {A} (p : prog A) (Q Q' : A -> DB -> list DB -> Prop) c tx :
  calm_wp o p Q c tx -> (forall a c' tx', Q a c' tx' -> Q' a c' tx') -> calm_wp o p Q' c tx.
Proof. intros HQ Hm n. specialize (HQ n). destruct (run o p _) as [a w]. by apply Hm. Qed.
End Calm.

(** [calm_step Hcalm] applies the rule of the program's head. *)
Ltac calm_step Hcalm :=
  lazymatch goal with
  | |- calm_wp _ (bindE _ _) _ _ _ => apply calm_bindE
  | |- calm_wp _ (ret _) _ _ _ => apply calm_ret
  | |- calm_wp _ (raise _) _ _ _ => apply calm_raise
  | |- calm_wp _ (lift _) _ _ _ => apply calm_lift
  | |- calm_wp _ (with_tx _) _ _ _ => apply (calm_with_tx _ Hcalm)
  | |- calm_wp _ (sql _) _ _ (_ :: _) => apply (calm_sql_tx _ Hcalm); intros ?
  | |- calm_wp _ (sql _) _ _ [] => apply (calm_sql_auto _ Hcalm); intros ?
  | |- calm_wp _ commit _ _ [_] => apply (calm_commit _ Hcalm)
  | |- calm_wp _ commit _ _ (_ :: _ :: _) => apply (calm_commit_savepoint _ Hcalm)
  | |- calm_wp _ begin_tx _ _ _ => apply (calm_begin _ Hcalm)
  | |- calm_wp _ rollback _ _ _ => apply (calm_rollback _ Hcalm)
  | |- calm_wp _ new_uuid _ _ _ => apply calm_new_uuid; intros ?
  | |- calm_wp _ random_bytes _ _ _ => apply calm_random_bytes; intros ?
  | |- calm_wp _ (at_instant _) _ _ _ => apply calm_at_instant; intros ?
  | |- calm_wp _ (try_instant _) _ _ _ => apply calm_try_instant; intros ?
  | |- calm_wp _ utc_now _ _ _ => apply calm_utc_now; intros ?
  end; simpl.
