(* ===== verification/Evolution.v ===== *)
(** * Evolution: how the stored state may change

    [evolves d d'] is the order every operation of the stores moves along:
    no row is deleted, the columns that bind a grant never change, a
    revocation keeps its first time and a consumed credential stays
    consumed. The lemmas say which row operations respect it; the hints
    let [solve_stmts] check a whole program. *)

From Stdlib Require Import ZArith.
From S2P Require Import Prelude External Schema Effects.

Definition session_le (s s' : session_rec) : Prop :=
  ps_token_hash s' = ps_token_hash s /\ ps_user_id s' = ps_user_id s
  /\ ps_auth_time s' = ps_auth_time s /\ ps_expires_at s' = ps_expires_at s
  /\ ps_upstream_auth_time s' = ps_upstream_auth_time s
  /\ (forall t, ps_revoked_at s = Some t -> ps_revoked_at s' = Some t).

Definition code_le (c c' : code_rec) : Prop :=
  ac_code_hash c' = ac_code_hash c /\ ac_session_id c' = ac_session_id c
  /\ ac_client_id c' = ac_client_id c /\ ac_redirect_uri c' = ac_redirect_uri c
  /\ ac_scopes c' = ac_scopes c /\ ac_resource c' = ac_resource c
  /\ ac_code_challenge c' = ac_code_challenge c
  /\ ac_issue_refresh_token c' = ac_issue_refresh_token c
  /\ ac_issued_at c' = ac_issued_at c /\ ac_expires_at c' = ac_expires_at c
  /\ ac_oidc_nonce c' = ac_oidc_nonce c /\ ac_upstream_auth_time c' = ac_upstream_auth_time c
  /\ ac_cimd_binding c' = ac_cimd_binding c
  /\ (is_Some (ac_consumed_at c) -> is_Some (ac_consumed_at c')).

Definition family_le (f f' : family_rec) : Prop :=
  rf_source_code_id f' = rf_source_code_id f /\ rf_session_id f' = rf_session_id f
  /\ rf_user_id f' = rf_user_id f /\ rf_client_id f' = rf_client_id f
  /\ rf_scopes f' = rf_scopes f /\ rf_resource f' = rf_resource f
  /\ rf_issued_at f' = rf_issued_at f /\ rf_expires_at f' = rf_expires_at f
  /\ rf_upstream_auth_time f' = rf_upstream_auth_time f
  /\ rf_cimd_binding f' = rf_cimd_binding f
  /\ (forall t, rf_revoked_at f = Some t -> rf_revoked_at f' = Some t).

Definition member_le (m m' : member_rec) : Prop :=
  rt_family_id m' = rt_family_id m /\ rt_token_hash m' = rt_token_hash m
  /\ rt_issued_at m' = rt_issued_at m
  /\ (is_Some (rt_consumed_at m) -> is_Some (rt_consumed_at m')).

Definition browser_le (b b' : browser_rec) : Prop :=
  ba_upstream_state_hash b' = ba_upstream_state_hash b
  /\ ba_browser_binding_hash b' = ba_browser_binding_hash b
  /\ ba_client_id b' = ba_client_id b /\ ba_redirect_uri b' = ba_redirect_uri b
  /\ ba_scopes b' = ba_scopes b /\ ba_resource b' = ba_resource b
  /\ ba_code_challenge b' = ba_code_challenge b
  /\ ba_downstream_state b' = ba_downstream_state b /\ ba_oidc_nonce b' = ba_oidc_nonce b
  /\ ba_created_at b' = ba_created_at b /\ ba_expires_at b' = ba_expires_at b
  /\ ba_cimd_binding b' = ba_cimd_binding b
  /\ ba_allow_pre_authorization b' = ba_allow_pre_authorization b.

Definition logout_le (l l' : logout_rec) : Prop :=
  lc_csrf_hash l' = lc_csrf_hash l /\ lc_session_id l' = lc_session_id l
  /\ lc_client_id l' = lc_client_id l
  /\ lc_post_logout_redirect_uri l' = lc_post_logout_redirect_uri l
  /\ lc_downstream_state l' = lc_downstream_state l
  /\ lc_created_at l' = lc_created_at l /\ lc_expires_at l' = lc_expires_at l
  /\ (is_Some (lc_consumed_at l) -> is_Some (lc_consumed_at l')).

(** A user's profile may be replaced. *)
Definition profile_le (p p' : profile_rec) : Prop := True.

Record evolves (d d' : DB) : Prop := {
  ev_users : table_le eq (users d) (users d');
  ev_identities : table_le eq (external_identities d) (external_identities d');
  ev_profiles : table_le profile_le (user_profiles d) (user_profiles d');
  ev_sessions : table_le session_le (provider_sessions d) (provider_sessions d');
  ev_codes : table_le code_le (authorization_codes d) (authorization_codes d');
  ev_families : table_le family_le (refresh_families d) (refresh_families d');
  ev_members : table_le member_le (refresh_token_members d) (refresh_token_members d');
  ev_browser : table_le browser_le (browser_authorizations d) (browser_authorizations d');
  ev_logouts : table_le logout_le (logout_challenges d) (logout_challenges d');
}.

(** ** Orders *)

Ltac row_preorder le :=
  split; [intros x; unfold le; repeat split; auto
         |intros x y z; unfold le; intros; destruct_and?; repeat split; auto; congruence].

#[export] Instance session_le_preorder : PreOrder session_le.
Proof. row_preorder session_le. Qed.
#[export] Instance code_le_preorder : PreOrder code_le.
Proof. row_preorder code_le. Qed.
#[export] Instance family_le_preorder : PreOrder family_le.
Proof. row_preorder family_le. Qed.
#[export] Instance member_le_preorder : PreOrder member_le.
Proof. row_preorder member_le. Qed.
#[export] Instance browser_le_preorder : PreOrder browser_le.
Proof. row_preorder browser_le. Qed.
#[export] Instance logout_le_preorder : PreOrder logout_le.
Proof. row_preorder logout_le. Qed.
#[export] Instance profile_le_preorder : PreOrder profile_le.
Proof. by split. Qed.

#[export] Instance evolves_preorder : PreOrder evolves.
Proof.
  split.
  - intros d. split; reflexivity.
  - intros d1 d2 d3 [] []. split; by etrans.
Qed.

(** ** Row operations *)

Section Rows.
Context `{JsonDb}.
Implicit Types d : DB.

Lemma evolves_set_users d m : table_le eq (users d) m -> evolves d (set_users m d).
Proof. intros Hm. split; simpl; done. Qed.
Lemma evolves_set_identities d m :
  table_le eq (external_identities d) m -> evolves d (set_identities m d).
Proof. intros Hm. split; simpl; done. Qed.
Lemma evolves_set_profiles d m :
  table_le profile_le (user_profiles d) m -> evolves d (set_profiles m d).
Proof. intros Hm. split; simpl; done. Qed.
Lemma evolves_set_sessions d m :
  table_le session_le (provider_sessions d) m -> evolves d (set_sessions m d).
Proof. intros Hm. split; simpl; done. Qed.
Lemma evolves_set_codes d m :
  table_le code_le (authorization_codes d) m -> evolves d (set_codes m d).
Proof. intros Hm. split; simpl; done. Qed.
Lemma evolves_set_families d m :
  table_le family_le (refresh_families d) m -> evolves d (set_families m d).
Proof. intros Hm. split; simpl; done. Qed.
Lemma evolves_set_members d m :
  table_le member_le (refresh_token_members d) m -> evolves d (set_members m d).
Proof. intros Hm. split; simpl; done. Qed.
Lemma evolves_set_browser d m :
  table_le browser_le (browser_authorizations d) m -> evolves d (set_browser m d).
Proof. intros Hm. split; simpl; done. Qed.
Lemma evolves_set_logouts d m :
  table_le logout_le (logout_challenges d) m -> evolves d (set_logouts m d).
Proof. intros Hm. split; simpl; done. Qed.
End Rows.

Create HintDb evolves.
#[export] Hint Resolve evolves_set_users evolves_set_identities evolves_set_profiles
  evolves_set_sessions evolves_set_codes evolves_set_families evolves_set_members
  evolves_set_browser evolves_set_logouts : evolves.

(** An INSERT adds a row at a key that was free. *)
Ltac solve_insert :=
  match goal with
  | H : (if ?b then _ else _) = Ok _ |- _ => destruct b eqn:?; simplify_eq; bools_all
  end; eauto using table_le_insert with evolves typeclass_instances.

Section Inserts.
Context `{JsonDb}.
Implicit Types d : DB.

Lemma insert_session_evolves id r d d' : insert_session_row id r d = Ok d' -> evolves d d'.
Proof. unfold insert_session_row. intros. solve_insert. Qed.
Lemma insert_code_evolves id r d d' : insert_code_row id r d = Ok d' -> evolves d d'.
Proof. unfold insert_code_row. intros. solve_insert. Qed.
Lemma insert_family_evolves id r d d' : insert_family_row id r d = Ok d' -> evolves d d'.
Proof. unfold insert_family_row. intros. solve_insert. Qed.
Lemma insert_member_evolves id r d d' : insert_member_row id r d = Ok d' -> evolves d d'.
Proof. unfold insert_member_row. intros. solve_insert. Qed.
Lemma insert_browser_evolves id r d d' : insert_browser_row id r d = Ok d' -> evolves d d'.
Proof. unfold insert_browser_row. intros. solve_insert. Qed.
Lemma insert_logout_evolves id r d d' : insert_logout_row id r d = Ok d' -> evolves d d'.
Proof. unfold insert_logout_row. intros. solve_insert. Qed.
Lemma insert_identity_evolves i s u d d' : insert_identity_row i s u d = Ok d' -> evolves d d'.
Proof. unfold insert_identity_row. intros. solve_insert. Qed.
Lemma insert_user_evolves id d d' : insert_user_row id d = Ok d' -> evolves d d'.
Proof. unfold insert_user_row. intros. solve_insert. Qed.

Lemma update_browser_evolves id f d d' :
  (forall b, browser_le b (f b)) -> update_browser_row id f d = Ok d' -> evolves d d'.
Proof.
  unfold update_browser_row. intros Hf H0.
  destruct (browser_authorizations d !! id) as [b|] eqn:Hb; [|by simplify_eq].
  case_match; simplify_eq. eauto using table_le_replace with evolves typeclass_instances.
Qed.
End Inserts.

#[export] Hint Resolve insert_session_evolves insert_code_evolves insert_family_evolves
  insert_member_evolves insert_browser_evolves insert_logout_evolves insert_identity_evolves
  insert_user_evolves : evolves.

(** A program all of whose statements evolve the database evolves it. *)
Lemma run_evolves {A} o (p : prog A) d n a w :
  stmts_ok (stmt_steps evolves) p -> run o p (idle d n) = (a, w) -> evolves d (w_db w).
Proof. intros Hp Hr. by apply (run_steps evolves o p (idle d n) a w Hp). Qed.
