(* ===== verification/Cimd.v ===== *)
(** * Cimd: src/src/cimd.rs, OAuth Client ID Metadata Documents

    The validated document and its security binding, the lease of a
    snapshot, the checks on client identifiers, redirect URIs, destination
    addresses, documents and cache headers, and the fetcher's bounded cache
    as a state machine. DNS, TLS and the HTTP exchange are arguments. *)

From Stdlib Require Import Ascii ZArith.
From stdpp Require Import sorting.
From S2P Require Import Prelude External.

Set Warnings "-register-all".

Definition MAX_DOCUMENT_BYTES : Z := 5 * 1024.
Definition MAX_CACHE_ENTRIES : nat := 128.
Definition MAX_CLIENT_ID_BYTES : Z := 2048.
Definition MAX_REDIRECTS : nat := 16.
Definition MAX_CACHE_TTL : Z := 300.
Definition NON_CACHEABLE_LEASE : Z := 5.

Inductive CimdError : Type :=
| InvalidUrl
| UnsafeDestination
| FetchFailed
| InvalidDocument
| Busy.

#[export] Instance CimdError_eq_dec : EqDecision CimdError.
Proof. solve_decision. Defined.

Record ClientMetadataDocument := {
  cm_client_id : string;
  cm_client_name : string;
  cm_redirect_uris : list string;
  cm_refresh_allowed : bool;
}.

Inductive CimdRedirectKind : Type := CimdExact | CimdNativeLoopback.

#[export] Instance CimdRedirectKind_eq_dec : EqDecision CimdRedirectKind.
Proof. solve_decision. Defined.

Record CimdBoundRedirect := {
  br_uri : string;
  br_kind : CimdRedirectKind;
}.

#[export] Instance CimdBoundRedirect_eq_dec : EqDecision CimdBoundRedirect.
Proof. solve_decision. Defined.

Record CimdSecurityBinding := {
  cb_version : Z;
  cb_client_id : string;
  cb_redirects : list CimdBoundRedirect;
  cb_refresh_allowed : bool;
}.

#[export] Instance CimdSecurityBinding_eq_dec : EqDecision CimdSecurityBinding.
Proof. solve_decision. Defined.

(** [sort_by(|a, b| a.uri.as_bytes().cmp(b.uri.as_bytes()))], a stable sort. *)
Fixpoint insert_redirect (x : CimdBoundRedirect) (l : list CimdBoundRedirect) :=
  match l with
  | [] => [x]
  | y :: l' =>
      match String.compare (br_uri x) (br_uri y) with
      | Lt | Eq => x :: l
      | Gt => y :: insert_redirect x l'
      end
  end.
Definition sort_redirects (l : list CimdBoundRedirect) : list CimdBoundRedirect :=
  foldr insert_redirect [] l.

Definition security_binding (doc : ClientMetadataDocument) (server_allows_refresh : bool)
    : CimdSecurityBinding :=
  let redirects :=
    map (fun uri =>
      {| br_uri := uri;
         br_kind := if starts_with "http://" uri then CimdNativeLoopback else CimdExact |})
      (cm_redirect_uris doc) in
  {| cb_version := 1;
     cb_client_id := cm_client_id doc;
     cb_redirects := sort_redirects redirects;
     cb_refresh_allowed := cm_refresh_allowed doc && server_allows_refresh |}.

(** Immutable operation snapshot; [valid_until] is an [Instant]. *)
Record LeasedClientMetadata := {
  lm_document : ClientMetadataDocument;
  lm_valid_until : Z;
}.

(** [Instant::now() < self.valid_until]. *)
Definition is_fresh (now : Z) (l : LeasedClientMetadata) : bool := (now <? lm_valid_until l)%Z.

(** ** Names and addresses *)

Definition reserved_tld (last : string) : bool :=
  bset_contains ["localhost"; "local"; "internal"; "test"; "invalid"; "example"; "onion";
                 "arpa"; "home"; "lan"] last.

(** [s.parse::<Ipv4Addr>()] succeeds: four decimal parts below 256, without
    leading zeros. (A text that parses as an IPv6 address has a colon, which
    the last test of [public_dns_name] refuses, so that parse is not
    needed.) *)
Definition ipv4_part (s : string) : bool :=
  (1 <=? len s)%Z && (len s <=? 3)%Z && bytes_all is_ascii_digit s
  && ((len s =? 1)%Z || negb (starts_with "0" s))
  && is_some (parse_digits 255 0 s).
Definition is_ipv4_literal (s : string) : bool :=
  match split_char "." s with
  | [a; b; c; d] => ipv4_part a && ipv4_part b && ipv4_part c && ipv4_part d
  | _ => false
  end.

(** [host.trim_end_matches('.')]. *)
Fixpoint drop_dots (s : string) : string :=
  match s with
  | String "." s' => drop_dots s'
  | _ => s
  end.
Definition trim_end_dots (s : string) : string := str_rev (drop_dots (str_rev s)).

Definition dns_label (label : string) : bool :=
  negb (str_empty label)
  && (len label <=? 63)%Z
  && negb (starts_with "-" label)
  && negb (ends_with "-" label)
  && bytes_all (fun b => is_ascii_alphanumeric b || (b ==? "-"%char)) label.

Definition public_dns_name (host : string) : bool :=
  let host := trim_end_dots host in
  if str_empty host || (253 <? len host)%Z || negb (str_contains "." host) || is_ipv4_literal host
  then false
  else
    let last := List.last (split_char "." host) EmptyString in
    if reserved_tld last then false
    else forallb dns_label (split_char "." host).

Inductive IpAddr : Type :=
| V4 (a b c d : Z)
| V6 (s0 s1 s2 s3 s4 s5 s6 s7 : Z).

Definition z_in (lo hi x : Z) : bool := ((lo <=? x) && (x <=? hi))%Z.

Definition public_v4 (a b c : Z) : bool :=
  if ((a =? 0) || (a =? 10) || (a =? 127))%Z || z_in 224 255 a then false
  else if (a =? 100)%Z then negb (z_in 64 127 b)
  else if (a =? 169)%Z then negb (b =? 254)%Z
  else if (a =? 172)%Z then negb (z_in 16 31 b)
  else if (a =? 192)%Z then
    negb (b =? 0)%Z && negb (b =? 168)%Z
    && negb ((b =? 2) || ((b =? 31) && (c =? 196)) || ((b =? 52) && (c =? 193))
             || ((b =? 88) && (c =? 99)) || ((b =? 175) && (c =? 48)))%Z
  else if (a =? 198)%Z then
    negb (b =? 18)%Z && negb (b =? 19)%Z && (negb (b =? 51)%Z || negb (c =? 100)%Z)
  else if (a =? 203)%Z then negb (b =? 0)%Z || negb (c =? 113)%Z
  else true.

Definition public_ip (ip : IpAddr) : bool :=
  match ip with
  | V4 a b c _ => public_v4 a b c
  | V6 s0 s1 s2 s3 s4 s5 _ _ =>
      if ((s0 =? 0) && (s1 =? 0) && (s2 =? 0) && (s3 =? 0) && (s4 =? 0) && (s5 =? 65535))%Z
      then false (* [to_ipv4_mapped] *)
      else
        (Z.land s0 57344 =? 8192)%Z
        && negb ((s0 =? 8193) && ((s1 <=? 511) || (s1 =? 3512)))%Z
        && negb (s0 =? 8194)%Z
        && negb (s0 =? 16383)%Z
        && negb ((s0 =? 9760) && (s1 =? 79) && (s2 =? 32768))%Z
  end.

(** ** Client identifiers and redirect URIs *)

Section WithUrl.
Context `{UrlLib}.

Definition validate_client_id (raw : string) : result (Url * string * Z) CimdError :=
  if str_empty raw || (MAX_CLIENT_ID_BYTES <? len raw)%Z || negb (starts_with "https://" raw)
     || str_contains "\" raw || existsb is_control (chars raw)
  then Err InvalidUrl
  else
    try! after_scheme <- ok_or (strip_prefix "https://" raw) InvalidUrl;
    let from_path := snd (split_find (fun a => a ==? "/"%char) after_scheme) in
    if str_empty from_path then Err InvalidUrl
    else
      let path := fst (split_find (fun a => (a ==? "?"%char) || (a ==? "#"%char)) from_path) in
      if existsb (fun segment => (segment ==? ".") || (segment ==? "..")) (split_char "/" path)
      then Err InvalidUrl
      else
        try! url <- ok_or (url_parse raw) InvalidUrl;
        if (url_as_str url <>? raw) || (url_scheme url <>? "https")
           || negb (str_empty (url_username url)) || is_some (url_password url)
           || is_some (url_fragment url) || is_some (url_query url)
        then Err InvalidUrl
        else
          match url_host url with
          | None => Err InvalidUrl
          | Some (Domain host) =>
              if negb (public_dns_name host) then Err UnsafeDestination
              else
                try! port <- ok_or (url_port_or_known_default url) InvalidUrl;
                Ok (url, host, port)
          | Some _ => Err UnsafeDestination
          end.

Definition safe_redirect (raw : string) : bool :=
  if str_empty raw || (2048 <? len raw)%Z then false
  else
    match url_parse raw with
    | None => false
    | Some url =>
        if (url_as_str url <>? raw) || negb (str_empty (url_username url))
           || is_some (url_password url) || is_some (url_fragment url)
        then false
        else
          match url_host url with
          | Some (Domain host) => (url_scheme url ==? "https") && public_dns_name host
          | Some (Ipv4 a b c d) =>
              (url_scheme url ==? "http")
              && ((a =? 127) && (b =? 0) && (c =? 0) && (d =? 1))%Z && is_some (url_port url)
          | Some (Ipv6 segments) =>
              (url_scheme url ==? "http") && (segments ==? ipv6_localhost) && is_some (url_port url)
          | None => false
          end
    end.

Definition safe_name (name : string) : bool :=
  negb (trim_is_empty name)
  && is_trimmed name
  && (length (chars name) <=? 128)%nat
  && negb (existsb (fun c =>
       is_control c || in_range 8203 8207 c || in_range 8234 8238 c || in_range 8294 8297 c
       || (c =? 60)%N || (c =? 62)%N || (c =? 38)%N) (chars name)).
End WithUrl.

(** ** Documents *)

(** [serde_json::Value]; a number keeps its text, an object its entries in
    the order of its map, keys not repeated. *)
Inductive Json : Type :=
| JNull
| JBool (b : bool)
| JNumber (n : string)
| JString (s : string)
| JArray (l : list Json)
| JObject (m : list (string * Json)).

Fixpoint json_eqb (x y : Json) : bool :=
  match x, y with
  | JNull, JNull => true
  | JBool a, JBool b => Bool.eqb a b
  | JNumber a, JNumber b => a ==? b
  | JString a, JString b => a ==? b
  | JArray a, JArray b =>
      (fix go (a b : list Json) :=
         match a, b with
         | [], [] => true
         | u :: a', v :: b' => json_eqb u v && go a' b'
         | _, _ => false
         end) a b
  | JObject a, JObject b =>
      (fix go (a b : list (string * Json)) :=
         match a, b with
         | [], [] => true
         | (k, u) :: a', (l, v) :: b' => (k ==? l) && json_eqb u v && go a' b'
         | _, _ => false
         end) a b
  | _, _ => false
  end.

Definition as_str (j : Json) : option string :=
  match j with JString s => Some s | _ => None end.
Definition as_array (j : Json) : option (list Json) :=
  match j with JArray l => Some l | _ => None end.

(** [serde_json]: [json_entries body] are the entries of the top-level
    object in the order the parser meets them, repeated keys included;
    [None] when the body is not a JSON object. *)
Class JsonLib := {
  json_entries : string -> option (list (string * Json));
  binding_to_json : CimdSecurityBinding -> string;
  binding_from_json : string -> option CimdSecurityBinding;
}.

Definition obj_get (k : string) (m : list (string * Json)) : option Json :=
  match List.find (fun kv => kv.1 ==? k) m with
  | Some kv => Some kv.2
  | None => None
  end.

(** [ObjectVisitor::visit_map]: inserting a key twice is an error. *)
Fixpoint visit_map (entries object : list (string * Json)) : option (list (string * Json)) :=
  match entries with
  | [] => Some object
  | (key, value) :: entries' =>
      if is_some (obj_get key object) then None
      else visit_map entries' (object ++ [(key, value)])
  end.

Section Documents.
Context `{UrlLib, JsonLib}.

Definition strict_object (body : string) : option (list (string * Json)) :=
  match json_entries body with
  | Some entries => visit_map entries []
  | None => None
  end.

Definition is_str (s : string) (j : Json) : bool := as_str j ==? Some s.

(** The [grant_types] of a document: whether refresh is allowed. *)
Definition check_grant_types (grants : option Json) : result bool CimdError :=
  match grants with
  | None => Ok false
  | Some v =>
      try! l <- ok_or (as_array v) InvalidDocument;
      if (length l =? 0)%nat || (2 <? length l)%nat
         || match l with [g0; g1] => json_eqb g0 g1 | _ => false end
         || existsb (fun g => negb (is_str "authorization_code" g || is_str "refresh_token" g)) l
         || negb (existsb (is_str "authorization_code") l)
      then Err InvalidDocument
      else Ok (existsb (is_str "refresh_token") l)
  end.

(** The loop over [redirect_uris]. *)
Fixpoint collect_redirects (items : list Json) (redirect_uris : list string)
    : result (list string) CimdError :=
  match items with
  | [] => Ok redirect_uris
  | item :: items' =>
      try! raw <- ok_or (as_str item) InvalidDocument;
      if negb (safe_redirect raw) || existsb (fun r => r ==? raw) redirect_uris
      then Err InvalidDocument
      else collect_redirects items' (redirect_uris ++ [raw])
  end.

Definition validate_document (client_id body : string) : result ClientMetadataDocument CimdError :=
  try! obj <- ok_or (strict_object body) InvalidDocument;
  let get key := ok_or (obj_get key obj) InvalidDocument in
  try! id_value <- get "client_id";
  try! id <- ok_or (as_str id_value) InvalidDocument;
  try! name_value <- get "client_name";
  try! name <- ok_or (as_str name_value) InvalidDocument;
  if (id <>? client_id) || negb (safe_name name) then Err InvalidDocument
  else if is_some (obj_get "client_secret" obj)
          || is_some (obj_get "client_secret_expires_at" obj)
          || is_some (obj_get "jwks" obj)
          || is_some (obj_get "jwks_uri" obj)
  then Err InvalidDocument
  else if match obj_get "token_endpoint_auth_method" obj with
          | Some v => as_str v
          | None => None
          end <>? Some "none"
  then Err InvalidDocument
  else
    try! refresh_allowed <- check_grant_types (obj_get "grant_types" obj);
    if is_some_and (obj_get "response_types" obj) (fun v =>
         is_none_or (as_array v) (fun a =>
           negb (match a with [r] => is_str "code" r | _ => false end)))
    then Err InvalidDocument
    else
      try! redirects_value <- get "redirect_uris";
      try! redirects <- ok_or (as_array redirects_value) InvalidDocument;
      if (length redirects =? 0)%nat || (MAX_REDIRECTS <? length redirects)%nat
      then Err InvalidDocument
      else
        try! redirect_uris <- collect_redirects redirects [];
        Ok {| cm_client_id := id;
              cm_client_name := name;
              cm_redirect_uris := redirect_uris;
              cm_refresh_allowed := refresh_allowed |}.
End Documents.

(** ** Cache-Control *)

Definition dquote : ascii := "034"%char.

(** [&value[1..value.len() - 1]] of a text that starts and ends with a
    double quote and has at least two bytes; any other text is unchanged. *)
Definition unquote (value : string) : string :=
  match value with
  | String a s =>
      if (a ==? dquote) && negb (str_empty s) && starts_with (String dquote EmptyString) (str_rev s)
      then match str_rev s with String _ t => str_rev t | EmptyString => s end
      else value
  | EmptyString => value
  end.

Definition directive_name_ok (name : string) : bool :=
  negb (str_empty name) && bytes_all (fun b => is_ascii_alphanumeric b || (b ==? "-"%char)) name.
Definition directive_value_ok (value : string) : bool :=
  negb (str_empty value) && bytes_all is_ascii_graphic value && negb (str_contains dquote value).

(** The loop of [cache_ttl]: [None] is its early return. *)
Fixpoint cache_directives (directives : list string) (maximum_age : option Z) : option (option Z) :=
  match directives with
  | [] => Some maximum_age
  | directive :: rest =>
      if str_empty directive || str_contains ";" directive then None
      else
        let '(name, value) :=
          match split_once "=" directive with
          | Some (n, v) => (trim n, Some (trim v))
          | None => (directive, None)
          end in
        if negb (directive_name_ok name) then None
        else if bset_contains ["no-store"; "no-cache"; "private"] (to_ascii_lowercase name) then None
        else
          let value := option_map unquote value in
          if is_some_and value (fun v => negb (directive_value_ok v)) then None
          else if eq_ignore_ascii_case name "max-age" then
            match value with
            | None => None
            | Some v =>
                match parse_unsigned u64_max v with
                | None => None
                | Some s =>
                    cache_directives rest
                      (Some (match maximum_age with Some m => Z.min m s | None => s end))
                end
            end
          else cache_directives rest maximum_age
  end.

(** In seconds. *)
Definition cache_ttl (headers : option (list string)) (response_age : Z) : option Z :=
  match headers with
  | None => None
  | Some fields =>
      match cache_directives (map trim (concat (map (split_char ",") fields))) None with
      | Some (Some maximum_age) =>
          let ttl := (Z.min maximum_age MAX_CACHE_TTL - response_age)%Z in
          if (0 <? ttl)%Z then Some ttl else None
      | _ => None
      end
  end.

(** ** The fetcher *)

Record SocketAddr := { sa_ip : IpAddr; sa_port : Z }.

Record ResponseDocument := {
  rd_status : Z;
  rd_content_type : option string;
  rd_cache_control : option (list string);
  rd_age : Z;
  rd_body : string;
}.

(** [Instant]s are nanoseconds of the monotonic clock. *)
Definition nanos (secs : Z) : Z := secs * 1000000000.

(** The cache, the clients with a fetch in flight and the permits left of
    the semaphore. *)
Record CimdFetcher := {
  cf_cache : gmap string LeasedClientMetadata;
  cf_in_flight : gset string;
  cf_permits : nat;
}.

Definition new_fetcher : CimdFetcher :=
  {| cf_cache := ∅; cf_in_flight := ∅; cf_permits := 8 |}.

Section Fetcher.
Context `{UrlLib, JsonLib}.

(** The critical section that reads the cache. *)
Definition fetch_cached (now : Z) (client_id : string) (f : CimdFetcher)
    : option LeasedClientMetadata :=
  opt_filter (is_fresh now) (cf_cache f !! client_id).

(** [try_acquire] on the semaphore, and the drop of the permit. *)
Definition take_permit (f : CimdFetcher) : result CimdFetcher CimdError :=
  match cf_permits f with
  | O => Err Busy
  | S permits =>
      Ok {| cf_cache := cf_cache f; cf_in_flight := cf_in_flight f; cf_permits := permits |}
  end.
Definition return_permit (f : CimdFetcher) : CimdFetcher :=
  {| cf_cache := cf_cache f; cf_in_flight := cf_in_flight f; cf_permits := S (cf_permits f) |}.

(** The critical section that inserts in [in_flight], and [Flight::drop].
    Neither can panic, so that the lock is never poisoned. *)
Definition enter_flight (client_id : string) (f : CimdFetcher) : result CimdFetcher CimdError :=
  if bool_decide (client_id ∈ cf_in_flight f) then Err Busy
  else Ok {| cf_cache := cf_cache f;
             cf_in_flight := {[client_id]} ∪ cf_in_flight f;
             cf_permits := cf_permits f |}.
Definition leave_flight (client_id : string) (f : CimdFetcher) : CimdFetcher :=
  {| cf_cache := cf_cache f;
     cf_in_flight := cf_in_flight f ∖ {[client_id]};
     cf_permits := cf_permits f |}.

(** The body of the timeout: the DNS answer and the HTTP answer are those of
    the resolver and of the transport. *)
Definition fetch_exchange
    (resolve : string -> Z -> result (list SocketAddr) CimdError)
    (fetch : Url -> string -> list SocketAddr -> result ResponseDocument CimdError)
    (client_id : string) (url : Url) (host : string) (port : Z)
    : result (ClientMetadataDocument * option Z) CimdError :=
  try! addrs <- resolve host port;
  if (length addrs =? 0)%nat || (32 <? length addrs)%nat
     || existsb (fun addr => negb (sa_port addr =? port)%Z || negb (public_ip (sa_ip addr))) addrs
  then Err UnsafeDestination
  else
    try! response <- fetch url host addrs;
    if negb (rd_status response =? 200)%Z then Err FetchFailed
    else
      try! content_type <- ok_or (rd_content_type response) InvalidDocument;
      let mime := to_ascii_lowercase (trim (fst (split_find (fun a => a ==? ";"%char) content_type))) in
      if (mime <>? "application/json")
         && negb (starts_with "application/" mime && ends_with "+json" mime)
      then Err InvalidDocument
      else if (MAX_DOCUMENT_BYTES <? len (rd_body response))%Z then Err InvalidDocument
      else
        try! document <- validate_document client_id (rd_body response);
        Ok (document, cache_ttl (rd_cache_control response) (rd_age response)).

(** [snapshot]: the lease of a fetched document. *)
Definition lease (now : Z) (document : ClientMetadataDocument) (ttl : option Z) : LeasedClientMetadata :=
  {| lm_document := document;
     lm_valid_until := (now + nanos (match ttl with Some t => t | None => NON_CACHEABLE_LEASE end))%Z |}.

(** The critical section that writes the cache: [retain] reads the clock
    for each entry, [first_key] is the key the hash map yields first. *)
Definition fetch_publish (clk : string -> Z)
    (first_key : gmap string LeasedClientMetadata -> option string)
    (client_id : string) (snapshot : LeasedClientMetadata) (f : CimdFetcher) : CimdFetcher :=
  let retained := map_imap (fun k s => if is_fresh (clk k) s then Some s else None) (cf_cache f) in
  let evicted :=
    if (MAX_CACHE_ENTRIES <=? size retained)%nat
    then match first_key retained with Some key => delete key retained | None => retained end
    else retained in
  {| cf_cache := <[client_id := snapshot]> evicted;
     cf_in_flight := cf_in_flight f;
     cf_permits := cf_permits f |}.

(** [fetch_leased] when no other task runs between its critical sections;
    [timed_out] tells whether the timeout fired. At its end [_flight] goes out
    of scope before [_permit]. *)
Definition fetch_leased
    (resolve : string -> Z -> result (list SocketAddr) CimdError)
    (fetch : Url -> string -> list SocketAddr -> result ResponseDocument CimdError)
    (timed_out : bool)
    (first_key : gmap string LeasedClientMetadata -> option string)
    (now_read now_lease : Z) (clk : string -> Z)
    (client_id : string) (f : CimdFetcher)
    : result LeasedClientMetadata CimdError * CimdFetcher :=
  match validate_client_id client_id with
  | Err e => (Err e, f)
  | Ok (url, host, port) =>
      match fetch_cached now_read client_id f with
      | Some snapshot => (Ok snapshot, f)
      | None =>
          match take_permit f with
          | Err e => (Err e, f)
          | Ok f1 =>
              match enter_flight client_id f1 with
              | Err e => (Err e, return_permit f1)
              | Ok f2 =>
                  match (if timed_out then Err FetchFailed
                         else fetch_exchange resolve fetch client_id url host port) with
                  | Err e => (Err e, return_permit (leave_flight client_id f2))
                  | Ok (document, ttl) =>
                      let snapshot := lease now_lease document ttl in
                      let f3 :=
                        match ttl with
                        | Some _ => fetch_publish clk first_key client_id snapshot f2
                        | None => f2
                        end in
                      (Ok snapshot, return_permit (leave_flight client_id f3))
                  end
              end
          end
      end
  end.
End Fetcher.
