(* ===== verification/Jose.v ===== *)
(** * Jose: token claims and the [jsonwebtoken] interface

    The claims of the provider's own tokens (src/src/tokens.rs) and the
    operations of the [jsonwebtoken] and [rsa] crates that src/src/keys.rs
    and src/src/google.rs call. *)

From Stdlib Require Import Ascii ZArith.
From S2P Require Import Prelude External Cimd.

Record AccessClaims := {
  at_iss : string;
  at_sub : Uuid;
  at_aud : list string;
  at_exp : Z;
  at_iat : Z;
  at_jti : string;
  at_client_id : string;
  at_scope : string;
}.

Record IdClaims := {
  id_sid : option Uuid;
  id_iss : string;
  id_sub : Uuid;
  id_aud : string;
  id_exp : Z;
  id_iat : Z;
  id_nonce : option string;
  id_auth_time : option Z;
}.

(** [jsonwebtoken::Header]'s fields the code reads and sets. *)
Inductive Algorithm : Type := RS256 | OtherAlgorithm.
Record JwtHeader := {
  jh_alg : Algorithm;
  jh_typ : option string;
  jh_kid : option string;
}.

#[export] Instance Algorithm_eq_dec : EqDecision Algorithm.
Proof. solve_decision. Defined.

(** An RSA public key: its modulus and exponent as big-endian bytes, and the
    modulus's size in bits. *)
Record RsaPublicKey := {
  rk_n : string;
  rk_e : string;
  rk_bits : Z;
}.

#[export] Instance RsaPublicKey_eq_dec : EqDecision RsaPublicKey.
Proof. solve_decision. Defined.

(** [now] is the clock the crate reads, in seconds. [decode_access] checks
    the RS256 signature, the issuer, the audience and, with the leeway, the
    expiry; [decode_id] checks the signature and the issuer. *)
Class JwtLib := {
  DecodingKey : Type;
  EncodingKey : Type;
  jwt_header : string -> option JwtHeader;
  json_value : string -> option Json;
  encode_access : JwtHeader -> AccessClaims -> EncodingKey -> option string;
  encode_id : JwtHeader -> IdClaims -> EncodingKey -> option string;
  decode_access : Z -> string -> DecodingKey -> string -> string -> Z -> option AccessClaims;
  decode_id : string -> DecodingKey -> string -> option IdClaims;
  signs_for : EncodingKey -> DecodingKey -> Prop;  (* the halves of one key pair *)
}.

(** The first segment of a token is the encoding of a JSON object without
    a [crit] member. *)
Definition plain_header `{Crypto, JwtLib} (t : string) : Prop :=
  exists segment rest bytes m,
    split_char "." t = segment :: rest /\ b64_decode segment = Some bytes
    /\ json_value bytes = Some (JObject m) /\ obj_get "crit" m = None.

(** What is signed can be read back by the other half of the key pair, and
    the header is the one that was signed, without a [crit] member. *)
Class JwtLaws `{Crypto, JwtLib} : Prop := {
  encode_access_crit h c k t : encode_access h c k = Some t -> plain_header t;
  encode_id_crit h c k t : encode_id h c k = Some t -> plain_header t;
  encode_access_header h c k t : encode_access h c k = Some t -> jwt_header t = Some h;
  encode_id_header h c k t : encode_id h c k = Some t -> jwt_header t = Some h;
  decode_encode_access h c k k' t now iss aud leeway :
    encode_access h c k = Some t -> signs_for k k' ->
    at_iss c = iss -> In aud (at_aud c) -> (now - leeway <= at_exp c)%Z ->
    decode_access now t k' iss aud leeway = Some c;
  decode_encode_id h c k k' t iss :
    encode_id h c k = Some t -> signs_for k k' -> id_iss c = iss -> decode_id t k' iss = Some c;
  (* soundness of the checks the crate makes *)
  decode_access_sound now t k iss aud leeway c :
    decode_access now t k iss aud leeway = Some c ->
    at_iss c = iss /\ In aud (at_aud c) /\ (now - leeway <= at_exp c)%Z;
  decode_id_sound t k iss c : decode_id t k iss = Some c -> id_iss c = iss;
}.
