(* ===== verification/Keys.v ===== *)
(** * Keys: src/src/keys.rs, the provider's signing keys

    Loading the key manifest, signing and verifying the provider's tokens.
    The file system, PEM parsing and JOSE are arguments; paths are relative
    to the manifest's directory. *)

From Stdlib Require Import Ascii ZArith.
From S2P Require Import Prelude External Cimd Jose.

Definition CLOCK_SKEW_SECONDS : Z := 30.

Record ActiveKey := {
  ak_kid : string;
  ak_private_key : string;
  ak_public_key : string;
}.
Record PublicKey := {
  pk_kid : string;
  pk_public_key : string;
}.
Record Manifest := {
  mf_active : ActiveKey;
  mf_previous : list PublicKey;
  mf_next : list PublicKey;
}.

Record Jwk := {
  jwk_kty : string;
  jwk_use : string;
  jwk_alg : string;
  jwk_kid : string;
  jwk_n : string;
  jwk_e : string;
}.

(** [KeyError]; the payloads of the first two are the libraries' errors. *)
Inductive KeyError : Type :=
| Io
| ManifestError
| InvalidKeys (message : string)
| Jwt.

(** A file: whether it is regular, its permission bits, its bytes. *)
Record FileEntry := {
  fe_is_file : bool;
  fe_mode : Z;
  fe_bytes : string;
}.

(** PEM parsing of the [rsa] crate, [jsonwebtoken]'s keys and [serde_json]
    on the manifest. A private key is seen through its public half. *)
Class KeysLib `{JwtLib} := {
  private_pkcs8 : string -> option RsaPublicKey;
  private_pkcs1 : string -> option RsaPublicKey;
  public_spki : string -> option RsaPublicKey;
  public_pkcs1 : string -> option RsaPublicKey;
  encoding_from_pem : string -> option EncodingKey;
  decoding_from_pem : string -> option DecodingKey;
  parse_manifest : string -> option Manifest;
  jwks_to_json : list Jwk -> string;
}.

(** [SigningKeys]. *)
Record SigningKeys `{JwtLib} := {
  sk_active_kid : string;
  sk_encoding : EncodingKey;
  sk_decoding : gmap string DecodingKey;
  sk_jwks_json : string;
}.

Definition validate_size (bits : Z) : result unit KeyError :=
  if (bits <? 2048)%Z then Err (InvalidKeys "RSA keys must be at least 2048 bits") else Ok tt.

Definition check_kid (kid : string) : result unit KeyError :=
  if str_empty kid || (128 <? len kid)%Z
     || negb (bytes_all (fun c => is_ascii_alphanumeric c || (c ==? "-"%char) || (c ==? "_"%char)
                                  || (c ==? "."%char)) kid)
  then Err (InvalidKeys "kid must be a stable 1-128 character identifier")
  else Ok tt.

(** On Unix. *)
Definition check_private_permissions (mode : Z) : result unit KeyError :=
  if negb (Z.land mode 63 =? 0)%Z
  then Err (InvalidKeys "private key permissions permit group or other access")
  else Ok tt.

Section Keys.
Context `{Crypto, JwtLib, !KeysLib}.

Definition read_private_key (file : option FileEntry) : result string KeyError :=
  try! file <- ok_or file Io;
  if negb (fe_is_file file) then Err (InvalidKeys "private key must be a regular file")
  else
    try! _u <- check_private_permissions (fe_mode file);
    Ok (fe_bytes file).

Definition parse_private (pem : string) : result RsaPublicKey KeyError :=
  if negb (from_utf8 pem) then Err (InvalidKeys "private key is not UTF-8 PEM")
  else ok_or (or_else (private_pkcs8 pem) (private_pkcs1 pem)) (InvalidKeys "private key is malformed").

Definition parse_public (pem : string) : result RsaPublicKey KeyError :=
  if negb (from_utf8 pem) then Err (InvalidKeys "public key is not UTF-8 PEM")
  else ok_or (or_else (public_spki pem) (public_pkcs1 pem)) (InvalidKeys "public key is malformed").

(** The accumulators of [add_public]. *)
Record KeySet := {
  ks_seen : gset string;
  ks_seen_material : gset (string * string);
  ks_decoding : gmap string DecodingKey;
  ks_jwks : list Jwk;
}.
Definition empty_keys : KeySet :=
  {| ks_seen := ∅; ks_seen_material := ∅; ks_decoding := ∅; ks_jwks := [] |}.

Definition add_public (kid : string) (key : RsaPublicKey) (pem : string) (keys : KeySet)
    : result KeySet KeyError :=
  if bool_decide (kid ∈ ks_seen keys) then Err (InvalidKeys "duplicate kid")
  else
    try! _u <- validate_size (rk_bits key);
    if bool_decide ((rk_n key, rk_e key) ∈ ks_seen_material keys)
    then Err (InvalidKeys "duplicate public key material")
    else
      try! decoding <- ok_or (decoding_from_pem pem) Jwt;
      Ok {| ks_seen := {[kid]} ∪ ks_seen keys;
            ks_seen_material := {[(rk_n key, rk_e key)]} ∪ ks_seen_material keys;
            ks_decoding := <[kid := decoding]> (ks_decoding keys);
            ks_jwks := ks_jwks keys ++
              [{| jwk_kty := "RSA"; jwk_use := "sig"; jwk_alg := "RS256"; jwk_kid := kid;
                  jwk_n := b64_encode (rk_n key); jwk_e := b64_encode (rk_e key) |}] |}.

(** The loop over the previous and next keys. *)
Fixpoint add_entries (fs : string -> option FileEntry) (entries : list PublicKey) (keys : KeySet)
    : result KeySet KeyError :=
  match entries with
  | [] => Ok keys
  | entry :: entries' =>
      try! _u <- check_kid (pk_kid entry);
      try! file <- ok_or (fs (pk_public_key entry)) Io;
      try! key <- parse_public (fe_bytes file);
      try! keys' <- add_public (pk_kid entry) key (fe_bytes file) keys;
      add_entries fs entries' keys'
  end.

(** [SigningKeys::load]: [text] is the manifest's, [fs] the files beside it. *)
Definition load (text : option string) (fs : string -> option FileEntry)
    : result SigningKeys KeyError :=
  try! text <- ok_or text Io;
  try! manifest <- ok_or (parse_manifest text) ManifestError;
  let active := mf_active manifest in
  try! _u <- check_kid (ak_kid active);
  try! private_pem <- read_private_key (fs (ak_private_key active));
  try! private <- parse_private private_pem;
  try! _u <- validate_size (rk_bits private);
  try! public_file <- ok_or (fs (ak_public_key active)) Io;
  let active_public_pem := fe_bytes public_file in
  try! active_public <- parse_public active_public_pem;
  if private <>? active_public
  then Err (InvalidKeys "active private and public keys do not match")
  else
    try! keys <- add_public (ak_kid active) active_public active_public_pem empty_keys;
    try! keys <- add_entries fs (mf_previous manifest ++ mf_next manifest) keys;
    try! encoding <- ok_or (encoding_from_pem private_pem) Jwt;
    Ok {| sk_active_kid := ak_kid active;
          sk_encoding := encoding;
          sk_decoding := ks_decoding keys;
          sk_jwks_json := jwks_to_json (ks_jwks keys) |}.

(** ** Signing *)

(** The header of [sign_typed]. *)
Definition typed_header (keys : SigningKeys) (token_type : string) : JwtHeader :=
  {| jh_alg := RS256; jh_typ := Some token_type; jh_kid := Some (sk_active_kid keys) |}.

(** [sign] on access claims and [sign_id] on identity claims. *)
Definition sign (keys : SigningKeys) (claims : AccessClaims) : result string KeyError :=
  ok_or (encode_access (typed_header keys "at+jwt") claims (sk_encoding keys)) Jwt.
Definition sign_id (keys : SigningKeys) (claims : IdClaims) : result string KeyError :=
  ok_or (encode_id (typed_header keys "JWT") claims (sk_encoding keys)) Jwt.

(** ** Verification *)

Definition has_unsupported_crit (token : string) : bool :=
  match split_char "." token with
  | [] => true
  | encoded :: _ =>
      is_some_and
        (match b64_decode encoded with
         | Some bytes =>
             match json_value bytes with
             | Some (JObject m) => obj_get "crit" m
             | _ => None
             end
         | None => None
         end)
        (fun crit => is_none_or (as_array crit) (fun items => negb (length items =? 0)%nat))
  end.

(** The key of a token of a type: what [verify] and [verify_id_logout] begin
    with. *)
Definition token_key (keys : SigningKeys) (token token_type message : string)
    : result DecodingKey KeyError :=
  try! header <- ok_or (jwt_header token) Jwt;
  if (jh_alg header <>? RS256) || (jh_typ header <>? Some token_type) || has_unsupported_crit token
  then Err (InvalidKeys message)
  else
    try! kid <- ok_or (jh_kid header) (InvalidKeys "token kid is missing");
    ok_or (sk_decoding keys !! kid) (InvalidKeys "token kid is unknown").

(** [now] is the reading of the clock, in seconds. *)
Definition verify_id_logout (keys : SigningKeys) (now : Z) (token issuer : string)
    : result IdClaims KeyError :=
  try! key <- token_key keys token "JWT" "logout hint algorithm or type is invalid";
  try! claims <- ok_or (decode_id token key issuer) Jwt;
  if str_empty (id_aud claims) || (id_exp claims <=? id_iat claims)%Z
     || (now + CLOCK_SKEW_SECONDS <? id_iat claims)%Z
  then Err (InvalidKeys "logout hint claims are invalid")
  else Ok claims.

(** [verify] on access claims. *)
Definition verify (keys : SigningKeys) (now : Z) (token issuer audience : string)
    : result AccessClaims KeyError :=
  try! key <- token_key keys token "at+jwt" "token algorithm or type is invalid";
  ok_or (decode_access now token key issuer audience CLOCK_SKEW_SECONDS) Jwt.
End Keys.
