(* ===== verification/OAuth.v ===== *)
(** * OAuth: src/src/oauth.rs, client policy

    Registered redirects, clients and the registry, PKCE, the validation of
    an authorization request and the grant it yields. Functions of the code
    that read [Instant::now()] through [is_fresh] take the reading [now]. *)

From Stdlib Require Import Ascii ZArith.
From S2P Require Import Prelude External Cimd.

Inductive RedirectKind : Type := Exact | NativeLoopback | AppClaimedHttps.
Inductive AuthorizationFlow : Type := Interactive | GooglePreauthorized.
Inductive LogoutFlow : Type := InteractiveLogout | IdTokenHint.

#[export] Instance RedirectKind_eq_dec : EqDecision RedirectKind.
Proof. solve_decision. Defined.
#[export] Instance AuthorizationFlow_eq_dec : EqDecision AuthorizationFlow.
Proof. solve_decision. Defined.
#[export] Instance LogoutFlow_eq_dec : EqDecision LogoutFlow.
Proof. solve_decision. Defined.

Record RegisteredRedirect := {
  rr_uri : string;
  rr_kind : RedirectKind;
}.

(** The [BTreeSet]s are sorted lists without duplicates ([bset_of_list]). *)
Record FirstPartyClient := {
  fc_id : string;
  fc_display_name : string;
  fc_redirects : list RegisteredRedirect;
  fc_scopes : list string;
  fc_resources : list string;
  fc_default_resource : option string;
  fc_browser_origins : list string;
  fc_post_logout_redirects : list string;
  fc_authorization_flow : AuthorizationFlow;
  fc_logout_flow : LogoutFlow;
}.

Record ResolvedCimdPolicy := {
  rp_snapshot : LeasedClientMetadata;
  rp_binding : CimdSecurityBinding;
}.

Record ClientRegistry := {
  cr_clients : gmap string FirstPartyClient;
  cr_userinfo_resource : option string;
  cr_dynamic : option ResolvedCimdPolicy;
}.

Record AuthorizationRequest := {
  ar_client_id : string;
  ar_redirect_uri : string;
  ar_response_type : string;
  ar_code_challenge_method : string;
  ar_code_challenge : string;
  ar_scopes : list string;
  ar_resource : option string;
}.

Record PendingAuthorizationGrant := {
  pg_client_id : string;
  pg_redirect_uri : string;
  pg_scopes : list string;
  pg_resource : string;
  pg_code_challenge : string;
  pg_dynamic : option ResolvedCimdPolicy;
}.

Record ValidatedAuthorizationGrant := {
  vg_client_id : string;
  vg_redirect_uri : string;
  vg_scopes : list string;
  vg_resource : string;
  vg_code_challenge : string;
  vg_issue_refresh_token : bool;
  vg_dynamic : option ResolvedCimdPolicy;
}.

Inductive OAuthError : Type :=
| MetadataExpired
| InvalidClientDeclaration
| UnknownClient
| UnsupportedResponseType
| UnsupportedPkceMethod
| InvalidPkce
| InvalidRedirect
| InvalidScope
| InvalidResource
| ConsentRequired.

#[export] Instance OAuthError_eq_dec : EqDecision OAuthError.
Proof. solve_decision. Defined.

(** ** PKCE (RFC 7636) *)

Definition pkce_verifier_char (b : ascii) : bool :=
  is_ascii_alphanumeric b
  || (b ==? "-"%char) || (b ==? "."%char) || (b ==? "_"%char) || (b ==? "~"%char).

Definition validate_pkce_verifier (value : string) : result unit OAuthError :=
  if (43 <=? len value)%Z && (len value <=? 128)%Z && bytes_all pkce_verifier_char value
  then Ok tt else Err InvalidPkce.

Section Pkce.
Context `{Crypto}.

Definition validate_pkce_challenge (value : string) : result unit OAuthError :=
  if negb (len value =? 43)%Z
     || negb (bytes_all (fun b =>
          is_ascii_alphanumeric b || (b ==? "-"%char) || (b ==? "_"%char)) value)
  then Err InvalidPkce
  else
    try! decoded <- ok_or (b64_decode value) InvalidPkce;
    if (len decoded =? 32)%Z && (b64_encode decoded ==? value) then Ok tt else Err InvalidPkce.

Definition s256_challenge (verifier : string) : result string OAuthError :=
  try! _u <- validate_pkce_verifier verifier;
  Ok (b64_encode (sha256 verifier)).

Definition verify_s256 (verifier expected : string) : bool :=
  match s256_challenge verifier with
  | Err _ => false
  | Ok actual => is_ok (validate_pkce_challenge expected) && (actual ==? expected)
  end.
End Pkce.

(** RFC 6749 scope tokens: ['!'], ['#'..='['], [']'..='~']. *)
Definition scope_char (b : ascii) : bool :=
  (b ==? "!"%char) || byte_in 35 91 b || byte_in 93 126 b.
Definition valid_scope_token (scope : string) : bool :=
  negb (str_empty scope) && bytes_all scope_char scope.

(** ** URLs of client declarations *)

(** A text of the form [http://127.0.0.1[:port]suffix] or
    [http://[::1][:port]suffix]: its host and suffix. *)
Definition loopback_parts (raw : string) : option (string * string) :=
  match strip_prefix "http://" raw with
  | None => None
  | Some rest =>
      let '(authority, suffix) :=
        split_find (fun a => (a ==? "/"%char) || (a ==? "?"%char) || (a ==? "#"%char)) rest in
      if starts_with "#" suffix then None
      else
        let host_port :=
          match strip_prefix "[::1]" authority with
          | Some after => Some ("[::1]", after)
          | None =>
              match strip_prefix "127.0.0.1" authority with
              | Some after => Some ("127.0.0.1", after)
              | None => None
              end
          end in
        match host_port with
        | None => None
        | Some (host, port) =>
            if str_empty port then Some (host, suffix)
            else
              match strip_prefix ":" port with
              | None => None
              | Some port =>
                  if str_empty port || negb (bytes_all is_ascii_digit port)
                     || negb (is_some_and (parse_unsigned u16_max port) (fun p => negb (p =? 0)%Z))
                  then None
                  else Some (host, suffix)
              end
        end
  end.

Section Policy.
Context `{UrlLib}.

(** [OAuth.safe_redirect]. *)
Definition safe_redirect (raw : string) : option Url :=
  match url_parse raw with
  | None => None
  | Some url =>
      if str_empty (url_scheme url) || negb (str_empty (url_username url))
         || is_some (url_password url) || is_some (url_fragment url)
      then None else Some url
  end.

Definition safe_url (raw : string) : option Url :=
  match url_parse raw with
  | None => None
  | Some url =>
      if url_cannot_be_a_base url || is_none (url_host url) || negb (str_empty (url_username url))
         || is_some (url_password url) || is_some (url_fragment url)
      then None else Some url
  end.

Definition safe_security_identifier (raw : string) : bool :=
  match safe_url raw with
  | None => false
  | Some url => (url_scheme url ==? "https") && is_none (url_query url)
  end.

(** [RegisteredRedirect::new]. *)
Definition new_redirect (uri : string) (kind : RedirectKind) : result RegisteredRedirect OAuthError :=
  try! parsed <- ok_or (safe_redirect uri) InvalidClientDeclaration;
  if (kind ==? NativeLoopback)
     && ((url_scheme parsed <>? "http") || is_none (loopback_parts uri))
  then Err InvalidClientDeclaration
  else if (kind ==? AppClaimedHttps)
          && ((url_scheme parsed <>? "https")
              || negb (match url_host parsed with
                       | Some (Domain host) => host <>? "localhost"
                       | _ => false
                       end))
  then Err InvalidClientDeclaration
  else Ok {| rr_uri := uri; rr_kind := kind |}.

Definition redirect_matches (registered : RegisteredRedirect) (actual : string) : bool :=
  if is_none (safe_redirect actual) then false
  else if rr_uri registered ==? actual then true
  else if rr_kind registered <>? NativeLoopback then false
  else
    match loopback_parts (rr_uri registered), loopback_parts actual with
    | Some (registered_host, registered_suffix), Some (actual_host, actual_suffix) =>
        (registered_host ==? actual_host) && (registered_suffix ==? actual_suffix)
    | _, _ => false
    end.

(** ** Clients *)

(** A browser origin is refused when it is unsafe, or has a path or a query. *)
Definition bad_browser_origin (o : string) : bool :=
  is_none (safe_url o)
  || is_some_and (url_parse o) (fun u => (url_path u <>? "/") || is_some (url_query u)).

Definition with_authorization_flow (id display_name : string) (redirects : list RegisteredRedirect)
    (scopes resources : list string) (default_resource : option string)
    (browser_origins post_logout_redirects : list string) (authorization_flow : AuthorizationFlow)
    : result FirstPartyClient OAuthError :=
  let scopes := bset_of_list scopes in
  let resources := bset_of_list resources in
  let browser_origins := bset_of_list browser_origins in
  let post_logout_redirects := bset_of_list post_logout_redirects in
  if str_empty id || trim_is_empty display_name || (length redirects =? 0)%nat
     || (length scopes =? 0)%nat || existsb (fun s => negb (valid_scope_token s)) scopes
  then Err InvalidClientDeclaration
  else if is_some_and default_resource (fun r => negb (bset_contains resources r))
          || existsb (fun r => negb (safe_security_identifier r)) resources
          || existsb bad_browser_origin browser_origins
          || existsb (fun r => is_none (safe_redirect r)) post_logout_redirects
  then Err InvalidClientDeclaration
  else Ok {| fc_id := id;
             fc_display_name := display_name;
             fc_redirects := redirects;
             fc_scopes := scopes;
             fc_resources := resources;
             fc_default_resource := default_resource;
             fc_browser_origins := browser_origins;
             fc_post_logout_redirects := post_logout_redirects;
             fc_authorization_flow := authorization_flow;
             fc_logout_flow := InteractiveLogout |}.

(** [FirstPartyClient::new]. *)
Definition new_client (id display_name : string) (redirects : list RegisteredRedirect)
    (scopes resources : list string) (default_resource : option string)
    (browser_origins post_logout_redirects : list string) : result FirstPartyClient OAuthError :=
  with_authorization_flow id display_name redirects scopes resources default_resource
    browser_origins post_logout_redirects Interactive.

Definition with_logout_flow (c : FirstPartyClient) (flow : LogoutFlow) : FirstPartyClient :=
  {| fc_id := fc_id c;
     fc_display_name := fc_display_name c;
     fc_redirects := fc_redirects c;
     fc_scopes := fc_scopes c;
     fc_resources := fc_resources c;
     fc_default_resource := fc_default_resource c;
     fc_browser_origins := fc_browser_origins c;
     fc_post_logout_redirects := fc_post_logout_redirects c;
     fc_authorization_flow := fc_authorization_flow c;
     fc_logout_flow := flow |}.
End Policy.

(** ** The registry *)

(** [dynamic.filter(|d| d.snapshot.document().client_id() == client_id)]. *)
Definition dynamic_for (reg : ClientRegistry) (client_id : string) : option ResolvedCimdPolicy :=
  opt_filter (fun d => cm_client_id (lm_document (rp_snapshot d)) ==? client_id) (cr_dynamic reg).

Section Registry.
Context `{UrlLib}.

Fixpoint build_clients (clients : list FirstPartyClient) (m : gmap string FirstPartyClient)
    : result (gmap string FirstPartyClient) OAuthError :=
  match clients with
  | [] => Ok m
  | client :: clients' =>
      if is_some (m !! fc_id client) then Err InvalidClientDeclaration
      else build_clients clients' (<[fc_id client := client]> m)
  end.

(** [ClientRegistry::build]. *)
Definition build (clients : list FirstPartyClient) (userinfo_resource : option string)
    : result ClientRegistry OAuthError :=
  try! m <- build_clients clients ∅;
  Ok {| cr_clients := m; cr_userinfo_resource := userinfo_resource; cr_dynamic := None |}.

(** [ClientRegistry::new] and [ClientRegistry::with_issuer]. *)
Definition new_registry (clients : list FirstPartyClient) : result ClientRegistry OAuthError :=
  build clients None.
Definition with_issuer (clients : list FirstPartyClient) (issuer : Url)
    : result ClientRegistry OAuthError :=
  try! resource <- ok_or (url_join issuer "userinfo") InvalidClientDeclaration;
  build clients (Some (url_as_str resource)).

Definition contains_client (reg : ClientRegistry) (client_id : string) : bool :=
  is_some (cr_clients reg !! client_id).

Definition pre_authorizes (reg : ClientRegistry) (pending : PendingAuthorizationGrant) : bool :=
  is_none (pg_dynamic pending)
  && is_none (cr_dynamic reg)
  && is_some_and (cr_clients reg !! pg_client_id pending) (fun client =>
       (fc_authorization_flow client ==? GooglePreauthorized)
       && existsb (fun redirect =>
            (rr_kind redirect ==? AppClaimedHttps) && (rr_uri redirect ==? pg_redirect_uri pending))
            (fc_redirects client)
       && bset_contains (fc_resources client) (pg_resource pending)
       && forallb (bset_contains (fc_scopes client)) (pg_scopes pending)).

Definition project_cimd (now : Z) (reg : ClientRegistry) (snapshot : LeasedClientMetadata)
    (scopes resources : list string) (allow_refresh : bool) : result ClientRegistry OAuthError :=
  let doc := lm_document snapshot in
  if contains_client reg (cm_client_id doc) || negb (is_fresh now snapshot)
     || (length scopes =? 0)%nat || (length resources =? 0)%nat
  then Err InvalidClientDeclaration
  else
    let effective_refresh := allow_refresh && cm_refresh_allowed doc in
    let scopes := List.filter (fun s => effective_refresh || (s <>? "offline_access")) scopes in
    try! redirects <- try_map (fun uri =>
        new_redirect uri (if starts_with "http://" uri then NativeLoopback else Exact))
      (cm_redirect_uris doc);
    try! client <- new_client (cm_client_id doc)
        (cm_client_id doc +:+ " · nombre declarado: " +:+ cm_client_name doc)
        redirects scopes resources None [] [];
    Ok {| cr_clients := <[fc_id client := client]> (cr_clients reg);
          cr_userinfo_resource := cr_userinfo_resource reg;
          cr_dynamic := Some {| rp_snapshot := snapshot;
                                rp_binding := security_binding doc allow_refresh |} |}.

(** A stored or current policy whose lease has run out. *)
Definition dynamic_expired (now : Z) (dynamic : option ResolvedCimdPolicy) : bool :=
  is_some_and dynamic (fun d => negb (is_fresh now (rp_snapshot d))).

(** [ensure_fresh] of the registry and of both grants. *)
Definition ensure_fresh (now : Z) (dynamic : option ResolvedCimdPolicy) : result unit OAuthError :=
  if dynamic_expired now dynamic then Err MetadataExpired else Ok tt.

Definition validate_binding `{JsonLib} (now : Z) (reg : ClientRegistry) (client_id : string)
    (stored : option string) : result unit OAuthError :=
  try! _u <- ensure_fresh now (cr_dynamic reg);
  if negb (contains_client reg client_id) then Err UnknownClient
  else
    match dynamic_for reg client_id, stored with
    | None, None => Ok tt
    | Some current, Some stored =>
        try! binding <- ok_or (binding_from_json stored) InvalidClientDeclaration;
        if binding ==? rp_binding current then Ok tt else Err InvalidClientDeclaration
    | _, _ => Err InvalidClientDeclaration
    end.

Definition trusted_redirect (reg : ClientRegistry) (client_id uri : string) : bool :=
  is_some_and (cr_clients reg !! client_id) (fun c =>
    existsb (fun r => redirect_matches r uri) (fc_redirects c)).

Definition allows_id_token_logout (reg : ClientRegistry) (client_id : string) : bool :=
  is_some_and (cr_clients reg !! client_id) (fun c => fc_logout_flow c ==? IdTokenHint).

Definition valid_post_logout_redirect (reg : ClientRegistry) (client_id uri : string) : bool :=
  is_some_and (cr_clients reg !! client_id) (fun c =>
    existsb (fun r => r ==? uri) (fc_post_logout_redirects c)).

Definition valid_browser_origin (reg : ClientRegistry) (client_id origin : string) : bool :=
  is_some_and (cr_clients reg !! client_id) (fun c => bset_contains (fc_browser_origins c) origin).

Definition reviewed_browser_origin (reg : ClientRegistry) (origin : string) : bool :=
  existsb (fun kv => bset_contains (fc_browser_origins kv.2) origin) (map_to_list (cr_clients reg)).

Definition display_name (reg : ClientRegistry) (client_id : string) : option string :=
  option_map fc_display_name (cr_clients reg !! client_id).

Definition advertised_scopes (reg : ClientRegistry) : list string :=
  bset_of_list (concat (map (fun kv => fc_scopes kv.2) (map_to_list (cr_clients reg)))).

Definition permits_refresh (reg : ClientRegistry) (client_id : string) (scopes : list string)
    (resource : string) : bool :=
  match cr_clients reg !! client_id with
  | None => false
  | Some client =>
      let requested := bset_of_list scopes in
      if is_some (dynamic_for reg client_id) && negb (bset_contains (fc_resources client) resource)
      then false
      else
        (length requested =? length scopes)%nat
        && bset_subset requested (fc_scopes client)
        && (bset_contains (fc_resources client) resource
            || bset_contains requested "openid"
               && (cr_userinfo_resource reg ==? Some resource))
  end.

Context `{Crypto}.

Definition validate_pending_parts (now : Z) (reg : ClientRegistry)
    (client_id redirect_uri response_type method challenge : string)
    (scopes : list string) (resource : option string)
    : result PendingAuthorizationGrant OAuthError :=
  try! _u <- ensure_fresh now (cr_dynamic reg);
  if is_some (dynamic_for reg client_id) && is_none resource then Err InvalidResource
  else
    try! client <- ok_or (cr_clients reg !! client_id) UnknownClient;
    if response_type <>? "code" then Err UnsupportedResponseType
    else if method <>? "S256" then Err UnsupportedPkceMethod
    else
      try! _u <- validate_pkce_challenge challenge;
      if negb (existsb (fun r => redirect_matches r redirect_uri) (fc_redirects client))
      then Err InvalidRedirect
      else
        let requested := bset_of_list scopes in
        if negb (length requested =? length scopes)%nat || (length requested =? 0)%nat
           || existsb (fun s => negb (valid_scope_token s)) requested
           || negb (bset_subset requested (fc_scopes client))
        then Err InvalidScope
        else
          try! resource <- ok_or
              (or_else resource
                (or_else (fc_default_resource client)
                  (if bset_contains requested "openid" then cr_userinfo_resource reg else None)))
              InvalidResource;
          if is_some (dynamic_for reg client_id) && negb (bset_contains (fc_resources client) resource)
          then Err InvalidResource
          else if negb (bset_contains (fc_resources client) resource
                        || bset_contains requested "openid"
                           && (cr_userinfo_resource reg ==? Some resource))
          then Err InvalidResource
          else Ok {| pg_client_id := fc_id client;
                     pg_redirect_uri := redirect_uri;
                     pg_scopes := requested;
                     pg_resource := resource;
                     pg_code_challenge := challenge;
                     pg_dynamic := dynamic_for reg client_id |}.

Definition validate_pending (now : Z) (reg : ClientRegistry) (request : AuthorizationRequest)
    : result PendingAuthorizationGrant OAuthError :=
  validate_pending_parts now reg (ar_client_id request) (ar_redirect_uri request)
    (ar_response_type request) (ar_code_challenge_method request) (ar_code_challenge request)
    (ar_scopes request) (ar_resource request).

Definition revalidate_pending (now : Z) (reg : ClientRegistry) (p : PendingAuthorizationGrant)
    : result PendingAuthorizationGrant OAuthError :=
  validate_pending_parts now reg (pg_client_id p) (pg_redirect_uri p) "code" "S256"
    (pg_code_challenge p) (pg_scopes p) (Some (pg_resource p)).
End Registry.

(** ** Grants *)

(** [cimd_binding_json] of both grants. *)
Definition cimd_binding_json `{JsonLib} (dynamic : option ResolvedCimdPolicy) : option string :=
  option_map (fun d => binding_to_json (rp_binding d)) dynamic.

(** [PendingAuthorizationGrant::approve]. *)
Definition approve_grant (now : Z) (p : PendingAuthorizationGrant) (consent : bool)
    : result ValidatedAuthorizationGrant OAuthError :=
  try! _u <- ensure_fresh now (pg_dynamic p);
  let refresh := existsb (fun s => s ==? "offline_access") (pg_scopes p) in
  if refresh && negb consent then Err ConsentRequired
  else Ok {| vg_client_id := pg_client_id p;
             vg_redirect_uri := pg_redirect_uri p;
             vg_scopes := pg_scopes p;
             vg_resource := pg_resource p;
             vg_code_challenge := pg_code_challenge p;
             vg_issue_refresh_token := refresh;
             vg_dynamic := pg_dynamic p |}.
