(* ===== verification/Config.v ===== *)
(** * Config: src/src/config.rs, the configuration and its validation

    TOML parsing and the environment are arguments; the issuer is a [Url]
    as parsed by the [url] crate, the bind address an address and a port. *)

From Stdlib Require Import Ascii ZArith.
From S2P Require Import Prelude External Cimd OAuth.

Inductive Mode : Type := Development | Production.

#[export] Instance Mode_eq_dec : EqDecision Mode.
Proof. solve_decision. Defined.

Record CimdPolicyConfig := {
  cp_scopes : list string;
  cp_resources : list string;
  cp_allow_refresh : bool;
}.
Record GoogleClientConfig := {
  gg_client_id : string;
  gg_client_secret_env : string;
}.
Inductive ConfiguredAuthorizationFlow : Type := ConfiguredInteractive | ConfiguredGooglePreauthorized.
Inductive ConfiguredLogoutFlow : Type := ConfiguredInteractiveLogout | ConfiguredIdTokenHint.
Inductive ConfiguredRedirectKind : Type :=
| ConfiguredExact
| ConfiguredNativeLoopback
| ConfiguredAppClaimedHttps.
Record RedirectDeclaration := {
  rd_uri : string;
  rd_kind : ConfiguredRedirectKind;
}.
Record ClientDeclaration := {
  cd_id : string;
  cd_display_name : string;
  cd_redirects : list RedirectDeclaration;
  cd_scopes : list string;
  cd_resources : list string;
  cd_default_resource : option string;
  cd_browser_origins : list string;
  cd_post_logout_redirects : list string;
  cd_authorization_flow : ConfiguredAuthorizationFlow;
  cd_logout_flow : ConfiguredLogoutFlow;
}.
Record AuthorizationConfig := {
  az_google : option GoogleClientConfig;
  az_clients : list ClientDeclaration;
  az_cimd : option CimdPolicyConfig;
}.
Record DatabaseConfig := {
  db_url : option string;
  db_url_env : string;
  db_max_connections : Z;
  db_min_connections : Z;
  db_connect_timeout_seconds : Z;
  db_acquire_timeout_seconds : Z;
  db_readiness_timeout_milliseconds : Z;
}.
Record Config := {
  cfg_mode : Mode;
  cfg_issuer : Url;
  cfg_bind : SocketAddr;
  cfg_database : DatabaseConfig;
  cfg_signing_manifest : string;
  cfg_authorization : option AuthorizationConfig;
}.

Inductive ConfigError : Type :=
| Read
| Parse
| InvalidConfig (message : string).

Definition default_database_env : string := "ERI_DATABASE_URL".
Definition default_max_connections : Z := 10.
Definition default_min_connections : Z := 1.
Definition default_timeout : Z := 5.
Definition default_ready_timeout : Z := 500.

(** [IpAddr::is_loopback]. *)
Definition ip_is_loopback (ip : IpAddr) : bool :=
  match ip with
  | V4 a _ _ _ => ipv4_is_loopback a
  | V6 s0 s1 s2 s3 s4 s5 s6 s7 => [s0; s1; s2; s3; s4; s5; s6; s7] ==? ipv6_localhost
  end.

Definition is_loopback_url (url : Url) : bool :=
  match url_host url with
  | Some (Ipv4 a _ _ _) => ipv4_is_loopback a
  | Some (Ipv6 segments) => segments ==? ipv6_localhost
  | _ => false
  end.

Section Config.
Context `{UrlLib}.

Definition cimd_policy_invalid : ConfigError := InvalidConfig "CIMD policy is invalid".

(** [CimdPolicyConfig::validate]. *)
Definition validate_cimd_policy (policy : CimdPolicyConfig) : result unit ConfigError :=
  if (length (cp_scopes policy) =? 0)%nat
     || (64 <? length (cp_scopes policy))%nat
     || (length (cp_resources policy) =? 0)%nat
     || (32 <? length (cp_resources policy))%nat
     || negb (length (bset_of_list (cp_scopes policy)) =? length (cp_scopes policy))%nat
     || negb (length (bset_of_list (cp_resources policy)) =? length (cp_resources policy))%nat
     || negb (existsb (fun s => s <>? "offline_access") (cp_scopes policy))
  then Err cimd_policy_invalid
  else
    try! redirect <-
      map_err (fun _ => cimd_policy_invalid) (new_redirect "https://policy.example.org/callback" Exact);
    map_err (fun _ => cimd_policy_invalid)
      (map_ok (fun _ => tt)
        (new_client "cimd-policy" "CIMD policy" [redirect] (cp_scopes policy) (cp_resources policy)
           None [] [])).

(** [CimdPolicyConfig::advertised_scopes]. *)
Definition policy_scopes (policy : CimdPolicyConfig) : list string :=
  List.filter (fun scope => cp_allow_refresh policy || (scope <>? "offline_access")) (cp_scopes policy).

Definition redirect_kind (kind : ConfiguredRedirectKind) : RedirectKind :=
  match kind with
  | ConfiguredExact => Exact
  | ConfiguredNativeLoopback => NativeLoopback
  | ConfiguredAppClaimedHttps => AppClaimedHttps
  end.
Definition authorization_flow (flow : ConfiguredAuthorizationFlow) : AuthorizationFlow :=
  match flow with
  | ConfiguredInteractive => Interactive
  | ConfiguredGooglePreauthorized => GooglePreauthorized
  end.
Definition logout_flow (flow : ConfiguredLogoutFlow) : LogoutFlow :=
  match flow with
  | ConfiguredInteractiveLogout => InteractiveLogout
  | ConfiguredIdTokenHint => IdTokenHint
  end.

Definition declared_client (c : ClientDeclaration) : result FirstPartyClient ConfigError :=
  try! redirects <-
    map_err (fun _ => InvalidConfig "authorization client redirect is invalid")
      (try_map (fun r => new_redirect (rd_uri r) (redirect_kind (rd_kind r))) (cd_redirects c));
  map_err (fun _ => InvalidConfig "authorization client is invalid")
    (map_ok (fun client => with_logout_flow client (logout_flow (cd_logout_flow c)))
      (with_authorization_flow (cd_id c) (cd_display_name c) redirects (cd_scopes c)
         (cd_resources c) (cd_default_resource c) (cd_browser_origins c)
         (cd_post_logout_redirects c) (authorization_flow (cd_authorization_flow c)))).

Definition authorization_registry (config : Config) : result (option ClientRegistry) ConfigError :=
  match cfg_authorization config with
  | None => Ok None
  | Some auth =>
      try! clients <- try_map declared_client (az_clients auth);
      map_ok Some
        (map_err (fun _ => InvalidConfig "authorization registry is invalid")
          (with_issuer clients (cfg_issuer config)))
  end.

(** The [match] on the mode. *)
Definition validate_mode (mode : Mode) (issuer : Url) : result unit ConfigError :=
  match mode with
  | Production =>
      if url_scheme issuer <>? "https" then Err (InvalidConfig "production issuer must use HTTPS")
      else Ok tt
  | Development =>
      if (url_scheme issuer ==? "http") && negb (is_loopback_url issuer)
      then Err (InvalidConfig "development HTTP issuer must use a loopback IP")
      else if negb ((url_scheme issuer ==? "http") || (url_scheme issuer ==? "https"))
      then Err (InvalidConfig "issuer must use HTTP or HTTPS")
      else Ok tt
  end.

Definition validate (config : Config) : result unit ConfigError :=
  let issuer := cfg_issuer config in
  if url_cannot_be_a_base issuer || is_none (url_host issuer)
  then Err (InvalidConfig "issuer must be an absolute URL")
  else if negb (str_empty (url_username issuer)) || is_some (url_password issuer)
          || is_some (url_query issuer) || is_some (url_fragment issuer)
  then Err (InvalidConfig "issuer cannot contain credentials, query, or fragment")
  else if url_path issuer <>? "/" then Err (InvalidConfig "issuer path is not supported")
  else
    try! _u <- validate_mode (cfg_mode config) issuer;
    if negb (ip_is_loopback (sa_ip (cfg_bind config)))
    then Err (InvalidConfig "bind address must be an explicit loopback IP")
    else if (sa_port (cfg_bind config) =? 0)%Z then Err (InvalidConfig "bind port must be non-zero")
    else if (db_max_connections (cfg_database config) =? 0)%Z
            || (db_max_connections (cfg_database config) <? db_min_connections (cfg_database config))%Z
    then Err (InvalidConfig "database pool bounds are invalid")
    else if trim_is_empty (db_url_env (cfg_database config))
    then Err (InvalidConfig "database url_env cannot be empty")
    else if is_some_and (cfg_authorization config) (fun auth =>
              (length (az_clients auth) =? 0)%nat
              || is_none_or (az_google auth) (fun g =>
                   trim_is_empty (gg_client_id g) || trim_is_empty (gg_client_secret_env g))
              || is_err (authorization_registry config))
    then Err (InvalidConfig "authorization configuration is invalid")
    else
      match option_map az_cimd (cfg_authorization config) with
      | Some (Some policy) => validate_cimd_policy policy
      | _ => Ok tt
      end.

(** [Path::join] on Unix. *)
Definition path_join (base path : string) : string :=
  if starts_with "/" path then path
  else if str_empty base || ends_with "/" base then base +:+ path
  else base +:+ "/" +:+ path.

(** [Config::load]: [text] is the file, [parent] its directory. *)
Definition load (parse_toml : string -> option Config) (text : option string) (parent : option string)
    : result Config ConfigError :=
  try! text <- ok_or text Read;
  try! config <- ok_or (parse_toml text) Parse;
  let manifest := cfg_signing_manifest config in
  let config :=
    {| cfg_mode := cfg_mode config; cfg_issuer := cfg_issuer config; cfg_bind := cfg_bind config;
       cfg_database := cfg_database config;
       cfg_signing_manifest :=
         if starts_with "/" manifest then manifest
         else path_join (match parent with Some p => p | None => "." end) manifest;
       cfg_authorization := cfg_authorization config |} in
  try! _u <- validate config;
  Ok config.

(** [DatabaseConfig::resolved_url]: [env] is the value of [url_env]. *)
Definition resolved_url (config : DatabaseConfig) (env : option string) : result string ConfigError :=
  match opt_filter (fun v => negb (str_empty v)) env with
  | Some value => Ok value
  | None =>
      ok_or (opt_filter (fun v => negb (str_empty v)) (db_url config))
        (InvalidConfig "database URL is not configured")
  end.
End Config.
