(* ===== verification/Identity.v ===== *)
(** * Identity: src/src/identity.rs, external identities and users *)

From S2P Require Import Prelude External.

Definition GOOGLE_ISSUER : string := "https://accounts.google.com".

Record ExternalIdentity := {
  ei_issuer : string;
  ei_subject : string;
}.

Record AuthenticatedUser := {
  au_id : Uuid;
  au_upstream_auth_time : option Z;
}.

Inductive IdentityError : Type :=
| UnsupportedIssuer
| EmptySubject.

(** [ExternalIdentity::google]: both documented issuer forms become the URL. *)
Definition google (issuer subject : string) : result ExternalIdentity IdentityError :=
  if negb ((issuer ==? "accounts.google.com") || (issuer ==? GOOGLE_ISSUER))
  then Err UnsupportedIssuer
  else if str_empty subject then Err EmptySubject
  else Ok {| ei_issuer := GOOGLE_ISSUER; ei_subject := subject |}.
