(* ===== verification/Google.v ===== *)
(** * Google: src/src/google.rs, the upstream OpenID provider

    The adapter's configuration, the authorization URL, the code exchange,
    the verification of identity tokens and the cache of signing keys. The
    HTTP client, the JOSE and RSA libraries and JSON parsing are arguments;
    the semaphore's permit is a boolean (whether one was free), the
    environment variable of the secret an option. *)

From Stdlib Require Import Ascii ZArith.
From S2P Require Import Prelude External Cimd Jose.

Definition AUTHORIZE_ENDPOINT : string := "https://accounts.google.com/o/oauth2/v2/auth".
Definition TOKEN_ENDPOINT : string := "https://oauth2.googleapis.com/token".
Definition JWKS_ENDPOINT : string := "https://www.googleapis.com/oauth2/v3/certs".
Definition MAX_TOKEN_RESPONSE : Z := 64 * 1024.
Definition MAX_JWKS_RESPONSE : Z := 256 * 1024.
Definition MAX_KEYS : nat := 32.
Definition MAX_CACHE_AGE : Z := 3600.
Definition UNKNOWN_KID_BACKOFF : Z := 5.
Definition CLOCK_SKEW : Z := 30.

Record Endpoints := {
  ep_authorize : string;
  ep_token : string;
  ep_jwks : string;
}.

Record VerifiedGoogleIdentity := {
  vi_subject : string;
  vi_name : option string;
  vi_given_name : option string;
  vi_family_name : option string;
  vi_picture : option string;
  vi_verified_email : option string;
  vi_auth_time : option Z;
}.

Inductive GoogleError : Type :=
| InvalidConfiguration
| SecretUnavailable
| InvalidAuthorizationInput
| TokenExchange
| KeysUnavailable
| InvalidIdentityToken.

(** The adapter; its key cache is a separate state ([KeyCache]). *)
Record GoogleAdapter := {
  ga_client_id : string;
  ga_client_secret_env : string;
  ga_callback : string;
  ga_endpoints : Endpoints;
}.

Record Jwk := {
  jwk_kty : string;
  jwk_kid : string;
  jwk_n : string;
  jwk_e : string;
  jwk_alg : option string;
  jwk_use : option string;
  jwk_key_ops : option (list string);
}.

Inductive Audience : Type :=
| One (v : string)
| Many (v : list string).

Inductive BoolClaim : Type :=
| Bool (b : bool)
| Text (v : string).

Record Claims := {
  gc_iss : string;
  gc_sub : string;
  gc_aud : Audience;
  gc_azp : option string;
  gc_exp : Z;
  gc_iat : Z;
  gc_nbf : option Z;
  gc_nonce : string;
  gc_auth_time : option Z;
  gc_name : option string;
  gc_given_name : option string;
  gc_family_name : option string;
  gc_picture : option string;
  gc_email : option string;
  gc_email_verified : option BoolClaim;
}.

(** The [jsonwebtoken] and [rsa] crates, and [serde_json] on the bodies the
    adapter reads. [google_decode token key] verifies the RS256 signature
    and the not-before claim (with the leeway) and parses the claims. *)
Class GoogleLib `{JwtLib} := {
  google_decode : string -> DecodingKey -> option Claims;
  rsa_bits : string -> string -> option Z;         (* [RsaPublicKey::new(n, e)], then [n().bits()] *)
  rsa_decoding_key : string -> string -> option DecodingKey;
  parse_token_response : string -> option string;  (* its [id_token] *)
  parse_jwks : string -> option (list Jwk);
}.

(** ** Inputs *)

Definition valid_opaque (value : string) : bool :=
  negb (str_empty value) && (len value <=? 512)%Z && bytes_all is_ascii_graphic value.

Definition valid_pkce_verifier (value : string) : bool :=
  (43 <=? len value)%Z && (len value <=? 128)%Z
  && bytes_all (fun b => is_ascii_alphanumeric b || (b ==? "-"%char) || (b ==? "."%char)
                         || (b ==? "_"%char) || (b ==? "~"%char)) value.

Definition valid_s256_challenge `{Crypto} (value : string) : bool :=
  (len value =? 43)%Z
  && is_some_and (b64_decode value) (fun bytes =>
       (len bytes =? 32)%Z && (b64_encode bytes ==? value)).

(** ** Configuration *)

Definition is_loopback_http (issuer : Url) : bool :=
  (url_scheme issuer ==? "http")
  && match url_host issuer with
     | Some (Ipv4 a _ _ _) => ipv4_is_loopback a
     | Some (Ipv6 segments) => segments ==? ipv6_localhost
     | _ => false
     end.

(** [GoogleAdapter::new], when the HTTP client builds. *)
Definition new_adapter `{UrlLib} (client_id client_secret_env : string) (issuer : Url)
    : result GoogleAdapter GoogleError :=
  if str_empty client_id || str_empty client_secret_env
     || (url_path issuer <>? "/")
     || negb (str_empty (url_username issuer))
     || is_some (url_password issuer)
     || is_some (url_query issuer)
     || is_some (url_fragment issuer)
     || is_none (url_host issuer)
     || (url_scheme issuer <>? "https") && negb (is_loopback_http issuer)
  then Err InvalidConfiguration
  else
    try! callback <- ok_or (url_join issuer "federation/google/callback") InvalidConfiguration;
    Ok {| ga_client_id := client_id;
          ga_client_secret_env := client_secret_env;
          ga_callback := url_as_str callback;
          ga_endpoints := {| ep_authorize := AUTHORIZE_ENDPOINT; ep_token := TOKEN_ENDPOINT;
                             ep_jwks := JWKS_ENDPOINT |} |}.

(** The URL the pairs are appended to, and the pairs, in order. *)
Definition authorization_url `{UrlLib, Crypto} (adapter : GoogleAdapter)
    (state nonce challenge : string) (select_account : bool)
    : result (Url * list (string * string)) GoogleError :=
  if negb (valid_opaque state) || negb (valid_opaque nonce) || negb (valid_s256_challenge challenge)
  then Err InvalidAuthorizationInput
  else
    try! url <- ok_or (url_parse (ep_authorize (ga_endpoints adapter))) InvalidConfiguration;
    Ok (url,
        [ ("client_id", ga_client_id adapter);
          ("redirect_uri", ga_callback adapter);
          ("response_type", "code");
          ("scope", "openid profile email");
          ("state", state);
          ("nonce", nonce);
          ("code_challenge", challenge);
          ("code_challenge_method", "S256");
          ("access_type", "online") ]
        ++ if select_account then [("prompt", "select_account")] else []).

(** [secret]: the value of the environment variable. *)
Definition secret (value : option string) : result string GoogleError :=
  ok_or (opt_filter (fun v => negb (str_empty v)) value) SecretUnavailable.

(** ** Responses *)

(** A response: its status, its Content-Length, its Cache-Control and Age as
    header texts, and the chunks of its body, [None] where reading fails. *)
Record Response := {
  re_status : Z;
  re_content_length : option Z;
  re_cache_control : option string;
  re_age : option string;
  re_chunks : list (option string);
}.

Fixpoint read_chunks (chunks : list (option string)) (maximum : Z) (body : string) : option string :=
  match chunks with
  | [] => Some body
  | None :: _ => None
  | Some chunk :: chunks' =>
      if (maximum <? len body + len chunk)%Z then None
      else read_chunks chunks' maximum (body +:+ chunk)
  end.

Definition bounded_body (response : Response) (maximum : Z) : option string :=
  if is_some_and (re_content_length response) (fun length => (maximum <? length)%Z) then None
  else read_chunks (re_chunks response) maximum EmptyString.

(** [Iterator::find_map]. *)
Fixpoint find_map {A B} (f : A -> option B) (l : list A) : option B :=
  match l with
  | [] => None
  | x :: l' => match f x with Some y => Some y | None => find_map f l' end
  end.

(** In seconds. *)
Definition cache_freshness (cache_control age : option string) : Z :=
  let directives := match cache_control with Some v => v | None => EmptyString end in
  if existsb (fun v => let d := to_ascii_lowercase (trim v) in
                       (d ==? "no-cache") || (d ==? "no-store")) (split_char "," directives)
  then 0%Z
  else
    let max_age :=
      match find_map (fun v =>
              match strip_prefix "max-age=" (to_ascii_lowercase (trim v)) with
              | Some n => parse_unsigned u64_max n
              | None => None
              end) (split_char "," directives) with
      | Some n => Z.min n MAX_CACHE_AGE
      | None => 0%Z
      end in
    let age :=
      match age with
      | Some v => match parse_unsigned u64_max v with Some n => n | None => 0%Z end
      | None => 0%Z
      end in
    u64_saturating_sub max_age age.

(** ** Identity tokens *)

Definition is_true (b : BoolClaim) : bool :=
  match b with
  | Bool v => v
  | Text v => v ==? "true"
  end.

Definition validate_claims (claims : Claims) (client_id nonce : string) (now : Z)
    : result VerifiedGoogleIdentity GoogleError :=
  if negb ((gc_iss claims ==? "accounts.google.com") || (gc_iss claims ==? "https://accounts.google.com"))
     || str_empty (gc_sub claims)
     || (255 <? len (gc_sub claims))%Z
     || negb (bytes_all is_ascii_byte (gc_sub claims))
     || (gc_nonce claims <>? nonce)
     || (i64_saturating_add (gc_exp claims) CLOCK_SKEW <? now)%Z
     || (gc_iat claims <? 0)%Z
     || (now + CLOCK_SKEW <? gc_iat claims)%Z
     || is_some_and (gc_nbf claims) (fun v => (now + CLOCK_SKEW <? v)%Z)
     || is_some_and (gc_auth_time claims) (fun v => (v <? 0)%Z || (now + CLOCK_SKEW <? v)%Z)
  then Err InvalidIdentityToken
  else
    let '(aud_ok, multiple) :=
      match gc_aud claims with
      | One v => (v ==? client_id, false)
      | Many v => (existsb (fun a => a ==? client_id) v, (1 <? length v)%nat)
      end in
    if negb aud_ok
       || is_some_and (gc_azp claims) (fun v => v <>? client_id)
       || multiple && (gc_azp claims <>? Some client_id)
    then Err InvalidIdentityToken
    else
      let verified_email :=
        if is_some_and (gc_email_verified claims) is_true
        then opt_filter (fun v => negb (str_empty v)) (gc_email claims)
        else None in
      Ok {| vi_subject := gc_sub claims;
            vi_name := gc_name claims;
            vi_given_name := gc_given_name claims;
            vi_family_name := gc_family_name claims;
            vi_picture := gc_picture claims;
            vi_verified_email := verified_email;
            vi_auth_time := gc_auth_time claims |}.

Section Adapter.
Context `{Crypto, JwtLib, !GoogleLib}.

(** [has_unsupported_crit]: [split('.').next()] always yields a piece. *)
Definition has_unsupported_crit (token : string) : bool :=
  match split_char "." token with
  | [] => true
  | encoded :: _ =>
      match b64_decode encoded with
      | None => true
      | Some bytes =>
          match json_value bytes with
          | None => true
          | Some value =>
              is_some_and
                (match value with JObject m => obj_get "crit" m | _ => None end)
                (fun crit => is_none_or (as_array crit) (fun items => negb (length items =? 0)%nat))
          end
      end
  end.

(** ** Signing keys *)

Record KeyCache := {
  kc_keys : gmap string DecodingKey;
  kc_fresh_until : Z;
  kc_last_attempt : option Z;
}.

(** The cache of a new adapter. *)
Definition new_cache (now : Z) : KeyCache :=
  {| kc_keys := ∅; kc_fresh_until := now; kc_last_attempt := None |}.

(** The body of the loop of [fetch_keys]. *)
Definition accept_jwk (jwk : Jwk) (keys : gmap string DecodingKey)
    : result (gmap string DecodingKey) GoogleError :=
  if (jwk_kty jwk <>? "RSA")
     || str_empty (jwk_kid jwk)
     || (128 <? len (jwk_kid jwk))%Z
     || is_some_and (jwk_alg jwk) (fun v => v <>? "RS256")
     || is_some_and (jwk_use jwk) (fun v => v <>? "sig")
     || is_some_and (jwk_key_ops jwk) (fun ops =>
          (length ops =? 0)%nat || existsb (fun op => op <>? "verify") ops)
  then Err KeysUnavailable
  else
    try! n <- ok_or (b64_decode (jwk_n jwk)) KeysUnavailable;
    try! e <- ok_or (b64_decode (jwk_e jwk)) KeysUnavailable;
    if negb ((256 <=? len n) && (len n <=? 1024))%Z || str_empty e || (8 <? len e)%Z
    then Err KeysUnavailable
    else
      try! bits <- ok_or (rsa_bits n e) KeysUnavailable;
      if negb ((2048 <=? bits) && (bits <=? 8192))%Z then Err KeysUnavailable
      else
        try! key <- ok_or (rsa_decoding_key (jwk_n jwk) (jwk_e jwk)) KeysUnavailable;
        if is_some (keys !! jwk_kid jwk) then Err KeysUnavailable
        else Ok (<[jwk_kid jwk := key]> keys).

Fixpoint accept_jwks (jwks : list Jwk) (keys : gmap string DecodingKey)
    : result (gmap string DecodingKey) GoogleError :=
  match jwks with
  | [] => Ok keys
  | jwk :: jwks' => try! keys' <- accept_jwk jwk keys; accept_jwks jwks' keys'
  end.

(** [permit]: whether the semaphore had one; [response]: [None] when the
    request fails. *)
Definition fetch_keys (permit : bool) (response : option Response)
    : result (gmap string DecodingKey * Z) GoogleError :=
  if negb permit then Err KeysUnavailable
  else
    try! response <- ok_or response KeysUnavailable;
    if negb (re_status response =? 200)%Z then Err KeysUnavailable
    else
      let freshness := cache_freshness (re_cache_control response) (re_age response) in
      try! body <- ok_or (bounded_body response MAX_JWKS_RESPONSE) KeysUnavailable;
      try! jwks <- ok_or (parse_jwks body) KeysUnavailable;
      if (length jwks =? 0)%nat || (MAX_KEYS <? length jwks)%nat then Err KeysUnavailable
      else
        try! keys <- accept_jwks jwks ∅;
        Ok (keys, freshness).

(** What a call of [key] comes to by its only await: it is answered, or it
    requests the key set. *)
Inductive KeyCall : Type :=
| KeyAnswered (answer : result DecodingKey GoogleError)
| KeyRequested.

(** [key] up to the await, at the first clock reading [now]; the attempt is
    recorded before the request is sent. *)
Definition key_lookup (kid : string) (now : Z) (cache : KeyCache) : KeyCall * KeyCache :=
  match (if (now <? kc_fresh_until cache)%Z then kc_keys cache !! kid else None) with
  | Some k => (KeyAnswered (Ok k), cache)
  | None =>
      if is_some_and (kc_last_attempt cache) (fun attempt =>
           (Z.max 0 (now - attempt) <? nanos UNKNOWN_KID_BACKOFF)%Z)
      then (KeyAnswered (Err KeysUnavailable), cache)
      else
        (KeyRequested,
         {| kc_keys := kc_keys cache; kc_fresh_until := kc_fresh_until cache;
            kc_last_attempt := Some now |})
  end.

(** [key] after the await: [fetch] is the answer of [fetch_keys], [fetched]
    the second clock reading. *)
Definition key_store (kid : string) (fetched : Z)
    (fetch : result (gmap string DecodingKey * Z) GoogleError) (cache : KeyCache)
    : result DecodingKey GoogleError * KeyCache :=
  match fetch with
  | Err e => (Err e, cache)
  | Ok (keys, freshness) =>
      (ok_or (keys !! kid) KeysUnavailable,
       {| kc_keys := keys; kc_fresh_until := (fetched + nanos freshness)%Z;
          kc_last_attempt := kc_last_attempt cache |})
  end.

(** [key]: the mutex is held throughout, so that nothing else happens to the
    cache across the await. *)
Definition key (kid : string) (now fetched : Z)
    (fetch : result (gmap string DecodingKey * Z) GoogleError) (cache : KeyCache)
    : result DecodingKey GoogleError * KeyCache :=
  match key_lookup kid now cache with
  | (KeyAnswered answer, cache') => (answer, cache')
  | (KeyRequested, cache') => key_store kid fetched fetch cache'
  end.

(** [verify_id_token] up to the key: the key identifier of an acceptable
    header. *)
Definition token_kid (token expected_nonce : string) : result string GoogleError :=
  if (MAX_TOKEN_RESPONSE <? len token)%Z || negb (valid_opaque expected_nonce)
  then Err InvalidIdentityToken
  else
    try! header <- ok_or (jwt_header token) InvalidIdentityToken;
    if (jh_alg header <>? RS256) || has_unsupported_crit token
       || is_some_and (jh_typ header) (fun v => v <>? "JWT")
    then Err InvalidIdentityToken
    else
      try! kid <- ok_or (jh_kid header) InvalidIdentityToken;
      if str_empty kid || (128 <? len kid)%Z then Err InvalidIdentityToken
      else Ok kid.

Definition verify_id_token (adapter : GoogleAdapter) (token expected_nonce : string)
    (now fetched unix_now : Z) (fetch : result (gmap string DecodingKey * Z) GoogleError)
    (cache : KeyCache) : result VerifiedGoogleIdentity GoogleError * KeyCache :=
  match token_kid token expected_nonce with
  | Err e => (Err e, cache)
  | Ok kid =>
      match key kid now fetched fetch cache with
      | (Err e, cache') => (Err e, cache')
      | (Ok k, cache') =>
          (try! claims <- ok_or (google_decode token k) InvalidIdentityToken;
           validate_claims claims (ga_client_id adapter) expected_nonce unix_now,
           cache')
      end
  end.

(** The form posted to the token endpoint. *)
Definition token_form (adapter : GoogleAdapter) (code verifier secret : string)
    : list (string * string) :=
  [ ("code", code);
    ("client_id", ga_client_id adapter);
    ("client_secret", secret);
    ("redirect_uri", ga_callback adapter);
    ("grant_type", "authorization_code");
    ("code_verifier", verifier) ].

(** [exchange_code]: [post] is the HTTP exchange with the token endpoint;
    the permit is back before the keys are fetched. *)
Definition exchange_code (adapter : GoogleAdapter) (env : option string) (permit : bool)
    (post : string -> list (string * string) -> option Response)
    (code verifier expected_nonce : string)
    (now fetched unix_now : Z) (fetch : result (gmap string DecodingKey * Z) GoogleError)
    (cache : KeyCache) : result VerifiedGoogleIdentity GoogleError * KeyCache :=
  let token :=
    if negb (valid_opaque code) || negb (valid_pkce_verifier verifier)
       || negb (valid_opaque expected_nonce)
    then Err InvalidAuthorizationInput
    else
      try! secret <- secret env;
      if negb permit then Err TokenExchange
      else
        try! response <-
          ok_or (post (ep_token (ga_endpoints adapter)) (token_form adapter code verifier secret))
            TokenExchange;
        if negb (re_status response =? 200)%Z then Err TokenExchange
        else
          try! body <- ok_or (bounded_body response MAX_TOKEN_RESPONSE) TokenExchange;
          ok_or (parse_token_response body) TokenExchange in
  match token with
  | Err e => (Err e, cache)
  | Ok token => verify_id_token adapter token expected_nonce now fetched unix_now fetch cache
  end.
End Adapter.
