(* ===== verification/Database.v ===== *)
(** * Database: src/src/database.rs, users and their external identities

    Finding or creating the user of an external identity, and the profile
    stored at each verified sign-in, as programs over the database. The
    connection pool and the migrations are not modelled: the tables and their
    constraints are Schema.v. *)

From Stdlib Require Import Ascii ZArith.
From S2P Require Import Prelude External Schema Effects Identity Google.

Record UserProfile := {
  pr_name : option string;
  pr_given_name : option string;
  pr_family_name : option string;
  pr_picture : option string;
  pr_verified_email : option string;
}.

(** [DateTime::<Utc>::from_timestamp(v, 0)]: [None] outside chrono's years. *)
Definition chrono_min : Z := -8334601228800.
Definition chrono_max : Z := 8210266876799.
Definition from_timestamp (v : Z) : option Z :=
  if ((chrono_min <=? v) && (v <=? chrono_max))%Z then Some (seconds v) else None.

(** [identity.auth_time().and_then(..)]. *)
Definition identity_auth_time (identity : VerifiedGoogleIdentity) : option Z :=
  match vi_auth_time identity with Some v => from_timestamp v | None => None end.

Definition profile_of (identity : VerifiedGoogleIdentity) (now : Z) : profile_rec :=
  {| up_name := vi_name identity;
     up_given_name := vi_given_name identity;
     up_family_name := vi_family_name identity;
     up_picture := vi_picture identity;
     up_verified_email := vi_verified_email identity;
     up_updated_at := now |}.

(** ** Statements *)

(** [SELECT pg_advisory_xact_lock(..)] on an issuer and a subject. *)
Definition lock_identity_stmt (issuer subject : string) : stmt unit :=
  select_for_update (fun _ => [RowIdentity issuer subject]) (fun _ _ => tt).
Definition select_identity (issuer subject : string) : stmt (option Uuid) :=
  select (fun _ d => external_identities d !! (issuer, subject)).
(** [id] is what the server's [gen_random_uuid()] draws. *)
Definition insert_user_stmt (id : Uuid) : stmt unit :=
  modify (fun _ => [RowUser id]) (fun _ d => insert_user_row id d).
Definition insert_identity_stmt (issuer subject : string) (user : Uuid) : stmt unit :=
  modify (fun _ => [RowIdentity issuer subject]) (fun _ d => insert_identity_row issuer subject user d).
(** [INSERT .. ON CONFLICT(user_id) DO UPDATE ..]. *)
Definition upsert_profile_stmt (user : Uuid) (profile : profile_rec) : stmt unit :=
  modify (fun _ => [RowProfile user]) (fun _ d =>
    if is_some (users d !! user)
    then Ok (set_profiles (<[user := profile]> (user_profiles d)) d)
    else Err DbConstraint).
Definition select_profile (user_id : Uuid) : stmt (option UserProfile) :=
  select (fun _ d => option_map (fun p =>
    {| pr_name := up_name p; pr_given_name := up_given_name p; pr_family_name := up_family_name p;
       pr_picture := up_picture p; pr_verified_email := up_verified_email p |}) (user_profiles d !! user_id)).

(** ** Operations *)

Section Operations.
Context {E : Type} `{!FromDb E}.

(** The user of an identity, created with it when there is none. *)
Definition find_or_insert_identity (issuer subject : string) : M E Uuid :=
  existing <- sql (select_identity issuer subject) ;;
  match existing with
  | Some id => ret id
  | None =>
      id <- new_uuid ;;
      sql (insert_user_stmt id) ;;;
      sql (insert_identity_stmt issuer subject id) ;;;
      ret id
  end.

Definition lock_verified_google_identity_tx (identity : VerifiedGoogleIdentity) : M E unit :=
  sql (lock_identity_stmt "https://accounts.google.com" (vi_subject identity)).

Definition upsert_verified_google_identity_tx (identity : VerifiedGoogleIdentity) (now : Z)
    : M E Uuid :=
  user <- find_or_insert_identity "https://accounts.google.com" (vi_subject identity) ;;
  sql (upsert_profile_stmt user (profile_of identity now)) ;;;
  ret user.
End Operations.

Definition find_or_create_external_identity (identity : ExternalIdentity) : M DbError Uuid :=
  with_tx (
    sql (lock_identity_stmt (ei_issuer identity) (ei_subject identity)) ;;;
    user_id <- find_or_insert_identity (ei_issuer identity) (ei_subject identity) ;;
    commit ;;;
    ret user_id).

Definition find_or_create_verified_google_identity (identity : VerifiedGoogleIdentity)
    : M DbError AuthenticatedUser :=
  with_tx (
    lock_verified_google_identity_tx identity ;;;
    now <- sql clock_timestamp ;;
    id <- upsert_verified_google_identity_tx identity now ;;
    commit ;;;
    ret {| au_id := id; au_upstream_auth_time := identity_auth_time identity |}).

Definition user_profile (user_id : Uuid) : M DbError (option UserProfile) :=
  sql (select_profile user_id).
