(* ===== verification/Credentials.v ===== *)
(** * Credentials: src/src/credentials.rs

    Provider sessions, one-time authorization codes, refresh families with
    strict rotation, revocation and logout: each method of
    [CredentialStore] as a program over the database, each SQL statement as
    a [stmt]. *)

From Stdlib Require Import Ascii ZArith.
From S2P Require Import Prelude External Schema Effects Identity Cimd OAuth.

Record ProviderSession := {
  se_raw : string;
  se_id : Uuid;
  se_expires_at : Z;
}.

(** [AuthorizationCode] and [RefreshToken] wrap their raw text. *)
Record ExchangeResult := {
  er_session_id : Uuid;
  er_user_id : Uuid;
  er_client_id : string;
  er_scopes : list string;
  er_resource : string;
  er_refresh_token : option string;
  er_oidc_nonce : option string;
  er_upstream_auth_time : option Z;
}.

Inductive CredentialError : Type :=
| MetadataExpired
| InvalidGrant
| InvalidLifetime
| Database (e : DbError).

#[export] Instance credential_from_db : FromDb CredentialError := Database.

(** [std::time::Duration]. *)
Record Duration := { dur_secs : Z; dur_nanos : Z }.

(** The columns read by the queries. *)
Record CodeRow := {
  cr_id : Uuid;
  cr_session_id : Uuid;
  cr_client_id : string;
  cr_redirect_uri : string;
  cr_scopes : list string;
  cr_resource : string;
  cr_code_challenge : string;
  cr_issue_refresh_token : bool;
  cr_oidc_nonce : option string;
  cr_upstream_auth_time : option Z;
  cr_cimd_binding : option string;
}.
Record CodeState := { cs_expires_at : Z; cs_consumed_at : option Z }.
Record SessionRow := { sr_user_id : Uuid; sr_expires_at : Z; sr_revoked_at : option Z }.
Record TokenLookup := { tl_id : Uuid; tl_family_id : Uuid; tl_session_id : Uuid }.
Record RevocationLookup := { rl_family_id : Uuid; rl_session_id : Uuid; rl_client_id : string }.
Record FamilyRow := {
  fr_client_id : string;
  fr_scopes : list string;
  fr_resource : string;
  fr_expires_at : Z;
  fr_revoked_at : option Z;
  fr_upstream_auth_time : option Z;
  fr_cimd_binding : option string;
}.

Definition code_row (id : Uuid) (r : code_rec) : CodeRow :=
  {| cr_id := id; cr_session_id := ac_session_id r; cr_client_id := ac_client_id r;
     cr_redirect_uri := ac_redirect_uri r; cr_scopes := ac_scopes r; cr_resource := ac_resource r;
     cr_code_challenge := ac_code_challenge r; cr_issue_refresh_token := ac_issue_refresh_token r;
     cr_oidc_nonce := ac_oidc_nonce r; cr_upstream_auth_time := ac_upstream_auth_time r;
     cr_cimd_binding := ac_cimd_binding r |}.
Definition session_row (r : session_rec) : SessionRow :=
  {| sr_user_id := ps_user_id r; sr_expires_at := ps_expires_at r; sr_revoked_at := ps_revoked_at r |}.
Definition family_row (r : family_rec) : FamilyRow :=
  {| fr_client_id := rf_client_id r; fr_scopes := rf_scopes r; fr_resource := rf_resource r;
     fr_expires_at := rf_expires_at r; fr_revoked_at := rf_revoked_at r;
     fr_upstream_auth_time := rf_upstream_auth_time r; fr_cimd_binding := rf_cimd_binding r |}.

(** SQL's COALESCE(o, t) and LEAST(t, o), which skips NULL. *)
Definition coalesce (o : option Z) (t : Z) : Z := match o with Some x => x | None => t end.
Definition least (t : Z) (o : option Z) : Z := match o with Some x => Z.min t x | None => t end.

(** ** Row updates *)

Definition revoke_session (t : Z) (r : session_rec) : session_rec :=
  {| ps_token_hash := ps_token_hash r; ps_user_id := ps_user_id r; ps_auth_time := ps_auth_time r;
     ps_expires_at := ps_expires_at r; ps_revoked_at := Some (coalesce (ps_revoked_at r) t);
     ps_upstream_auth_time := ps_upstream_auth_time r |}.
Definition consume_code (t : Z) (r : code_rec) : code_rec :=
  {| ac_code_hash := ac_code_hash r; ac_session_id := ac_session_id r;
     ac_client_id := ac_client_id r; ac_redirect_uri := ac_redirect_uri r;
     ac_scopes := ac_scopes r; ac_resource := ac_resource r;
     ac_code_challenge := ac_code_challenge r;
     ac_issue_refresh_token := ac_issue_refresh_token r; ac_issued_at := ac_issued_at r;
     ac_expires_at := ac_expires_at r; ac_consumed_at := Some t;
     ac_oidc_nonce := ac_oidc_nonce r; ac_upstream_auth_time := ac_upstream_auth_time r;
     ac_cimd_binding := ac_cimd_binding r |}.
Definition revoke_family (t : Z) (r : family_rec) : family_rec :=
  {| rf_source_code_id := rf_source_code_id r; rf_session_id := rf_session_id r;
     rf_user_id := rf_user_id r; rf_client_id := rf_client_id r; rf_scopes := rf_scopes r;
     rf_resource := rf_resource r; rf_issued_at := rf_issued_at r;
     rf_expires_at := rf_expires_at r; rf_revoked_at := Some (coalesce (rf_revoked_at r) t);
     rf_upstream_auth_time := rf_upstream_auth_time r; rf_cimd_binding := rf_cimd_binding r |}.
Definition consume_member (t : Z) (successor : Uuid) (r : member_rec) : member_rec :=
  {| rt_family_id := rt_family_id r; rt_token_hash := rt_token_hash r;
     rt_issued_at := rt_issued_at r; rt_consumed_at := Some t;
     rt_successor_id := Some successor |}.

(** [UPDATE provider_sessions SET revoked_at=COALESCE(revoked_at,t) WHERE id=$1]. *)
Definition revoke_session_at (id : Uuid) (t : Z) (d : DB) : DB :=
  set_sessions (alter (revoke_session t) id (provider_sessions d)) d.
(** [UPDATE refresh_families SET revoked_at=COALESCE(revoked_at,t) WHERE p]. *)
Definition revoke_families_where (p : Uuid -> family_rec -> bool) (t : Uuid -> Z) (d : DB) : DB :=
  set_families (update_rows p (fun k => revoke_family (t k)) (refresh_families d)) d.
Definition families_where (p : Uuid -> family_rec -> bool) (d : DB) : list RowId :=
  map (fun kv => RowFamily kv.1) (List.filter (fun kv => p kv.1 kv.2) (map_to_list (refresh_families d))).

(** [$n::jsonb] on an optional text. *)
Definition cast_jsonb `{JsonDb} (o : option string) : result (option string) DbError :=
  match o with
  | None => Ok None
  | Some s => match jsonb_text s with Some t => Ok (Some t) | None => Err DbFault end
  end.

(** The member with a token hash joined with its family. *)
Definition member_join_family (h : string) (d : DB) : option (Uuid * member_rec * family_rec) :=
  match find_row (fun _ m => rt_token_hash m ==? h) (refresh_token_members d) with
  | None => None
  | Some (id, m) =>
      match refresh_families d !! rt_family_id m with
      | None => None
      | Some f => Some (id, m, f)
      end
  end.

(** ** Pure helpers *)

Section Store.
Context `{Crypto, UrlLib, JsonLib, JsonDb}.

Definition hash (raw : string) : string := sha256 raw.

Definition credential_policy_error (error : OAuthError) : CredentialError :=
  match error with
  | OAuth.MetadataExpired => MetadataExpired
  | _ => InvalidGrant
  end.

Definition check_binding (now : Z) (registry : option ClientRegistry) (client : string)
    (binding : option string) : result unit CredentialError :=
  match registry with
  | Some registry =>
      map_err (fun error =>
        match error with OAuth.MetadataExpired => MetadataExpired | _ => InvalidGrant end)
        (validate_binding now registry client binding)
  | None => if is_none binding then Ok tt else Err InvalidGrant
  end.

(** [bounded_seconds]: the float it returns is a whole number of seconds. *)
Definition bounded_seconds (duration : Duration) (maximum : Z) : result Z CredentialError :=
  if ((dur_secs duration =? 0) && (dur_nanos duration =? 0))%Z
     || (maximum <? dur_secs duration)%Z || negb (dur_nanos duration =? 0)%Z
  then Err InvalidLifetime
  else Ok (dur_secs duration).

Definition random_credential {E} : M E string :=
  bytes <- random_bytes ;; ret (b64_encode bytes).

Definition same_scopes (left right : list string) : bool :=
  let input_len := length left in
  let left := bset_of_list left in
  let right := bset_of_list right in
  (length left =? input_len)%nat && (left ==? right).

(** [if let Err(error) = check_binding(..) { tx.rollback().await?; return Err(error) }]. *)
Definition check_binding_tx (registry : option ClientRegistry) (client : string)
    (binding : option string) : M CredentialError unit :=
  r <- at_instant (fun now => check_binding now registry client binding) ;;
  or_rollback r.

(** ** Statements *)

Definition insert_session_stmt (id : Uuid) (token_hash : string) (user : Uuid) (secs : Z)
    (upstream : option Z) : stmt Z :=
  Stmt (fun _ => [RowSession id]) (fun clk d =>
    let t := clk 0%N in
    let expires_at := (t + seconds secs)%Z in
    match insert_session_row id
            {| ps_token_hash := token_hash; ps_user_id := user; ps_auth_time := t;
               ps_expires_at := expires_at; ps_revoked_at := None;
               ps_upstream_auth_time := upstream |} d with
    | Ok d' => Ok (expires_at, d')
    | Err e => Err e
    end).

(** Active session with a token hash. *)
Definition select_active_session (token_hash : string) : stmt (option (Uuid * Z)) :=
  select (fun clk d =>
    option_map (fun kv => (kv.1, ps_expires_at kv.2))
      (find_row (fun id s =>
         (ps_token_hash s ==? token_hash) && is_none (ps_revoked_at s)
         && (clk id <? ps_expires_at s)%Z) (provider_sessions d))).

Definition lock_session_id (id : Uuid) : stmt (option Uuid) :=
  select_for_update (fun _ => [RowSession id])
    (fun _ d => option_map (fun _ => id) (provider_sessions d !! id)).
Definition lock_session_row (id : Uuid) : stmt (option SessionRow) :=
  select_for_update (fun _ => [RowSession id])
    (fun _ d => option_map session_row (provider_sessions d !! id)).
Definition select_session_active (id : Uuid) : stmt (option bool) :=
  select (fun clk d => option_map (fun s =>
    is_none (ps_revoked_at s) && (clk id <? ps_expires_at s)%Z) (provider_sessions d !! id)).
Definition select_upstream_auth_time (id : Uuid) : stmt (option (option Z)) :=
  select (fun _ d => option_map ps_upstream_auth_time (provider_sessions d !! id)).

Definition select_code_by_hash (h : string) : stmt (option CodeRow) :=
  select (fun _ d => option_map (fun kv => code_row kv.1 kv.2)
    (find_row (fun _ c => ac_code_hash c ==? h) (authorization_codes d))).
Definition lock_code_state (id : Uuid) : stmt (option CodeState) :=
  select_for_update (fun _ => [RowCode id]) (fun _ d =>
    option_map (fun c => {| cs_expires_at := ac_expires_at c; cs_consumed_at := ac_consumed_at c |})
      (authorization_codes d !! id)).
Definition lock_code_row (id : Uuid) : stmt (option CodeRow) :=
  select_for_update (fun _ => [RowCode id])
    (fun _ d => option_map (code_row id) (authorization_codes d !! id)).
Definition consume_code_stmt (id : Uuid) (now : Z) : stmt unit :=
  modify (fun _ => [RowCode id])
    (fun _ d => Ok (set_codes (alter (consume_code now) id (authorization_codes d)) d)).
Definition select_code_request (h client_id redirect_uri : string)
    : stmt (option (list string * string * string)) :=
  select (fun _ d => option_map (fun kv => (ac_scopes kv.2, ac_resource kv.2, ac_code_challenge kv.2))
    (find_row (fun _ c => (ac_code_hash c ==? h) && (ac_client_id c ==? client_id)
                          && (ac_redirect_uri c ==? redirect_uri)) (authorization_codes d))).

Definition revoke_families_stmt (p : Uuid -> family_rec -> bool) (now : Z) : stmt unit :=
  modify (families_where p) (fun _ d => Ok (revoke_families_where p (fun _ => now) d)).

Definition insert_family_stmt (family_id : Uuid) (code : CodeRow) (session : SessionRow) (now : Z)
    : stmt unit :=
  modify (fun _ => [RowFamily family_id]) (fun _ d =>
    try! binding <- cast_jsonb (cr_cimd_binding code);
    insert_family_row family_id
      {| rf_source_code_id := cr_id code; rf_session_id := cr_session_id code;
         rf_user_id := sr_user_id session; rf_client_id := cr_client_id code;
         rf_scopes := cr_scopes code; rf_resource := cr_resource code; rf_issued_at := now;
         rf_expires_at := Z.min (now + days 30) (sr_expires_at session);
         rf_revoked_at := None; rf_upstream_auth_time := cr_upstream_auth_time code;
         rf_cimd_binding := binding |} d).

Definition insert_member_stmt (id family_id : Uuid) (token_hash : string) (now : Z) : stmt unit :=
  modify (fun _ => [RowMember id]) (fun _ d =>
    insert_member_row id
      {| rt_family_id := family_id; rt_token_hash := token_hash; rt_issued_at := now;
         rt_consumed_at := None; rt_successor_id := None |} d).

Definition select_token (h : string) : stmt (option TokenLookup) :=
  select (fun _ d => option_map (fun '(id, m, f) =>
    {| tl_id := id; tl_family_id := rt_family_id m; tl_session_id := rf_session_id f |})
    (member_join_family h d)).
Definition lock_family_row (id : Uuid) : stmt (option FamilyRow) :=
  select_for_update (fun _ => [RowFamily id])
    (fun _ d => option_map family_row (refresh_families d !! id)).
Definition lock_family_id (id : Uuid) : stmt (option Uuid) :=
  select_for_update (fun _ => [RowFamily id])
    (fun _ d => option_map (fun _ => id) (refresh_families d !! id)).
Definition lock_member_row (id : Uuid) : stmt (option (option Z)) :=
  select_for_update (fun _ => [RowMember id])
    (fun _ d => option_map rt_consumed_at (refresh_token_members d !! id)).
Definition select_member_id (h : string) : stmt (option Uuid) :=
  select (fun _ d => option_map fst
    (find_row (fun _ m => rt_token_hash m ==? h) (refresh_token_members d))).
(** [successor_id] references the members. *)
Definition consume_member_stmt (id : Uuid) (now : Z) (successor : Uuid) : stmt unit :=
  modify (fun _ => [RowMember id]) (fun _ d =>
    if is_none (refresh_token_members d !! id) || is_some (refresh_token_members d !! successor)
    then Ok (set_members (alter (consume_member now successor) id (refresh_token_members d)) d)
    else Err DbConstraint).
Definition select_refresh_request (h client_id : string) : stmt (option (list string * string)) :=
  select (fun _ d =>
    match member_join_family h d with
    | Some (_, _, f) =>
        if rf_client_id f ==? client_id then Some (rf_scopes f, rf_resource f) else None
    | None => None
    end).
Definition select_revocation (h : string) : stmt (option RevocationLookup) :=
  select (fun _ d => option_map (fun '(_, m, f) =>
    {| rl_family_id := rt_family_id m; rl_session_id := rf_session_id f;
       rl_client_id := rf_client_id f |}) (member_join_family h d)).
Definition revoke_family_now (id : Uuid) : stmt unit :=
  modify (fun _ => [RowFamily id]) (fun clk d => Ok (revoke_families_where (fun k _ => k ==? id) clk d)).
Definition revoke_session_now (id : Uuid) : stmt unit :=
  modify (fun _ => [RowSession id]) (fun clk d => Ok (revoke_session_at id (clk id) d)).
Definition revoke_session_families_now (id : Uuid) : stmt unit :=
  modify (families_where (fun _ f => rf_session_id f ==? id))
    (fun clk d => Ok (revoke_families_where (fun _ f => rf_session_id f ==? id) clk d)).

(** ** Provider sessions *)

Definition create_provider_session (user : AuthenticatedUser) (lifetime : Duration)
    : M CredentialError ProviderSession :=
  secs <- lift (bounded_seconds lifetime (30 * 24 * 60 * 60)) ;;
  raw <- random_credential ;;
  id <- new_uuid ;;
  expires_at <- sql (insert_session_stmt id (hash raw) (au_id user) secs (au_upstream_auth_time user)) ;;
  ret {| se_raw := raw; se_id := id; se_expires_at := expires_at |}.

Definition find_provider_session (raw : string) : M CredentialError ProviderSession :=
  row <- sql (select_active_session (hash raw)) ;;
  match row with
  | Some (id, expires_at) => ret {| se_raw := raw; se_id := id; se_expires_at := expires_at |}
  | None => raise InvalidGrant
  end.

(** ** Authorization codes *)

(** The INSERT reads the clock once and caps the expiry at the session's. *)
Definition insert_code_stmt (id : Uuid) (code_hash : string) (session_id : Uuid)
    (grant : ValidatedAuthorizationGrant) (oidc_nonce : option string)
    (upstream_auth_time : option Z) (lifetime_seconds : Z) : stmt unit :=
  modify (fun _ => [RowCode id]) (fun clk d =>
    let t := clk 0%N in
    try! binding <- cast_jsonb (cimd_binding_json (vg_dynamic grant));
    insert_code_row id
      {| ac_code_hash := code_hash; ac_session_id := session_id;
         ac_client_id := vg_client_id grant; ac_redirect_uri := vg_redirect_uri grant;
         ac_scopes := vg_scopes grant; ac_resource := vg_resource grant;
         ac_code_challenge := vg_code_challenge grant;
         ac_issue_refresh_token := vg_issue_refresh_token grant;
         ac_issued_at := t;
         ac_expires_at := least (t + seconds lifetime_seconds)
           (option_map ps_expires_at (provider_sessions d !! session_id));
         ac_consumed_at := None; ac_oidc_nonce := oidc_nonce;
         ac_upstream_auth_time := upstream_auth_time; ac_cimd_binding := binding |} d).

Definition insert_authorization_code_tx {E} `{!FromDb E} (session_id : Uuid)
    (grant : ValidatedAuthorizationGrant) (oidc_nonce : option string)
    (upstream_auth_time : option Z) (lifetime_seconds : Z) : M E string :=
  raw <- random_credential ;;
  id <- new_uuid ;;
  sql (insert_code_stmt id (hash raw) session_id grant oidc_nonce upstream_auth_time
         lifetime_seconds) ;;;
  ret raw.

(** [if grant.ensure_fresh().is_err() { tx.rollback().await?; return Err(MetadataExpired) }]. *)
Definition grant_fresh_tx (grant : ValidatedAuthorizationGrant) : M CredentialError unit :=
  fresh <- at_instant (fun now => ensure_fresh now (vg_dynamic grant)) ;;
  or_rollback (map_err (fun _ => MetadataExpired) fresh).

Definition issue_authorization_code (session : ProviderSession)
    (grant : ValidatedAuthorizationGrant) (lifetime : Duration) : M CredentialError string :=
  secs <- lift (bounded_seconds lifetime 60) ;;
  with_tx (
    locked <- sql (lock_session_id (se_id session)) ;;
    if is_none locked then raise InvalidGrant
    else
      active <- sql (fetch_one (select_session_active (se_id session))) ;;
      if negb active then raise InvalidGrant
      else
        upstream_auth_time <- sql (fetch_one (select_upstream_auth_time (se_id session))) ;;
        grant_fresh_tx grant ;;;
        code <- insert_authorization_code_tx (se_id session) grant None upstream_auth_time secs ;;
        grant_fresh_tx grant ;;;
        commit ;;;
        ret code).

Definition insert_refresh {E} `{!FromDb E} (family_id : Uuid) (now : Z) : M E string :=
  token <- random_credential ;;
  id <- new_uuid ;;
  sql (insert_member_stmt id family_id (hash token) now) ;;;
  ret token.

(** The policy check of an exchange with a registry. *)
Definition check_policy_tx (registry : option ClientRegistry) (client_id redirect_uri : string)
    (code : CodeRow) (resource : string) : M CredentialError unit :=
  match registry with
  | None => ret tt
  | Some registry =>
      r <- at_instant (fun now =>
             validate_pending_parts now registry client_id redirect_uri "code" "S256"
               (cr_code_challenge code) (cr_scopes code) (Some resource)) ;;
      or_rollback (map_err credential_policy_error r) ;;;
      ret tt
  end.

(** A consumed code: the family it issued is revoked, and the answer is the
    same as for an unknown code. *)
Definition replay_code_tx (registry : option ClientRegistry) (client_id : string) (code : CodeRow)
    (now : Z) : M CredentialError ExchangeResult :=
  sql (revoke_families_stmt (fun _ f => rf_source_code_id f ==? cr_id code) now) ;;;
  check_binding_tx registry client_id (cr_cimd_binding code) ;;;
  commit ;;;
  raise InvalidGrant.

(** The first refresh token of a code that grants refresh. *)
Definition start_family_tx (code : CodeRow) (session : SessionRow) (now : Z)
    : M CredentialError (option string) :=
  if cr_issue_refresh_token code then
    family_id <- new_uuid ;;
    sql (insert_family_stmt family_id code session now) ;;;
    token <- insert_refresh family_id now ;;
    ret (Some token)
  else ret None.

Definition exchange_code_bound (raw client_id redirect_uri resource verifier : string)
    (registry : option ClientRegistry) : M CredentialError ExchangeResult :=
  with_tx (
    found <- sql (select_code_by_hash (hash raw)) ;;
    match found with
    | None => raise InvalidGrant
    | Some code =>
        if (cr_client_id code <>? client_id) || (cr_redirect_uri code <>? redirect_uri)
           || (cr_resource code <>? resource)
           || negb (verify_s256 verifier (cr_code_challenge code))
        then raise InvalidGrant
        else
          session <- sql (lock_session_row (cr_session_id code)) ;;
          match session with
          | None => raise InvalidGrant
          | Some session =>
              locked <- sql (fetch_one (lock_code_state (cr_id code))) ;;
              current <- sql (fetch_one (lock_code_row (cr_id code))) ;;
              if negb (cr_session_id current =? cr_session_id code)%N
                 || (cr_client_id current <>? client_id)
                 || (cr_redirect_uri current <>? redirect_uri)
                 || (cr_resource current <>? resource)
                 || negb (verify_s256 verifier (cr_code_challenge current))
              then raise InvalidGrant
              else
                let code := current in
                check_binding_tx registry client_id (cr_cimd_binding code) ;;;
                check_policy_tx registry client_id redirect_uri code resource ;;;
                now <- sql clock_timestamp ;;
                check_binding_tx registry client_id (cr_cimd_binding code) ;;;
                if is_some (cs_consumed_at locked)
                then replay_code_tx registry client_id code now
                else if (cs_expires_at locked <=? now)%Z || (sr_expires_at session <=? now)%Z
                        || is_some (sr_revoked_at session)
                then raise InvalidGrant
                else
                  sql (consume_code_stmt (cr_id code) now) ;;;
                  refresh_token <- start_family_tx code session now ;;
                  check_binding_tx registry client_id (cr_cimd_binding code) ;;;
                  commit ;;;
                  ret {| er_session_id := cr_session_id code;
                         er_user_id := sr_user_id session;
                         er_client_id := cr_client_id code;
                         er_scopes := cr_scopes code;
                         er_resource := cr_resource code;
                         er_refresh_token := refresh_token;
                         er_oidc_nonce := cr_oidc_nonce code;
                         er_upstream_auth_time := cr_upstream_auth_time code |}
          end
    end).

Definition exchange_code (raw client_id redirect_uri resource verifier : string)
    : M CredentialError ExchangeResult :=
  exchange_code_bound raw client_id redirect_uri resource verifier None.

Definition exchange_code_request (raw client_id redirect_uri : string) (resource : option string)
    (verifier : string) (scopes : option (list string)) (registry : ClientRegistry)
    : M CredentialError ExchangeResult :=
  row <- sql (select_code_request (hash raw) client_id redirect_uri) ;;
  match row with
  | None => raise InvalidGrant
  | Some (stored_scopes, stored_resource, challenge) =>
      if is_some_and resource (fun value => value <>? stored_resource)
         || is_some_and scopes (fun value => negb (same_scopes value stored_scopes))
      then raise InvalidGrant
      else
        try_instant (fun now =>
          map_err credential_policy_error
            (validate_pending_parts now registry client_id redirect_uri "code" "S256"
               challenge stored_scopes (Some stored_resource))) ;;;
        exchange_code_bound raw client_id redirect_uri stored_resource verifier (Some registry)
  end.

(** ** Refresh tokens *)

(** A consumed member: its family is revoked. *)
Definition replay_refresh_tx (registry : option ClientRegistry) (client_id : string)
    (lookup : TokenLookup) (family : FamilyRow) (now : Z) : M CredentialError ExchangeResult :=
  sql (revoke_families_stmt (fun k _ => k ==? tl_family_id lookup) now) ;;;
  check_binding_tx registry client_id (fr_cimd_binding family) ;;;
  commit ;;;
  raise InvalidGrant.

Definition rotate_refresh_bound (raw client_id resource : string)
    (registry : option ClientRegistry) : M CredentialError ExchangeResult :=
  with_tx (
    found <- sql (select_token (hash raw)) ;;
    match found with
    | None => raise InvalidGrant
    | Some lookup =>
        session <- sql (fetch_one (lock_session_row (tl_session_id lookup))) ;;
        family <- sql (fetch_one (lock_family_row (tl_family_id lookup))) ;;
        member_consumed_at <- sql (fetch_one (lock_member_row (tl_id lookup))) ;;
        if (fr_client_id family <>? client_id) || (fr_resource family <>? resource)
        then raise InvalidGrant
        else
          check_binding_tx registry client_id (fr_cimd_binding family) ;;;
          if is_some_and registry (fun registry =>
               negb (permits_refresh registry client_id (fr_scopes family) (fr_resource family)))
          then raise InvalidGrant
          else
            now <- sql clock_timestamp ;;
            check_binding_tx registry client_id (fr_cimd_binding family) ;;;
            if is_some member_consumed_at
            then replay_refresh_tx registry client_id lookup family now
            else if is_some (fr_revoked_at family) || is_some (sr_revoked_at session)
                    || (fr_expires_at family <=? now)%Z || (sr_expires_at session <=? now)%Z
            then raise InvalidGrant
            else
              successor <- insert_refresh (tl_family_id lookup) now ;;
              successor_id <- sql (fetch_one (select_member_id (hash successor))) ;;
              sql (consume_member_stmt (tl_id lookup) now successor_id) ;;;
              check_binding_tx registry client_id (fr_cimd_binding family) ;;;
              commit ;;;
              ret {| er_session_id := tl_session_id lookup;
                     er_user_id := sr_user_id session;
                     er_client_id := fr_client_id family;
                     er_scopes := fr_scopes family;
                     er_resource := fr_resource family;
                     er_refresh_token := Some successor;
                     er_oidc_nonce := None;
                     er_upstream_auth_time := fr_upstream_auth_time family |}
    end).

Definition rotate_refresh (raw client_id resource : string) : M CredentialError ExchangeResult :=
  rotate_refresh_bound raw client_id resource None.

Definition rotate_refresh_request (raw client_id : string) (resource : option string)
    (scopes : option (list string)) (registry : ClientRegistry) : M CredentialError ExchangeResult :=
  row <- sql (select_refresh_request (hash raw) client_id) ;;
  match row with
  | None => raise InvalidGrant
  | Some (stored_scopes, stored_resource) =>
      if is_some_and resource (fun value => value <>? stored_resource)
         || is_some_and scopes (fun value => negb (same_scopes value stored_scopes))
         || negb (permits_refresh registry client_id stored_scopes stored_resource)
      then raise InvalidGrant
      else rotate_refresh_bound raw client_id stored_resource (Some registry)
  end.

Definition revoke_refresh (raw client_id : string) : M CredentialError unit :=
  with_tx (
    found <- sql (select_revocation (hash raw)) ;;
    match opt_filter (fun l => rl_client_id l ==? client_id) found with
    | Some lookup =>
        sql (fetch_one (lock_session_id (rl_session_id lookup))) ;;;
        sql (fetch_one (lock_family_id (rl_family_id lookup))) ;;;
        sql (revoke_family_now (rl_family_id lookup)) ;;;
        commit ;;;
        ret tt
    | None =>
        commit ;;;
        ret tt
    end).

Definition logout (session : ProviderSession) : M CredentialError unit :=
  with_tx (
    sql (fetch_one (lock_session_id (se_id session))) ;;;
    sql (revoke_session_now (se_id session)) ;;;
    sql (revoke_session_families_now (se_id session)) ;;;
    commit ;;;
    ret tt).
End Store.
