(* ===== verification/Tokens.v ===== *)
(** * Tokens: src/src/tokens.rs, the token response *)

From Stdlib Require Import Ascii ZArith.
From S2P Require Import Prelude External Schema Cimd Jose Keys Credentials.

Record TokenResponse := {
  tr_access_token : string;
  tr_token_type : string;
  tr_expires_in : Z;
  tr_scope : string;
  tr_refresh_token : option string;
  tr_id_token : option string;
}.

Section Tokens.
Context `{Crypto, JwtLib, UuidLib}.

(** The claims of the access token issued at [now] with identifier [jti]. *)
Definition access_claims (issuer userinfo : string) (exchange : ExchangeResult) (now : Z) (jti : Uuid)
    : AccessClaims :=
  let audiences :=
    if existsb (fun scope => scope ==? "openid") (er_scopes exchange)
       && negb (existsb (fun audience => audience ==? userinfo) [er_resource exchange])
    then [er_resource exchange; userinfo]
    else [er_resource exchange] in
  {| at_iss := issuer;
     at_sub := er_user_id exchange;
     at_aud := audiences;
     at_exp := now + 300;
     at_iat := now;
     at_jti := uuid_text jti;
     at_client_id := er_client_id exchange;
     at_scope := str_join " " (er_scopes exchange) |}.

Definition id_claims (issuer : string) (exchange : ExchangeResult) (now : Z) : IdClaims :=
  {| id_sid := Some (er_session_id exchange);
     id_iss := issuer;
     id_sub := er_user_id exchange;
     id_aud := er_client_id exchange;
     id_exp := now + 300;
     id_iat := now;
     id_nonce := er_oidc_nonce exchange;
     id_auth_time := option_map timestamp (er_upstream_auth_time exchange) |}.

(** [issue]: [now] is the clock in seconds, [jti] the identifier drawn. *)
Definition issue (keys : SigningKeys) (issuer userinfo : string) (exchange : ExchangeResult)
    (initial : bool) (now : Z) (jti : Uuid) : result TokenResponse KeyError :=
  try! access_token <- sign keys (access_claims issuer userinfo exchange now jti);
  try! id_token <-
    (if initial && existsb (fun scope => scope ==? "openid") (er_scopes exchange)
     then try! t <- sign_id keys (id_claims issuer exchange now); Ok (Some t)
     else Ok None);
  Ok {| tr_access_token := access_token;
        tr_token_type := "Bearer";
        tr_expires_in := 300;
        tr_scope := str_join " " (er_scopes exchange);
        tr_refresh_token := er_refresh_token exchange;
        tr_id_token := id_token |}.
End Tokens.
