(* ===== verification/Logout.v ===== *)
(** * Logout: src/src/logout.rs, relying-party initiated logout *)

From Stdlib Require Import Ascii ZArith.
From S2P Require Import Prelude External Schema Effects Cimd OAuth Jose Keys Credentials.

Record LogoutChallenge := {
  lch_id : Uuid;
  lch_csrf : string;
  lch_redirect_uri : string;
}.
Record LogoutOutcome := {
  lo_redirect_uri : string;
  lo_state : option string;
}.
Record LogoutRow := {
  lw_client_id : string;
  lw_post_logout_redirect_uri : string;
  lw_downstream_state : option string;
  lw_expires_at : Z;
  lw_consumed_at : option Z;
}.
Record SessionLogoutRow := {
  sl_expires_at : Z;
  sl_revoked_at : option Z;
  sl_user_id : Uuid;
  sl_auth_time : Z;
}.

(** [LogoutChallenge::submitted]. *)
Definition submitted (id : Uuid) (csrf : string) : LogoutChallenge :=
  {| lch_id := id; lch_csrf := csrf; lch_redirect_uri := EmptyString |}.

Definition consume_logout (t : Z) (r : logout_rec) : logout_rec :=
  {| lc_csrf_hash := lc_csrf_hash r; lc_session_id := lc_session_id r;
     lc_client_id := lc_client_id r;
     lc_post_logout_redirect_uri := lc_post_logout_redirect_uri r;
     lc_downstream_state := lc_downstream_state r; lc_created_at := lc_created_at r;
     lc_expires_at := lc_expires_at r; lc_consumed_at := Some t |}.

Section Store.
Context `{Crypto}.

(** ** Statements *)

Definition lock_session_state (id : Uuid) : stmt (option (Z * option Z)) :=
  select_for_update (fun _ => [RowSession id])
    (fun _ d => option_map (fun s => (ps_expires_at s, ps_revoked_at s)) (provider_sessions d !! id)).
Definition insert_logout_stmt (id : Uuid) (csrf : string) (session : Uuid) (client_id redirect : string)
    (state : option string) : stmt unit :=
  modify (fun _ => [RowLogout id]) (fun clk d =>
    let t := clk 0%N in
    insert_logout_row id
      {| lc_csrf_hash := hash csrf; lc_session_id := session; lc_client_id := client_id;
         lc_post_logout_redirect_uri := redirect; lc_downstream_state := state;
         lc_created_at := t; lc_expires_at := (t + minutes 10)%Z; lc_consumed_at := None |} d).
Definition lock_logout_session (id : Uuid) : stmt (option SessionLogoutRow) :=
  select_for_update (fun _ => [RowSession id]) (fun _ d =>
    option_map (fun s => {| sl_expires_at := ps_expires_at s; sl_revoked_at := ps_revoked_at s;
                            sl_user_id := ps_user_id s; sl_auth_time := ps_auth_time s |})
      (provider_sessions d !! id)).
Definition logout_matches (id session : Uuid) (csrf : string) (k : Uuid) (l : logout_rec) : bool :=
  (k ==? id) && (lc_session_id l ==? session) && (lc_csrf_hash l ==? hash csrf).
(** The row that it selects. *)
Definition logout_where (id session : Uuid) (csrf : string) (d : DB) : list RowId :=
  match find_row (logout_matches id session csrf) (logout_challenges d) with
  | Some (k, _) => [RowLogout k]
  | None => []
  end.
Definition lock_logout_row (id session : Uuid) (csrf : string) : stmt (option LogoutRow) :=
  select_for_update (logout_where id session csrf) (fun _ d =>
    option_map (fun kv =>
      {| lw_client_id := lc_client_id kv.2;
         lw_post_logout_redirect_uri := lc_post_logout_redirect_uri kv.2;
         lw_downstream_state := lc_downstream_state kv.2;
         lw_expires_at := lc_expires_at kv.2; lw_consumed_at := lc_consumed_at kv.2 |})
      (find_row (logout_matches id session csrf) (logout_challenges d))).
Definition consume_logout_stmt (id : Uuid) (now : Z) : stmt unit :=
  modify (fun _ => [RowLogout id])
    (fun _ d => Ok (set_logouts (alter (consume_logout now) id (logout_challenges d)) d)).
Definition revoke_session_stmt (id : Uuid) (now : Z) : stmt unit :=
  modify (fun _ => [RowSession id]) (fun _ d => Ok (revoke_session_at id now d)).

(** ** Operations *)

Definition insert (session : ProviderSession) (client_id redirect : string) (state : option string)
    : M CredentialError LogoutChallenge :=
  id <- new_uuid ;;
  csrf <- random_credential ;;
  with_tx (
    active <- sql (lock_session_state (se_id session)) ;;
    now <- sql clock_timestamp ;;
    if is_none_or active (fun '(expires, revoked) => is_some revoked || (expires <=? now)%Z)
    then raise InvalidGrant
    else
      sql (insert_logout_stmt id csrf (se_id session) client_id redirect state) ;;;
      commit ;;;
      ret {| lch_id := id; lch_csrf := csrf; lch_redirect_uri := redirect |}).

Definition begin (session : ProviderSession) (client_id redirect : string) (state : option string)
    (registry : ClientRegistry) : M CredentialError LogoutChallenge :=
  if negb (valid_post_logout_redirect registry client_id redirect) then raise InvalidGrant
  else insert session client_id redirect state.

Definition begin_local (session : ProviderSession) (local_uri : string)
    : M CredentialError LogoutChallenge :=
  insert session EmptyString local_uri None.

(** What an identity-token hint says of a logout it belongs to. *)
Inductive HintVerdict : Type := HintInvalid | HintForeign | HintAccepted.
Definition judge_hint (registry : ClientRegistry) (session_id : Uuid) (row : LogoutRow)
    (session_row : SessionLogoutRow) (now : Z) (hint : IdClaims) : HintVerdict :=
  let skew := CLOCK_SKEW_SECONDS in
  if (id_aud hint <>? lw_client_id row) || (id_exp hint <=? id_iat hint)%Z
     || (timestamp now + skew <? id_iat hint)%Z
  then HintInvalid
  else if negb (allows_id_token_logout registry (lw_client_id row))
          || (id_sub hint <>? sl_user_id session_row)
          || (id_sid hint <>? Some session_id)
          || (id_iat hint <? timestamp (sl_auth_time session_row) - skew)%Z
  then HintForeign
  else HintAccepted.

Definition end_session_tx (challenge_id session_id : Uuid) (row : LogoutRow) (now : Z)
    : M CredentialError (option LogoutOutcome) :=
  sql (consume_logout_stmt challenge_id now) ;;;
  sql (revoke_session_stmt session_id now) ;;;
  sql (revoke_families_stmt (fun _ f => rf_session_id f ==? session_id) now) ;;;
  commit ;;;
  ret (Some {| lo_redirect_uri := lw_post_logout_redirect_uri row;
               lo_state := lw_downstream_state row |}).

Definition finish_inner (session : ProviderSession) (challenge : LogoutChallenge)
    (registry : ClientRegistry) (hint : option IdClaims) : M CredentialError (option LogoutOutcome) :=
  with_tx (
    session_row <- sql (lock_logout_session (se_id session)) ;;
    match session_row with
    | None => raise InvalidGrant
    | Some session_row =>
        row <- sql (lock_logout_row (lch_id challenge) (se_id session) (lch_csrf challenge)) ;;
        match row with
        | None => raise InvalidGrant
        | Some row =>
            now <- sql clock_timestamp ;;
            if is_some (sl_revoked_at session_row) || (sl_expires_at session_row <=? now)%Z
               || is_some (lw_consumed_at row) || (lw_expires_at row <=? now)%Z
               || negb (str_empty (lw_client_id row))
                  && negb (valid_post_logout_redirect registry (lw_client_id row)
                             (lw_post_logout_redirect_uri row))
            then raise InvalidGrant
            else
              match option_map (judge_hint registry (se_id session) row session_row now) hint with
              | Some HintInvalid => raise InvalidGrant
              | Some HintForeign => ret None
              | _ => end_session_tx (lch_id challenge) (se_id session) row now
              end
        end
    end).

Definition finish (session : ProviderSession) (challenge : LogoutChallenge) (registry : ClientRegistry)
    : M CredentialError LogoutOutcome :=
  outcome <- finish_inner session challenge registry None ;;
  match outcome with
  | Some outcome => ret outcome
  | None => raise InvalidGrant
  end.

Definition finish_hint (session : ProviderSession) (challenge : LogoutChallenge)
    (registry : ClientRegistry) (hint : IdClaims) : M CredentialError (option LogoutOutcome) :=
  finish_inner session challenge registry (Some hint).
End Store.
