(* ===== verification/Browser.v ===== *)
(** * Browser: src/src/browser.rs, browser authorizations

    The life of an authorization request in the browser, from its start
    through Google's callback to the user's consent: each method of
    [BrowserStore] as a program over the database. A row's stage moves
    awaiting_start, awaiting_google, callback_claimed, awaiting_consent,
    approved, with the ends denied, failed and expired on the way. *)

From Stdlib Require Import Ascii ZArith.
From S2P Require Import Prelude External Schema Effects Identity Google Cimd OAuth Credentials Database.

Record BrowserStart := {
  bs_transaction_id : Uuid;
  bs_upstream_state : string;
  bs_browser_binding : string;
  bs_upstream_nonce : string;
  bs_upstream_verifier : string;
}.
(** [CallbackClaim] wraps its raw text. *)
Record ConsentHandle := {
  ch_transaction_id : Uuid;
  ch_csrf : string;
}.
Record LoginCompletion := {
  lg_session : ProviderSession;
  lg_consent : ConsentHandle;
}.
Record ConsentOutcome := {
  co_code : string;
  co_redirect_uri : string;
  co_downstream_state : option string;
}.
Record DenialOutcome := {
  do_redirect_uri : string;
  do_downstream_state : option string;
}.
Record ConsentView := {
  cv_transaction_id : Uuid;
  cv_csrf : string;
  cv_client_name : string;
  cv_scopes : list string;
  cv_resource : string;
  cv_redirect_uri : string;
  cv_account : string;
}.

Inductive BrowserError : Type :=
| MetadataExpired
| Invalid
| PolicyChanged
| Database (e : DbError).

#[export] Instance browser_from_db : FromDb BrowserError := Database.

(** The columns read by the queries. *)
Record SessionRow := {
  sw_user_id : Uuid;
  sw_upstream_auth_time : option Z;
  sw_expires_at : Z;
  sw_revoked_at : option Z;
}.
Record ConsentRow := {
  cw_client_id : string;
  cw_redirect_uri : string;
  cw_scopes : list string;
  cw_resource : string;
  cw_code_challenge : string;
  cw_downstream_state : option string;
  cw_oidc_nonce : option string;
  cw_expires_at : Z;
  cw_cimd_binding : option string;
  cw_allow_pre_authorization : bool;
}.

Definition consent_row (b : browser_rec) : ConsentRow :=
  {| cw_client_id := ba_client_id b; cw_redirect_uri := ba_redirect_uri b;
     cw_scopes := ba_scopes b; cw_resource := ba_resource b;
     cw_code_challenge := ba_code_challenge b; cw_downstream_state := ba_downstream_state b;
     cw_oidc_nonce := ba_oidc_nonce b; cw_expires_at := ba_expires_at b;
     cw_cimd_binding := ba_cimd_binding b;
     cw_allow_pre_authorization := ba_allow_pre_authorization b |}.

(** ** Row updates: the columns the UPDATE statements set *)

Definition with_state (stage : Stage) (nonce verifier claim csrf : option string)
    (session : option Uuid) (b : browser_rec) : browser_rec :=
  {| ba_stage := stage;
     ba_upstream_state_hash := ba_upstream_state_hash b;
     ba_browser_binding_hash := ba_browser_binding_hash b;
     ba_upstream_nonce := nonce;
     ba_upstream_verifier := verifier;
     ba_claim_hash := claim;
     ba_csrf_hash := csrf;
     ba_session_id := session;
     ba_client_id := ba_client_id b; ba_redirect_uri := ba_redirect_uri b;
     ba_scopes := ba_scopes b; ba_resource := ba_resource b;
     ba_code_challenge := ba_code_challenge b;
     ba_downstream_state := ba_downstream_state b; ba_oidc_nonce := ba_oidc_nonce b;
     ba_created_at := ba_created_at b; ba_expires_at := ba_expires_at b;
     ba_cimd_binding := ba_cimd_binding b;
     ba_allow_pre_authorization := ba_allow_pre_authorization b |}.

Definition started (b : browser_rec) : browser_rec :=
  with_state awaiting_google (ba_upstream_nonce b) (ba_upstream_verifier b) (ba_claim_hash b)
    (ba_csrf_hash b) (ba_session_id b) b.
Definition cancelled (b : browser_rec) : browser_rec :=
  with_state denied None None (ba_claim_hash b) (ba_csrf_hash b) (ba_session_id b) b.
Definition expired_before_claim (b : browser_rec) : browser_rec :=
  with_state expired (ba_upstream_nonce b) None (ba_claim_hash b) (ba_csrf_hash b) (ba_session_id b) b.
Definition claimed (claim_hash : string) (b : browser_rec) : browser_rec :=
  with_state callback_claimed (ba_upstream_nonce b) None (Some claim_hash) (ba_csrf_hash b)
    (ba_session_id b) b.
Definition callback_failed (b : browser_rec) : browser_rec :=
  with_state failed (ba_upstream_nonce b) (ba_upstream_verifier b) (ba_claim_hash b)
    (ba_csrf_hash b) (ba_session_id b) b.
Definition callback_denied (b : browser_rec) : browser_rec :=
  with_state denied (ba_upstream_nonce b) (ba_upstream_verifier b) None (ba_csrf_hash b)
    (ba_session_id b) b.
Definition expired_after_claim (b : browser_rec) : browser_rec :=
  with_state expired (ba_upstream_nonce b) (ba_upstream_verifier b) (ba_claim_hash b)
    (ba_csrf_hash b) (ba_session_id b) b.
Definition signed_in (session : Uuid) (csrf_hash : string) (b : browser_rec) : browser_rec :=
  with_state awaiting_consent (ba_upstream_nonce b) (ba_upstream_verifier b) None
    (Some csrf_hash) (Some session) b.
Definition consented (b : browser_rec) : browser_rec :=
  with_state approved (ba_upstream_nonce b) (ba_upstream_verifier b) (ba_claim_hash b) None
    (ba_session_id b) b.
Definition consent_denied (b : browser_rec) : browser_rec :=
  with_state denied (ba_upstream_nonce b) (ba_upstream_verifier b) (ba_claim_hash b) None
    (ba_session_id b) b.

(** [UPDATE browser_authorizations SET .. WHERE p] for a [p] that at most one
    row satisfies, and the number of rows it changed. *)
Definition update_browser_where `{JsonDb} (p : Uuid -> browser_rec -> bool)
    (f : browser_rec -> browser_rec) (d : DB) : result (nat * DB) DbError :=
  match find_row p (browser_authorizations d) with
  | None => Ok (0%nat, d)
  | Some (id, _) => map_ok (fun d' => (1%nat, d')) (update_browser_row id f d)
  end.
Definition browser_where (p : Uuid -> browser_rec -> bool) (d : DB) : list RowId :=
  match find_row p (browser_authorizations d) with Some (id, _) => [RowBrowser id] | None => [] end.

Section Store.
Context `{Crypto, UrlLib, JsonLib, JsonDb, UuidLib}.

(** ** Pure helpers *)

Definition policy_error (error : OAuthError) : BrowserError :=
  match error with
  | OAuth.MetadataExpired => MetadataExpired
  | _ => PolicyChanged
  end.

(** [revalidate]: [now] and [now'] are the two readings of the clock. *)
Definition revalidate (now now' : Z) (reg : ClientRegistry) (row : ConsentRow)
    : result PendingAuthorizationGrant BrowserError :=
  try! _u <- map_err policy_error (validate_binding now reg (cw_client_id row) (cw_cimd_binding row));
  map_err policy_error
    (validate_pending_parts now' reg (cw_client_id row) (cw_redirect_uri row) "code" "S256"
       (cw_code_challenge row) (cw_scopes row) (Some (cw_resource row))).

Definition validate_optional_registry (now now' : Z) (registry : option ClientRegistry)
    (row : ConsentRow) : result unit BrowserError :=
  match registry with
  | Some registry => map_ok (fun _ => tt) (revalidate now now' registry row)
  | None => if is_none (cw_cimd_binding row) then Ok tt else Err PolicyChanged
  end.

Definition bounded_seconds (d : Duration) (max : Z) : result Z BrowserError :=
  if ((dur_secs d =? 0) && (dur_nanos d =? 0))%Z || (max <? dur_secs d)%Z
     || negb (dur_nanos d =? 0)%Z
  then Err Invalid
  else Ok (dur_secs d).

(** [checked_policy!(f(), tx)] for the policies that read the clock. *)
Definition instant : M BrowserError Z := at_instant (fun now => now).
Definition checked_revalidate (reg : ClientRegistry) (row : ConsentRow)
    : M BrowserError PendingAuthorizationGrant :=
  now <- instant ;; now' <- instant ;; or_rollback (revalidate now now' reg row).
Definition checked_registry (registry : option ClientRegistry) (row : ConsentRow)
    : M BrowserError unit :=
  now <- instant ;; now' <- instant ;;
  or_rollback (validate_optional_registry now now' registry row).
Definition checked_fresh (pending : PendingAuthorizationGrant) : M BrowserError unit :=
  now <- instant ;; or_rollback (map_err policy_error (OAuth.ensure_fresh now (pg_dynamic pending))).
Definition checked_approve (pending : PendingAuthorizationGrant)
    : M BrowserError ValidatedAuthorizationGrant :=
  now <- instant ;; or_rollback (map_err policy_error (approve_grant now pending true)).

(** [.ok_or(BrowserError::Invalid)?]. *)
Definition or_invalid {A} (o : option A) : M BrowserError A :=
  match o with Some a => ret a | None => raise Invalid end.
(** A NULL in a column read into a [String]. *)
Definition decoded {A} (o : option A) : M BrowserError A :=
  match o with Some a => ret a | None => raise (Database DbDecode) end.

(** ** Statements *)

Definition select_browser_client (id : Uuid) : stmt (option string) :=
  select (fun _ d => option_map ba_client_id (browser_authorizations d !! id)).

(** [claim_hash=$1 AND stage='callback_claimed']. *)
Definition claimed_by (claim : string) (_ : Uuid) (b : browser_rec) : bool :=
  (ba_claim_hash b ==? Some (hash claim)) && (ba_stage b ==? callback_claimed).
Definition select_callback_client (claim : string) : stmt (option string) :=
  select (fun _ d => option_map (fun kv => ba_client_id kv.2)
    (find_row (claimed_by claim) (browser_authorizations d))).

(** The row [begin_google] stores at time [t]. *)
Definition start_row (start : BrowserStart) (pending : PendingAuthorizationGrant)
    (downstream_state oidc_nonce : option string) (allow_pre_authorization : bool) (t : Z)
    (binding : option string) : browser_rec :=
  {| ba_stage := awaiting_start;
     ba_upstream_state_hash := Some (hash (bs_upstream_state start));
     ba_browser_binding_hash := Some (hash (bs_browser_binding start));
     ba_upstream_nonce := Some (bs_upstream_nonce start);
     ba_upstream_verifier := Some (bs_upstream_verifier start);
     ba_claim_hash := None; ba_csrf_hash := None; ba_session_id := None;
     ba_client_id := pg_client_id pending; ba_redirect_uri := pg_redirect_uri pending;
     ba_scopes := pg_scopes pending; ba_resource := pg_resource pending;
     ba_code_challenge := pg_code_challenge pending;
     ba_downstream_state := downstream_state; ba_oidc_nonce := oidc_nonce;
     ba_created_at := t; ba_expires_at := (t + minutes 10)%Z;
     ba_cimd_binding := binding; ba_allow_pre_authorization := allow_pre_authorization |}.
Definition insert_start_stmt (start : BrowserStart) (pending : PendingAuthorizationGrant)
    (downstream_state oidc_nonce : option string) (allow_pre_authorization : bool) : stmt unit :=
  modify (fun _ => [RowBrowser (bs_transaction_id start)]) (fun clk d =>
    try! binding <- cast_jsonb (cimd_binding_json (pg_dynamic pending));
    insert_browser_row (bs_transaction_id start)
      (start_row start pending downstream_state oidc_nonce allow_pre_authorization (clk 0%N) binding) d).

(** [id=$1 AND upstream_state_hash=$2 AND browser_binding_hash=$3 AND
    stage='awaiting_start' AND expires_at>clock_timestamp()]. *)
Definition startable (transaction_id : Uuid) (state binding : string) (clk : Uuid -> Z)
    (id : Uuid) (b : browser_rec) : bool :=
  (id ==? transaction_id)
  && (ba_upstream_state_hash b ==? Some (hash state))
  && (ba_browser_binding_hash b ==? Some (hash binding))
  && (ba_stage b ==? awaiting_start)
  && (clk id <? ba_expires_at b)%Z.

(** Answers the nonce and verifier of the row it changed. *)
Definition start_google_stmt (transaction_id : Uuid) (state binding : string)
    : stmt (option (option string * option string)) :=
  Stmt (fun _ => [RowBrowser transaction_id]) (fun clk d =>
    match find_row (startable transaction_id state binding clk) (browser_authorizations d) with
    | None => Ok (None, d)
    | Some (id, b) =>
        try! d' <- update_browser_row id started d;
        Ok (Some (ba_upstream_nonce b, ba_upstream_verifier b), d')
    end).

Definition lock_startable (transaction_id : Uuid) (state binding : string) : stmt (option ConsentRow) :=
  select_for_update (fun _ => [RowBrowser transaction_id]) (fun clk d =>
    option_map (fun kv => consent_row kv.2)
      (find_row (startable transaction_id state binding clk) (browser_authorizations d))).

Definition update_browser_stmt (id : Uuid) (f : browser_rec -> browser_rec) : stmt unit :=
  modify (fun _ => [RowBrowser id]) (fun _ d => update_browser_row id f d).

Definition consent_start_row (csrf : string) (session : Uuid) (pending : PendingAuthorizationGrant)
    (downstream_state oidc_nonce : option string) (allow_pre_authorization : bool) (t : Z)
    (binding : option string) : browser_rec :=
  {| ba_stage := awaiting_consent;
     ba_upstream_state_hash := None; ba_browser_binding_hash := None;
     ba_upstream_nonce := None; ba_upstream_verifier := None; ba_claim_hash := None;
     ba_csrf_hash := Some (hash csrf); ba_session_id := Some session;
     ba_client_id := pg_client_id pending; ba_redirect_uri := pg_redirect_uri pending;
     ba_scopes := pg_scopes pending; ba_resource := pg_resource pending;
     ba_code_challenge := pg_code_challenge pending;
     ba_downstream_state := downstream_state; ba_oidc_nonce := oidc_nonce;
     ba_created_at := t; ba_expires_at := (t + minutes 10)%Z;
     ba_cimd_binding := binding; ba_allow_pre_authorization := allow_pre_authorization |}.
Definition insert_consent_stmt (id : Uuid) (csrf : string) (session : Uuid)
    (pending : PendingAuthorizationGrant) (downstream_state oidc_nonce : option string)
    (allow_pre_authorization : bool) : stmt unit :=
  modify (fun _ => [RowBrowser id]) (fun clk d =>
    try! binding <- cast_jsonb (cimd_binding_json (pg_dynamic pending));
    insert_browser_row id
      (consent_start_row csrf session pending downstream_state oidc_nonce allow_pre_authorization
         (clk 0%N) binding) d).

Definition awaiting (state binding : string) (_ : Uuid) (b : browser_rec) : bool :=
  (ba_upstream_state_hash b ==? Some (hash state))
  && (ba_browser_binding_hash b ==? Some (hash binding))
  && (ba_stage b ==? awaiting_google).
Definition lock_awaiting (state binding : string)
    : stmt (option (Uuid * option string * option string * Z)) :=
  select_for_update (browser_where (awaiting state binding)) (fun _ d =>
    option_map (fun kv => (kv.1, ba_upstream_verifier kv.2, ba_upstream_nonce kv.2, ba_expires_at kv.2))
      (find_row (awaiting state binding) (browser_authorizations d))).

Definition update_where_stmt (p : Uuid -> browser_rec -> bool) (f : browser_rec -> browser_rec)
    : stmt nat :=
  Stmt (browser_where p) (fun _ d => update_browser_where p f d).
Definition fail_callback_stmt (claim : string) : stmt nat :=
  update_where_stmt (claimed_by claim) callback_failed.
Definition deny_callback_stmt (claim : string) : stmt nat :=
  update_where_stmt (fun _ b => ba_claim_hash b ==? Some (hash claim)) callback_denied.
Definition sign_in_stmt (transaction_id session : Uuid) (csrf : string) : stmt nat :=
  update_where_stmt (fun id b => (id ==? transaction_id) && (ba_stage b ==? callback_claimed))
    (signed_in session (hash csrf)).

Definition lock_claimed_row (claim : string) : stmt (option ConsentRow) :=
  select_for_update (browser_where (claimed_by claim)) (fun _ d =>
    option_map (fun kv => consent_row kv.2) (find_row (claimed_by claim) (browser_authorizations d))).
Definition lock_claimed (claim : string) : stmt (option (Uuid * Z)) :=
  select_for_update (browser_where (claimed_by claim)) (fun _ d =>
    option_map (fun kv => (kv.1, ba_expires_at kv.2))
      (find_row (claimed_by claim) (browser_authorizations d))).
Definition lock_policy_row (id : Uuid) : stmt (option ConsentRow) :=
  select_for_update (fun _ => [RowBrowser id])
    (fun _ d => option_map consent_row (browser_authorizations d !! id)).

(** The session of a sign-in, from the time its profile was stored. *)
Definition insert_login_session_stmt (id : Uuid) (token_hash : string) (user : Uuid) (t secs : Z)
    (upstream : option Z) : stmt Z :=
  Stmt (fun _ => [RowSession id]) (fun _ d =>
    let expires_at := (t + seconds secs)%Z in
    match insert_session_row id
            {| ps_token_hash := token_hash; ps_user_id := user; ps_auth_time := t;
               ps_expires_at := expires_at; ps_revoked_at := None;
               ps_upstream_auth_time := upstream |} d with
    | Ok d' => Ok (expires_at, d')
    | Err e => Err e
    end).

Definition lock_session_stmt (id : Uuid) : stmt (option SessionRow) :=
  select_for_update (fun _ => [RowSession id]) (fun _ d =>
    option_map (fun s => {| sw_user_id := ps_user_id s; sw_upstream_auth_time := ps_upstream_auth_time s;
                            sw_expires_at := ps_expires_at s; sw_revoked_at := ps_revoked_at s |})
      (provider_sessions d !! id)).
Definition consentable (transaction_id session : Uuid) (csrf : string) (id : Uuid) (b : browser_rec) : bool :=
  (id ==? transaction_id)
  && (ba_session_id b ==? Some session)
  && (ba_csrf_hash b ==? Some (hash csrf))
  && (ba_stage b ==? awaiting_consent).
Definition lock_consent_stmt (id session : Uuid) (csrf : string) : stmt (option ConsentRow) :=
  select_for_update (browser_where (consentable id session csrf)) (fun _ d =>
    option_map (fun kv => consent_row kv.2)
      (find_row (consentable id session csrf) (browser_authorizations d))).
Definition select_profile_account (user_id : Uuid) : stmt (option (option string * option string)) :=
  select (fun _ d => option_map (fun p => (up_verified_email p, up_name p)) (user_profiles d !! user_id)).

(** ** Locked reads *)

Definition lock_session (id : Uuid) : M BrowserError SessionRow :=
  row <- sql (lock_session_stmt id) ;; or_invalid row.

Definition lock_consent (id session : Uuid) (csrf : string) : M BrowserError ConsentRow :=
  row <- sql (lock_consent_stmt id session csrf) ;; or_invalid row.

Definition ensure_fresh (session : SessionRow) (browser_expiry : option Z) : M BrowserError unit :=
  now <- sql clock_timestamp ;;
  if is_some (sw_revoked_at session) || (sw_expires_at session <=? now)%Z
     || is_some_and browser_expiry (fun expiry => (expiry <=? now)%Z)
  then raise Invalid
  else ret tt.

(** ** Starting *)

Definition transaction_client_id (id : Uuid) : M BrowserError string :=
  client <- sql (select_browser_client id) ;; or_invalid client.

Definition callback_client_id (claim : string) : M BrowserError string :=
  client <- sql (select_callback_client claim) ;; or_invalid client.

Definition begin_google_with_pre_authorization (pending : PendingAuthorizationGrant)
    (downstream_state oidc_nonce : option string) (allow_pre_authorization : bool)
    : M BrowserError BrowserStart :=
  transaction_id <- new_uuid ;;
  upstream_state <- random_credential ;;
  browser_binding <- random_credential ;;
  upstream_nonce <- random_credential ;;
  upstream_verifier <- random_credential ;;
  let start := {| bs_transaction_id := transaction_id; bs_upstream_state := upstream_state;
                  bs_browser_binding := browser_binding; bs_upstream_nonce := upstream_nonce;
                  bs_upstream_verifier := upstream_verifier |} in
  with_tx (
    checked_fresh pending ;;;
    sql (insert_start_stmt start pending downstream_state oidc_nonce allow_pre_authorization) ;;;
    checked_fresh pending ;;;
    commit ;;;
    ret start).

Definition begin_google (pending : PendingAuthorizationGrant)
    (downstream_state oidc_nonce : option string) : M BrowserError BrowserStart :=
  begin_google_with_pre_authorization pending downstream_state oidc_nonce false.

Definition start_google (transaction_id : Uuid) (state binding : string)
    : M BrowserError (string * string) :=
  row <- sql (start_google_stmt transaction_id state binding) ;;
  row <- or_invalid row ;;
  nonce <- decoded row.1 ;;
  verifier <- decoded row.2 ;;
  ret (nonce, verifier).

Definition cancel_google_bound (transaction_id : Uuid) (state binding : string)
    (registry : option ClientRegistry) : M BrowserError DenialOutcome :=
  with_tx (
    row <- sql (lock_startable transaction_id state binding) ;;
    row <- or_invalid row ;;
    checked_registry registry row ;;;
    sql (update_browser_stmt transaction_id cancelled) ;;;
    checked_registry registry row ;;;
    commit ;;;
    ret {| do_redirect_uri := cw_redirect_uri row; do_downstream_state := cw_downstream_state row |}).

Definition cancel_google (transaction_id : Uuid) (state binding : string) : M BrowserError DenialOutcome :=
  cancel_google_bound transaction_id state binding None.
Definition cancel_google_with_registry (transaction_id : Uuid) (state binding : string)
    (registry : ClientRegistry) : M BrowserError DenialOutcome :=
  cancel_google_bound transaction_id state binding (Some registry).

Definition begin_authenticated_with_pre_authorization (session : ProviderSession)
    (pending : PendingAuthorizationGrant) (downstream_state oidc_nonce : option string)
    (allow_pre_authorization : bool) : M BrowserError ConsentHandle :=
  id <- new_uuid ;;
  csrf <- random_credential ;;
  with_tx (
    session_row <- lock_session (se_id session) ;;
    ensure_fresh session_row None ;;;
    checked_fresh pending ;;;
    sql (insert_consent_stmt id csrf (se_id session) pending downstream_state oidc_nonce
           allow_pre_authorization) ;;;
    checked_fresh pending ;;;
    commit ;;;
    ret {| ch_transaction_id := id; ch_csrf := csrf |}).

Definition begin_authenticated (session : ProviderSession) (pending : PendingAuthorizationGrant)
    (downstream_state oidc_nonce : option string) : M BrowserError ConsentHandle :=
  begin_authenticated_with_pre_authorization session pending downstream_state oidc_nonce false.

Definition session_upstream_auth_time (session : ProviderSession) : M BrowserError (option Z) :=
  with_tx (
    row <- lock_session (se_id session) ;;
    ensure_fresh row None ;;;
    commit ;;;
    ret (sw_upstream_auth_time row)).

(** ** Google's callback *)

Definition claim_callback (state binding : string) : M BrowserError (string * string * string) :=
  claim <- random_credential ;;
  with_tx (
    row <- sql (lock_awaiting state binding) ;;
    match row with
    | None => raise Invalid
    | Some (id, verifier, nonce, expires_at) =>
        verifier <- decoded verifier ;;
        nonce <- decoded nonce ;;
        now <- sql clock_timestamp ;;
        if (expires_at <=? now)%Z then
          sql (update_browser_stmt id expired_before_claim) ;;;
          commit ;;;
          raise Invalid
        else
          sql (update_browser_stmt id (claimed (hash claim))) ;;;
          commit ;;;
          ret (claim, verifier, nonce)
    end).

Definition fail_callback (claim : string) : M BrowserError unit :=
  changed <- sql (fail_callback_stmt claim) ;;
  if (changed =? 1)%nat then ret tt else raise Invalid.

Definition deny_callback (claim : string) (registry : ClientRegistry) : M BrowserError DenialOutcome :=
  with_tx (
    row <- sql (lock_claimed_row claim) ;;
    match row with
    | None => raise Invalid
    | Some row =>
        now <- sql clock_timestamp ;;
        if (cw_expires_at row <=? now)%Z then raise Invalid
        else
          checked_revalidate registry row ;;;
          sql (deny_callback_stmt claim) ;;;
          checked_revalidate registry row ;;;
          commit ;;;
          ret {| do_redirect_uri := cw_redirect_uri row;
                 do_downstream_state := cw_downstream_state row |}
    end).

(** [if let Err(error) = .. { staged.rollback().await?; tx.rollback().await?;
    return Err(error) }]. *)
Definition staged_registry (registry : option ClientRegistry) (row : ConsentRow) : M BrowserError unit :=
  now <- instant ;; now' <- instant ;;
  match validate_optional_registry now now' registry row with
  | Ok _ => ret tt
  | Err error => rollback ;;; rollback ;;; raise error
  end.

Definition complete_callback_bound (claim : string) (identity : VerifiedGoogleIdentity)
    (session_lifetime : Duration) (registry : option ClientRegistry) : M BrowserError LoginCompletion :=
  secs <- lift (bounded_seconds session_lifetime (30 * 24 * 60 * 60)) ;;
  with_tx (
    row <- sql (lock_claimed claim) ;;
    match row with
    | None => raise Invalid
    | Some (transaction_id, expires) =>
        policy_row <- sql (fetch_one (lock_policy_row transaction_id)) ;;
        checked_registry registry policy_row ;;;
        session_raw <- random_credential ;;
        session_id <- new_uuid ;;
        (* [tx.begin()]: a savepoint *)
        begin_tx ;;;
        lock_verified_google_identity_tx identity ;;;
        staged_registry registry policy_row ;;;
        profile_time <- sql clock_timestamp ;;
        user_id <- upsert_verified_google_identity_tx identity profile_time ;;
        session_expiry <- sql (insert_login_session_stmt session_id (hash session_raw) user_id
                                 profile_time secs (identity_auth_time identity)) ;;
        final_now <- sql clock_timestamp ;;
        if (expires <=? final_now)%Z then
          rollback ;;;
          sql (update_browser_stmt transaction_id expired_after_claim) ;;;
          commit ;;;
          raise Invalid
        else
          staged_registry registry policy_row ;;;
          commit ;;;
          csrf <- random_credential ;;
          changed <- sql (sign_in_stmt transaction_id session_id csrf) ;;
          if negb (changed =? 1)%nat then raise Invalid
          else
            checked_registry registry policy_row ;;;
            commit ;;;
            ret {| lg_session := {| se_raw := session_raw; se_id := session_id;
                                    se_expires_at := session_expiry |};
                   lg_consent := {| ch_transaction_id := transaction_id; ch_csrf := csrf |} |}
    end).

Definition complete_callback (claim : string) (identity : VerifiedGoogleIdentity)
    (session_lifetime : Duration) : M BrowserError LoginCompletion :=
  complete_callback_bound claim identity session_lifetime None.
Definition complete_callback_with_registry (claim : string) (identity : VerifiedGoogleIdentity)
    (session_lifetime : Duration) (registry : ClientRegistry) : M BrowserError LoginCompletion :=
  complete_callback_bound claim identity session_lifetime (Some registry).

(** ** Consent *)

(** What both approvals do with a validated grant: store its code and close
    the row. *)
Definition store_approval (session : ProviderSession) (handle : ConsentHandle)
    (session_row : SessionRow) (row : ConsentRow) (pending : PendingAuthorizationGrant)
    : M BrowserError string :=
  grant <- checked_approve pending ;;
  code <- insert_authorization_code_tx (se_id session) grant (cw_oidc_nonce row)
            (sw_upstream_auth_time session_row) 60 ;;
  sql (update_browser_stmt (ch_transaction_id handle) consented) ;;;
  ret code.

Definition approval_outcome (code : string) (row : ConsentRow) : ConsentOutcome :=
  {| co_code := code; co_redirect_uri := cw_redirect_uri row;
     co_downstream_state := cw_downstream_state row |}.

Definition approve (session : ProviderSession) (handle : ConsentHandle) (registry : ClientRegistry)
    : M BrowserError ConsentOutcome :=
  with_tx (
    session_row <- lock_session (se_id session) ;;
    row <- lock_consent (ch_transaction_id handle) (se_id session) (ch_csrf handle) ;;
    ensure_fresh session_row (Some (cw_expires_at row)) ;;;
    pending <- checked_revalidate registry row ;;
    code <- store_approval session handle session_row row pending ;;
    checked_revalidate registry row ;;;
    commit ;;;
    ret (approval_outcome code row)).

Definition approve_pre_authorized (session : ProviderSession) (handle : ConsentHandle)
    (registry : ClientRegistry) : M BrowserError (option ConsentOutcome) :=
  with_tx (
    session_row <- lock_session (se_id session) ;;
    row <- lock_consent (ch_transaction_id handle) (se_id session) (ch_csrf handle) ;;
    ensure_fresh session_row (Some (cw_expires_at row)) ;;;
    pending <- checked_revalidate registry row ;;
    if negb (cw_allow_pre_authorization row) || negb (pre_authorizes registry pending)
    then ret None
    else
      code <- store_approval session handle session_row row pending ;;
      current <- checked_revalidate registry row ;;
      if negb (pre_authorizes registry current) then
        rollback ;;;
        raise PolicyChanged
      else
        ensure_fresh session_row (Some (cw_expires_at row)) ;;;
        commit ;;;
        ret (Some (approval_outcome code row))).

(** The account shown: the verified email, or the name and the user's id. *)
Definition account_of (profile : option (option string * option string)) (user_id : Uuid) : string :=
  match profile with
  | Some (Some email, _) => email
  | Some (_, Some name) => name +:+ " · " +:+ uuid_text user_id
  | _ => uuid_text user_id
  end.

Definition consent_view (session : ProviderSession) (handle : ConsentHandle) (registry : ClientRegistry)
    : M BrowserError ConsentView :=
  with_tx (
    session_row <- lock_session (se_id session) ;;
    row <- lock_consent (ch_transaction_id handle) (se_id session) (ch_csrf handle) ;;
    ensure_fresh session_row (Some (cw_expires_at row)) ;;;
    checked_revalidate registry row ;;;
    client_name <- lift (ok_or (display_name registry (cw_client_id row)) PolicyChanged) ;;
    profile <- sql (select_profile_account (sw_user_id session_row)) ;;
    let account := account_of profile (sw_user_id session_row) in
    checked_revalidate registry row ;;;
    commit ;;;
    ret {| cv_transaction_id := ch_transaction_id handle;
           cv_csrf := ch_csrf handle;
           cv_client_name := client_name;
           cv_scopes := cw_scopes row;
           cv_resource := cw_resource row;
           cv_redirect_uri := cw_redirect_uri row;
           cv_account := account |}).

Definition deny_bound (session : ProviderSession) (handle : ConsentHandle)
    (registry : option ClientRegistry) : M BrowserError DenialOutcome :=
  with_tx (
    session_row <- lock_session (se_id session) ;;
    row <- lock_consent (ch_transaction_id handle) (se_id session) (ch_csrf handle) ;;
    ensure_fresh session_row (Some (cw_expires_at row)) ;;;
    checked_registry registry row ;;;
    sql (update_browser_stmt (ch_transaction_id handle) consent_denied) ;;;
    checked_registry registry row ;;;
    commit ;;;
    ret {| do_redirect_uri := cw_redirect_uri row; do_downstream_state := cw_downstream_state row |}).

Definition deny (session : ProviderSession) (handle : ConsentHandle) : M BrowserError DenialOutcome :=
  deny_bound session handle None.
Definition deny_with_registry (session : ProviderSession) (handle : ConsentHandle)
    (registry : ClientRegistry) : M BrowserError DenialOutcome :=
  deny_bound session handle (Some registry).
End Store.
