(* ===== verification/Http.v ===== *)
(** * Http: the pure part of src/src/web.rs

    Forms, cookies, origins, redirects, pages and response headers. The
    [http], [axum] and [form_urlencoded] crates are arguments; a header's
    value is its bytes. *)

From Stdlib Require Import Ascii ZArith.
From S2P Require Import Prelude External Cimd Logout Browser.

(** ** Libraries *)

(** [HeaderMap], a multimap from lower-case names, and [HeaderValue]'s
    [to_str] and [from_str]. *)
Class HttpLib := {
  HeaderMap : Type;
  hm_empty : HeaderMap;
  hm_get_all : HeaderMap -> string -> list string;
  hm_insert : string -> string -> HeaderMap -> HeaderMap;
  hm_append : string -> string -> HeaderMap -> HeaderMap;
  hv_to_str : string -> option string;
  hv_from_str : string -> option string;
}.

(** Visible ASCII, the space included. *)
Definition header_char (a : ascii) : bool := byte_in 32 126 a.

Class HttpLaws `{HttpLib} : Prop := {
  get_all_empty n : hm_get_all hm_empty n = [];
  get_all_insert n v h : hm_get_all (hm_insert n v h) n = [v];
  get_all_insert_ne n n' v h : n <> n' -> hm_get_all (hm_insert n v h) n' = hm_get_all h n';
  get_all_append n v h : hm_get_all (hm_append n v h) n = hm_get_all h n ++ [v];
  get_all_append_ne n n' v h : n <> n' -> hm_get_all (hm_append n v h) n' = hm_get_all h n';
  to_str_visible v s :
    hv_to_str v = Some s -> bytes_all (fun a => header_char a || (a ==? "009"%char)) s = true;
  from_str_visible s :
    bytes_all (fun a => header_char a || (a ==? "009"%char)) s = true -> hv_from_str s = Some s;
}.

Class FormLib := {
  form_parse : string -> list (string * string);
  form_serialize : list (string * string) -> string;
  (* a [Url] after [query_pairs_mut().append_pair(..)] on each pair, as text *)
  url_with_pairs : Url -> list (string * string) -> string;
}.

(** What [form_urlencoded] leaves unescaped, and its own signs. *)
Definition form_char (a : ascii) : bool :=
  is_ascii_alphanumeric a || (a ==? "*"%char) || (a ==? "-"%char) || (a ==? "."%char)
  || (a ==? "_"%char) || (a ==? "+"%char) || (a ==? "%"%char) || (a ==? "&"%char) || (a ==? "="%char).

Class FormLaws `{FormLib} : Prop := {
  form_alphabet l : bytes_all form_char (form_serialize l) = true;
  form_parse_serialize l :
    l <> [] -> Forall (fun kv => from_utf8 kv.1 = true /\ from_utf8 kv.2 = true) l ->
    form_parse (form_serialize l) = l;
  form_parse_nil : form_parse EmptyString = [];
}.

(** A response of the server. *)
Record Response `{HttpLib} := {
  rs_status : Z;
  rs_headers : HeaderMap;
  rs_body : string;
}.

(** [axum]'s conversions into a response: of a status, of a status, headers
    and a text, of a status and [Html], of [Redirect::to]; and its rejection of a
    body over the limit. [json_text] is [serde_json::to_string]. *)
Class AxumLib `{HttpLib} := {
  status_response : Z -> Response;
  content_response : Z -> list (string * string) -> string -> Response;
  html_response : Z -> string -> Response;
  redirect_to : string -> Response;
  body_rejection : Response;
  json_text : Json -> string;
}.

Class AxumLaws `{AxumLib} : Prop := {
  status_response_status s : rs_status (status_response s) = s;
  status_response_headers s n : hm_get_all (rs_headers (status_response s)) n = [];
  content_response_ok s hs b :
    rs_status (content_response s hs b) = s /\ rs_body (content_response s hs b) = b;
  html_response_ok s b :
    rs_status (html_response s b) = s /\ rs_body (html_response s b) = b
    /\ forall n, n <> "content-type" -> hm_get_all (rs_headers (html_response s b)) n = [];
  redirect_to_ok uri : bytes_all header_char uri = true ->
    rs_status (redirect_to uri) = 303%Z /\ hm_get_all (rs_headers (redirect_to uri)) "location" = [uri]
    /\ forall n, n <> "location" -> hm_get_all (rs_headers (redirect_to uri)) n = [];
  redirect_to_location uri v :
    v ∈ hm_get_all (rs_headers (redirect_to uri)) "location" -> v = uri;
}.

(** ** Forms *)

(** What follows a ['%'] are two hexadecimal digits. *)
Fixpoint valid_percent (raw : string) : bool :=
  match raw with
  | EmptyString => true
  | String c rest =>
      if c ==? "%"%char then
        match rest with
        | String h1 (String h2 rest') => is_ascii_hexdigit h1 && is_ascii_hexdigit h2 && valid_percent rest'
        | _ => false
        end
      else valid_percent rest
  end.

Definition valid_scope (scope : string) : bool :=
  negb (str_empty scope)
  && bytes_all (fun b => (b ==? "!"%char) || byte_in 35 91 b || byte_in 93 126 b) scope.

Definition Form : Type := list (string * string).

Definition pairs `{FormLib} (raw : string) (max : Z) : option Form :=
  if (max <? len raw)%Z || negb (valid_percent raw) then None
  else
    let v := form_parse raw in
    if (32 <? length v)%nat || existsb (fun kv => (128 <? len kv.1)%Z || (2048 <? len kv.2)%Z) v
    then None
    else Some v.

(** The values of a name, in order. *)
Definition values_of (q : Form) (name : string) : list string :=
  map snd (List.filter (fun kv => kv.1 ==? name) q).
Definition one (q : Form) (name : string) : option string :=
  match values_of q name with
  | [v] => Some v
  | _ => None
  end.
(** Errors are OAuth error codes. *)
Definition required (q : Form) (name : string) : result string string :=
  ok_or (opt_filter (fun v => negb (str_empty v)) (one q name)) "invalid_request".
Definition optional (q : Form) (name : string) : result (option string) string :=
  if (1 <? length (values_of q name))%nat then Err "invalid_request" else Ok (one q name).
(** [q.iter().any(|(key, _)| key == name)]. *)
Definition has_key (q : Form) (name : string) : bool := existsb (fun kv => kv.1 ==? name) q.

(** ** Cookies and origins *)

Section Headers.
Context `{HttpLib}.

(** [h.get(name)] and [.and_then(|v| v.to_str().ok())]. *)
Definition hm_get (h : HeaderMap) (name : string) : option string := List.hd_error (hm_get_all h name).
Definition header_text (h : HeaderMap) (name : string) : option string :=
  match hm_get h name with Some v => hv_to_str v | None => None end.

(** The inner loop of [cookie]; [Err] is its early return of [None]. *)
Fixpoint cookie_parts (parts : list string) (name : string) (found : option string)
    : result (option string) unit :=
  match parts with
  | [] => Ok found
  | part :: parts' =>
      match split_once "=" (trim part) with
      | None => Err tt
      | Some (k, v) =>
          if k ==? name then
            if is_some found || (512 <? len v)%Z then Err tt
            else cookie_parts parts' name (Some v)
          else cookie_parts parts' name found
      end
  end.
Fixpoint cookie_values (values : list string) (name : string) (found : option string)
    : result (option string) unit :=
  match values with
  | [] => Ok found
  | value :: values' =>
      try! text <- ok_or (hv_to_str value) tt;
      if (4096 <? len text)%Z then Err tt
      else
        try! found' <- cookie_parts (firstn 32 (split_char ";" text)) name found;
        cookie_values values' name found'
  end.
Definition cookie (h : HeaderMap) (name : string) : option string :=
  match cookie_values (hm_get_all h "cookie") name None with
  | Ok found => found
  | Err _ => None
  end.

Definition tx_prefix (secure : bool) : string := if secure then "__Host-eri_tx_" else "eri_tx_".
Definition is_tx_cookie `{UuidLib} (secure : bool) (k : string) : bool :=
  is_some_and (strip_prefix (tx_prefix secure) k) (fun id => is_some (uuid_parse id)).
(** The name and value pairs of every readable Cookie header. *)
Definition cookie_pairs (h : HeaderMap) : list (string * string) :=
  omap (fun p => split_once "=" (trim p))
    (List.concat (map (split_char ";") (omap hv_to_str (hm_get_all h "cookie")))).

Definition transaction_cookies `{UuidLib} (h : HeaderMap) (secure : bool) : list (string * string) :=
  let values := List.filter (fun kv => is_tx_cookie secure kv.1 && (len kv.2 <=? 512)%Z) (cookie_pairs h) in
  let unique := bset_of_list (map fst values) in
  if (4 <? length values)%nat || negb (length unique =? length values)%nat then [] else values.
Definition transaction_cookie_count `{UuidLib} (h : HeaderMap) (secure : bool) : nat :=
  length (List.filter (fun kv => is_tx_cookie secure kv.1) (cookie_pairs h)).
Definition tx_cookie `{UuidLib} (id : Uuid) (secure : bool) : string :=
  tx_prefix secure +:+ uuid_text id.
Definition session_cookie (secure : bool) : string :=
  if secure then "__Host-eri_session" else "eri_dev_session".

(** The text of a Set-Cookie, with [extra] among the attributes. *)
Definition set_cookie (name value extra : string) (secure : bool) : string :=
  name +:+ "=" +:+ value +:+ "; Path=/; HttpOnly; SameSite=Lax" +:+ extra
  +:+ (if secure then "; Secure" else "").
Definition start_cookie `{UuidLib} (id : Uuid) (binding : string) (secure : bool) : string :=
  set_cookie (tx_cookie id secure) binding "; Max-Age=600" secure.
Definition login_cookie (raw : string) (secure : bool) : string :=
  set_cookie (session_cookie secure) raw EmptyString secure.
Definition clearing_cookie (name : string) (secure : bool) : string :=
  set_cookie name EmptyString "; Max-Age=0" secure.

(** An unreadable or repeated Origin is an origin no client has. *)
Definition invalid_origin : string := String "000"%char EmptyString.
Definition origin (h : HeaderMap) : option string :=
  match hm_get_all h "origin" with
  | [] => None
  | [first] => Some (match hv_to_str first with Some v => v | None => invalid_origin end)
  | _ => Some invalid_origin
  end.
Definition same_origin (h : HeaderMap) (issuer : string) : bool :=
  is_none_or (origin h) (fun v => v ==? issuer).

Definition bearer (h : HeaderMap) (f : Form) : option string :=
  let a := match header_text h "authorization" with
           | Some v => strip_prefix "Bearer " v
           | None => None
           end in
  match a, one f "access_token" with
  | Some v, None | None, Some v => Some v
  | _, _ => None
  end.
End Headers.

(** ** Redirect targets and pages *)

(** The pairs whose value is present. *)
Definition present (items : list (string * option string)) : Form :=
  omap (fun kv => match kv.2 with Some v => Some (kv.1, v) | None => None end) items.
Definition redirect_url `{FormLib} (base : string) (items : list (string * option string)) : string :=
  let q := form_serialize (present items) in
  if str_empty q then base
  else base +:+ (if str_contains "?" base then "&" else "?") +:+ q.

(** [v.replace(c, by)]. *)
Fixpoint replace (c : ascii) (by_ : string) (v : string) : string :=
  match v with
  | EmptyString => EmptyString
  | String a v' => if a ==? c then by_ +:+ replace c by_ v' else String a (replace c by_ v')
  end.
Definition quote : ascii := "034"%char.
Definition escape (v : string) : string :=
  replace "'" "&#39;" (replace quote "&quot;" (replace ">" "&gt;" (replace "<" "&lt;" (replace "&" "&amp;" v)))).

(** A quoted attribute's value. *)
Definition quoted (v : string) : string := String quote v +:+ String quote EmptyString.

Definition page_head (links title : string) : string :=
  "<!doctype html><html lang=es><head><meta charset=utf-8><meta name=viewport content='width=device-width,initial-scale=1'>"
  +:+ links +:+ "<title>" +:+ title +:+ " · Eri</title></head><body><main>".
Definition page (title body : string) : string :=
  page_head "<link rel=stylesheet href=/auth.css>" title
  +:+ "<div class=mark>E</div><p class=eyebrow>IDENTIDAD SHOCKER</p><h1>" +:+ title +:+ "</h1>"
  +:+ body +:+ "</main></body></html>".

Definition hidden_input (name value : string) : string :=
  "<input type=hidden name=" +:+ name +:+ " value=" +:+ quoted value +:+ ">".

Definition render_consent `{UuidLib} (v : ConsentView) : string :=
  page "Autorizar acceso"
    ("<p><strong>" +:+ escape (cv_client_name v) +:+ "</strong> solicita acceso a tu cuenta.</p><p class=account>Cuenta: <strong>"
     +:+ escape (cv_account v) +:+ "</strong></p><p>Permisos: " +:+ escape (str_join " · " (cv_scopes v))
     +:+ "</p><p>Recurso: " +:+ escape (cv_resource v) +:+ "</p><form method=post action=/consent>"
     +:+ hidden_input "transaction_id" (uuid_text (cv_transaction_id v))
     +:+ hidden_input "csrf" (escape (cv_csrf v))
     +:+ "<button name=action value=approve>Autorizar</button><button class=secondary name=action value=deny>Denegar</button></form>").
Definition render_login `{UuidLib} (client_name : string) (scopes : list string) (resource : string)
    (id : Uuid) (state : string) : string :=
  page (escape client_name)
    ("<p>Esta aplicación solicita acceso a tu cuenta.</p><p>Permisos: " +:+ escape (str_join " · " scopes)
     +:+ "</p><p>Recurso: " +:+ escape resource
     +:+ "</p><form method=post action=/federation/google/start>"
     +:+ hidden_input "transaction_id" (uuid_text id) +:+ hidden_input "state" (escape state)
     +:+ "<button name=action value=continue>Continuar con Google</button><button class=secondary name=action value=cancel>Cancelar</button></form>").
Definition render_logout `{UuidLib} (v : LogoutChallenge) : string :=
  page "Cerrar sesión"
    ("<p>Se cerrará tu sesión en Eri.</p><form method=post action=/logout>"
     +:+ hidden_input "challenge" (uuid_text (lch_id v)) +:+ hidden_input "csrf" (escape (lch_csrf v))
     +:+ "<button>Cerrar sesión</button></form>").

(** ** Response headers *)

Section Responses.
Context `{HttpLib}.

Definition with_headers (f : HeaderMap -> HeaderMap) (r : Response) : Response :=
  {| rs_status := rs_status r; rs_headers := f (rs_headers r); rs_body := rs_body r |}.
(** [if !h.contains_key(name) { h.insert(name, value) }]. *)
Definition insert_absent (name value : string) (h : HeaderMap) : HeaderMap :=
  if is_some (hm_get h name) then h else hm_insert name value h.

Definition default_csp : string :=
  "default-src 'none'; style-src 'self'; form-action 'self'; frame-ancestors 'none'; base-uri 'none'".
Definition sensitive_headers (h : HeaderMap) : HeaderMap :=
  let h := hm_insert "cache-control" "no-store" h in
  let h := hm_insert "pragma" "no-cache" h in
  let h := insert_absent "referrer-policy" "no-referrer" h in
  let h := hm_insert "x-content-type-options" "nosniff" h in
  let h := hm_insert "x-frame-options" "DENY" h in
  insert_absent "content-security-policy" default_csp h.
Definition sensitive (r : Response) : Response := with_headers sensitive_headers r.

Definition public_security (h : HeaderMap) : HeaderMap :=
  hm_insert "x-content-type-options" "nosniff" (hm_insert "access-control-allow-origin" "*" h).

Definition cors (o : string) (h : HeaderMap) : HeaderMap :=
  match hv_from_str o with
  | None => h
  | Some v =>
      let h := hm_insert "access-control-allow-origin" v h in
      let h := hm_insert "vary" "Origin" h in
      let h := hm_insert "access-control-allow-methods" "GET, POST, OPTIONS" h in
      hm_insert "access-control-allow-headers" "authorization, content-type" h
  end.
(** [if let Some(o) = origin(&headers) { cors(..) }]. *)
Definition with_cors (o : option string) (r : Response) : Response :=
  match o with Some o => with_headers (cors o) r | None => r end.

Section Axum.
Context `{UrlLib, FormLib, !AxumLib}.

Definition redirect_params (base : string) (items : list (string * option string)) : Response :=
  redirect_to (redirect_url base items).

Definition oauth_redirect (base : string) (state : option string) (issuer error : string) : Response :=
  sensitive (redirect_params base [("error", Some error); ("state", state); ("iss", Some issuer)]).
Definition code_redirect (base : string) (state : option string) (issuer code : string) : Response :=
  sensitive (redirect_params base [("code", Some code); ("state", state); ("iss", Some issuer)]).

(** [form_action_source]: a CSP source for a redirect target. *)
Definition form_action_source (redirect_uri : string) : option string :=
  match url_parse redirect_uri with
  | None => None
  | Some url =>
      if (url_scheme url ==? "http") || (url_scheme url ==? "https") then Some (url_origin url)
      else if negb (str_empty (url_scheme url))
              && bytes_all (fun b => is_ascii_alphanumeric b || (b ==? "+"%char) || (b ==? "-"%char)
                                     || (b ==? "."%char)) (url_scheme url)
      then Some (url_scheme url +:+ ":")
      else None
  end.

Definition return_page (target : string) : string :=
  page_head ("<meta http-equiv=refresh content=" +:+ quoted ("0;url=" +:+ target) +:+ ">") "Continuar"
  +:+ "<h1>Continuar</h1><p><a href=" +:+ quoted target
  +:+ ">Volver a la aplicación</a></p></main></body></html>".
Definition consent_return (base : string) (items : list (string * option string)) : Response :=
  if negb (is_some_and (url_parse base)
             (fun url => (url_scheme url ==? "http") || (url_scheme url ==? "https")))
  then sensitive (redirect_params base items)
  else sensitive (html_response 200 (return_page (escape (redirect_url base items)))).

Definition local_error (m : string) : Response :=
  sensitive (html_response 400 (page "No pudimos continuar" ("<p>" +:+ escape m +:+ "</p>"))).

(** The policy with the sources a form of the page may lead to. *)
Definition csp_for (sources : string) : string :=
  "default-src 'none'; style-src 'self'; form-action 'self' " +:+ sources
  +:+ "; frame-ancestors 'none'; base-uri 'none'".
Definition insert_csp (sources : option string) (h : HeaderMap) : HeaderMap :=
  match sources with
  | None => h
  | Some sources =>
      match hv_from_str (csp_for sources) with
      | Some value => hm_insert "content-security-policy" value h
      | None => h
      end
  end.
Definition form_page (html redirect_uri : string) : Response :=
  with_headers (fun h =>
      insert_csp (form_action_source redirect_uri) (hm_insert "referrer-policy" "strict-origin" h))
    (sensitive (html_response 200 html)).
Definition login_page (html google_uri redirect_uri : string) : Response :=
  with_headers (fun h =>
      insert_csp (match form_action_source google_uri, form_action_source redirect_uri with
                  | Some google, Some client => Some (google +:+ " " +:+ client)
                  | _, _ => None
                  end)
        (hm_insert "referrer-policy" "strict-origin" h))
    (sensitive (html_response 200 html)).

Definition json_sensitive_status (s : Z) (v : Json) : Response :=
  sensitive (content_response s [("content-type", "application/json")] (json_text v)).
Definition json_sensitive (v : Json) : Response := json_sensitive_status 200 v.
Definition public_json (body : string) : Response :=
  with_headers public_security
    (content_response 200 [("content-type", "application/json"); ("cache-control", "public, max-age=300")] body).
Definition json_public (v : Json) : Response := public_json (json_text v).

Definition error_json (c : string) : Json := JObject [("error", JString c)].
Definition token_error (c : string) : Response := json_sensitive_status 400 (error_json c).
Definition bearer_error : Response :=
  with_headers (hm_insert "www-authenticate" ("Bearer error=" +:+ quoted "invalid_token"))
    (json_sensitive_status 401 (error_json "invalid_token")).
Definition not_found : Response := sensitive (status_response 404).

Definition css_response (css : string) : Response :=
  with_headers public_security (content_response 200 [("content-type", "text/css; charset=utf-8")] css).
Definition signed_out : Response :=
  sensitive (html_response 200
    (page "Sesión cerrada" "<p>Tu sesión de Eri se cerró correctamente.</p>")).
End Axum.
End Responses.
