(* ===== verification/CimdTransport.v ===== *)
(** * CimdTransport: how cimd.rs reaches a client's metadata document

    [SystemResolver] and [PinnedTransport] of src/src/cimd.rs: the client
    they build, what they ask of the answer's headers, and how they read its
    body. The resolver of tokio and the HTTP client of reqwest are
    arguments. (A [SocketAddr] is an address and a port: the flow and the
    scope of an IPv6 one are zero in what a resolver answers.) *)

From Stdlib Require Import Ascii ZArith.
From S2P Require Import Prelude External Cimd Http.

(** In seconds. *)
Definition REQUEST_TIMEOUT : Z := 5.
Definition CONNECT_TIMEOUT : Z := 2.

#[export] Instance ip_addr_eq_dec : EqDecision IpAddr.
Proof. solve_decision. Defined.
#[export] Instance socket_addr_eq_dec : EqDecision SocketAddr.
Proof. solve_decision. Defined.

(** ** DNS *)

(** [tokio::net::lookup_host] answers the addresses, if it succeeds. *)
Definition system_resolve (lookup_host : string -> Z -> option (list SocketAddr))
    (host : string) (port : Z) : result (list SocketAddr) CimdError :=
  ok_or (lookup_host host port) FetchFailed.

(** ** The HTTP client *)

(** What the builder sets: [None] is [Policy::none()]. *)
Record ClientConfig := {
  cc_proxy : bool;
  cc_redirects : option nat;
  cc_connect_timeout : Z;
  cc_timeout : Z;
  cc_http1_only : bool;
  cc_pool_max_idle_per_host : nat;
  cc_resolve_to : string * list SocketAddr;
}.

Definition pinned_client (host : string) (addrs : list SocketAddr) : ClientConfig :=
  {| cc_proxy := false; cc_redirects := None; cc_connect_timeout := CONNECT_TIMEOUT;
     cc_timeout := REQUEST_TIMEOUT; cc_http1_only := true; cc_pool_max_idle_per_host := 0;
     cc_resolve_to := (host, addrs) |}.

(** An answer of reqwest: the body comes in chunks, after which [chunk()]
    answers the end of the body or an error. *)
Record HttpAnswer `{HttpLib} := {
  ha_remote_addr : option SocketAddr;
  ha_content_length : option Z;
  ha_status : Z;
  ha_headers : HeaderMap;
  ha_chunks : list string;
  ha_broken : bool;
}.

(** [usize::saturating_add]. *)
Definition usize_saturating_add (a b : Z) : Z := Z.min u64_max (a + b).

Section Transport.
Context `{HttpLib}.

(** The loop over [response.chunk()]. *)
Fixpoint read_chunks (body : string) (chunks : list string) (broken : bool) : result string CimdError :=
  match chunks with
  | [] => if broken then Err FetchFailed else Ok body
  | chunk :: rest =>
      if (MAX_DOCUMENT_BYTES <? usize_saturating_add (len body) (len chunk))%Z then Err InvalidDocument
      else read_chunks (body +:+ chunk) rest broken
  end.

(** Every field, or nothing: one that is no text makes the answer
    uncacheable. *)
Definition cache_control_fields (headers : HeaderMap) : option (list string) :=
  mapM hv_to_str (hm_get_all headers "cache-control").

(** The greatest Age; [u64::MAX] when one is not a number. *)
Fixpoint greatest_age (values : list string) (greatest : Z) : Z :=
  match values with
  | [] => greatest
  | value :: rest =>
      match hv_to_str value with
      | Some v =>
          match parse_unsigned u64_max v with
          | Some age => greatest_age rest (Z.max greatest age)
          | None => u64_max
          end
      | None => u64_max
      end
  end.

(** [PinnedTransport::fetch]; [build] is the builder, and [send] of the
    client it answers. *)
Definition pinned_fetch (build : ClientConfig -> option (Url -> option HttpAnswer))
    (url : Url) (host : string) (addrs : list SocketAddr) : result ResponseDocument CimdError :=
  try! send <- ok_or (build (pinned_client host addrs)) FetchFailed;
  try! response <- ok_or (send url) FetchFailed;
  if negb (is_some_and (ha_remote_addr response) (fun peer => bool_decide (peer ∈ addrs)))
  then Err UnsafeDestination
  else if is_some_and (ha_content_length response) (fun n => MAX_DOCUMENT_BYTES <? n)%Z
  then Err InvalidDocument
  else
    let content_type := header_text (ha_headers response) "content-type" in
    let cache_control := cache_control_fields (ha_headers response) in
    let age := greatest_age (hm_get_all (ha_headers response) "age") 0 in
    try! body <- read_chunks EmptyString (ha_chunks response) (ha_broken response);
    Ok {| rd_status := ha_status response; rd_content_type := content_type;
          rd_cache_control := cache_control; rd_age := age; rd_body := body |}.
End Transport.
