(* ===== verification/Web.v ===== *)
(** * Web: src/src/web.rs, the HTTP handlers

    Each handler is a program over the database that ends with a response,
    or with a panic of the code ([unwrap], [expect], [unreachable]). What a
    handler asks of the outside is an argument: [leased n id], the document
    the CIMD fetcher answers to the n-th resolution of the request, and the
    answer of Google's token endpoint. Handlers run when the state has a
    provider, which is what mounts their routes. *)

From Stdlib Require Import Ascii ZArith.
From stdpp Require Import pretty.
From S2P Require Import Prelude External Schema Effects Cimd Jose Keys OAuth Config Identity Google Database Credentials Tokens Logout Browser Http.

Inductive Panic : Type :=
| InvalidHeader      (* [HeaderValue::from_str(..).unwrap()] *)
| InvalidVerifier    (* [expect("generated verifier is valid")] *)
| Unreachable.

(** The answer is inspected: [match p.await { .. }]. *)
Notation "x <! p ;; k" := (bind p (fun x => k))
  (at level 100, p at next level, right associativity) : eri_scope.

(** [for attempt in 0..2 { .. }] whose body continues with [None] and leaves
    the loop with [Some]. *)
Definition for_attempts {A} (body : nat -> prog (option A)) (exhausted : prog A) : prog A :=
  r <! body 0%nat ;;
  match r with
  | Some a => Ret a
  | None =>
      r <! body 1%nat ;;
      match r with
      | Some a => Ret a
      | None => exhausted
      end
  end.

Record Provider := {
  pv_registry : ClientRegistry;
  pv_cimd_policy : option CimdPolicyConfig;
  pv_google : GoogleAdapter;
  pv_issuer : string;
  pv_userinfo : string;
  pv_secure : bool;
}.

Fixpoint trim_end_slashes (s : string) : string :=
  match s with
  | EmptyString => EmptyString
  | String a s' =>
      let t := trim_end_slashes s' in
      if (a ==? "/"%char) && str_empty t then EmptyString else String a t
  end.

(** [AppState::new]'s provider; [env] is the environment. *)
Inductive StartError : Type :=
| IncompleteProvider
| SecretMissing
| ConfigFailed (e : ConfigError)
| GoogleFailed (e : GoogleError).

Definition new_provider `{UrlLib} (config : Config) (env : string -> option string)
    : result (option Provider) StartError :=
  match cfg_authorization config with
  | None => Ok None
  | Some auth =>
      try! google <- ok_or (az_google auth) IncompleteProvider;
      if is_none_or (env (gg_client_secret_env google)) str_empty then Err SecretMissing
      else
        try! registry <- map_err ConfigFailed (authorization_registry config);
        try! registry <-
          ok_or registry (ConfigFailed (InvalidConfig "authorization configuration is invalid"));
        let issuer := trim_end_slashes (url_as_str (cfg_issuer config)) in
        try! adapter <-
          map_err GoogleFailed
            (new_adapter (gg_client_id google) (gg_client_secret_env google) (cfg_issuer config));
        Ok (Some {| pv_registry := registry;
                    pv_cimd_policy := az_cimd auth;
                    pv_google := adapter;
                    pv_issuer := issuer;
                    pv_userinfo := issuer +:+ "/userinfo";
                    pv_secure := cfg_mode config ==? Production |})
  end.

Definition Leases : Type := nat -> string -> option LeasedClientMetadata.

Section Provider.
Context `{UrlLib}.

(** [resolve_client]: [snapshot] is the fetcher's answer. *)
Definition resolve_client (p : Provider) (snapshot : option LeasedClientMetadata) (client_id : string)
    : prog (option ClientRegistry) :=
  if contains_client (pv_registry p) client_id then Ret (Some (pv_registry p))
  else
    match pv_cimd_policy p, snapshot with
    | Some policy, Some snapshot =>
        InstantNow (fun now => Ret
          (match project_cimd now (pv_registry p) snapshot (cp_scopes policy) (cp_resources policy)
                   (cp_allow_refresh policy) with
           | Ok registry => Some registry
           | Err _ => None
           end))
    | _, _ => Ret None
    end.

Definition provider_scopes (p : Provider) : list string :=
  match pv_cimd_policy p with
  | Some policy => bset_extend (advertised_scopes (pv_registry p)) (policy_scopes policy)
  | None => advertised_scopes (pv_registry p)
  end.
End Provider.

(** [registry.ensure_fresh()]. *)
Definition registry_fresh (registry : ClientRegistry) : prog (result unit OAuthError) :=
  InstantNow (fun now => Ret (OAuth.ensure_fresh now (cr_dynamic registry))).

Section Handlers.
Context `{Crypto, JwtLib, UrlLib, JsonLib, JsonDb, UuidLib, HttpLib, FormLib, !AxumLib}.
Context (p : Provider) (leased : Leases).

Definition respond (r : Response) : M Panic Response := Ret (Ok r).

(** [HeaderValue::from_str(..).unwrap()] on the way into a header. *)
Definition put_cookie (put : string -> string -> HeaderMap -> HeaderMap) (cookie : string)
    (r : Response) : result Response Panic :=
  try! value <- ok_or (hv_from_str cookie) InvalidHeader;
  Ok (with_headers (put "set-cookie" value) r).
Definition clear_transaction_cookie (name : option string) (r : Response) : result Response Panic :=
  match name with
  | Some name => put_cookie hm_append (clearing_cookie name (pv_secure p)) r
  | None => Ok r
  end.

Definition session_from (h : HeaderMap) : prog (option ProviderSession) :=
  match cookie h (session_cookie (pv_secure p)) with
  | None => Ret None
  | Some raw =>
      r <! find_provider_session raw ;;
      Ret (match r with Ok session => Some session | Err _ => None end)
  end.

(** ** /authorize *)

Definition expired_request : Response := local_error "La solicitud expiró".
Definition invalid_request : Response := local_error "Solicitud inválida".
Definition invalid_client : Response := local_error "Cliente o retorno inválido".

Definition consent_page (base : nat) (session : ProviderSession) (handle : ConsentHandle)
    : prog Response :=
  client <! transaction_client_id (ch_transaction_id handle) ;;
  match client with
  | Err _ => Ret expired_request
  | Ok client =>
      for_attempts (fun attempt =>
        registry <! resolve_client p (leased (base + attempt)%nat client) client ;;
        match registry with
        | None => Ret (Some expired_request)
        | Some registry =>
            view <! consent_view session handle registry ;;
            match view with
            | Ok v => Ret (Some (form_page (render_consent v) (cv_redirect_uri v)))
            | Err Browser.MetadataExpired =>
                if (attempt =? 0)%nat then Ret None else Ret (Some expired_request)
            | Err _ => Ret (Some expired_request)
            end
        end) (Ret expired_request)
  end.

(** The parameters [authorize_valid] reads, in the order it reads them. *)
Record AuthorizeParams := {
  ap_client : string;
  ap_redirect : string;
  ap_response_type : string;
  ap_method : string;
  ap_challenge : string;
  ap_scopes : list string;
  ap_resource : option string;
  ap_nonce : option string;
  ap_downstream : option string;
  ap_prompt : option string;
  ap_max_age : option Z;
}.

Fixpoint refuse_present (q : Form) (names : list string) : result unit string :=
  match names with
  | [] => Ok tt
  | name :: names' =>
      try! v <- optional q name;
      if is_some v then Err "request_not_supported" else refuse_present q names'
  end.

Definition authorize_params (q : Form) : result AuthorizeParams string :=
  try! _u <- refuse_present q ["request_uri"; "request"; "claims"; "response_mode"];
  try! client <- required q "client_id";
  try! redirect <- required q "redirect_uri";
  try! response_type <- required q "response_type";
  try! method <- required q "code_challenge_method";
  try! challenge <- required q "code_challenge";
  try! scope <- required q "scope";
  try! resource <- optional q "resource";
  try! nonce <- optional q "nonce";
  try! downstream <- optional q "state";
  try! prompt <- optional q "prompt";
  if is_some_and prompt (fun v =>
       negb ((v ==? "none") || (v ==? "consent") || (v ==? "login") || (v ==? "select_account")))
  then Err "invalid_request"
  else
    try! max_age <- optional q "max_age";
    try! max_age <-
      match max_age with
      | None => Ok None
      | Some v =>
          map_ok Some
            (ok_or (opt_filter (fun n => n <=? 31536000)%Z (parse_unsigned u64_max v)) "invalid_request")
      end;
    Ok {| ap_client := client; ap_redirect := redirect; ap_response_type := response_type;
          ap_method := method; ap_challenge := challenge;
          ap_scopes := List.filter (fun v => negb (str_empty v)) (split_char " " scope);
          ap_resource := resource; ap_nonce := nonce; ap_downstream := downstream;
          ap_prompt := prompt; ap_max_age := max_age |}.

Definition params_request (a : AuthorizeParams) : AuthorizationRequest :=
  {| ar_client_id := ap_client a; ar_redirect_uri := ap_redirect a;
     ar_response_type := ap_response_type a; ar_code_challenge_method := ap_method a;
     ar_code_challenge := ap_challenge a; ar_scopes := ap_scopes a; ar_resource := ap_resource a |}.

Inductive AuthorizeError : Type :=
| OAuthCode (code : string)
| Panicked (panic : Panic).

(** [p.await.map_err(|_| code)?]. *)
Definition or_code {E A} (code : string) (m : M E A) : M AuthorizeError A :=
  bind m (fun r => Ret (map_err (fun _ => OAuthCode code) r)).
Definition code_result {A} (r : result A string) : M AuthorizeError A := lift (map_err OAuthCode r).
Definition or_panic {A} (r : result A Panic) : M AuthorizeError A := lift (map_err Panicked r).

(** The [max_age] of a request against the session's upstream sign-in. *)
Definition check_max_age (session : ProviderSession) (max_age : option Z) : M AuthorizeError unit :=
  match max_age with
  | None => ret tt
  | Some max_age =>
      auth_time <- or_code "login_required" (session_upstream_auth_time session) ;;
      match auth_time with
      | None => raise (OAuthCode "login_required")
      | Some auth_time =>
          now <- utc_now ;;
          if (max_age <? (now - auth_time) ÷ micros)%Z then raise (OAuthCode "login_required")
          else ret tt
      end
  end.

(** The request of a signed-in browser. *)
Definition authorize_session (a : AuthorizeParams) (pending : PendingAuthorizationGrant)
    (allow_pre_authorization : bool) (registry : ClientRegistry) (base : nat)
    (session : ProviderSession) : M AuthorizeError Response :=
  check_max_age session (ap_max_age a) ;;;
  if (ap_prompt a ==? Some "none") && negb allow_pre_authorization
  then raise (OAuthCode "consent_required")
  else
    handle <- or_code "server_error"
      (begin_authenticated_with_pre_authorization session pending (ap_downstream a) (ap_nonce a)
         allow_pre_authorization) ;;
    outcome <-
      (if allow_pre_authorization
       then or_code "server_error" (approve_pre_authorized session handle registry)
       else ret None) ;;
    match outcome with
    | Some outcome =>
        ret (code_redirect (co_redirect_uri outcome) (co_downstream_state outcome) (pv_issuer p)
               (co_code outcome))
    | None =>
        if allow_pre_authorization && (ap_prompt a ==? Some "none")
        then raise (OAuthCode "consent_required")
        else page <! consent_page base session handle ;; ret page
    end.

(** [BrowserStart::upstream_challenge]. *)
Definition upstream_challenge (start : BrowserStart) : result string Panic :=
  map_err (fun _ => InvalidVerifier) (s256_challenge (bs_upstream_verifier start)).

(** The text of the URL [GoogleAdapter::authorization_url] builds. *)
Definition google_url (state nonce challenge : string) : result string GoogleError :=
  map_ok (fun '(url, items) => url_with_pairs url items)
    (authorization_url (pv_google p) state nonce challenge true).

(** The request of a browser with no session: a new sign-in. *)
Definition authorize_sign_in (a : AuthorizeParams) (pending : PendingAuthorizationGrant)
    (allow_pre_authorization : bool) (registry : ClientRegistry) (headers : HeaderMap)
    : M AuthorizeError Response :=
  if (ap_prompt a ==? Some "none") || is_some (ap_max_age a)
  then raise (OAuthCode "login_required")
  else if (4 <=? transaction_cookie_count headers (pv_secure p))%nat
  then raise (OAuthCode "temporarily_unavailable")
  else
    start <- or_code "server_error"
      (begin_google_with_pre_authorization pending (ap_downstream a) (ap_nonce a)
         allow_pre_authorization) ;;
    (if allow_pre_authorization
     then or_code "server_error"
            (start_google (bs_transaction_id start) (bs_upstream_state start)
               (bs_browser_binding start)) ;;; ret tt
     else ret tt) ;;;
    challenge <- or_panic (upstream_challenge start) ;;
    upstream <- code_result
      (map_err (fun _ => "server_error")
        (google_url (bs_upstream_state start) (bs_upstream_nonce start) challenge)) ;;
    client_name <- code_result (ok_or (display_name registry (ap_client a)) "server_error") ;;
    let r :=
      if allow_pre_authorization then sensitive (redirect_to upstream)
      else login_page
             (render_login client_name (pg_scopes pending) (pg_resource pending)
                (bs_transaction_id start) (bs_upstream_state start))
             upstream (pg_redirect_uri pending) in
    or_panic (map_ok sensitive
      (put_cookie hm_insert
         (start_cookie (bs_transaction_id start) (bs_browser_binding start) (pv_secure p)) r)).

Definition authorize_valid (q : Form) (headers : HeaderMap) (registry : ClientRegistry) (base : nat)
    : M AuthorizeError Response :=
  a <- code_result (authorize_params q) ;;
  pending <- at_instant (fun now => validate_pending now registry (params_request a)) ;;
  pending <- code_result (map_err (fun _ => "invalid_request") pending) ;;
  let allow_pre_authorization :=
    (ap_prompt a <>? Some "consent") && pre_authorizes registry pending in
  session <! session_from headers ;;
  if ap_prompt a ==? Some "login" then raise (OAuthCode "login_required")
  else
    match opt_filter (fun _ => ap_prompt a <>? Some "select_account") session with
    | Some session => authorize_session a pending allow_pre_authorization registry base session
    | None => authorize_sign_in a pending allow_pre_authorization registry headers
    end.

(** A resolution by the handler itself takes the leases 0 and 3, one by its
    consent page 1 and 2, or 4 and 5. *)
Definition authorize (raw : string) (headers : HeaderMap) : M Panic Response :=
  match pairs raw 8192 with
  | None => respond invalid_request
  | Some q =>
      match one q "client_id", one q "redirect_uri" with
      | Some client, Some redirect =>
          for_attempts (fun attempt =>
            registry <! resolve_client p (leased (attempt * 3)%nat client) client ;;
            match registry with
            | None => Ret (Some (Ok invalid_client))
            | Some registry =>
                if negb (trusted_redirect registry client redirect)
                then Ret (Some (Ok invalid_client))
                else
                  match optional q "state" with
                  | Err _ => Ret (Some (Ok invalid_request))
                  | Ok state =>
                      result <! authorize_valid q headers registry (attempt * 3 + 1)%nat ;;
                      match result with
                      | Ok response => Ret (Some (Ok response))
                      | Err (Panicked panic) => Ret (Some (Err panic))
                      | Err (OAuthCode code) =>
                          fresh <! registry_fresh registry ;;
                          if is_err fresh && (attempt =? 0)%nat then Ret None
                          else
                            fresh <! registry_fresh registry ;;
                            Ret (Some (Ok
                              (if is_ok fresh
                               then oauth_redirect redirect state (pv_issuer p) code
                               else expired_request)))
                      end
                  end
            end) (respond expired_request)
      | _, _ => respond invalid_request
      end
  end.
(** The two routes: a query that may be absent, a body that is UTF-8 or
    counts as empty. *)
Definition authorize_get (raw : option string) (headers : HeaderMap) : M Panic Response :=
  authorize (match raw with Some raw => raw | None => EmptyString end) headers.
Definition authorize_post (headers : HeaderMap) (body : string) : M Panic Response :=
  authorize (if from_utf8 body then body else EmptyString) headers.

Definition pairs_bytes (body : string) (max : Z) : option Form :=
  if from_utf8 body then pairs body max else None.

(** [required(&q, name).and_then(|v| Uuid::parse_str(v))], without its error. *)
Definition required_uuid (q : Form) (name : string) : option Uuid :=
  match required q name with Ok v => uuid_parse v | Err _ => None end.

(** ** Google's federation *)

(** The retry loop around a store operation: it resolves the client anew
    and stops on any answer but an expired lease on the first attempt. *)
Definition with_registry {A} (base : nat) (client : string)
    (op : ClientRegistry -> M BrowserError A) : prog (option A) :=
  for_attempts (fun attempt =>
    registry <! resolve_client p (leased (base + attempt)%nat client) client ;;
    match registry with
    | None => Ret (Some None)
    | Some registry =>
        r <! op registry ;;
        match r with
        | Ok value => Ret (Some (Some value))
        | Err Browser.MetadataExpired => if (attempt =? 0)%nat then Ret None else Ret (Some None)
        | Err _ => Ret (Some None)
        end
    end) (Ret None).

Definition denied_redirect (outcome : DenialOutcome) : Response :=
  oauth_redirect (do_redirect_uri outcome) (do_downstream_state outcome) (pv_issuer p) "access_denied".

Definition google_cancel (id : Uuid) (state binding name : string) : M Panic Response :=
  client <! transaction_client_id id ;;
  match client with
  | Err _ => respond expired_request
  | Ok client =>
      outcome <! with_registry 0 client (cancel_google_with_registry id state binding) ;;
      match outcome with
      | None => respond expired_request
      | Some outcome => lift (clear_transaction_cookie (Some name) (denied_redirect outcome))
      end
  end.

Definition google_start_handler (headers : HeaderMap) (body : string) : M Panic Response :=
  if negb (same_origin headers (pv_issuer p)) then respond (local_error "Origen inválido")
  else
    match pairs_bytes body 1024 with
    | None => respond invalid_request
    | Some q =>
        match required_uuid q "transaction_id", required q "state", required q "action" with
        | Some id, Ok state, Ok action =>
            if negb ((action ==? "continue") || (action ==? "cancel")) then respond invalid_request
            else
              let name := tx_cookie id (pv_secure p) in
              match cookie headers name with
              | None => respond expired_request
              | Some binding =>
                  if action ==? "cancel" then google_cancel id state binding name
                  else
                    started <! start_google id state binding ;;
                    match started with
                    | Err _ => respond expired_request
                    | Ok (nonce, verifier) =>
                        match s256_challenge verifier with
                        | Err _ => respond invalid_request
                        | Ok challenge =>
                            match google_url state nonce challenge with
                            | Err _ => respond (local_error "No se pudo iniciar el acceso")
                            | Ok url => respond (sensitive (redirect_to url))
                            end
                        end
                    end
              end
        | _, _, _ => respond invalid_request
        end
    end.

(** *** The callback *)

Definition invalid_answer : Response := local_error "Respuesta de acceso inválida".

(** The loop over the transaction cookies: the first whose binding claims
    the callback, with the cookie's name. *)
Fixpoint claim_with (state : string) (cookies : list (string * string))
    : prog (option (string * string * string * string)) :=
  match cookies with
  | [] => Ret None
  | (name, binding) :: cookies' =>
      claim <! claim_callback state binding ;;
      match claim with
      | Ok (claim, verifier, nonce) => Ret (Some (name, claim, verifier, nonce))
      | Err _ => claim_with state cookies'
      end
  end.

(** [if let Ok(client) = .. { for attempt in 0..2 { .. } }]. *)
Definition for_client {A} (base : nat) (client : M BrowserError string)
    (op : ClientRegistry -> M BrowserError A) : prog (option A) :=
  client <! client ;;
  match client with
  | Err _ => Ret None
  | Ok client => with_registry base client op
  end.

(** Google refused: the transaction is denied, or fails. *)
Definition callback_error (error claim name : string) : M Panic Response :=
  if error <>? "access_denied" then
    _u <! fail_callback claim ;;
    lift (clear_transaction_cookie (Some name) invalid_answer)
  else
    outcome <! for_client 0 (callback_client_id claim) (deny_callback claim) ;;
    lift (clear_transaction_cookie (Some name)
      (match outcome with Some v => denied_redirect v | None => invalid_answer end)).

(** The pre-authorized end of a completed sign-in: [Err] answers with the
    expired page, [Ok None] goes on to the consent page. *)
Definition pre_authorized_end (completion : LoginCompletion) : prog (result (option Response) unit) :=
  client <! transaction_client_id (ch_transaction_id (lg_consent completion)) ;;
  match client with
  | Err _ => Ret (Ok None)
  | Ok client =>
      for_attempts (fun attempt =>
        registry <! resolve_client p (leased (2 + attempt)%nat client) client ;;
        match registry with
        | None => Ret (Some (Ok None))
        | Some registry =>
            r <! approve_pre_authorized (lg_session completion) (lg_consent completion) registry ;;
            match r with
            | Ok (Some outcome) =>
                Ret (Some (Ok (Some (code_redirect (co_redirect_uri outcome)
                  (co_downstream_state outcome) (pv_issuer p) (co_code outcome)))))
            | Ok None => Ret (Some (Ok None))
            | Err Browser.MetadataExpired =>
                if (attempt =? 0)%nat then Ret None else Ret (Some (Err tt))
            | Err _ => Ret (Some (Err tt))
            end
        end) (Ret (Ok None))
  end.

Definition session_duration : Duration := {| dur_secs := 30 * 24 * 3600; dur_nanos := 0 |}.

(** A verified identity: the session opens, its cookie is set and the
    transaction's cleared. *)
Definition callback_complete (claim name : string) (verified : VerifiedGoogleIdentity)
    : M Panic Response :=
  completion <! for_client 0 (callback_client_id claim) (fun registry =>
    complete_callback_with_registry claim verified session_duration registry) ;;
  match completion with
  | None => lift (clear_transaction_cookie (Some name) expired_request)
  | Some completion =>
      r <! pre_authorized_end completion ;;
      match r with
      | Err _ => lift (clear_transaction_cookie (Some name) expired_request)
      | Ok r =>
          r <! (match r with
                | Some r => Ret r
                | None => consent_page 4 (lg_session completion) (lg_consent completion)
                end) ;;
          lift (try! r <- put_cookie hm_insert
                            (login_cookie (se_raw (lg_session completion)) (pv_secure p)) r;
                try! r <- clear_transaction_cookie (Some name) r;
                Ok (sensitive r))
      end
  end.

(** [exchange code verifier nonce] is the answer of [GoogleAdapter::exchange_code]. *)
Definition callback (exchange : string -> string -> string -> result VerifiedGoogleIdentity GoogleError)
    (raw : option string) (headers : HeaderMap) : M Panic Response :=
  match pairs (match raw with Some raw => raw | None => EmptyString end) 4096 with
  | None => respond invalid_answer
  | Some q =>
      match one q "state", optional q "code", optional q "error" with
      | Some state, Ok code, Ok upstream_error =>
          if Bool.eqb (is_some code) (is_some upstream_error) then respond invalid_answer
          else
            winner <! claim_with state (transaction_cookies headers (pv_secure p)) ;;
            match winner with
            | None => respond invalid_answer
            | Some (name, claim, verifier, nonce) =>
                match upstream_error, code with
                | Some error, _ => callback_error error claim name
                | None, Some code =>
                    match exchange code verifier nonce with
                    | Ok verified => callback_complete claim name verified
                    | Err _ =>
                        _u <! fail_callback claim ;;
                        lift (clear_transaction_cookie (Some name)
                                (local_error "No se pudo verificar el acceso"))
                    end
                | None, None => raise Unreachable (* [code.unwrap()] *)
                end
            end
      | _, _, _ => respond invalid_answer
      end
  end.

(** ** /consent *)

Definition consent_get (raw : option string) (headers : HeaderMap) : M Panic Response :=
  match pairs (match raw with Some raw => raw | None => EmptyString end) 2048 with
  | None => respond invalid_request
  | Some q =>
      match one q "transaction_id", one q "csrf" with
      | Some id, Some csrf =>
          match uuid_parse id with
          | None => respond invalid_request
          | Some id =>
              session <! session_from headers ;;
              match session with
              | None => respond (local_error "Sesión inválida")
              | Some session =>
                  page <! consent_page 0 session {| ch_transaction_id := id; ch_csrf := csrf |} ;;
                  respond page
              end
          end
      | _, _ => respond invalid_request
      end
  end.

(** A decision of the user, in the retry loop. *)
Definition decide_consent {A} (client : string) (op : ClientRegistry -> M BrowserError A)
    (return_ : A -> Response) : M Panic Response :=
  outcome <! with_registry 0 client op ;;
  respond (match outcome with Some v => return_ v | None => expired_request end).

Definition consent_action (action client : string) (session : ProviderSession) (h : ConsentHandle)
    : M Panic Response :=
  if action ==? "approve" then
    decide_consent client (approve session h) (fun v =>
      consent_return (co_redirect_uri v)
        [("code", Some (co_code v)); ("state", co_downstream_state v); ("iss", Some (pv_issuer p))])
  else if action ==? "deny" then
    decide_consent client (deny_with_registry session h) (fun v =>
      consent_return (do_redirect_uri v)
        [("error", Some "access_denied"); ("state", do_downstream_state v);
         ("iss", Some (pv_issuer p))])
  else
    (* the client is resolved before the action is looked at *)
    registry <! resolve_client p (leased 0%nat client) client ;;
    respond (if is_some registry then invalid_request else expired_request).

Definition consent_post (headers : HeaderMap) (body : string) : M Panic Response :=
  match pairs_bytes body 4096 with
  | None => respond invalid_request
  | Some q =>
      match one q "transaction_id", one q "csrf", one q "action" with
      | Some id, Some csrf, Some action =>
          match uuid_parse id with
          | None => respond invalid_request
          | Some id =>
              if negb (same_origin headers (pv_issuer p)) then respond (local_error "Origen inválido")
              else
                session <! session_from headers ;;
                match session with
                | None => respond (local_error "Sesión inválida")
                | Some session =>
                    client <! transaction_client_id id ;;
                    match client with
                    | Err _ => respond expired_request
                    | Ok client =>
                        consent_action action client session
                          {| ch_transaction_id := id; ch_csrf := csrf |}
                    end
                end
          end
      | _, _, _ => respond invalid_request
      end
  end.

(** ** /token, /userinfo, /revoke *)

Context (keys : SigningKeys).

Definition opt_member (name : string) (v : option string) : list (string * Json) :=
  match v with Some v => [(name, JString v)] | None => [] end.

(** [Serialize for TokenResponse]. *)
Definition token_json (t : TokenResponse) : Json :=
  JObject ([ ("access_token", JString (tr_access_token t));
             ("token_type", JString (tr_token_type t));
             ("expires_in", JNumber (pretty (tr_expires_in t)));
             ("scope", JString (tr_scope t)) ]
           ++ opt_member "refresh_token" (tr_refresh_token t)
           ++ opt_member "id_token" (tr_id_token t)).

Definition foreign_origin (headers : HeaderMap) (client : string) : bool :=
  is_some_and (origin headers) (fun o => negb (valid_browser_origin (pv_registry p) client o)).

(** The store's answer to a grant of a client, and whether it is the first;
    [Err] is an OAuth error code. *)
Definition token_grant (q : Form) (client : string) (resource : option string)
    (scope : option (list string)) (registry : ClientRegistry)
    : prog (result (result (ExchangeResult * bool) CredentialError) string) :=
  match one q "grant_type" with
  | Some grant_type =>
      if grant_type ==? "authorization_code" then
        match one q "code", one q "redirect_uri", one q "code_verifier" with
        | Some code, Some redirect, Some verifier =>
            r <! Credentials.exchange_code_request code client redirect resource verifier scope registry ;;
            Ret (Ok (map_ok (fun v => (v, true)) r))
        | _, _, _ => Ret (Err "invalid_request")
        end
      else if grant_type ==? "refresh_token" then
        match one q "refresh_token" with
        | Some refresh =>
            r <! rotate_refresh_request refresh client resource scope registry ;;
            Ret (Ok (map_ok (fun v => (v, false)) r))
        | None => Ret (Err "invalid_request")
        end
      else Ret (Err "unsupported_grant_type")
  | None => Ret (Err "unsupported_grant_type")
  end.

(** The loop: once more when the client's lease expired on the first
    attempt. *)
Definition token_loop (q : Form) (client : string) (resource : option string)
    (scope : option (list string))
    : prog (result (result (ExchangeResult * bool) CredentialError) string) :=
  for_attempts (fun attempt =>
    registry <! resolve_client p (leased attempt client) client ;;
    match registry with
    | None => Ret (Some (Err "invalid_grant"))
    | Some registry =>
        r <! token_grant q client resource scope registry ;;
        match r with
        | Ok (Err Credentials.MetadataExpired) =>
            if (attempt =? 0)%nat then Ret None else Ret (Some r)
        | _ => Ret (Some r)
        end
    end) (Ret (Err "invalid_grant")).

(** [tokens::issue], which reads the clock and draws an identifier. *)
Definition issue_tokens (exchange : ExchangeResult) (initial : bool) : prog Response :=
  UtcNow (fun now => NewUuid (fun jti => Ret
    (match issue keys (pv_issuer p) (pv_userinfo p) exchange initial (timestamp now) jti with
     | Ok v => json_sensitive (token_json v)
     | Err _ => token_error "server_error"
     end))).

Definition token (headers : HeaderMap) (body : string) : M Panic Response :=
  match pairs_bytes body 8192 with
  | None => respond (token_error "invalid_request")
  | Some q =>
      match one q "client_id" with
      | None => respond (token_error "invalid_request")
      | Some client =>
          if existsb (has_key q) ["client_secret"; "client_assertion"; "client_assertion_type"]
          then respond (token_error "invalid_client")
          else if foreign_origin headers client then respond (token_error "invalid_client")
          else
            match optional q "resource", optional q "scope" with
            | Ok resource, Ok scope =>
                result <! token_loop q client resource (option_map (split_char " ") scope) ;;
                match result with
                | Err code => respond (token_error code)
                | Ok result =>
                    response <! (match result with
                                 | Ok (v, initial) => issue_tokens v initial
                                 | Err _ => Ret (token_error "invalid_grant")
                                 end) ;;
                    respond (with_cors (origin headers) response)
                end
            | _, _ => respond (token_error "invalid_request")
            end
      end
  end.

(** The claims of the profile that the scopes allow. *)
Definition userinfo_json (sub : Uuid) (scopes : list string) (profile : UserProfile) : Json :=
  JObject ([("sub", JString (uuid_text sub))]
    ++ (if existsb (fun s => s ==? "profile") scopes
        then opt_member "name" (pr_name profile) ++ opt_member "given_name" (pr_given_name profile)
             ++ opt_member "family_name" (pr_family_name profile)
             ++ opt_member "picture" (pr_picture profile)
        else [])
    ++ (if existsb (fun s => s ==? "email") scopes
        then match pr_verified_email profile with
             | Some v => [("email", JString v); ("email_verified", JBool true)]
             | None => []
             end
        else [])).

(** The checks on a verified access token, at [now] in seconds. *)
Definition acceptable_claims (claims : AccessClaims) (now : Z) : bool :=
  negb ((at_exp claims <=? now - 30)%Z || (now + 30 <? at_iat claims)%Z
        || str_empty (at_jti claims) || str_empty (at_client_id claims))
  && (let scopes := split_char " " (at_scope claims) in
      existsb (fun s => s ==? "openid") scopes && negb (length scopes =? 0)%nat
      && forallb valid_scope scopes).

Definition userinfo_form (body : string) : option Form :=
  if str_empty body then Some [] else pairs_bytes body 4096.

Definition userinfo (headers : HeaderMap) (body : string) : M Panic Response :=
  match userinfo_form body with
  | None => respond bearer_error
  | Some form =>
      match bearer headers form with
      | None => respond bearer_error
      | Some token =>
          UtcNow (fun now =>
          match verify keys (timestamp now) token (pv_issuer p) (pv_userinfo p) with
          | Err _ => respond bearer_error
          | Ok claims =>
              UtcNow (fun now =>
              if negb (acceptable_claims claims (timestamp now)) then respond bearer_error
              else if foreign_origin headers (at_client_id claims) then respond bearer_error
              else
                profile <! user_profile (at_sub claims) ;;
                match profile with
                | Ok (Some profile) =>
                    respond (with_cors (origin headers)
                      (json_sensitive
                        (userinfo_json (at_sub claims) (split_char " " (at_scope claims)) profile)))
                | _ => respond bearer_error
                end)
          end)
      end
  end.

Definition revoke (headers : HeaderMap) (body : string) : M Panic Response :=
  match pairs_bytes body 4096 with
  | None => respond (token_error "invalid_request")
  | Some q =>
      match one q "client_id", one q "token" with
      | Some client, Some value =>
          if foreign_origin headers client then respond (token_error "invalid_client")
          else
            r <! revoke_refresh value client ;;
            respond (with_cors (origin headers)
              (if is_err r then json_sensitive_status 503 (error_json "server_error")
               else sensitive (status_response 200)))
      | _, _ => respond (token_error "invalid_request")
      end
  end.

Definition allowed_header (v : string) : bool :=
  let v := to_ascii_lowercase (trim v) in
  str_empty v || (v ==? "authorization") || (v ==? "content-type").

Definition api_options (headers : HeaderMap) : Response :=
  match origin headers with
  | None => sensitive (status_response 400)
  | Some o =>
      let requested_method := header_text headers "access-control-request-method" in
      let requested_headers :=
        match header_text headers "access-control-request-headers" with
        | Some v => v
        | None => EmptyString
        end in
      let headers_valid := forallb allowed_header (split_char "," requested_headers) in
      if negb (reviewed_browser_origin (pv_registry p) o)
         || negb ((requested_method ==? Some "GET") || (requested_method ==? Some "POST"))
         || negb headers_valid
      then sensitive (status_response 403)
      else with_headers (cors o) (status_response 204)
  end.

(** ** /logout *)

Definition logout_response (v : LogoutOutcome) : result Response Panic :=
  map_ok sensitive
    (put_cookie hm_append (clearing_cookie (session_cookie (pv_secure p)) (pv_secure p))
       (redirect_params (lo_redirect_uri v) [("state", lo_state v)])).

(** The challenge that asks for a logout, confirmed at once when the hint
    says so. *)
Definition logout_begin (session : ProviderSession) (client redirect state : option string)
    (hint : option IdClaims) : M Panic Response :=
  challenge <! (match client, redirect with
                | Some client, Some redirect =>
                    bind (begin session client redirect state (pv_registry p)) ret
                | _, None => bind (begin_local session (pv_issuer p)) ret
                | None, Some _ => raise Unreachable
                end) ;;
  match challenge with
  | Err panic => raise panic
  | Ok (Err _) => respond invalid_request
  | Ok (Ok challenge) =>
      let confirm := form_page (render_logout challenge) (lch_redirect_uri challenge) in
      match opt_filter (fun _ => is_some redirect) hint with
      | None => respond confirm
      | Some hint =>
          r <! finish_hint session challenge (pv_registry p) hint ;;
          match r with
          | Ok (Some outcome) => lift (logout_response outcome)
          | Ok None => respond confirm
          | Err _ => respond invalid_request
          end
      end
  end.

Definition logout_rp (headers : HeaderMap) (q : Form) : M Panic Response :=
  if existsb (fun kv => negb (existsb (fun n => n ==? kv.1)
       ["client_id"; "post_logout_redirect_uri"; "state"; "id_token_hint"])) q
  then respond invalid_request
  else
    match optional q "client_id", optional q "post_logout_redirect_uri", optional q "state",
          optional q "id_token_hint" with
    | Ok client, Ok redirect, Ok state, Ok hint =>
        hint <! (match hint with
                 | None => Ret (Ok None)
                 | Some token =>
                     UtcNow (fun now => Ret
                       (map_ok Some (verify_id_logout keys (timestamp now) token (pv_issuer p))))
                 end) ;;
        match hint with
        | Err _ => respond invalid_request
        | Ok hint =>
            if is_some_and client (fun client => is_some_and hint (fun hint => client <>? id_aud hint))
            then respond invalid_request
            else
              let client := or_else client (option_map id_aud hint) in
              if is_some redirect && is_none client || is_some state && is_none redirect
              then respond invalid_request
              else
                session <! session_from headers ;;
                match session with
                | None => respond (local_error "Sesión inválida")
                | Some session => logout_begin session client redirect state hint
                end
        end
    | _, _, _, _ => respond invalid_request
    end.

Definition logout_get (raw : option string) (headers : HeaderMap) : M Panic Response :=
  match pairs (match raw with Some raw => raw | None => EmptyString end) 4096 with
  | None => respond invalid_request
  | Some q => logout_rp headers q
  end.

Definition form_content_type (headers : HeaderMap) : bool :=
  is_some_and (header_text headers "content-type") (fun v =>
    match split_char ";" v with
    | v :: _ => eq_ignore_ascii_case (trim v) "application/x-www-form-urlencoded"
    | [] => false
    end).

(** The confirmation of a challenge. *)
Definition logout_confirm (headers : HeaderMap) (q : Form) : M Panic Response :=
  if existsb (fun kv => (kv.1 <>? "challenge") && (kv.1 <>? "csrf")) q then respond invalid_request
  else
    match optional q "challenge", optional q "csrf" with
    | Ok (Some id), Ok (Some csrf) =>
        match uuid_parse id with
        | None => respond invalid_request
        | Some id =>
            if negb (same_origin headers (pv_issuer p)) then respond (local_error "Origen inválido")
            else
              session <! session_from headers ;;
              match session with
              | None => respond (local_error "Sesión inválida")
              | Some session =>
                  r <! finish session (submitted id csrf) (pv_registry p) ;;
                  match r with
                  | Ok outcome => lift (logout_response outcome)
                  | Err _ => respond invalid_request
                  end
              end
        end
    | _, _ => respond invalid_request
    end.

Definition logout_post (raw : option string) (headers : HeaderMap) (body : string)
    : M Panic Response :=
  if is_some_and raw (fun raw => negb (str_empty raw)) || negb (form_content_type headers)
  then respond invalid_request
  else
    match pairs_bytes body 4096 with
    | None => respond invalid_request
    | Some q =>
        if negb (has_key q "challenge" || has_key q "csrf") then logout_rp headers q
        else logout_confirm headers q
    end.

(** ** Discovery *)

Definition strings_json (l : list string) : Json := JArray (map JString l).
Definition metadata_json : Json :=
  let b := pv_issuer p in
  JObject
    [ ("issuer", JString b);
      ("authorization_endpoint", JString (b +:+ "/authorize"));
      ("token_endpoint", JString (b +:+ "/token"));
      ("userinfo_endpoint", JString (b +:+ "/userinfo"));
      ("revocation_endpoint", JString (b +:+ "/revoke"));
      ("jwks_uri", JString (b +:+ "/jwks"));
      ("response_types_supported", strings_json ["code"]);
      ("subject_types_supported", strings_json ["public"]);
      ("id_token_signing_alg_values_supported", strings_json ["RS256"]);
      ("token_endpoint_auth_methods_supported", strings_json ["none"]);
      ("grant_types_supported", strings_json ["authorization_code"; "refresh_token"]);
      ("code_challenge_methods_supported", strings_json ["S256"]);
      ("authorization_response_iss_parameter_supported", JBool true);
      ("request_uri_parameter_supported", JBool false);
      ("request_parameter_supported", JBool false);
      ("claims_parameter_supported", JBool false);
      ("scopes_supported", strings_json (provider_scopes p));
      ("client_id_metadata_document_supported", JBool (is_some (pv_cimd_policy p))) ].
Definition discovery : Response := json_public metadata_json.
Definition jwks : Response := public_json (sk_jwks_json keys).

(** [ready]: the answer of [Database::ready]. *)
Definition ready (database_ready : bool) : Response :=
  sensitive (status_response (if database_ready then 204 else 503)).
Definition live : Response := sensitive (status_response 204).
End Handlers.

(** ** Routing *)

Inductive Method : Type := GET | HEAD | POST | OPTIONS | OtherMethod.

Inductive Route : Type :=
| RLive | RReady | RJwks | RCss | RSignedOut | RDiscovery
| RAuthorizeGet | RAuthorizePost | RGoogleStart | RCallback | RConsentGet | RConsentPost
| RToken | RUserinfo | RRevoke | ROptions | RLogoutGet | RLogoutPost | RNotFound.

Definition route_table (has_provider : bool) (path : string) : list (Method * Route) :=
  if path ==? "/health/live" then [(GET, RLive)]
  else if path ==? "/health/ready" then [(GET, RReady)]
  else if path ==? "/jwks" then [(GET, RJwks)]
  else if path ==? "/auth.css" then [(GET, RCss)]
  else if negb has_provider then []
  else if path ==? "/" then [(GET, RSignedOut)]
  else if (path ==? "/.well-known/openid-configuration")
          || (path ==? "/.well-known/oauth-authorization-server") then [(GET, RDiscovery)]
  else if path ==? "/authorize" then [(GET, RAuthorizeGet); (POST, RAuthorizePost)]
  else if path ==? "/federation/google/start" then [(POST, RGoogleStart)]
  else if path ==? "/federation/google/callback" then [(GET, RCallback)]
  else if path ==? "/consent" then [(GET, RConsentGet); (POST, RConsentPost)]
  else if path ==? "/token" then [(POST, RToken); (OPTIONS, ROptions)]
  else if path ==? "/userinfo" then [(GET, RUserinfo); (POST, RUserinfo); (OPTIONS, ROptions)]
  else if path ==? "/revoke" then [(POST, RRevoke); (OPTIONS, ROptions)]
  else if path ==? "/logout" then [(GET, RLogoutGet); (POST, RLogoutPost)]
  else [].

#[export] Instance Method_eq_dec : EqDecision Method.
Proof. solve_decision. Defined.

(** The route a request takes; both fallbacks are [not_found]. axum answers
    HEAD with the handler of GET. *)
Definition router (has_provider : bool) (method : Method) (path : string) : Route :=
  let method := if method ==? HEAD then GET else method in
  match List.find (fun mr => mr.1 ==? method) (route_table has_provider path) with
  | Some mr => mr.2
  | None => RNotFound
  end.

(** The paths whose responses are public. *)
Definition public_path (path : string) : bool :=
  (path ==? "/jwks") || (path ==? "/.well-known/openid-configuration")
  || (path ==? "/.well-known/oauth-authorization-server") || (path ==? "/auth.css").
Definition security_middleware `{HttpLib} (path : string) (r : Response) : Response :=
  with_headers (if public_path path then public_security else sensitive_headers) r.

(** ** The server *)

Section Server.
Context `{Crypto, JwtLib, UrlLib, JsonLib, JsonDb, UuidLib, HttpLib, FormLib, !AxumLib}.

Record Request := {
  rq_method : Method;
  rq_path : string;
  rq_query : option string;
  rq_headers : HeaderMap;
  rq_body : string;
}.

(** What a request is answered from outside: the CIMD fetcher, Google's
    token endpoint and the readiness probe of the database. *)
Record Outside := {
  out_leased : Leases;
  out_exchange : string -> string -> string -> result VerifiedGoogleIdentity GoogleError;
  out_database_ready : bool;
}.

(** [AppState], with the stylesheet the binary includes. *)
Record AppState := {
  st_keys : SigningKeys;
  st_provider : option Provider;
  st_css : string;
}.

(** A handler that takes the body: axum rejects one over
    [DefaultBodyLimit::max(8192)] before the handler runs. *)
Definition with_body (rq : Request) (handler : string -> M Panic Response) : M Panic Response :=
  if (8192 <? len (rq_body rq))%Z then respond body_rejection else handler (rq_body rq).

(** The handlers of the routes mounted with a provider. *)
Definition provider_route (p : Provider) (keys : SigningKeys) (out : Outside) (route : Route)
    (rq : Request) : M Panic Response :=
  let headers := rq_headers rq in
  let leased := out_leased out in
  match route with
  | RSignedOut => respond signed_out
  | RDiscovery => respond (discovery p)
  | RAuthorizeGet => authorize_get p leased (rq_query rq) headers
  | RAuthorizePost => with_body rq (authorize_post p leased headers)
  | RGoogleStart => with_body rq (google_start_handler p leased headers)
  | RCallback => callback p leased (out_exchange out) (rq_query rq) headers
  | RConsentGet => consent_get p leased (rq_query rq) headers
  | RConsentPost => with_body rq (consent_post p leased headers)
  | RToken => with_body rq (token p leased keys headers)
  | RUserinfo => with_body rq (userinfo p keys headers)
  | RRevoke => with_body rq (revoke p headers)
  | ROptions => respond (api_options p headers)
  | RLogoutGet => logout_get p keys (rq_query rq) headers
  | RLogoutPost => with_body rq (logout_post p keys (rq_query rq) headers)
  | _ => respond not_found
  end.

Definition route_handler (s : AppState) (out : Outside) (route : Route) (rq : Request)
    : M Panic Response :=
  match route with
  | RLive => respond live
  | RReady => respond (ready (out_database_ready out))
  | RJwks => respond (jwks (st_keys s))
  | RCss => respond (css_response (st_css s))
  | RNotFound => respond not_found
  | _ =>
      match st_provider s with
      | Some p => provider_route p (st_keys s) out route rq
      | None => respond not_found
      end
  end.

(** axum empties the body of an answer to HEAD. *)
Definition head_response (method : Method) (r : Response) : Response :=
  if method ==? HEAD
  then {| rs_status := rs_status r; rs_headers := rs_headers r; rs_body := EmptyString |}
  else r.

(** A request through the router and the outermost layer. *)
Definition serve (s : AppState) (out : Outside) (rq : Request) : M Panic Response :=
  r <- route_handler s out (router (is_some (st_provider s)) (rq_method rq) (rq_path rq)) rq ;;
  ret (security_middleware (rq_path rq) (head_response (rq_method rq) r)).
End Server.
