(* ===== verification/Startup.v ===== *)
(** * Startup: src/src/main.rs, and the pool of src/src/database.rs

    What the process does from its arguments to the served router, as a
    computation that notes what it touches, in order. The file system, the
    environment, TOML, the pool, the migrations, the listener and the server
    are fields of [Host]. *)

From Stdlib Require Import Ascii ZArith.
From S2P Require Import Prelude External Schema Effects Cimd Jose Keys OAuth Config Google Credentials Http Web.

(** [tokio::time::timeout]. *)
Inductive Timed (A : Type) : Type :=
| Elapsed
| InTime (a : A).
Arguments Elapsed {A}.
Arguments InTime {A} a.

(** [Duration::from_secs] and [Duration::from_millis]. *)
Definition from_secs (n : Z) : Duration := {| dur_secs := n; dur_nanos := 0 |}.
Definition from_millis (n : Z) : Duration :=
  {| dur_secs := n / 1000; dur_nanos := n mod 1000 * 1000000 |}.
Definition connect_timeout (config : DatabaseConfig) : Duration := from_secs (db_connect_timeout_seconds config).
Definition acquire_timeout (config : DatabaseConfig) : Duration := from_secs (db_acquire_timeout_seconds config).
Definition readiness_timeout (config : DatabaseConfig) : Duration :=
  from_millis (db_readiness_timeout_milliseconds config).

(** [PgPoolOptions] with the URL it connects to. *)
Record PoolOptions := {
  po_url : string;
  po_max_connections : Z;
  po_min_connections : Z;
  po_acquire_timeout : Duration;
}.
Record Database := {
  dt_pool : PoolOptions;
  dt_readiness_timeout : Duration;
}.

Inductive Event : Type :=
| ReadConfig (path : string)
| LoadKeys (manifest : string)
| Connect (pool : PoolOptions)
| Migrate
| Bind (address : SocketAddr)
| Serve.

Inductive StartupError : Type :=
| ConfigError_ (e : ConfigError)
| KeyError_ (e : KeyError)
| PoolError
| ConnectionTimedOut
| ConnectionFailed (e : DbError)
| MigrationFailed
| BindFailed
| StateFailed (e : StartError)
| ServeFailed.

(** A fallible computation with the events it caused. *)
Definition W (A : Type) : Type := list Event * result A StartupError.
Definition w_ret {A} (a : A) : W A := ([], Ok a).
Definition w_check {A} (r : result A StartupError) : W A := ([], r).
Definition w_note {A} (e : Event) (r : result A StartupError) : W A := ([e], r).
Definition w_bind {A B} (m : W A) (f : A -> W B) : W B :=
  match m.2 with
  | Ok a => (m.1 ++ (f a).1, (f a).2)
  | Err e => (m.1, Err e)
  end.
Notation "'step!' x <- c ; k" := (w_bind c (fun x => k))
  (at level 200, x name, c at level 100, k at level 200, right associativity) : eri_scope.

Section Startup.
Context `{Crypto, JwtLib, UrlLib, !KeysLib}.

Record Host := {
  ho_read : string -> option string;
  ho_parent : string -> option string;
  ho_toml : string -> option Config;
  ho_env : string -> option string;
  ho_key_file : string -> string -> option FileEntry;
  ho_connect_lazy : PoolOptions -> bool;
  ho_acquire : PoolOptions -> Duration -> Timed (result unit DbError);
  ho_select_1 : Duration -> Timed (result Z DbError);
  ho_migrate : bool;
  ho_bind : SocketAddr -> bool;
  ho_serve : bool;
}.
Context (host : Host).

(** [Database::connect]. *)
Definition connect (config : DatabaseConfig) : W Database :=
  step! url <- w_check (map_err ConfigError_ (resolved_url config (ho_env host (db_url_env config))));
  let pool := {| po_url := url; po_max_connections := db_max_connections config;
                 po_min_connections := db_min_connections config;
                 po_acquire_timeout := acquire_timeout config |} in
  if negb (ho_connect_lazy host pool) then w_check (Err PoolError)
  else
    w_note (Connect pool)
      (match ho_acquire host pool (connect_timeout config) with
       | Elapsed => Err ConnectionTimedOut
       | InTime (Err e) => Err (ConnectionFailed e)
       | InTime (Ok _) => Ok {| dt_pool := pool; dt_readiness_timeout := readiness_timeout config |}
       end).

(** [Database::ready]: [SELECT 1] in time. *)
Definition database_ready (database : Database) : bool :=
  match ho_select_1 host (dt_readiness_timeout database) with
  | InTime (Ok v) => (v =? 1)%Z
  | _ => false
  end.

Definition load_config (path : string) : W Config :=
  w_note (ReadConfig path)
    (map_err ConfigError_ (Config.load (ho_toml host) (ho_read host path) (ho_parent host path))).

Record Args := {
  ar_config : string;
  ar_check_config : bool;
}.

(** [main]: [None] is the successful end of [--check-config]. *)
Definition main (args : Args) : W (option Provider) :=
  step! config <- load_config (ar_config args);
  if ar_check_config args then w_ret None
  else
    step! _keys <-
      w_note (LoadKeys (cfg_signing_manifest config))
        (map_err KeyError_ (Keys.load (ho_read host (cfg_signing_manifest config))
                              (ho_key_file host (cfg_signing_manifest config))));
    step! _database <- connect (cfg_database config);
    step! _u <- w_note Migrate (if ho_migrate host then Ok tt else Err MigrationFailed);
    step! _u <- w_note (Bind (cfg_bind config))
                  (if ho_bind host (cfg_bind config) then Ok tt else Err BindFailed);
    step! provider <- w_check (map_err StateFailed (new_provider config (ho_env host)));
    step! _u <- w_note Serve (if ho_serve host then Ok tt else Err ServeFailed);
    w_ret provider.

(** ** What happens, in order *)

(** The events of a start-up that completes. *)
Definition startup_events (path : string) (config : Config) (pool : PoolOptions) : list Event :=
  [ReadConfig path; LoadKeys (cfg_signing_manifest config); Connect pool; Migrate;
   Bind (cfg_bind config); Serve].

(** Checking the configuration reads it and touches nothing else. *)
Lemma main_check_config args : ar_check_config args = true -> (main args).1 = [ReadConfig (ar_config args)].
Proof.
  intros Hc. unfold main, load_config, w_note, w_bind. simpl. rewrite Hc.
  by destruct (map_err _ _).
Qed.

Lemma connect_events config :
  (connect config).1 = [] \/ exists pool, (connect config).1 = [Connect pool].
Proof.
  unfold connect, w_check, w_note, w_bind. simpl. destruct (map_err _ _); simpl; [|by left].
  destruct (negb _); simpl; [by left|]. right. by eexists.
Qed.

(** The server serves last: what happens is a prefix of the six events, so
    that the listener is bound after the keys were loaded and the migrations
    ran, and nothing of a configuration that does not validate is used. *)
Lemma main_events args :
  (main args).1 = [ReadConfig (ar_config args)] \/
  exists config pool rest, Config.load (ho_toml host) (ho_read host (ar_config args))
      (ho_parent host (ar_config args)) = Ok config
    /\ (main args).1 ++ rest = startup_events (ar_config args) config pool.
Proof.
  unfold main, load_config, w_note, w_check, w_bind. simpl.
  destruct (Config.load _ _ _) as [config|e] eqn:Hl; simpl; [|by left].
  destruct (ar_check_config args); simpl; [by left|]. right.
  destruct (Keys.load _ _) as [keys|e]; simpl;
    [|eexists _, {| po_url := ""; po_max_connections := 0; po_min_connections := 0;
                    po_acquire_timeout := from_secs 0 |}, _; split; reflexivity].
  destruct (connect_events (cfg_database config)) as [Hev|[pool Hev]].
  - destruct (connect (cfg_database config)) as [ev [db|e]] eqn:Hc; simpl in *; subst ev.
    + exfalso. revert Hc. unfold connect, w_check, w_note, w_bind. simpl.
      destruct (map_err _ _); simpl; [|done]. by destruct (negb _).
    + eexists _, {| po_url := ""; po_max_connections := 0; po_min_connections := 0;
                    po_acquire_timeout := from_secs 0 |}, _. split; reflexivity.
  - destruct (connect (cfg_database config)) as [ev r]. simpl in Hev. subst ev.
    exists config, pool. simpl. repeat (case_match; simpl); eexists; (split; [done|]); simpl; try reflexivity.
Qed.
End Startup.
