(* ===== verification/HttpTheory.v ===== *)
(** * HttpTheory: properties of forms, cookies, pages and headers *)

From Stdlib Require Import Ascii ZArith Lia.
From S2P Require Import Prelude Sets External Cimd Logout Browser Http Web OAuth.

(** ** Escaping *)

(** A byte that cannot end a text node or a quoted attribute. *)
Definition markup_safe (a : ascii) : bool :=
  (a <>? "<"%char) && (a <>? ">"%char) && (a <>? quote) && (a <>? "'"%char).

Definition entities : list (string * ascii) :=
  [("&amp;", "&"%char); ("&lt;", "<"%char); ("&gt;", ">"%char); ("&quot;", quote); ("&#39;", "'"%char)].

(** What a browser reads in escaped text: each of the entities is one
    character. *)
Fixpoint unescape_fuel (fuel : nat) (s : string) : string :=
  match fuel, s with
  | O, _ | _, EmptyString => EmptyString
  | S n, String a s' =>
      match Google.find_map (fun '(e, c) => option_map (fun t => (c, t)) (strip_prefix e s)) entities with
      | Some (c, t) => String c (unescape_fuel n t)
      | None => String a (unescape_fuel n s')
      end
  end.
Definition unescape (s : string) : string := unescape_fuel (String.length s) s.

(** The escapes of one character. *)
Definition escape_char (a : ascii) : string :=
  match List.find (fun ec => ec.2 ==? a) entities with
  | Some (e, _) => e
  | None => String a EmptyString
  end.
Fixpoint escape_each (s : string) : string :=
  match s with
  | EmptyString => EmptyString
  | String a s' => escape_char a +:+ escape_each s'
  end.

Lemma replace_app c by_ s t : replace c by_ (s +:+ t) = replace c by_ s +:+ replace c by_ t.
Proof.
  induction s as [|a s IH]; [done|]. simpl. case_bool_decide; rewrite IH; [|done].
  by rewrite str_app_assoc.
Qed.

Lemma escape_app s t : escape (s +:+ t) = escape s +:+ escape t.
Proof. unfold escape. by rewrite !replace_app. Qed.

Lemma escape_one a : escape (String a EmptyString) = escape_char a.
Proof. by destruct a as [[] [] [] [] [] [] [] []]. Qed.

(** The five passes of [escape] do what one pass does. *)
Lemma escape_is_each s : escape s = escape_each s.
Proof.
  induction s as [|a s IH]; [done|].
  change (String a s) with (String a EmptyString +:+ s). by rewrite escape_app, IH, escape_one.
Qed.

Lemma unescape_char a s fuel :
  (String.length (escape_char a +:+ s) <= S fuel)%nat ->
  unescape_fuel (S fuel) (escape_char a +:+ s) = String a (unescape_fuel fuel s).
Proof. intros _. by destruct a as [[] [] [] [] [] [] [] []]. Qed.

Lemma unescape_enough fuel s :
  (String.length (escape_each s) <= fuel)%nat -> unescape_fuel fuel (escape_each s) = s.
Proof.
  revert fuel. induction s as [|a s IH]; intros fuel Hf; [by destruct fuel|].
  cbn [escape_each] in *. rewrite str_length_app in Hf.
  assert (1 <= String.length (escape_char a))%nat by (by destruct a as [[] [] [] [] [] [] [] []]; simpl; lia).
  destruct fuel as [|fuel]; [lia|]. rewrite unescape_char by (rewrite str_length_app; lia).
  f_equal. apply IH. lia.
Qed.

(** C40: [escape] neutralizes any text: the result holds no angle bracket and
    no quote, so it can neither open a tag nor leave an attribute, and a
    browser that decodes its entities reads the original text back. *)
Theorem escape_neutralizes v :
  bytes_all markup_safe (escape v) = true /\ unescape (escape v) = v.
Proof.
  rewrite escape_is_each. split; [|by apply unescape_enough].
  induction v as [|a v IH]; [done|]. simpl. rewrite bytes_all_app, IH.
  by destruct a as [[] [] [] [] [] [] [] []].
Qed.

(** ** Headers *)

Section Headers.
Context `{HttpLaws}.

Lemma get_all_insert_absent_ne n n' v h :
  n <> n' -> hm_get_all (insert_absent n v h) n' = hm_get_all h n'.
Proof. intros Hne. unfold insert_absent. destruct (is_some _); [done|]. by apply get_all_insert_ne. Qed.

Lemma get_all_insert_absent n v h :
  hm_get_all h n = [] -> hm_get_all (insert_absent n v h) n = [v].
Proof. intros Hn. unfold insert_absent, hm_get. rewrite Hn. apply get_all_insert. Qed.
(** A header that is present is left alone. *)
Lemma get_all_insert_present n v h :
  hm_get_all h n <> [] -> hm_get_all (insert_absent n v h) n = hm_get_all h n.
Proof.
  intros Hn. unfold insert_absent, hm_get. by destruct (hm_get_all h n) eqn:Hv.
Qed.
Lemma insert_absent_present n v h : hm_get_all (insert_absent n v h) n <> [].
Proof.
  destruct (decide (hm_get_all h n = [])) as [Hn|Hn].
  - by rewrite get_all_insert_absent.
  - by rewrite get_all_insert_present.
Qed.
End Headers.

(** Reads a header of a map built by insertions. *)
Ltac headers :=
  repeat first
    [ rewrite get_all_insert
    | rewrite get_all_insert_ne by congruence
    | rewrite get_all_insert_absent_ne by congruence
    | rewrite get_all_append_ne by congruence ].

Section Sensitive.
Context `{HttpLaws}.

Definition security_header (n : string) : bool :=
  bset_contains ["cache-control"; "pragma"; "referrer-policy"; "x-content-type-options";
                 "x-frame-options"; "content-security-policy"] n.

(** [sensitive_headers] touches the security headers only. *)
Lemma sensitive_other n h :
  security_header n = false -> hm_get_all (sensitive_headers h) n = hm_get_all h n.
Proof.
  unfold security_header, bset_contains. simpl.
  rewrite !orb_false_iff, !bool_decide_eq_false. intros (? & ? & ? & ? & ? & ? & _).
  unfold sensitive_headers. by headers.
Qed.

Lemma sensitive_values h :
  hm_get_all (sensitive_headers h) "cache-control" = ["no-store"]
  /\ hm_get_all (sensitive_headers h) "pragma" = ["no-cache"]
  /\ hm_get_all (sensitive_headers h) "x-content-type-options" = ["nosniff"]
  /\ hm_get_all (sensitive_headers h) "x-frame-options" = ["DENY"].
Proof. unfold sensitive_headers. split_and!; by headers. Qed.

(** The policies: the ones present, or the strict defaults. *)
Lemma sensitive_policies h :
  hm_get_all (sensitive_headers h) "content-security-policy"
  = (if is_some (hm_get h "content-security-policy")
     then hm_get_all h "content-security-policy" else [default_csp])
  /\ hm_get_all (sensitive_headers h) "referrer-policy"
     = (if is_some (hm_get h "referrer-policy") then hm_get_all h "referrer-policy" else ["no-referrer"]).
Proof.
  unfold sensitive_headers. split.
  - unfold insert_absent at 1, hm_get. headers.
    destruct (hm_get_all h "content-security-policy") as [|v l] eqn:Hv; simpl; headers; done.
  - headers. unfold insert_absent, hm_get. headers.
    destruct (hm_get_all h "referrer-policy") as [|v l] eqn:Hv; simpl; headers; done.
Qed.

(** Behind the middleware, every response on a path that is not one of
    the four public ones forbids caching, sniffing and framing whatever the
    handler answered, and has a content security policy and a referrer
    policy: the handler's own, or the defaults that load nothing and send no
    referrer. A second pass changes none of them. *)
Theorem security_middleware_sensitive path r :
  public_path path = false ->
  let h := rs_headers (security_middleware path r) in
  hm_get_all h "cache-control" = ["no-store"] /\ hm_get_all h "x-frame-options" = ["DENY"]
  /\ hm_get_all h "x-content-type-options" = ["nosniff"]
  /\ hm_get_all h "content-security-policy"
     = (if is_some (hm_get (rs_headers r) "content-security-policy")
        then hm_get_all (rs_headers r) "content-security-policy" else [default_csp])
  /\ hm_get_all h "referrer-policy" <> []
  /\ (forall n, hm_get_all (rs_headers (security_middleware path (security_middleware path r))) n
               = hm_get_all h n)
  /\ rs_status (security_middleware path r) = rs_status r
  /\ rs_body (security_middleware path r) = rs_body r.
Proof.
  intros Hp h. subst h. unfold security_middleware. rewrite !Hp. simpl.
  destruct (sensitive_values (rs_headers r)) as (Hc & Hpr & Hn & Hx).
  destruct (sensitive_policies (rs_headers r)) as (Hcsp & Href).
  assert (Hrefne : hm_get_all (sensitive_headers (rs_headers r)) "referrer-policy" <> []).
  { rewrite Href. unfold hm_get. by destruct (hm_get_all (rs_headers r) "referrer-policy"). }
  assert (Hcspne : hm_get_all (sensitive_headers (rs_headers r)) "content-security-policy" <> []).
  { rewrite Hcsp. unfold hm_get. by destruct (hm_get_all (rs_headers r) "content-security-policy"). }
  split_and!; try done; try exact Hcsp. intros n.
  destruct (sensitive_values (sensitive_headers (rs_headers r))) as (Hc' & Hpr' & Hn' & Hx').
  destruct (sensitive_policies (sensitive_headers (rs_headers r))) as (Hcsp' & Href').
  unfold hm_get in Hcsp', Href'.
  destruct (security_header n) eqn:Hsec; [|by apply sensitive_other].
  unfold security_header, bset_contains in Hsec. simpl in Hsec.
  rewrite !orb_true_iff, !bool_decide_eq_true in Hsec.
  destruct Hsec as [<-|[<-|[<-|[<-|[<-|[<-|Hsec]]]]]]; try congruence.
  - rewrite Href'. by destruct (hm_get_all (sensitive_headers (rs_headers r)) "referrer-policy").
  - rewrite Hcsp'. by destruct (hm_get_all (sensitive_headers (rs_headers r)) "content-security-policy").
Qed.
End Sensitive.

(** ** Redirects *)


Section Redirects.
Context `{HttpLaws, FormLaws, !AxumLib, !AxumLaws}.

Lemma str_contains_false c s : bytes_all (fun a => a <>? c) s = true -> str_contains c s = false.
Proof. unfold str_contains. by intros ->. Qed.




End Redirects.

(** ** Cookies and origins *)

Section Cookies.
Context `{HttpLib, UuidLib}.

(** The transaction cookies a callback tries are at most four, with
    distinct names that carry a transaction identifier and bounded values;
    when a browser holds more, or a name twice, none is tried. *)
Theorem transaction_cookies_bounded h secure :
  let l := transaction_cookies h secure in
  (length l <= 4)%nat /\ NoDup (map fst l)
  /\ Forall (fun kv => is_tx_cookie secure kv.1 = true /\ (len kv.2 <= 512)%Z) l
  /\ (l <> [] -> forall kv, kv ∈ cookie_pairs h -> is_tx_cookie secure kv.1 = true ->
      (len kv.2 <= 512)%Z -> kv ∈ l).
Proof.
  intros l. subst l. unfold transaction_cookies.
  set (values := List.filter _ _).
  destruct (4 <? length values)%nat eqn:Hn; simpl; [repeat split; [simpl; lia|apply NoDup_nil_2|apply List.Forall_nil|done]|].
  destruct (_ =? _)%nat eqn:Hu; simpl; [|repeat split; [simpl; lia|apply NoDup_nil_2|apply List.Forall_nil|done]].
  apply Nat.ltb_ge in Hn. apply Nat.eqb_eq in Hu. split_and!; [done| | |].
  - apply bset_of_list_length. by rewrite length_map.
  - apply List.Forall_forall. intros kv Hin%List.filter_In. destruct Hin as [_ Hin].
    rewrite andb_true_iff, Z.leb_le in Hin. done.
  - intros _ kv Hin Htx Hlen. apply list_elem_of_In, List.filter_In.
    split; [by apply list_elem_of_In|]. by rewrite Htx, (proj2 (Z.leb_le _ _) Hlen).
Qed.
End Cookies.

Section Origins.
Context `{HttpLaws, UrlLib, FormLib, !AxumLib, !AxumLaws}.

Lemma with_cors_other o n r : n <> "access-control-allow-origin" -> n <> "vary" ->
  n <> "access-control-allow-methods" -> n <> "access-control-allow-headers" ->
  hm_get_all (rs_headers (with_cors o r)) n = hm_get_all (rs_headers r) n.
Proof. intros. destruct o as [o|]; [|done]. simpl. unfold cors. destruct (hv_from_str o); by headers. Qed.

(** A preflight request that may be granted: it names one readable origin,
    that a registered client declares, the method GET or POST, and no request
    header but Authorization and Content-Type. *)
Record preflight_permitted (p : Provider) (headers : HeaderMap) (o v : string) : Prop := {
  pp_origin : origin headers = Some o /\ hv_from_str o = Some v;
  pp_client : exists id c, cr_clients (pv_registry p) !! id = Some c /\ o ∈ fc_browser_origins c;
  pp_method : header_text headers "access-control-request-method" = Some "GET"
              \/ header_text headers "access-control-request-method" = Some "POST";
  pp_headers : forall requested, header_text headers "access-control-request-headers" = Some requested ->
    Forall (fun h => let name := to_ascii_lowercase (trim h) in
              name = EmptyString \/ name = "authorization" \/ name = "content-type")
      (split_char "," requested);
}.

Lemma allowed_header_true h :
  allowed_header h = true <->
  let name := to_ascii_lowercase (trim h) in
  name = EmptyString \/ name = "authorization" \/ name = "content-type".
Proof.
  unfold allowed_header. cbv zeta. rewrite !orb_true_iff, !bool_decide_eq_true, str_empty_true. tauto.
Qed.
Lemma reviewed_true registry o :
  reviewed_browser_origin registry o = true <->
  exists id c, cr_clients registry !! id = Some c /\ o ∈ fc_browser_origins c.
Proof.
  unfold reviewed_browser_origin. rewrite existsb_exists. split.
  - intros ([id c] & Hin & Hc). exists id, c. apply list_elem_of_In, elem_of_map_to_list in Hin.
    split; [done|]. by apply bset_contains_true.
  - intros (id & c & Hin & Hc). exists (id, c). split; [by apply list_elem_of_In, elem_of_map_to_list|].
    by apply bset_contains_true.
Qed.

(** The guard of [api_options] decides that. *)
Lemma preflight_guard p headers o v :
  origin headers = Some o -> hv_from_str o = Some v ->
  preflight_permitted p headers o v <->
  negb (reviewed_browser_origin (pv_registry p) o)
  || negb ((header_text headers "access-control-request-method" ==? Some "GET")
           || (header_text headers "access-control-request-method" ==? Some "POST"))
  || negb (forallb allowed_header (split_char ","
       (match header_text headers "access-control-request-headers" with Some v => v | None => EmptyString end)))
  = false.
Proof.
  intros Ho Hv. rewrite !orb_false_iff, !negb_false_iff, orb_true_iff, !bool_decide_eq_true, reviewed_true,
    forallb_forall. setoid_rewrite allowed_header_true. split.
  - intros [_ Hc Hm Hh]. split_and!; [done..|]. apply List.Forall_forall.
    destruct (header_text _ "access-control-request-headers"); [by apply Hh|]. constructor; [by left|done].
  - intros [[Hc Hm] Hh]. split; [done..|]. intros r Hr. rewrite Hr in Hh. by apply List.Forall_forall.
Qed.

Lemma sensitive_no_cors s n :
  starts_with "access-control-" n = true -> hm_get_all (rs_headers (sensitive (status_response s))) n = [].
Proof.
  intros Hn. simpl. rewrite sensitive_other, status_response_headers; [done|].
  unfold security_header, bset_contains. simpl. rewrite !orb_false_iff, !bool_decide_eq_false.
  split_and!; try done; by intros <-.
Qed.

(** C39: A preflight is granted exactly when it names an origin some
    registered client declares, the method GET or POST, and no request header
    beyond Authorization and Content-Type; the granted origin is the one that
    asked, for those methods and headers. Every other preflight leaves with
    no CORS header at all. *)
Theorem preflight_reviewed p headers :
  let h := rs_headers (api_options p headers) in
  (forall o v, preflight_permitted p headers o v ->
    hm_get_all h "access-control-allow-origin" = [v]
    /\ hm_get_all h "access-control-allow-methods" = ["GET, POST, OPTIONS"]
    /\ hm_get_all h "access-control-allow-headers" = ["authorization, content-type"])
  /\ forall n, starts_with "access-control-" n = true -> hm_get_all h n <> [] ->
       exists o v, preflight_permitted p headers o v.
Proof.
  intros h. subst h. unfold api_options. destruct (origin headers) as [o|] eqn:Ho.
  2:{ split; [by intros o v [[Ho' _]]; congruence|]. intros n Hn []. by apply sensitive_no_cors. }
  split.
  - intros o' v Hp. pose proof Hp as [[Ho' Hv] _ _ _]. rewrite Ho in Ho'. injection Ho' as <-.
    apply (preflight_guard _ _ _ _ Ho Hv) in Hp. rewrite Hp. simpl. unfold cors. rewrite Hv. split_and!; by headers.
  - intros n Hn Hg. case_match eqn:Hguard; [by destruct Hg; apply sensitive_no_cors|].
    destruct (hv_from_str o) as [v|] eqn:Hv; [exists o, v; by apply preflight_guard|].
    destruct Hg. simpl. unfold cors. by rewrite Hv, status_response_headers.
Qed.
End Origins.
