(* ===== verification/CimdTheory.v ===== *)
(** * CimdTheory: properties of the metadata documents and their fetcher *)

From Stdlib Require Import Ascii ZArith Lia.
From S2P Require Import Prelude Sets External Cimd Http CimdTransport.

(** ** Addresses *)

(** An IPv4 address as a number, and the blocks (network, prefix length) the
    fetcher refuses to reach. *)
Definition ipv4 (a b c d : Z) : Z := ((a * 256 + b) * 256 + c) * 256 + d.
Definition in_block (ip : Z) (block : Z * Z) : Prop :=
  (ip / 2 ^ (32 - block.2) = block.1 / 2 ^ (32 - block.2))%Z.
Definition refused_blocks : list (Z * Z) :=
  [ (ipv4 0 0 0 0, 8); (ipv4 10 0 0 0, 8); (ipv4 127 0 0 0, 8); (ipv4 224 0 0 0, 3);
    (ipv4 100 64 0 0, 10); (ipv4 169 254 0 0, 16); (ipv4 172 16 0 0, 12);
    (ipv4 192 0 0 0, 16); (ipv4 192 168 0 0, 16); (ipv4 192 2 0 0, 16);
    (ipv4 192 31 196 0, 24); (ipv4 192 52 193 0, 24); (ipv4 192 88 99 0, 24); (ipv4 192 175 48 0, 24);
    (ipv4 198 18 0 0, 15); (ipv4 198 51 100 0, 24); (ipv4 203 0 113 0, 24) ]%Z.

Definition octet (x : Z) : Prop := (0 <= x < 256)%Z.

Lemma block_8 a b c d n : octet a -> octet b -> octet c -> octet d ->
  in_block (ipv4 a b c d) (ipv4 n 0 0 0, 8)%Z <-> a = n.
Proof.
  unfold octet, in_block, ipv4. intros ? ? ? ?. simpl. change (2 ^ (32 - 8))%Z with 16777216%Z.
  Z.to_euclidean_division_equations. lia.
Qed.
Lemma block_16 a b c d n m : octet a -> octet b -> octet c -> octet d -> octet m ->
  in_block (ipv4 a b c d) (ipv4 n m 0 0, 16)%Z <-> a = n /\ b = m.
Proof.
  unfold octet, in_block, ipv4. intros ? ? ? ? ?. simpl. change (2 ^ (32 - 16))%Z with 65536%Z.
  Z.to_euclidean_division_equations. lia.
Qed.
Lemma block_24 a b c d n m k : octet a -> octet b -> octet c -> octet d -> octet m -> octet k ->
  in_block (ipv4 a b c d) (ipv4 n m k 0, 24)%Z <-> a = n /\ b = m /\ c = k.
Proof.
  unfold octet, in_block, ipv4. intros ? ? ? ? ? ?. simpl. change (2 ^ (32 - 24))%Z with 256%Z.
  Z.to_euclidean_division_equations. lia.
Qed.
Lemma block_bits a b c d : octet a -> octet b -> octet c -> octet d ->
  (in_block (ipv4 a b c d) (ipv4 224 0 0 0, 3)%Z <-> 224 <= a <= 255)%Z
  /\ (in_block (ipv4 a b c d) (ipv4 100 64 0 0, 10)%Z <-> a = 100 /\ 64 <= b <= 127)%Z
  /\ (in_block (ipv4 a b c d) (ipv4 172 16 0 0, 12)%Z <-> a = 172 /\ 16 <= b <= 31)%Z
  /\ (in_block (ipv4 a b c d) (ipv4 198 18 0 0, 15)%Z <-> a = 198 /\ 18 <= b <= 19)%Z.
Proof.
  unfold octet, in_block, ipv4. intros ? ? ? ?. simpl.
  change (2 ^ (32 - 3))%Z with 536870912%Z. change (2 ^ (32 - 10))%Z with 4194304%Z.
  change (2 ^ (32 - 12))%Z with 1048576%Z. change (2 ^ (32 - 15))%Z with 131072%Z.
  split_and!; Z.to_euclidean_division_equations; lia.
Qed.

(** Splits the hypothesis into its cases and finds the disjunct of each. *)
Ltac by_cases :=
  match goal with
  | |- _ <-> _ => split; by_cases
  | _ => intros; destruct_or?; destruct_and?; try lia;
         repeat first [left; solve [lia] | right]; lia
  end.

(** What [public_v4] refuses, octet by octet. *)
Lemma public_v4_false a b c : octet a -> octet b -> octet c ->
  public_v4 a b c = false <->
  (a = 0 \/ a = 10 \/ a = 127 \/ 224 <= a <= 255)%Z
  \/ (a = 100 /\ 64 <= b <= 127)%Z \/ (a = 169 /\ b = 254)%Z \/ (a = 172 /\ 16 <= b <= 31)%Z
  \/ (a = 192 /\ (b = 0 \/ b = 168 \/ b = 2 \/ (b = 31 /\ c = 196) \/ (b = 52 /\ c = 193)
                  \/ (b = 88 /\ c = 99) \/ (b = 175 /\ c = 48)))%Z
  \/ (a = 198 /\ (18 <= b <= 19 \/ (b = 51 /\ c = 100)))%Z \/ (a = 203 /\ b = 0 /\ c = 113)%Z.
Proof.
  unfold octet, public_v4, z_in. intros Ha _ _.
  destruct (_ || _) eqn:H0.
  { rewrite !orb_true_iff, andb_true_iff, !Z.eqb_eq, !Z.leb_le in H0. split; [intros _; left; lia|done]. }
  rewrite !orb_false_iff, andb_false_iff, !Z.eqb_neq, !Z.leb_gt in H0.
  destruct (Z.eqb_spec a 100) as [->|H100].
  { rewrite negb_false_iff, andb_true_iff, !Z.leb_le. by_cases. }
  destruct (Z.eqb_spec a 169) as [->|H169]; [rewrite negb_false_iff, Z.eqb_eq; by_cases|].
  destruct (Z.eqb_spec a 172) as [->|H172].
  { rewrite negb_false_iff, andb_true_iff, !Z.leb_le. by_cases. }
  destruct (Z.eqb_spec a 192) as [->|H192].
  { rewrite !andb_false_iff, !negb_false_iff, !orb_true_iff, !andb_true_iff, !Z.eqb_eq. by_cases. }
  destruct (Z.eqb_spec a 198) as [->|H198].
  { rewrite !andb_false_iff, !orb_false_iff, !negb_false_iff, !Z.eqb_eq. by_cases. }
  destruct (Z.eqb_spec a 203) as [->|H203].
  { rewrite orb_false_iff, !negb_false_iff, !Z.eqb_eq. by_cases. }
  split; [done|by_cases].
Qed.

(** C37: An IPv4 destination is refused exactly when it lies in one of the
    seventeen blocks: this host, private, shared, loopback, link-local,
    protocol, documentation, relay, benchmarking, multicast and reserved
    space. *)
Theorem public_v4_blocks a b c d :
  octet a -> octet b -> octet c -> octet d ->
  public_v4 a b c = false <-> Exists (in_block (ipv4 a b c d)) refused_blocks.
Proof.
  intros Ha Hb Hc Hd. destruct (block_bits a b c d Ha Hb Hc Hd) as (H3 & H10 & H12 & H15).
  rewrite (public_v4_false a b c) by done.
  unfold refused_blocks. rewrite !Exists_cons, Exists_nil.
  rewrite H3, H10, H12, H15, !block_8, !block_16, !block_24 by (done || (unfold octet; lia)).
  clear. tauto.
Qed.

(** ** Documents *)

Lemma obj_get_None k m : obj_get k m = None <-> k ∉ map fst m.
Proof.
  unfold obj_get. induction m as [|[l v] m IH]; simpl; [set_solver|].
  case_bool_decide; simpl in *; subst; [|rewrite IH]; set_solver.
Qed.

(** Only an object that repeats no key is read, and it is read as it is. *)
Lemma visit_map_Some entries object obj :
  NoDup (map fst object) -> visit_map entries object = Some obj ->
  obj = object ++ entries /\ NoDup (map fst obj).
Proof.
  revert object. induction entries as [|[k v] entries IH]; intros object Hnd; simpl.
  - intros [= <-]. by rewrite app_nil_r.
  - destruct (is_some (obj_get k object)) eqn:Hk; [done|].
    apply is_some_false, obj_get_None in Hk. intros Hv.
    apply IH in Hv as [-> Hnd']; [by rewrite <- app_assoc in *|].
    rewrite map_app. simpl. apply list.NoDup_app. (split_and!; [done|set_solver|apply NoDup_singleton]).
Qed.

Section Documents.
Context `{UrlLib, JsonLib}.

Lemma strict_object_Some body obj :
  strict_object body = Some obj -> json_entries body = Some obj /\ NoDup (map fst obj).
Proof.
  unfold strict_object. destruct (json_entries body) as [entries|]; [|done].
  intros Hv. apply visit_map_Some in Hv as [-> Hnd]; [done|apply NoDup_nil_2].
Qed.

Lemma collect_redirects_Ok items acc uris :
  collect_redirects items acc = Ok uris ->
  NoDup acc -> Forall (fun u => safe_redirect u = true) acc ->
  NoDup uris /\ Forall (fun u => safe_redirect u = true) uris
  /\ length uris = (length acc + length items)%nat
  /\ exists new, uris = acc ++ new /\ items = map JString new.
Proof.
  revert acc. induction items as [|item items IH]; intros acc Hc Hnd Hs; simpl in Hc.
  - injection Hc as <-. split_and!; [done..|simpl; lia|]. exists []. by rewrite app_nil_r.
  - rewrite rbind_Ok in Hc. destruct Hc as (raw & Hraw%ok_or_Ok & Hc).
    destruct (_ || _) eqn:Hg in Hc; [done|]. rewrite orb_false_iff, negb_false_iff in Hg.
    destruct Hg as [Hsafe Hnew]. change (bset_contains acc raw = false) in Hnew.
    rewrite <- not_true_iff_false, bset_contains_true in Hnew.
    destruct (IH _ Hc) as (Hnd' & Hs' & Hlen & new & -> & ->).
    + apply list.NoDup_app. (split_and!; [done|set_solver|apply NoDup_singleton]).
    + apply Forall_app. split; [done|]. by repeat constructor.
    + split_and!; try done.
      * rewrite Hlen, length_app. simpl. lia.
      * exists (raw :: new). split; [by rewrite <- app_assoc|]. simpl. f_equal.
        destruct item; simplify_eq/=. done.
Qed.

Lemma check_grant_types_Ok grants allowed :
  check_grant_types grants = Ok allowed ->
  allowed = match grants with
            | Some (JArray l) => existsb (is_str "refresh_token") l
            | _ => false
            end.
Proof.
  unfold check_grant_types. destruct grants as [v|]; [|by intros [= <-]].
  rewrite rbind_Ok. intros (l & Hl%ok_or_Ok & Hk). destruct v; simplify_eq/=.
  case_if Hk; [done|]. by injection Hk as <-.
Qed.

(** The document is one: what every accepted document says. *)
Record document_ok (client_id : string) (obj : list (string * Json)) (doc : ClientMetadataDocument)
    : Prop := {
  dk_id : cm_client_id doc = client_id /\ obj_get "client_id" obj = Some (JString client_id);
  dk_name : safe_name (cm_client_name doc) = true;
  dk_public : obj_get "token_endpoint_auth_method" obj = Some (JString "none")
              /\ obj_get "client_secret" obj = None /\ obj_get "client_secret_expires_at" obj = None
              /\ obj_get "jwks" obj = None /\ obj_get "jwks_uri" obj = None;
  dk_redirects : obj_get "redirect_uris" obj = Some (JArray (map JString (cm_redirect_uris doc)))
                 /\ (1 <= length (cm_redirect_uris doc) <= MAX_REDIRECTS)%nat
                 /\ NoDup (cm_redirect_uris doc)
                 /\ Forall (fun u => safe_redirect u = true) (cm_redirect_uris doc);
  dk_refresh : cm_refresh_allowed doc = true ->
               exists l, obj_get "grant_types" obj = Some (JArray l)
                         /\ existsb (is_str "refresh_token") l = true;
}.

Lemma validate_document_Ok client_id body doc :
  validate_document client_id body = Ok doc ->
  exists obj, json_entries body = Some obj /\ NoDup (map fst obj) /\ document_ok client_id obj doc.
Proof.
  unfold validate_document. rewrite rbind_Ok. intros (obj & Hobj%ok_or_Ok%strict_object_Some & Hk).
  destruct Hobj as [Hobj Hnd]. exists obj. split_and!; [done..|].
  rewrite rbind_Ok in Hk. destruct Hk as (idv & Hidv%ok_or_Ok & Hk).
  rewrite rbind_Ok in Hk. destruct Hk as (id & Hid%ok_or_Ok & Hk).
  rewrite rbind_Ok in Hk. destruct Hk as (namev & Hnamev%ok_or_Ok & Hk).
  rewrite rbind_Ok in Hk. destruct Hk as (name & Hname%ok_or_Ok & Hk).
  case_if Hk; [done|]. rewrite orb_false_iff, bool_decide_neq_false, negb_false_iff in E.
  destruct E as [-> Hsafe].
  case_if Hk; [done|]. rewrite !orb_false_iff, !is_some_false in E. destruct E as [[[Hs1 Hs2] Hs3] Hs4].
  case_if Hk; [done|]. rewrite bool_decide_neq_false in E. rename E into Hauth.
  rewrite rbind_Ok in Hk. destruct Hk as (refresh & Hrefresh%check_grant_types_Ok & Hk).
  case_if Hk; [done|]. clear E.
  rewrite rbind_Ok in Hk. destruct Hk as (rv & Hrv%ok_or_Ok & Hk).
  rewrite rbind_Ok in Hk. destruct Hk as (redirects & Hredirects%ok_or_Ok & Hk).
  case_if Hk; [done|]. rewrite orb_false_iff, Nat.eqb_neq, Nat.ltb_ge in E. destruct E as [Hz Hmax].
  rewrite rbind_Ok in Hk. destruct Hk as (uris & Huris & [= <-]).
  apply collect_redirects_Ok in Huris as (Hndu & Hsu & Hlen & new & -> & ->);
    [|apply NoDup_nil_2|apply List.Forall_nil].
  simpl in Hndu, Hsu, Hlen. rewrite length_map in *.
  destruct idv; simplify_eq/=. destruct namev; simplify_eq/=. destruct rv; simplify_eq/=.
  split; simpl; try done.
  - split_and!; try done. destruct (obj_get "token_endpoint_auth_method" obj) as [[]|]; simplify_eq/=; done.
  - split_and!; try done; lia.
  - intros Hr. destruct (obj_get "grant_types" obj) as [[]|]; simplify_eq/=. eauto.
Qed.

(** ** Caching *)

Lemma cache_ttl_Some headers age ttl :
  (0 <= age)%Z -> cache_ttl headers age = Some ttl -> (1 <= ttl <= MAX_CACHE_TTL)%Z.
Proof.
  unfold cache_ttl. intros Hage. destruct headers as [fields|]; [|done].
  destruct (cache_directives _ _) as [[m|]|]; try done.
  destruct (0 <? _)%Z eqn:Ht; [|done]. intros [= <-]. apply Z.ltb_lt in Ht. lia.
Qed.

(** A fetched document is accepted only from public addresses: every
    address the name resolved to is public and on the identifier's port,
    before the transport is asked for anything; the answer is a bounded JSON
    document that names the identifier it was fetched from, holds no secret
    and no key, authenticates with none, repeats no member and lists between
    one and sixteen distinct safe redirects; and it is cached for at most
    five minutes. *)
Theorem fetch_exchange_sound resolve fetch client_id url host port doc ttl :
  (forall url host addrs r, fetch url host addrs = Ok r -> (0 <= rd_age r)%Z) ->
  fetch_exchange resolve fetch client_id url host port = Ok (doc, ttl) ->
  exists addrs response obj,
    resolve host port = Ok addrs /\ addrs <> []
    /\ Forall (fun a => sa_port a = port /\ public_ip (sa_ip a) = true) addrs
    /\ fetch url host addrs = Ok response /\ rd_status response = 200%Z
    /\ (len (rd_body response) <= MAX_DOCUMENT_BYTES)%Z
    /\ json_entries (rd_body response) = Some obj /\ NoDup (map fst obj)
    /\ document_ok client_id obj doc
    /\ (forall t, ttl = Some t -> (1 <= t <= MAX_CACHE_TTL)%Z).
Proof.
  intros Hage. unfold fetch_exchange. rewrite rbind_Ok. intros (addrs & Haddrs & Hk).
  case_if Hk; [done|]. rewrite !orb_false_iff, Nat.eqb_neq in E. destruct E as [[Hne _] Hpub].
  rewrite rbind_Ok in Hk. destruct Hk as (response & Hresponse & Hk).
  case_if Hk; [done|]. rewrite negb_false_iff, Z.eqb_eq in E. rename E into Hstatus.
  rewrite rbind_Ok in Hk. destruct Hk as (ct & _ & Hk).
  case_if Hk; [done|]. clear E. case_if Hk; [done|]. apply Z.ltb_ge in E. rename E into Hlen.
  rewrite rbind_Ok in Hk. destruct Hk as (document & Hdoc & [= <- <-]).
  apply validate_document_Ok in Hdoc as (obj & Hobj & Hnd & Hok).
  exists addrs, response, obj. split_and!; try done.
  - by intros ->.
  - apply List.Forall_forall. intros a Ha. rewrite <- not_true_iff_false, existsb_exists in Hpub.
    destruct (decide (sa_port a = port)) as [Hp|Hp]; destruct (public_ip (sa_ip a)) eqn:Hip; try done;
      exfalso; apply Hpub; exists a; (split; [done|]); rewrite ?Hip, ?orb_true_r; try done.
    all: by rewrite (proj2 (Z.eqb_neq _ _) Hp).
  - intros t Ht. eapply cache_ttl_Some; [|exact Ht]. by eapply Hage.
Qed.

(** ** The transport *)

Section Transport.
Context `{HttpLib}.

Lemma greatest_age_ge values g : (0 <= g)%Z -> (0 <= greatest_age values g)%Z.
Proof.
  revert g. induction values as [|v values IH]; intros g Hg; simpl; [done|].
  destruct (hv_to_str v) as [t|]; [|done]. destruct (parse_unsigned _ _); [|done]. apply IH. lia.
Qed.

Lemma read_chunks_Ok chunks body broken r :
  (len body <= MAX_DOCUMENT_BYTES)%Z -> read_chunks body chunks broken = Ok r ->
  broken = false /\ r = body +:+ foldr String.append EmptyString chunks /\ (len r <= MAX_DOCUMENT_BYTES)%Z.
Proof.
  revert body. induction chunks as [|chunk chunks IH]; intros body Hb; simpl.
  - destruct broken; [done|]. intros [= <-]. by rewrite str_app_nil_r.
  - case_match eqn:Hl; [done|]. intros Hr. apply Z.ltb_ge in Hl. apply IH in Hr as (? & -> & ?).
    + split_and!; [done| |done]. apply str_app_assoc.
    + rewrite len_app. unfold usize_saturating_add, u64_max, MAX_DOCUMENT_BYTES in *. lia.
Qed.

Lemma pinned_fetch_Ok build url host addrs response :
  pinned_fetch build url host addrs = Ok response ->
  exists send answer peer,
    build (pinned_client host addrs) = Some send /\ send url = Some answer
    /\ ha_remote_addr answer = Some peer /\ peer ∈ addrs /\ ha_broken answer = false
    /\ rd_status response = ha_status answer
    /\ rd_body response = foldr String.append EmptyString (ha_chunks answer)
    /\ (0 <= rd_age response)%Z.
Proof.
  unfold pinned_fetch. rewrite rbind_Ok. intros (send & Hsend & Hk). rewrite rbind_Ok in Hk.
  destruct Hk as (answer & Hans & Hk). case_if Hk; [done|]. case_if Hk; [done|].
  rewrite rbind_Ok in Hk. destruct Hk as (body & Hbody & [= <-]).
  apply read_chunks_Ok in Hbody as (? & -> & _); [|done].
  destruct (build _) as [send'|] eqn:Hb; [|done]. destruct (send url) as [answer'|] eqn:Hs; [|done].
  simplify_eq/=. rewrite negb_false_iff in E. destruct (ha_remote_addr answer) as [peer|] eqn:Hp; [|done].
  simpl in E. apply bool_decide_eq_true in E. exists send, answer, peer.
  split_and!; try done. by apply greatest_age_ge.
Qed.

(** C35: A client's metadata document comes from where its identifier points,
    and from nowhere else: every address the host resolved to is public and
    on the identifier's port, the client is pinned to those addresses with no
    proxy and no redirect, the peer that answered is one of them, and the
    whole body is at most five kilobytes. The document in it names the
    identifier it was fetched from, holds no secret and no key, authenticates
    with none, repeats no member and lists between one and sixteen distinct
    safe redirects; it is cached for at most five minutes. *)
Theorem pinned_fetch_sound lookup build client_id url host port doc ttl :
  fetch_exchange (system_resolve lookup) (pinned_fetch build) client_id url host port = Ok (doc, ttl) ->
  exists addrs send answer peer obj,
    lookup host port = Some addrs
    /\ Forall (fun a => sa_port a = port /\ public_ip (sa_ip a) = true) addrs
    /\ build (pinned_client host addrs) = Some send /\ send url = Some answer
    /\ ha_remote_addr answer = Some peer /\ peer ∈ addrs
    /\ ha_status answer = 200%Z /\ ha_broken answer = false
    /\ let body := foldr String.append EmptyString (ha_chunks answer) in
      (len body <= MAX_DOCUMENT_BYTES)%Z /\ json_entries body = Some obj /\ NoDup (map fst obj)
      /\ document_ok client_id obj doc
      /\ (forall t, ttl = Some t -> (1 <= t <= MAX_CACHE_TTL)%Z).
Proof.
  intros Hf. apply fetch_exchange_sound in Hf as (addrs & response & obj & Hr & _ & Ha & Hp & Hst & Hl & Hj & Hrest).
  - apply pinned_fetch_Ok in Hp as (send & answer & peer & Hb & Hs & Hpeer & Hin & Hbr & Hst' & Hbody & _).
    exists addrs, send, answer, peer, obj. rewrite Hbody in Hl, Hj.
    unfold system_resolve in Hr. destruct (lookup host port) eqn:Hlk; simplify_eq/=.
    split_and!; try done; try congruence; apply Hrest.
  - intros u h a r Hp. by apply pinned_fetch_Ok in Hp as (? & ? & ? & _ & _ & _ & _ & _ & _ & _ & ?).
Qed.
End Transport.
End Documents.

(** ** The fetcher under interleaving

    Any number of tasks call [fetch_leased]; the semaphore and the mutexes
    make each of its critical sections one step, and a task can be dropped
    where it awaits. *)

Section Fetcher.
Context `{UrlLib, JsonLib}.

(** How far a task is, from [try_acquire] on. *)
Inductive FetchPhase : Type :=
| Permitted                                                      (* with its permit *)
| Flying                                                         (* in flight *)
| Fetched (snapshot : LeasedClientMetadata) (ttl : option Z)     (* with a document *)
| Stored                                                         (* which was cached *)
| Landed.                                                        (* no longer in flight *)
Record FetchTask := {
  ft_client : string;
  ft_phase : FetchPhase;
}.

Definition some_key (first_key : gmap string LeasedClientMetadata -> option string) : Prop :=
  forall m, m <> ∅ -> exists k, first_key m = Some k /\ is_Some (m !! k).

(** The next step of a task, and what is left of it. *)
Inductive task_step : CimdFetcher -> FetchTask -> CimdFetcher -> list FetchTask -> Prop :=
| task_enter id f f' :
    enter_flight id f = Ok f' ->
    task_step f {| ft_client := id; ft_phase := Permitted |} f' [{| ft_client := id; ft_phase := Flying |}]
| task_refused id f e :
    enter_flight id f = Err e ->
    task_step f {| ft_client := id; ft_phase := Permitted |} (return_permit f) []
| task_fetched id f resolve fetch url host port document ttl now :
    validate_client_id id = Ok (url, host, port) ->
    fetch_exchange resolve fetch id url host port = Ok (document, ttl) ->
    task_step f {| ft_client := id; ft_phase := Flying |}
      f [{| ft_client := id; ft_phase := Fetched (lease now document ttl) ttl |}]
| task_stored id f snapshot ttl clk first_key :
    some_key first_key ->
    task_step f {| ft_client := id; ft_phase := Fetched snapshot (Some ttl) |}
      (fetch_publish clk first_key id snapshot f) [{| ft_client := id; ft_phase := Stored |}]
(* it succeeded, failed, timed out or was dropped *)
| task_landed id f phase :
    phase <> Permitted -> phase <> Landed ->
    task_step f {| ft_client := id; ft_phase := phase |}
      (leave_flight id f) [{| ft_client := id; ft_phase := Landed |}]
| task_ended id f :
    task_step f {| ft_client := id; ft_phase := Landed |} (return_permit f) [].

Record FetcherState := {
  fs_fetcher : CimdFetcher;
  fs_tasks : list FetchTask;
}.

Inductive fetcher_step : FetcherState -> FetcherState -> Prop :=
| step_permit id f f' tasks :
    take_permit f = Ok f' ->
    fetcher_step {| fs_fetcher := f; fs_tasks := tasks |}
      {| fs_fetcher := f'; fs_tasks := {| ft_client := id; ft_phase := Permitted |} :: tasks |}
| step_task f task f' left before after :
    task_step f task f' left ->
    fetcher_step {| fs_fetcher := f; fs_tasks := before ++ task :: after |}
      {| fs_fetcher := f'; fs_tasks := before ++ left ++ after |}.

Definition fetcher_reachable : FetcherState -> Prop :=
  rtc fetcher_step {| fs_fetcher := new_fetcher; fs_tasks := [] |}.

(** The clients in flight, with repetitions. *)
Definition flight_of (task : FetchTask) : list string :=
  match ft_phase task with Permitted | Landed => [] | _ => [ft_client task] end.
Definition flights (tasks : list FetchTask) : list string := concat (map flight_of tasks).

(** The document of [snapshot] is one that the identifier published. *)
Definition published_by (id : string) (snapshot : LeasedClientMetadata) : Prop :=
  exists body obj, json_entries body = Some obj /\ NoDup (map fst obj)
    /\ document_ok id obj (lm_document snapshot).
Definition task_ok (task : FetchTask) : Prop :=
  forall snapshot ttl, ft_phase task = Fetched snapshot ttl -> published_by (ft_client task) snapshot.

Record fetcher_inv (f : CimdFetcher) (tasks : list FetchTask) : Prop := {
  fi_permits : (cf_permits f + length tasks = 8)%nat;
  fi_distinct : NoDup (flights tasks);
  fi_in_flight : cf_in_flight f = list_to_set (flights tasks);
  fi_tasks : Forall task_ok tasks;
  fi_cache : (size (cf_cache f) <= MAX_CACHE_ENTRIES)%nat;
  fi_documents : forall id l, cf_cache f !! id = Some l -> published_by id l;
}.

(** The order of the tasks does not matter. *)
#[export] Instance flights_perm : Proper ((≡ₚ) ==> (≡ₚ)) flights.
Proof. intros l l' Hl. unfold flights. induction Hl; simpl; [done|by f_equiv|by rewrite !app_assoc, (Permutation_app_comm (flight_of _))|by etrans]. Qed.
#[export] Instance fetcher_inv_perm f : Proper ((≡ₚ) ==> impl) (fetcher_inv f).
Proof.
  intros l l' Hl [Hp Hd Hf Ht Hs Hc]. split; [by rewrite <- Hl|by rewrite <- Hl| |by rewrite <- Hl|done..].
  rewrite Hf. apply list_to_set_perm_L. by rewrite Hl.
Qed.

Lemma exchange_published resolve fetch id url host port document ttl now :
  fetch_exchange resolve fetch id url host port = Ok (document, ttl) -> published_by id (lease now document ttl).
Proof.
  unfold fetch_exchange. rewrite rbind_Ok. intros (addrs & _ & Hk). case_if Hk; [done|].
  rewrite rbind_Ok in Hk. destruct Hk as (response & _ & Hk). case_if Hk; [done|].
  rewrite rbind_Ok in Hk. destruct Hk as (ct & _ & Hk). case_if Hk; [done|]. case_if Hk; [done|].
  rewrite rbind_Ok in Hk. destruct Hk as (doc & (obj & ? & ? & ?)%validate_document_Ok & [= <- <-]).
  by exists (rd_body response), obj.
Qed.

Lemma retained_lookup (clk : string -> Z) (m : gmap string LeasedClientMetadata) k l :
  map_imap (fun k s => if is_fresh (clk k) s then Some s else None) m !! k = Some l -> m !! k = Some l.
Proof.
  rewrite map_lookup_imap. destruct (m !! k) as [s|]; simpl; [|done]. by destruct (is_fresh _ s).
Qed.

Lemma retained_size (clk : string -> Z) (m : gmap string LeasedClientMetadata) :
  (size (map_imap (fun k s => if is_fresh (clk k) s then Some s else None) m) <= size m)%nat.
Proof.
  rewrite <- !size_dom. apply subseteq_size. intros k.
  rewrite !elem_of_dom. intros [l Hl]. apply retained_lookup in Hl. by eexists.
Qed.

Lemma map_size_insert_le {V} (m : gmap string V) k v : (size (<[k := v]> m) <= S (size m))%nat.
Proof. rewrite map_size_insert. destruct (m !! k); simpl; lia. Qed.

(** What is published stays bounded and holds the old documents or the new
    one. *)
Lemma fetch_publish_size clk first_key id snapshot f :
  some_key first_key -> (size (cf_cache f) <= MAX_CACHE_ENTRIES)%nat ->
  (size (cf_cache (fetch_publish clk first_key id snapshot f)) <= MAX_CACHE_ENTRIES)%nat.
Proof.
  intros Hkey Hsz. unfold fetch_publish; cbn [cf_cache]. set (retained := map_imap _ _).
  assert (Hr : (size retained <= MAX_CACHE_ENTRIES)%nat) by (etrans; [apply retained_size|done]).
  etrans; [apply map_size_insert_le|].
  destruct (MAX_CACHE_ENTRIES <=? size retained)%nat eqn:Hfull; [|by apply Nat.leb_gt in Hfull].
  apply Nat.leb_le in Hfull. destruct (Hkey retained) as (k & -> & v & Hk).
  { intros Hempty. rewrite Hempty, map_size_empty in Hfull. unfold MAX_CACHE_ENTRIES in Hfull. lia. }
  rewrite (map_size_delete_Some k retained) by by eexists. unfold MAX_CACHE_ENTRIES in *. lia.
Qed.
Lemma fetch_publish_lookup clk first_key id snapshot f k l :
  cf_cache (fetch_publish clk first_key id snapshot f) !! k = Some l ->
  (k = id /\ l = snapshot) \/ cf_cache f !! k = Some l.
Proof.
  unfold fetch_publish; cbn [cf_cache]. destruct (decide (k = id)) as [->|Hne].
  - rewrite lookup_insert_eq. intros [= <-]. by left.
  - rewrite lookup_insert_ne by done. intros Hl. right.
    destruct (_ <=? _)%nat; [|by apply retained_lookup in Hl].
    destruct (first_key _) as [k'|]; [|by apply retained_lookup in Hl].
    apply lookup_delete_Some in Hl as [_ Hl]. by apply retained_lookup in Hl.
Qed.

Lemma task_step_inv f task f' left tasks :
  task_step f task f' left -> fetcher_inv f (task :: tasks) -> fetcher_inv f' (left ++ tasks).
Proof.
  intros Hstep [Hp Hd Hf [Ht Hts]%Forall_cons_1 Hs Hc].
  destruct Hstep as [id f f' Henter|id f e _|id f resolve fetch url host port document ttl now _ Hx
    |id f snapshot ttl clk first_key Hk|id f phase Hn1 Hn2|id f];
    cbn [flights map concat flight_of ft_phase ft_client app length] in *; fold (flights tasks) in *.
  - unfold enter_flight in Henter. case_bool_decide as Hb; [done|]. injection Henter as <-.
    split; cbn [cf_cache cf_in_flight cf_permits]; try done.
    + constructor; [|done]. intros Hin. apply Hb. rewrite Hf. by apply elem_of_list_to_set.
    + cbn. by rewrite Hf.
    + by constructor.
  - split; cbn [return_permit cf_cache cf_in_flight cf_permits]; try done. lia.
  - split; try done. constructor; [|done]. intros s t [= <- <-]. by eapply exchange_published.
  - split; try done.
    + by constructor.
    + by apply fetch_publish_size.
    + intros k l [[-> ->]|Hl]%fetch_publish_lookup; [by eapply Ht|by apply Hc].
  - assert (Hfl : flight_of {| ft_client := id; ft_phase := phase |} = [id]) by by destruct phase.
    change (concat (flight_of {| ft_client := id; ft_phase := phase |} :: map flight_of tasks))
      with (flight_of {| ft_client := id; ft_phase := phase |} ++ flights tasks) in *.
    rewrite Hfl in *. apply list.NoDup_cons in Hd as [Hid Hd]. split; try done.
    + cbn. rewrite Hf. cbn. assert (id ∉ (list_to_set (flights tasks) : gset string)) by by rewrite elem_of_list_to_set.
      unfold flights in *. set_solver.
    + by constructor.
  - split; cbn [return_permit cf_cache cf_in_flight cf_permits]; try done. lia.
Qed.

Lemma fetcher_step_inv s s' :
  fetcher_inv (fs_fetcher s) (fs_tasks s) -> fetcher_step s s' -> fetcher_inv (fs_fetcher s') (fs_tasks s').
Proof.
  intros Hinv Hstep. destruct Hstep as [id f f' tasks Hpermit|f task f' left before after Hstep]; simpl in *.
  - destruct Hinv as [Hp Hd Hf Ht Hs Hc]. unfold take_permit in Hpermit.
    destruct (cf_permits f) as [|permits]; [done|]. injection Hpermit as <-. split; simpl; try done; [lia|].
    by constructor.
  - rewrite <- Permutation_middle in Hinv. apply (task_step_inv _ _ _ _ _ Hstep) in Hinv.
    by rewrite Permutation_app_swap_app.
Qed.

(** C36: However the critical sections of concurrent fetches interleave, with
    failures, time-outs and dropped fetches anywhere, at most eight fetches
    are under way, each with one of the eight permits; the clients in flight
    are those of the fetches that entered and have not left, and no client is
    in flight twice; so every permit and flight is back when no fetch is
    left. The cache holds at most 128 documents, and each is filed under the
    identifier it names and was validated for. *)
Theorem fetcher_bounded s :
  fetcher_reachable s ->
  let f := fs_fetcher s in
  (cf_permits f + length (fs_tasks s) = 8)%nat
  /\ NoDup (flights (fs_tasks s)) /\ cf_in_flight f = list_to_set (flights (fs_tasks s))
  /\ (size (cf_cache f) <= MAX_CACHE_ENTRIES)%nat
  /\ (forall id l, cf_cache f !! id = Some l ->
       cm_client_id (lm_document l) = id /\
       exists body obj, json_entries body = Some obj /\ NoDup (map fst obj) /\ document_ok id obj (lm_document l)).
Proof.
  intros Hreach. assert (Hinv : fetcher_inv (fs_fetcher s) (fs_tasks s)).
  { refine (rtc_ind_r (fun s => fetcher_inv (fs_fetcher s) (fs_tasks s)) _ _ _ s Hreach).
    - split; simpl; [done|constructor|done|constructor|rewrite map_size_empty; lia|done].
    - intros y z _ Hstep IH. by eapply fetcher_step_inv. }
  destruct Hinv as [Hp Hd Hf _ Hs Hc]. split_and!; try done. intros id l Hl.
  pose proof (Hc id l Hl) as (body & obj & Hb & Hn & Hok). split; [apply Hok|by exists body, obj].
Qed.

Lemma step_first f task f' left tasks tasks' :
  task_step f task f' left -> left ++ tasks = tasks' ->
  fetcher_step {| fs_fetcher := f; fs_tasks := task :: tasks |} {| fs_fetcher := f'; fs_tasks := tasks' |}.
Proof. intros Hs <-. exact (step_task f task f' left [] tasks Hs). Qed.

(** A task that runs alone takes these steps. *)
Lemma fetch_leased_steps resolve fetch timed_out first_key now_read now_lease clk id f tasks :
  some_key first_key ->
  rtc fetcher_step {| fs_fetcher := f; fs_tasks := tasks |}
    {| fs_fetcher := (fetch_leased resolve fetch timed_out first_key now_read now_lease clk id f).2;
       fs_tasks := tasks |}.
Proof.
  intros Hkey. unfold fetch_leased. destruct (validate_client_id id) as [[[url host] port]|] eqn:Hv; [|done].
  destruct (fetch_cached _ _ _); [done|]. destruct (take_permit f) as [f1|] eqn:Hp; [|done].
  eapply rtc_l; [by apply (step_permit id)|]. destruct (enter_flight id f1) as [f2|e] eqn:He.
  2:{ eapply rtc_once, step_first; [by eapply task_refused|done]. }
  eapply rtc_l; [eapply step_first; [by apply task_enter|done]|].
  assert (Hend : forall f3 phase, phase <> Permitted -> phase <> Landed ->
    rtc fetcher_step {| fs_fetcher := f3; fs_tasks := {| ft_client := id; ft_phase := phase |} :: tasks |}
      {| fs_fetcher := return_permit (leave_flight id f3); fs_tasks := tasks |}).
  { intros f3 phase H1 H2. eapply rtc_l; [eapply step_first; [by apply task_landed|done]|].
    eapply rtc_once, step_first; [apply task_ended|done]. }
  destruct timed_out; [by apply Hend|].
  destruct (fetch_exchange _ _ _ _ _ _) as [[document ttl]|] eqn:Hx; [|by apply Hend].
  eapply rtc_l; [eapply step_first; [exact (task_fetched _ _ _ _ _ _ _ _ _ now_lease Hv Hx)|done]|].
  destruct ttl as [t|]; [|by apply Hend].
  eapply rtc_l; [eapply step_first; [by apply (task_stored _ _ _ _ clk first_key)|done]|]. by apply Hend.
Qed.
End Fetcher.
