(* ===== verification/OAuthTheory.v ===== *)
(** * OAuthTheory: properties of the client policy

    The validation of an authorization request against a declarative
    statement of what is permitted, the redirects a client may name, PKCE,
    and the projection of a CIMD client into a registry. *)

From Stdlib Require Import Ascii ZArith Lia.
From S2P Require Import Prelude Sets External Cimd OAuth.

(** ** PKCE *)

Section Pkce.
Context `{CryptoLaws}.

(** The challenges the code accepts: the encodings of 32 bytes. *)
Lemma validate_pkce_challenge_iff c :
  validate_pkce_challenge c = Ok tt <-> exists bytes, len bytes = 32%Z /\ c = b64_encode bytes.
Proof.
  unfold validate_pkce_challenge. split.
  - destruct (_ || _); [done|]. rewrite rbind_Ok. intros (bytes & Hd & Hok).
    apply ok_or_Ok in Hd. destruct (_ && _) eqn:Hc; [|done].
    rewrite andb_true_iff, Z.eqb_eq, bool_decide_eq_true in Hc. exists bytes. by destruct Hc as [? <-].
  - intros (bytes & Hlen & ->). rewrite (b64_encode_32 _ Hlen), Z.eqb_refl.
    rewrite (bytes_all_impl b64url_char) by (done || apply b64_encode_alphabet). simpl.
    by rewrite b64_decode_encode; simpl; rewrite Hlen, bool_decide_eq_true_2.
Qed.

Lemma s256_challenge_Ok v c :
  s256_challenge v = Ok c <-> validate_pkce_verifier v = Ok tt /\ c = b64_encode (sha256 v).
Proof.
  unfold s256_challenge. rewrite rbind_Ok. split.
  - intros ([] & Hv & [= <-]). done.
  - intros [Hv ->]. by exists tt.
Qed.

(** C28: A code verifier is accepted for a stored challenge exactly when it is
    well formed (43 to 128 unreserved characters) and the challenge is the
    base64url encoding of its SHA-256 digest: nothing else passes, and the
    challenge computed from a well-formed verifier always does. *)
Theorem verify_s256_iff verifier expected :
  verify_s256 verifier expected = true <->
  ((43 <= len verifier <= 128)%Z /\ bytes_all pkce_verifier_char verifier = true)
  /\ expected = b64_encode (sha256 verifier).
Proof.
  unfold verify_s256, s256_challenge, validate_pkce_verifier.
  destruct (_ && _) eqn:Hv; simpl.
  - rewrite !andb_true_iff, !Z.leb_le in Hv. destruct Hv as [[Hl Hl'] Hc].
    rewrite andb_true_iff, bool_decide_eq_true.
    split; [intros [_ <-]; by split_and!|]. intros [_ ->].
    split; [|done].
    rewrite (proj2 (validate_pkce_challenge_iff _)); [done|]. by exists (sha256 verifier); rewrite sha256_length.
  - split; [done|]. intros [[Hl Hc] _].
    assert (43 <=? len verifier = true)%Z as H1 by (apply Z.leb_le; lia).
    assert (len verifier <=? 128 = true)%Z as H2 by (apply Z.leb_le; lia).
    by rewrite H1, H2, Hc in Hv.
Qed.
End Pkce.

(** ** Requests *)

Section Requests.
Context `{UrlLib, Crypto}.

(** The keys of a registry are its clients' identifiers. *)
Definition registry_wf (reg : ClientRegistry) : Prop :=
  forall id c, cr_clients reg !! id = Some c -> fc_id c = id.

(** The resource a request means: the one it names, the client's default, or
    the provider's own for an OpenID request. *)
Definition requested_resource (reg : ClientRegistry) (client : FirstPartyClient)
    (scopes : list string) (resource : option string) : option string :=
  match resource with
  | Some r => Some r
  | None =>
      match fc_default_resource client with
      | Some r => Some r
      | None => if decide ("openid" ∈ scopes) then cr_userinfo_resource reg else None
      end
  end.

(** What the provider permits a client to ask. *)
Record request_permitted (now : Z) (reg : ClientRegistry) (client_id redirect_uri response_type method
    challenge : string) (scopes : list string) (resource : option string)
    (client : FirstPartyClient) (granted : string) : Prop := {
  rq_fresh : ensure_fresh now (cr_dynamic reg) = Ok tt;
  rq_client : cr_clients reg !! client_id = Some client;
  rq_response_type : response_type = "code";
  rq_method : method = "S256";
  rq_challenge : validate_pkce_challenge challenge = Ok tt;
  rq_redirect : exists r, r ∈ fc_redirects client /\ redirect_matches r redirect_uri = true;
  rq_scopes : scopes <> [] /\ NoDup scopes /\ scopes ⊆ fc_scopes client
              /\ (forall s, s ∈ scopes -> valid_scope_token s = true);
  rq_resource : requested_resource reg client scopes resource = Some granted;
  rq_allowed : granted ∈ fc_resources client
               \/ "openid" ∈ scopes /\ cr_userinfo_resource reg = Some granted;
  (* a CIMD client names its resource, among the ones the policy allows *)
  rq_dynamic : is_Some (dynamic_for reg client_id) ->
               is_Some resource /\ granted ∈ fc_resources client;
}.

Definition permitted_grant (reg : ClientRegistry) (client_id redirect_uri challenge : string)
    (scopes : list string) (client : FirstPartyClient) (granted : string) : PendingAuthorizationGrant :=
  {| pg_client_id := fc_id client; pg_redirect_uri := redirect_uri;
     pg_scopes := bset_of_list scopes; pg_resource := granted; pg_code_challenge := challenge;
     pg_dynamic := dynamic_for reg client_id |}.

Lemma redirect_exists client uri :
  existsb (fun r => redirect_matches r uri) (fc_redirects client) = true
  <-> exists r, r ∈ fc_redirects client /\ redirect_matches r uri = true.
Proof. rewrite existsb_exists. by setoid_rewrite list_elem_of_In. Qed.

Lemma scopes_ok client scopes :
  negb (length (bset_of_list scopes) =? length scopes)%nat || (length (bset_of_list scopes) =? 0)%nat
  || existsb (fun s => negb (valid_scope_token s)) (bset_of_list scopes)
  || negb (bset_subset (bset_of_list scopes) (fc_scopes client)) = false
  <-> scopes <> [] /\ NoDup scopes /\ scopes ⊆ fc_scopes client
      /\ (forall s, s ∈ scopes -> valid_scope_token s = true).
Proof.
  rewrite !orb_false_iff, !negb_false_iff, Nat.eqb_eq, Nat.eqb_neq, bset_of_list_length, bset_subset_true.
  assert (Htok : existsb (fun s => negb (valid_scope_token s)) (bset_of_list scopes) = false
                 <-> forall s, s ∈ scopes -> valid_scope_token s = true).
  { rewrite <- not_true_iff_false, existsb_exists. split.
    - intros Hn s Hs. destruct (valid_scope_token s) eqn:Hv; [done|]. exfalso. apply Hn.
      exists s. by rewrite Hv, <- list_elem_of_In, elem_of_bset_of_list.
    - intros Ha (s & Hs & Hv). rewrite <- list_elem_of_In, elem_of_bset_of_list in Hs. by rewrite (Ha s Hs) in Hv. }
  rewrite Htok.
  assert (Hsub : bset_of_list scopes ⊆ fc_scopes client <-> scopes ⊆ fc_scopes client).
  { split; intros Hs x Hx; apply Hs; by apply elem_of_bset_of_list. }
  rewrite Hsub. split.
  - intros [[[Hnd Hz] Ht] Hs]. split_and!; [|done..]. by intros ->.
  - intros (Hne & Hnd & Hs & Ht). split_and!; try done.
    rewrite (proj2 (bset_of_list_length _) Hnd). by destruct scopes.
Qed.

Lemma requested_resource_eq reg client scopes resource :
  or_else resource
    (or_else (fc_default_resource client)
      (if bset_contains (bset_of_list scopes) "openid" then cr_userinfo_resource reg else None))
  = requested_resource reg client scopes resource.
Proof.
  unfold requested_resource. destruct resource; [done|]. simpl.
  destruct (fc_default_resource client); [done|]. simpl.
  case_decide as Hd; destruct (bset_contains _ _) eqn:Hc; try done.
  - exfalso. apply not_true_iff_false in Hc. apply Hc. by rewrite bset_contains_true, elem_of_bset_of_list.
  - exfalso. by rewrite bset_contains_true, elem_of_bset_of_list in Hc.
Qed.

Lemma validate_pending_spec now reg client_id redirect_uri response_type method challenge scopes
    resource p :
  validate_pending_parts now reg client_id redirect_uri response_type method challenge scopes resource
    = Ok p
  <-> exists client granted,
        request_permitted now reg client_id redirect_uri response_type method challenge scopes resource
          client granted
        /\ p = permitted_grant reg client_id redirect_uri challenge scopes client granted.
Proof.
  unfold validate_pending_parts. split.
  - rewrite rbind_Ok. intros ([] & Hfresh & Hk).
    destruct (_ && _) eqn:Hdyn in Hk; [done|].
    rewrite rbind_Ok in Hk. destruct Hk as (client & Hclient%ok_or_Ok & Hk).
    destruct (response_type <>? "code") eqn:Hrt; [done|].
    destruct (method <>? "S256") eqn:Hm; [done|].
    rewrite rbind_Ok in Hk. destruct Hk as ([] & Hch & Hk).
    destruct (negb (existsb _ _)) eqn:Hred in Hk; [done|].
    destruct (_ || _ || _ || _) eqn:Hsc in Hk; [done|].
    rewrite rbind_Ok in Hk. destruct Hk as (granted & Hres%ok_or_Ok & Hk).
    rewrite requested_resource_eq in Hres. apply scopes_ok in Hsc.
    destruct (_ && _) eqn:Hdr in Hk; [done|]. destruct (negb _) eqn:Hal in Hk; [done|].
    injection Hk as <-. exists client, granted. split; [|done].
    rewrite bool_decide_neq_false in Hrt, Hm. rewrite negb_false_iff in Hred, Hal.
    split; try done.
    + by apply redirect_exists.
    + rewrite orb_true_iff, andb_true_iff, !bset_contains_true, elem_of_bset_of_list,
        bool_decide_eq_true in Hal. done.
    + intros [d Hd]. rewrite Hd in Hdyn, Hdr. simpl in Hdyn, Hdr.
      rewrite negb_false_iff, bset_contains_true in Hdr. apply is_none_false in Hdyn. done.
  - intros (client & granted & [Hfresh Hclient -> -> Hch Hred Hsc Hres Hal Hdyn] & ->).
    rewrite Hfresh. simpl.
    assert (Hdn : is_some (dynamic_for reg client_id) && is_none resource = false).
    { destruct (dynamic_for reg client_id) as [d|]; [|done]. simpl. apply is_none_false.
      by destruct (Hdyn ltac:(by eexists)). }
    rewrite Hdn, Hclient. simpl. rewrite Hch. simpl.
    rewrite (proj2 (redirect_exists _ _) Hred). simpl.
    rewrite (proj2 (scopes_ok _ _) Hsc), requested_resource_eq, Hres. simpl.
    assert (Hdr : is_some (dynamic_for reg client_id) && negb (bset_contains (fc_resources client) granted) = false).
    { destruct (dynamic_for reg client_id) as [d|]; [|done]. simpl.
      rewrite negb_false_iff, bset_contains_true. by destruct (Hdyn ltac:(by eexists)). }
    rewrite Hdr.
    assert (Halb : bset_contains (fc_resources client) granted
       || bset_contains (bset_of_list scopes) "openid" && (cr_userinfo_resource reg ==? Some granted) = true).
    { by rewrite orb_true_iff, andb_true_iff, !bset_contains_true, elem_of_bset_of_list, bool_decide_eq_true. }
    by rewrite Halb.
Qed.
(** C24: An authorization request is accepted exactly when the policy permits
    it: a known client with a fresh policy, the code flow with S256 and a
    well-formed challenge, a registered redirect, a non-empty duplicate-free
    list of scopes the client has, and a resource it may use; the grant holds
    exactly what was asked, with the resource that was meant. *)
Theorem validate_pending_iff now reg client_id redirect_uri response_type method challenge scopes
    resource p :
  validate_pending_parts now reg client_id redirect_uri response_type method challenge scopes resource
    = Ok p
  <-> exists client granted,
        request_permitted now reg client_id redirect_uri response_type method challenge scopes resource
          client granted
        /\ p = permitted_grant reg client_id redirect_uri challenge scopes client granted.
Proof. apply validate_pending_spec. Qed.

(** C25: Revalidation is stable: a request that was validated is accepted
    again, as the same grant, from the columns that were stored of it, at any
    later time the registry is still fresh; so a stored authorization is
    refused later only because the policy changed or its lease ran out. *)
Theorem revalidate_stable now now' reg client_id redirect_uri response_type method challenge scopes
    resource p :
  registry_wf reg ->
  validate_pending_parts now reg client_id redirect_uri response_type method challenge scopes resource
    = Ok p ->
  ensure_fresh now' (cr_dynamic reg) = Ok tt ->
  revalidate_pending now' reg p = Ok p.
Proof.
  intros Hwf Hv Hfresh. apply validate_pending_spec in Hv as (client & granted & Hp & ->).
  destruct Hp as [_ Hclient _ _ Hch Hred (Hne & Hnd & Hsub & Htok) Hres Hal Hdyn].
  unfold revalidate_pending, permitted_grant. simpl. rewrite (Hwf _ _ Hclient).
  apply validate_pending_spec. exists client, granted. split.
  - split; try done.
    + split_and!.
      * destruct scopes as [|s scopes]; [done|]. intros He.
        assert (s ∈ bset_of_list (s :: scopes)) as Hin by (apply elem_of_bset_of_list; set_solver).
        by rewrite He in Hin; apply elem_of_nil in Hin.
      * apply bset_sorted_nodup, bset_of_list_sorted.
      * intros x Hx. rewrite elem_of_bset_of_list in Hx. by apply Hsub.
      * intros x Hx. rewrite elem_of_bset_of_list in Hx. by apply Htok.
    + rewrite elem_of_bset_of_list. done.
    + intros Hd. split; [by eexists|]. by apply Hdyn.
  - unfold permitted_grant. rewrite (Hwf _ _ Hclient). f_equal.
    apply bset_of_list_ext. intros x. by rewrite elem_of_bset_of_list.
Qed.
End Requests.

(** ** Redirects *)

Section Redirects.
Context `{UrlLib}.

Lemma split_find_app p s u v : split_find p s = (u, v) -> s = u +:+ v.
Proof.
  revert u v. induction s as [|a s IH]; intros u v; simpl; [by intros [= <- <-]|].
  destruct (p a); [by intros [= <- <-]|]. destruct (split_find p s) as [u' v'].
  intros [= <- <-]. simpl. by rewrite (IH u' v').
Qed.

(** A port as the client may write it: none, or a decimal from 1 to 65535. *)
Definition loopback_port (port : string) : Prop :=
  port = EmptyString \/
  exists digits n, port = ":" +:+ digits /\ bytes_all is_ascii_digit digits = true
    /\ parse_unsigned u16_max digits = Some n /\ n <> 0%Z.

Lemma loopback_parts_Some raw host suffix :
  loopback_parts raw = Some (host, suffix) ->
  (host = "127.0.0.1" \/ host = "[::1]") /\
  exists port, raw = "http://" +:+ host +:+ port +:+ suffix /\ loopback_port port.
Proof.
  unfold loopback_parts. destruct (strip_prefix "http://" raw) as [rest|] eqn:Hraw; [|done].
  apply strip_prefix_Some in Hraw as ->.
  destruct (split_find _ rest) as [authority suf] eqn:Hsplit. apply split_find_app in Hsplit as ->.
  destruct (starts_with "#" suf); [done|].
  assert (Hhost : forall h port, authority = h +:+ port -> h = "127.0.0.1" \/ h = "[::1]" ->
    (if str_empty port then Some (h, suf)
     else match strip_prefix ":" port with
          | None => None
          | Some port =>
              if str_empty port || negb (bytes_all is_ascii_digit port)
                 || negb (is_some_and (parse_unsigned u16_max port) (fun p => negb (p =? 0)%Z))
              then None else Some (h, suf)
          end) = Some (host, suffix) ->
    (host = "127.0.0.1" \/ host = "[::1]") /\
    exists p, "http://" +:+ authority +:+ suf = "http://" +:+ host +:+ p +:+ suffix /\ loopback_port p).
  { intros h port -> Hh. destruct (str_empty port) eqn:He.
    - intros [= -> ->]. split; [done|]. exists port. rewrite str_app_assoc.
      split; [done|]. left. by apply str_empty_true.
    - destruct (strip_prefix ":" port) as [digits|] eqn:Hd; [|done].
      apply strip_prefix_Some in Hd as ->.
      destruct (_ || _ || _) eqn:Hg; [done|]. intros [= -> ->]. split; [done|].
      rewrite !orb_false_iff, !negb_false_iff in Hg. destruct Hg as [[Hne Hdig] Hn].
      destruct (parse_unsigned u16_max digits) as [n|] eqn:Hparse; [|done].
      exists (":" +:+ digits). rewrite str_app_assoc. split; [done|]. right.
      exists digits, n. split_and!; try done. simpl in Hn. by apply negb_true_iff, Z.eqb_neq in Hn. }
  destruct (strip_prefix "[::1]" authority) as [after|] eqn:H6.
  - apply strip_prefix_Some in H6. apply (Hhost _ _ H6). by right.
  - destruct (strip_prefix "127.0.0.1" authority) as [after|] eqn:H4; [|done].
    apply strip_prefix_Some in H4. apply (Hhost _ _ H4). by left.
Qed.

(** C26: A redirect a request names is accepted for a registered one only
    when it is the registered text itself, or both are plain-HTTP targets on
    the same literal loopback address (127.0.0.1 or [::1]) of a native
    client, with the same path and query, so that only the port may differ,
    and the port is one a program can listen on. *)
Theorem redirect_matches_only_port registered actual :
  redirect_matches registered actual = true ->
  rr_uri registered = actual \/
  rr_kind registered = NativeLoopback /\
  exists host suffix port port',
    (host = "127.0.0.1" \/ host = "[::1]")
    /\ rr_uri registered = "http://" +:+ host +:+ port +:+ suffix
    /\ actual = "http://" +:+ host +:+ port' +:+ suffix
    /\ loopback_port port /\ loopback_port port'.
Proof.
  unfold redirect_matches. destruct (is_none _); [done|].
  case_bool_decide as Heq; [by left|]. destruct (rr_kind registered <>? NativeLoopback) eqn:Hk; [done|].
  rewrite bool_decide_neq_false in Hk.
  destruct (loopback_parts (rr_uri registered)) as [[h s]|] eqn:Hr; [|done].
  destruct (loopback_parts actual) as [[h' s']|] eqn:Ha; [|done].
  rewrite andb_true_iff, !bool_decide_eq_true. intros [<- <-].
  apply loopback_parts_Some in Hr as (Hh & port & Hr & Hp).
  apply loopback_parts_Some in Ha as (_ & port' & Ha & Hp'). right. split; [done|].
  by exists h, s, port, port'.
Qed.
End Redirects.

(** ** CIMD clients *)

Section Cimd.
Context `{UrlLib, Crypto}.

Lemma new_client_Ok id name redirects scopes resources default origins logouts c :
  new_client id name redirects scopes resources default origins logouts = Ok c ->
  fc_id c = id /\ fc_redirects c = redirects /\ fc_scopes c = bset_of_list scopes
  /\ fc_resources c = bset_of_list resources /\ fc_default_resource c = default
  /\ fc_browser_origins c = bset_of_list origins
  /\ fc_post_logout_redirects c = bset_of_list logouts
  /\ fc_authorization_flow c = Interactive /\ fc_logout_flow c = InteractiveLogout
  /\ scopes <> [] /\ (forall s, s ∈ scopes -> valid_scope_token s = true).
Proof.
  unfold new_client, with_authorization_flow. intros Hn.
  case_if Hn; [done|]. rename E into Hg. case_if Hn; [done|]. injection Hn as <-. simpl.
  rewrite !orb_false_iff in Hg. destruct Hg as [[[[_ _] _] Hz] Ht]. split_and!; try done.
  - intros ->. done.
  - intros s Hs. destruct (valid_scope_token s) eqn:Hv; [done|]. exfalso.
    rewrite <- not_true_iff_false, existsb_exists in Ht. apply Ht.
    exists s. by rewrite Hv, <- list_elem_of_In, elem_of_bset_of_list.
Qed.

(** C27: Projecting a fetched client document into the registry adds exactly
    one client and changes no other: it was not registered, its document's
    lease is live, its scopes are the policy's, without offline access unless
    both the policy and the document allow refresh, its resources the
    policy's. The projected client has no browser origin and no logout
    redirect, and neither it nor, through this registry, any other client is
    ever authorized without the user's consent. *)
Theorem project_cimd_isolated now reg snapshot scopes resources allow_refresh reg' :
  project_cimd now reg snapshot scopes resources allow_refresh = Ok reg' ->
  let doc := lm_document snapshot in
  cr_clients reg !! cm_client_id doc = None
  /\ is_fresh now snapshot = true
  /\ (forall id, id <> cm_client_id doc -> cr_clients reg' !! id = cr_clients reg !! id)
  /\ (exists client, cr_clients reg' !! cm_client_id doc = Some client
      /\ (forall s, s ∈ fc_scopes client <->
            s ∈ scopes /\ (s = "offline_access" -> allow_refresh = true /\ cm_refresh_allowed doc = true))
      /\ (forall r, r ∈ fc_resources client <-> r ∈ resources)
      /\ fc_browser_origins client = [] /\ fc_post_logout_redirects client = []
      /\ fc_logout_flow client = InteractiveLogout)
  /\ (forall pending, pre_authorizes reg' pending = false)
  /\ dynamic_for reg' (cm_client_id doc)
     = Some {| rp_snapshot := snapshot; rp_binding := security_binding doc allow_refresh |}.
Proof.
  intros Hp doc. unfold project_cimd in Hp. fold doc in Hp.
  destruct (_ || _ || _ || _) eqn:Hg; [done|].
  rewrite !orb_false_iff, !negb_false_iff in Hg. destruct Hg as [[[Hc Hf] _] _].
  rewrite rbind_Ok in Hp. destruct Hp as (redirects & _ & Hp).
  rewrite rbind_Ok in Hp. destruct Hp as (client & Hclient & [= <-]).
  apply new_client_Ok in Hclient as (Hid & _ & Hs & Hr & _ & Ho & Hl & _ & Hlf & _ & _).
  unfold contains_client in Hc. apply is_some_false in Hc. simpl. split_and!; try done.
  - intros id Hne. by rewrite Hid, lookup_insert_ne.
  - exists client. rewrite Hid, lookup_insert_eq. split_and!; try done.
    + intros s. rewrite Hs, elem_of_bset_of_list, list_elem_of_In, List.filter_In, <- list_elem_of_In.
      rewrite orb_true_iff, andb_true_iff, bool_decide_neq_true. split.
      * intros [Hin [Hb|Hne]]; [by split|]. by split.
      * intros [Hin Hoff]. split; [done|]. destruct (decide (s = "offline_access")); [left|right]; auto.
    + intros r. by rewrite Hr, elem_of_bset_of_list.
  - intros pending. unfold pre_authorizes. simpl. by rewrite andb_false_r.
  - unfold dynamic_for. simpl. by rewrite bool_decide_eq_true_2.
Qed.
End Cimd.
