(* ===== verification/GoogleTheory.v ===== *)
(** * GoogleTheory: properties of the Google adapter *)

From Stdlib Require Import Ascii ZArith Lia Sorting.Sorted.
From S2P Require Import Prelude External Cimd Jose Google.

(** ** Identity tokens *)

Definition names_audience (a : Audience) (client_id : string) : Prop :=
  match a with
  | One v => v = client_id
  | Many l => In client_id l
  end.
Definition several_audiences (a : Audience) : Prop :=
  match a with
  | One _ => False
  | Many l => (1 < length l)%nat
  end.

(** The claims an identity token must hold at [now], in seconds. *)
Record claims_ok (claims : Claims) (client_id nonce : string) (now : Z) : Prop := {
  ck_issuer : gc_iss claims = "accounts.google.com" \/ gc_iss claims = "https://accounts.google.com";
  ck_subject : gc_sub claims <> EmptyString /\ (len (gc_sub claims) <= 255)%Z
               /\ bytes_all is_ascii_byte (gc_sub claims) = true;
  ck_nonce : gc_nonce claims = nonce;
  ck_time : (now <= i64_saturating_add (gc_exp claims) CLOCK_SKEW)%Z
            /\ (0 <= gc_iat claims <= now + CLOCK_SKEW)%Z;
  ck_not_before : forall v, gc_nbf claims = Some v -> (v <= now + CLOCK_SKEW)%Z;
  ck_auth_time : forall v, gc_auth_time claims = Some v -> (0 <= v <= now + CLOCK_SKEW)%Z;
  ck_audience : names_audience (gc_aud claims) client_id;
  ck_azp : forall v, gc_azp claims = Some v -> v = client_id;
  ck_several : several_audiences (gc_aud claims) -> gc_azp claims = Some client_id;
}.

(** The identity of accepted claims: an email only if Google verified it. *)
Definition claimed_identity (claims : Claims) : VerifiedGoogleIdentity :=
  {| vi_subject := gc_sub claims;
     vi_name := gc_name claims;
     vi_given_name := gc_given_name claims;
     vi_family_name := gc_family_name claims;
     vi_picture := gc_picture claims;
     vi_verified_email :=
       if is_some_and (gc_email_verified claims) is_true
       then opt_filter (fun v => negb (str_empty v)) (gc_email claims) else None;
     vi_auth_time := gc_auth_time claims |}.

Lemma is_some_and_false {A} (o : option A) f :
  is_some_and o f = false <-> forall v, o = Some v -> f v = false.
Proof. destruct o; simpl; split; naive_solver. Qed.

Lemma audience_check a azp client_id :
  (let '(aud_ok, multiple) :=
     match a with
     | One v => (v ==? client_id, false)
     | Many v => (existsb (fun x => x ==? client_id) v, (1 <? length v)%nat)
     end in
   negb aud_ok || is_some_and azp (fun v => v <>? client_id) || multiple && (azp <>? Some client_id))
  = false <->
  names_audience a client_id /\ (forall v, azp = Some v -> v = client_id)
  /\ (several_audiences a -> azp = Some client_id).
Proof.
  assert (Hn : forall l : list string, existsb (fun x => x ==? client_id) l = true <-> In client_id l).
  { intros l. rewrite existsb_exists. setoid_rewrite bool_decide_eq_true. naive_solver. }
  destruct a as [v|l]; cbn [names_audience several_audiences];
    rewrite !orb_false_iff, andb_false_iff, negb_false_iff, is_some_and_false;
    setoid_rewrite bool_decide_neq_false.
  - rewrite bool_decide_eq_true. naive_solver.
  - rewrite Hn, Nat.ltb_ge. split.
    + intros [[Hin Hazp] Hm]. split_and!; [done..|]. intros Hlt. destruct Hm; [lia|done].
    + intros (Hin & Hazp & Hm). split_and!; [done..|].
      destruct (decide (1 < length l)%nat); [right; auto|left; lia].
Qed.

Lemma validate_claims_spec claims client_id nonce now v :
  validate_claims claims client_id nonce now = Ok v <->
  claims_ok claims client_id nonce now /\ v = claimed_identity claims.
Proof.
  unfold validate_claims. destruct (_ || _) eqn:Hg.
  - split; [done|]. intros [[Hi Hs Hn Ht Hb Ha _ _ _] _]. exfalso.
    revert Hg. apply not_true_iff_false.
    rewrite !orb_false_iff, negb_false_iff, orb_true_iff, !bool_decide_eq_true, bool_decide_neq_false,
      str_empty_false, negb_false_iff, !Z.ltb_ge, !is_some_and_false.
    split_and!; try tauto; try lia.
    + intros x Hx. apply Z.ltb_ge. by apply Hb.
    + intros x Hx. specialize (Ha x Hx). rewrite orb_false_iff, !Z.ltb_ge. lia.
  - rewrite !orb_false_iff, negb_false_iff, orb_true_iff, !bool_decide_eq_true, bool_decide_neq_false,
      str_empty_false, negb_false_iff, !Z.ltb_ge, !is_some_and_false in Hg.
    destruct Hg as [[[[[[[[[Hi Hs1] Hs2] Hs3] Hn] He] Hiat] Hiat'] Hb] Ha].
    assert (Hok : names_audience (gc_aud claims) client_id ->
      (forall x, gc_azp claims = Some x -> x = client_id) ->
      (several_audiences (gc_aud claims) -> gc_azp claims = Some client_id) ->
      claims_ok claims client_id nonce now).
    { intros. split; try done.
      - intros x Hx. apply Z.ltb_ge. by apply Hb.
      - intros x Hx. specialize (Ha x Hx). rewrite orb_false_iff, !Z.ltb_ge in Ha. lia. }
    pose proof (audience_check (gc_aud claims) (gc_azp claims) client_id) as Hac. revert Hac.
    destruct (match gc_aud claims with One _ => _ | Many _ => _ end) as [aud_ok multiple]. intros Hac.
    destruct (_ || _ || _) eqn:Hguard in Hac |- *.
    + split; [done|]. intros [[_ _ _ _ _ _ Haud Hazp Hsev] _].
      assert (true = false) by (apply Hac; done). done.
    + destruct (proj1 Hac eq_refl) as (Haud & Hazp & Hsev). split.
      * intros [= <-]. split; [by apply Hok|done].
      * by intros [_ ->].
Qed.

(** C31: An identity token's claims are accepted exactly when Google issued
    them for this client and this sign-in: issuer, bounded subject, the
    nonce sent, expiry and issue time within half a minute of the clock,
    not-before and sign-in time not in the future, an audience that names the
    client, no other authorized party, and the client as authorized party
    when there are several audiences. The identity is the claims', with an
    email only when Google verified it. *)
Theorem validate_claims_iff claims client_id nonce now v :
  validate_claims claims client_id nonce now = Ok v <->
  claims_ok claims client_id nonce now /\ v = claimed_identity claims.
Proof. apply validate_claims_spec. Qed.

(** ** Responses *)

Lemma read_chunks_Some chunks maximum body text :
  (len body <= maximum)%Z -> read_chunks chunks maximum body = Some text ->
  (len text <= maximum)%Z /\ exists parts, chunks = map Some parts /\ text = body +:+ String.concat EmptyString parts.
Proof.
  revert body. induction chunks as [|[c|] chunks IH]; intros body Hb; simpl.
  - intros [= <-]. split; [done|]. exists []. by rewrite str_app_nil_r.
  - destruct (maximum <? len body + len c)%Z eqn:Hc; [done|]. apply Z.ltb_ge in Hc. intros Hr.
    destruct (IH (body +:+ c)) as (Hl & parts & -> & ->); [by rewrite len_app|done|].
    split; [done|]. exists (c :: parts). split; [done|]. rewrite str_app_assoc. f_equal.
    destruct parts; simpl; [by rewrite str_app_nil_r|done].
  - done.
Qed.

Lemma bounded_body_Some response maximum text :
  (0 <= maximum)%Z -> bounded_body response maximum = Some text ->
  (len text <= maximum)%Z
  /\ exists parts, re_chunks response = map Some parts /\ text = String.concat EmptyString parts.
Proof.
  intros Hm. unfold bounded_body. destruct (is_some_and _ _); [done|].
  by intros Hr%read_chunks_Some.
Qed.

Lemma cache_freshness_bounds cc age : (0 <= cache_freshness cc age <= MAX_CACHE_AGE)%Z.
Proof.
  unfold cache_freshness, u64_saturating_sub, MAX_CACHE_AGE. destruct (existsb _ _); [lia|].
  assert (Hp : forall s n, parse_unsigned u64_max s = Some n -> (0 <= n)%Z).
  { intros s n. unfold parse_unsigned. destruct (str_empty _); [done|].
    generalize (match s with String "+" s' => s' | _ => s end). intros t.
    assert (Hd : forall u acc n, (0 <= acc)%Z -> parse_digits u64_max acc u = Some n -> (0 <= n)%Z).
    { intros u. induction u as [|a u IH]; intros acc m Hacc; simpl; [intros Heq; injection Heq as <-; lia|].
      destruct (is_ascii_digit a) eqn:Ha; [|done]. destruct (_ <=? _)%Z; [|done].
      apply IH. unfold is_ascii_digit, byte_in, digit_value in *.
      rewrite andb_true_iff, !N.leb_le in Ha. lia. }
    apply Hd. lia. }
  assert (Hage : (0 <= match age with
                       | Some v => match parse_unsigned u64_max v with Some n => n | None => 0 end
                       | None => 0 end)%Z).
  { destruct age as [v|]; [|lia]. destruct (parse_unsigned u64_max v) eqn:Hv; [by eapply Hp|lia]. }
  destruct (find_map _ _) eqn:Hf; lia.
Qed.

(** ** Signing keys *)

Section Keys.
Context `{Crypto, JwtLib, !GoogleLib}.

(** A key that is taken over: an RSA key for verifying RS256 signatures, of
    2048 to 8192 bits, under a bounded identifier. *)
Record jwk_ok (j : Jwk) : Prop := {
  jo_kty : jwk_kty j = "RSA";
  jo_kid : jwk_kid j <> EmptyString /\ (len (jwk_kid j) <= 128)%Z;
  jo_alg : forall v, jwk_alg j = Some v -> v = "RS256";
  jo_use : forall v, jwk_use j = Some v -> v = "sig";
  jo_key_ops : forall ops, jwk_key_ops j = Some ops -> ops <> [] /\ Forall (fun op => op = "verify") ops;
  jo_size : exists n e bits, b64_decode (jwk_n j) = Some n /\ b64_decode (jwk_e j) = Some e
            /\ rsa_bits n e = Some bits /\ (2048 <= bits <= 8192)%Z;
}.

Lemma accept_jwk_Ok j keys keys' :
  accept_jwk j keys = Ok keys' ->
  jwk_ok j /\ keys !! jwk_kid j = None
  /\ exists k, rsa_decoding_key (jwk_n j) (jwk_e j) = Some k /\ keys' = <[jwk_kid j := k]> keys.
Proof.
  unfold accept_jwk. intros Haccept. case_if Haccept; [done|].
  rewrite !orb_false_iff, bool_decide_neq_false, str_empty_false, Z.ltb_ge, !is_some_and_false in E.
  destruct E as [[[[[Hkty Hkid] Hlen] Halg] Huse] Hops].
  rewrite rbind_Ok in Haccept. destruct Haccept as (n & Hn%ok_or_Ok & Haccept).
  rewrite rbind_Ok in Haccept. destruct Haccept as (e & He%ok_or_Ok & Haccept).
  case_if Haccept; [done|]. clear E.
  rewrite rbind_Ok in Haccept. destruct Haccept as (bits & Hbits%ok_or_Ok & Haccept).
  case_if Haccept; [done|]. rewrite negb_false_iff, andb_true_iff, !Z.leb_le in E.
  rewrite rbind_Ok in Haccept. destruct Haccept as (k & Hk%ok_or_Ok & Haccept).
  destruct (keys !! jwk_kid j) eqn:Hfresh in Haccept; [done|]. simpl in Haccept. injection Haccept as <-.
  split_and!; [|done|by exists k]. split; try done.
  - intros v Hv. by apply bool_decide_neq_false, Halg.
  - intros v Hv. by apply bool_decide_neq_false, Huse.
  - intros ops Ho. specialize (Hops ops Ho). rewrite orb_false_iff, Nat.eqb_neq in Hops. destruct Hops as [Hne Hall].
    split; [by intros ->|]. apply List.Forall_forall. intros op Hop.
    rewrite <- not_true_iff_false, existsb_exists in Hall. destruct (decide (op = "verify")); [done|].
    exfalso. apply Hall. exists op. by rewrite bool_decide_eq_false_2.
  - by exists n, e, bits.
Qed.

Lemma accept_jwks_Ok jwks keys keys' :
  accept_jwks jwks keys = Ok keys' ->
  NoDup (map jwk_kid jwks) /\ Forall (fun j => keys !! jwk_kid j = None) jwks
  /\ Forall (fun j => jwk_ok j /\ keys' !! jwk_kid j = rsa_decoding_key (jwk_n j) (jwk_e j)) jwks
  /\ (forall kid k, keys' !! kid = Some k -> keys !! kid = Some k \/ kid ∈ map jwk_kid jwks)
  /\ (forall kid k, keys !! kid = Some k -> keys' !! kid = Some k).
Proof.
  revert keys. induction jwks as [|j jwks IH]; intros keys; simpl.
  - intros [= <-]. split_and!; try constructor; auto.
  - rewrite rbind_Ok. intros (keys1 & (Hok & Hfresh & k & Hk & ->)%accept_jwk_Ok & Hrest).
    destruct (IH _ Hrest) as (Hnd & Hnew & Hall & Hback & Hforth).
    assert (Hne : jwk_kid j ∉ map jwk_kid jwks).
    { intros Hin. apply list_elem_of_In, in_map_iff in Hin as (j' & Hj' & Hin).
      rewrite List.Forall_forall in Hnew. specialize (Hnew j' Hin).
      by rewrite Hj', lookup_insert_eq in Hnew. }
    split_and!.
    + by constructor.
    + constructor; [done|]. eapply List.Forall_impl; [|exact Hnew]. intros j' Hj'.
      by apply lookup_insert_None in Hj' as [? _].
    + constructor; [|done]. split; [done|]. rewrite Hk. apply Hforth. by rewrite lookup_insert_eq.
    + intros kid k' Hk'. destruct (Hback _ _ Hk') as [Hi|Hi]; [|right; by constructor].
      destruct (decide (kid = jwk_kid j)) as [->|Hd]; [right; by constructor|].
      left. by rewrite lookup_insert_ne in Hi.
    + intros kid k' Hk'. apply Hforth. rewrite lookup_insert_ne; [done|]. congruence.
Qed.

(** C33: A fetched key set is taken over whole or not at all: at most 32
    keys, each of type RSA, for RS256 signatures when it says so, of 2048 to
    8192 bits, under a non-empty identifier of at most 128 bytes that no
    other has; each identifier is mapped to the key of its own modulus and
    exponent; the set is from a response of at most 256 KiB, and it is fresh
    for at most an hour. *)
Theorem fetch_keys_sound permit response keys freshness :
  fetch_keys permit response = Ok (keys, freshness) ->
  permit = true /\ (0 <= freshness <= MAX_CACHE_AGE)%Z /\
  exists r body jwks,
    response = Some r /\ re_status r = 200%Z /\ bounded_body r MAX_JWKS_RESPONSE = Some body
    /\ (len body <= MAX_JWKS_RESPONSE)%Z /\ parse_jwks body = Some jwks
    /\ (1 <= length jwks <= MAX_KEYS)%nat /\ NoDup (map jwk_kid jwks)
    /\ (forall kid k, keys !! kid = Some k <->
          exists j, j ∈ jwks /\ jwk_kid j = kid /\ rsa_decoding_key (jwk_n j) (jwk_e j) = Some k)
    /\ Forall jwk_ok jwks.
Proof.
  unfold fetch_keys. destruct permit; [|done]. simpl. rewrite rbind_Ok. intros (r & Hr%ok_or_Ok & Hk).
  case_if Hk; [done|]. rewrite negb_false_iff, Z.eqb_eq in E. rename E into Hstatus.
  rewrite rbind_Ok in Hk. destruct Hk as (body & Hbody%ok_or_Ok & Hk).
  rewrite rbind_Ok in Hk. destruct Hk as (jwks & Hjwks%ok_or_Ok & Hk).
  case_if Hk; [done|]. rewrite orb_false_iff, Nat.eqb_neq, Nat.ltb_ge in E. destruct E as [Hz Hmax].
  rewrite rbind_Ok in Hk. destruct Hk as (keys' & Haccept & [= <- <-]).
  apply accept_jwks_Ok in Haccept as (Hnd & _ & Hall & Hback & _).
  split_and!; [done|apply cache_freshness_bounds..|].
  exists r, body, jwks. split_and!; try done; try lia.
  - by apply bounded_body_Some in Hbody as [? _].
  - rewrite List.Forall_forall in Hall. intros kid k. split.
    + intros Hkid. destruct (Hback _ _ Hkid) as [Hempty|Hin]; [by rewrite lookup_empty in Hempty|].
      apply list_elem_of_In, in_map_iff in Hin as (j & <- & Hin). exists j.
      split_and!; [by apply list_elem_of_In|done|]. destruct (Hall j Hin) as [_ Hl]. by rewrite <- Hl.
    + intros (j & Hin & <- & Hrsa). apply list_elem_of_In in Hin. destruct (Hall j Hin) as [_ Hl]. by rewrite Hl.
  - eapply List.Forall_impl; [|exact Hall]. by intros j [].
Qed.

(** *** The cache as a state machine

    The mutex makes each call of [key] one step; the clock is monotonic. A
    call that awaits the key set can be dropped there. *)

(** A request of the key set: when it was sent, and, unless the call was
    dropped meanwhile, when it ended, whether it had a permit and what was
    answered. *)
Record KeyRequest := {
  kr_sent : Z;
  kr_outcome : option (Z * bool * option Response);
}.
Record KeyHistory := {
  kh_cache : KeyCache;
  kh_clock : Z;                     (* the last reading *)
  kh_requests : list KeyRequest;    (* newest first *)
}.
Definition key_start (now : Z) : KeyHistory :=
  {| kh_cache := new_cache now; kh_clock := now; kh_requests := [] |}.

Inductive key_step : KeyHistory -> KeyHistory -> Prop :=
| step_answered kid now answer cache h :
    (kh_clock h <= now)%Z ->
    key_lookup kid now (kh_cache h) = (KeyAnswered answer, cache) ->
    key_step h {| kh_cache := cache; kh_clock := now; kh_requests := kh_requests h |}
| step_requested kid now fetched permit response answer cache cache' h :
    (kh_clock h <= now)%Z -> (now <= fetched)%Z ->
    key_lookup kid now (kh_cache h) = (KeyRequested, cache) ->
    key_store kid fetched (fetch_keys permit response) cache = (answer, cache') ->
    key_step h
      {| kh_cache := cache'; kh_clock := fetched;
         kh_requests := {| kr_sent := now; kr_outcome := Some (fetched, permit, response) |} :: kh_requests h |}
| step_dropped kid now cache h :
    (kh_clock h <= now)%Z ->
    key_lookup kid now (kh_cache h) = (KeyRequested, cache) ->
    key_step h
      {| kh_cache := cache; kh_clock := now;
         kh_requests := {| kr_sent := now; kr_outcome := None |} :: kh_requests h |}.

Lemma key_lookup_answered kid now cache answer cache' :
  key_lookup kid now cache = (KeyAnswered answer, cache') ->
  cache' = cache
  /\ forall k, answer = Ok k -> kc_keys cache !! kid = Some k /\ (now < kc_fresh_until cache)%Z.
Proof.
  unfold key_lookup. destruct (now <? kc_fresh_until cache)%Z eqn:Hf; [apply Z.ltb_lt in Hf|].
  - destruct (kc_keys cache !! kid); [by intros [= <- <-]; split; [|intros ? [= ->]]|].
    case_match; [|done]. by intros [= <- <-].
  - case_match; [|done]. by intros [= <- <-].
Qed.
Lemma key_lookup_requested kid now cache cache' :
  key_lookup kid now cache = (KeyRequested, cache') ->
  cache' = {| kc_keys := kc_keys cache; kc_fresh_until := kc_fresh_until cache; kc_last_attempt := Some now |}
  /\ forall t, kc_last_attempt cache = Some t -> (nanos UNKNOWN_KID_BACKOFF <= Z.max 0 (now - t))%Z.
Proof.
  unfold key_lookup. destruct (if (now <? kc_fresh_until cache)%Z then _ else _); [done|].
  destruct (is_some_and _ _) eqn:Hb; [done|]. intros [= <-]. split; [done|]. intros t Ht.
  by apply Z.ltb_ge, (proj1 (is_some_and_false _ _) Hb).
Qed.
Lemma key_store_attempt kid fetched fetch cache :
  kc_last_attempt (key_store kid fetched fetch cache).2 = kc_last_attempt cache.
Proof. by destruct fetch as [[keys freshness]|e]. Qed.

(** [r] was answered a key set that holds [k] and that is fresh at [now]. *)
Definition answers_key (r : KeyRequest) (kid : string) (k : DecodingKey) (now : Z) : Prop :=
  exists fetched permit response keys freshness,
    kr_outcome r = Some (fetched, permit, response) /\ fetch_keys permit response = Ok (keys, freshness)
    /\ keys !! kid = Some k /\ (fetched <= now < fetched + nanos freshness)%Z.

(** The keys of the cache are one answer's, fresh as long as it allowed. *)
Definition cached_answer (h : KeyHistory) : Prop :=
  kc_keys (kh_cache h) = ∅ \/
  exists r fetched permit response freshness, r ∈ kh_requests h
    /\ kr_outcome r = Some (fetched, permit, response)
    /\ fetch_keys permit response = Ok (kc_keys (kh_cache h), freshness)
    /\ (fetched <= kh_clock h)%Z /\ kc_fresh_until (kh_cache h) = (fetched + nanos freshness)%Z.

Lemma cached_answer_kept h cache clock requests :
  cached_answer h -> kc_keys cache = kc_keys (kh_cache h) -> kc_fresh_until cache = kc_fresh_until (kh_cache h) ->
  (kh_clock h <= clock)%Z -> kh_requests h ⊆ requests ->
  cached_answer {| kh_cache := cache; kh_clock := clock; kh_requests := requests |}.
Proof.
  unfold cached_answer. simpl. intros Hc -> -> Hle Hsub.
  destruct Hc as [Hc|(r & fetched & permit & response & freshness & Hin & Ho & Hf & Ht & Hu)]; [by left|right].
  exists r, fetched, permit, response, freshness. split_and!; auto. lia.
Qed.

Definition spaced : list Z -> Prop :=
  StronglySorted (fun later earlier => (earlier + nanos UNKNOWN_KID_BACKOFF <= later)%Z).
Definition key_inv (h : KeyHistory) : Prop :=
  kc_last_attempt (kh_cache h) = head (map kr_sent (kh_requests h))
  /\ Forall (fun t => (t <= kh_clock h)%Z) (map kr_sent (kh_requests h))
  /\ spaced (map kr_sent (kh_requests h)) /\ cached_answer h.

Lemma spaced_cons now l :
  spaced l -> (forall t, head l = Some t -> (nanos UNKNOWN_KID_BACKOFF <= Z.max 0 (now - t))%Z) ->
  spaced (now :: l).
Proof.
  intros Hs Hb. constructor; [done|]. destruct l as [|t l]; [constructor|].
  specialize (Hb t eq_refl). unfold nanos, UNKNOWN_KID_BACKOFF in *. constructor; [lia|].
  apply StronglySorted_inv in Hs as [_ Hall]. eapply List.Forall_impl; [|exact Hall].
  simpl. unfold nanos, UNKNOWN_KID_BACKOFF. intros; lia.
Qed.

Lemma key_step_inv h h' : key_inv h -> key_step h h' -> key_inv h'.
Proof.
  intros (Hl & Hc & Hs & Ha) Hstep.
  assert (Hle : forall now, (kh_clock h <= now)%Z -> Forall (fun t => (t <= now)%Z) (map kr_sent (kh_requests h))).
  { intros now Hn. eapply List.Forall_impl; [|exact Hc]. simpl. intros; lia. }
  destruct Hstep as [kid now answer cache h Hn [-> _]%key_lookup_answered
    |kid now fetched permit response answer cache cache' h Hn Hf Hlook Hstore
    |kid now cache h Hn Hlook]; unfold key_inv; cbn [kh_cache kh_clock kh_requests map kr_sent head].
  - split_and!; auto. by apply cached_answer_kept with h.
  - apply key_lookup_requested in Hlook as [-> Hb]. rewrite Hl in Hb.
    pose proof (key_store_attempt kid fetched (fetch_keys permit response)
      {| kc_keys := kc_keys (kh_cache h); kc_fresh_until := kc_fresh_until (kh_cache h);
         kc_last_attempt := Some now |}) as Hat.
    rewrite Hstore in Hat. split_and!; [exact Hat|constructor; [done|apply Hle; lia]|by apply spaced_cons|].
    unfold key_store in Hstore. destruct (fetch_keys _ _) as [[keys freshness]|e] eqn:Hfk; simplify_eq.
    + right. eexists _, fetched, permit, response, freshness. cbn [kh_cache kh_clock kh_requests kc_keys kc_fresh_until].
      split_and!; [by left|done|exact Hfk|lia|done].
    + apply cached_answer_kept with h; [done..|simpl; lia|simpl; set_solver].
  - apply key_lookup_requested in Hlook as [-> Hb]. rewrite Hl in Hb.
    split_and!; [done|constructor; [simpl; lia|by apply Hle]|by apply spaced_cons|].
    apply cached_answer_kept with h; [done..|simpl; set_solver].
Qed.

Lemma key_reach_inv now h : rtc key_step (key_start now) h -> key_inv h.
Proof.
  intros Hreach. refine (rtc_ind_r key_inv _ _ _ h Hreach).
  - unfold key_inv. simpl. split_and!; try constructor. done.
  - intros y z _ Hstep IH. by eapply key_step_inv.
Qed.

(** C34: Whatever key identifiers tokens name, and whether the requests
    succeed, fail or are dropped, the signing keys are requested at most once
    every five seconds: in any sequence of calls on a monotonic clock, two
    requests are sent at least that far apart. *)
Theorem key_requests_spaced now h :
  rtc key_step (key_start now) h ->
  StronglySorted (fun later earlier => (earlier + nanos UNKNOWN_KID_BACKOFF <= later)%Z)
    (map kr_sent (kh_requests h)).
Proof. intros Hreach. apply (key_reach_inv _ _ Hreach). Qed.

(** ** The code exchange *)

(** A whole call of [key] is a step. *)
Lemma key_steps kid now fetched permit response h answer cache' :
  (kh_clock h <= now)%Z -> (now <= fetched)%Z ->
  key kid now fetched (fetch_keys permit response) (kh_cache h) = (answer, cache') ->
  exists h', key_step h h' /\ kh_cache h' = cache' /\ (kh_clock h' <= fetched)%Z.
Proof.
  intros Hn Hf. unfold key. destruct (key_lookup _ _ _) as [[a|] cache] eqn:Hl.
  - intros [= <- <-]. eexists. split; [by eapply step_answered|done].
  - intros Hs. eexists. split; [by eapply step_requested|done].
Qed.

(** So is an exchange of a code, if it gets to the keys. *)
Lemma exchange_code_steps adapter env permit post code verifier nonce now fetched unix_now kpermit kresponse h
    answer cache' :
  (kh_clock h <= now)%Z -> (now <= fetched)%Z ->
  exchange_code adapter env permit post code verifier nonce now fetched unix_now
    (fetch_keys kpermit kresponse) (kh_cache h) = (answer, cache') ->
  exists h', rtc key_step h h' /\ kh_cache h' = cache' /\ (kh_clock h' <= fetched)%Z.
Proof.
  intros Hn Hf. unfold exchange_code, verify_id_token.
  assert (Hnone : exists h', rtc key_step h h' /\ kh_cache h' = kh_cache h /\ (kh_clock h' <= fetched)%Z).
  { exists h. split_and!; [done..|lia]. }
  match goal with |- context [match ?t with Ok _ => _ | Err _ => _ end] => destruct t end; [|by intros [= _ <-]].
  destruct (token_kid _ _) as [kid|]; [|by intros [= _ <-]].
  destruct (key _ _ _ _ _) as [[k|] cache1] eqn:Hk; intros [= _ <-];
    destruct (key_steps _ _ _ _ _ _ _ _ Hn Hf Hk) as (h' & Hs & Hc & Ht); exists h'; auto using rtc_once.
Qed.

(** The key a call answers is one of a key set that is fresh, answered to an
    earlier request or to its own. *)
Lemma key_Ok t0 h kid now fetched permit response k cache' :
  rtc key_step (key_start t0) h -> (kh_clock h <= now)%Z ->
  key kid now fetched (fetch_keys permit response) (kh_cache h) = (Ok k, cache') ->
  (exists r, r ∈ kh_requests h /\ answers_key r kid k now)
  \/ exists keys freshness, fetch_keys permit response = Ok (keys, freshness) /\ keys !! kid = Some k.
Proof.
  intros (_ & _ & _ & Ha)%key_reach_inv Hn. unfold key. destruct (key_lookup _ _ _) as [[a|] cache] eqn:Hl.
  - apply key_lookup_answered in Hl as [-> Hk]. intros [= -> <-]. destruct (Hk k eq_refl) as [Hkid Hfresh]. left.
    destruct Ha as [He|(r & at_ & p & resp & freshness & Hin & Ho & Hf & Ht & Hu)];
      [by rewrite He, lookup_empty in Hkid|].
    exists r. split; [done|]. exists at_, p, resp, (kc_keys (kh_cache h)), freshness.
    split_and!; [done..|lia|lia].
  - unfold key_store. destruct (fetch_keys _ _) as [[keys freshness]|]; [|done].
    intros [= Hk _]. apply ok_or_Ok in Hk. right. by exists keys, freshness.
Qed.

(** C32: A code is exchanged for an identity only by a request to Google's
    token endpoint that binds it: the code, the client and its secret, the
    registered callback and the sign-in's own PKCE verifier; and the identity
    is that of claims issued to this client for this sign-in's nonce, valid
    now, and signed by the key that Google's key endpoint published under the
    token's own key identifier: in an answer to an earlier request, after
    whatever calls, that is still as fresh as it was allowed to be, or in the
    answer to this call's own request. *)
Theorem exchange_code_sound t0 h adapter env permit post code verifier nonce now fetched unix_now
    kpermit kresponse identity cache' :
  rtc key_step (key_start t0) h -> (kh_clock h <= now)%Z ->
  exchange_code adapter env permit post code verifier nonce now fetched unix_now
    (fetch_keys kpermit kresponse) (kh_cache h) = (Ok identity, cache') ->
  exists secret response body token kid k claims,
    env = Some secret /\ secret <> EmptyString /\ permit = true
    /\ valid_pkce_verifier verifier = true
    /\ post (ep_token (ga_endpoints adapter))
         [ ("code", code); ("client_id", ga_client_id adapter); ("client_secret", secret);
           ("redirect_uri", ga_callback adapter); ("grant_type", "authorization_code");
           ("code_verifier", verifier) ] = Some response
    /\ re_status response = 200%Z /\ bounded_body response MAX_TOKEN_RESPONSE = Some body
    /\ parse_token_response body = Some token /\ token_kid token nonce = Ok kid
    /\ ((exists r, r ∈ kh_requests h /\ answers_key r kid k now)
        \/ exists keys freshness, fetch_keys kpermit kresponse = Ok (keys, freshness) /\ keys !! kid = Some k)
    /\ google_decode token k = Some claims
    /\ claims_ok claims (ga_client_id adapter) nonce unix_now
    /\ identity = claimed_identity claims.
Proof.
  intros Hreach Hnow. unfold exchange_code.
  match goal with |- context [match ?t with Ok _ => _ | Err _ => _ end] => destruct t as [token|] eqn:Htoken end; [|done].
  intros Hv. case_if Htoken; [done|]. rewrite !orb_false_iff, !negb_false_iff in E.
  destruct E as [[_ Hver] _].
  rewrite rbind_Ok in Htoken. destruct Htoken as (secret & Hsecret & Htoken).
  apply ok_or_Ok, opt_filter_Some in Hsecret as [Henv Hsecret]. rewrite negb_true_iff, str_empty_false in Hsecret.
  case_if Htoken; [done|]. rewrite negb_false_iff in E. subst permit.
  rewrite rbind_Ok in Htoken. destruct Htoken as (response & Hresponse%ok_or_Ok & Htoken).
  case_if Htoken; [done|]. rewrite negb_false_iff, Z.eqb_eq in E. rename E into Hstatus.
  rewrite rbind_Ok in Htoken. destruct Htoken as (body & Hbody%ok_or_Ok & Htoken%ok_or_Ok).
  unfold verify_id_token in Hv. destruct (token_kid token nonce) as [kid|] eqn:Hkid; [|done].
  destruct (key kid now fetched _ _) as [[k|] cache1] eqn:Hkey; [|done].
  injection Hv as Hclaims <-. rewrite rbind_Ok in Hclaims. destruct Hclaims as (claims & Hdec%ok_or_Ok & Hval).
  apply validate_claims_spec in Hval as [Hok ->]. apply (key_Ok t0) in Hkey; [|done..].
  exists secret, response, body, token, kid, k, claims. by split_and!.
Qed.
End Keys.
