(* ===== verification/KeysTheory.v ===== *)
(** * KeysTheory: properties of the signing keys and of the tokens they sign *)

From Stdlib Require Import Ascii ZArith Lia.
From S2P Require Import Prelude Sets External Schema Cimd Jose Keys Credentials Tokens Http Web.

(** The encoding key read from a private key's PEM signs for the decoding
    key read from the PEM of its public half. *)
Class KeysLaws `{Crypto, JwtLib, !KeysLib} : Prop := {
  pem_pair private public key k k' :
    parse_private private = Ok key -> parse_public public = Ok key ->
    encoding_from_pem private = Some k -> decoding_from_pem public = Some k' -> signs_for k k';
}.

Section Loading.
Context `{Crypto, JwtLib, !KeysLib}.

(** The public keys a manifest declares, the active one first: identifiers
    and files. *)
Definition declared (manifest : Manifest) : list (string * string) :=
  (ak_kid (mf_active manifest), ak_public_key (mf_active manifest))
  :: map (fun entry => (pk_kid entry, pk_public_key entry)) (mf_previous manifest ++ mf_next manifest).

(** One to 128 letters, digits, dashes, underscores and dots. *)
Definition kid_ok (kid : string) : Prop :=
  kid <> EmptyString /\ (len kid <= 128)%Z
  /\ bytes_all (fun c => is_ascii_alphanumeric c || (c ==? "-"%char) || (c ==? "_"%char) || (c ==? "."%char)) kid
     = true.

(** [key] is the key that an entry declares: that of its file, large enough,
    and tokens that name the entry are verified with it. *)
Record declares (fs : string -> option FileEntry) (decoding : gmap string DecodingKey)
    (entry : string * string) (key : RsaPublicKey) : Prop := {
  dc_kid : kid_ok entry.1;
  dc_size : (2048 <= rk_bits key)%Z;
  dc_file : exists file k, fs entry.2 = Some file /\ parse_public (fe_bytes file) = Ok key
            /\ decoding_from_pem (fe_bytes file) = Some k /\ decoding !! entry.1 = Some k;
}.

(** A published key is its entry's identifier with its own modulus and
    exponent. *)
Definition published_jwk (entry : string * string) (key : RsaPublicKey) : Jwk :=
  {| jwk_kty := "RSA"; jwk_use := "sig"; jwk_alg := "RS256"; jwk_kid := entry.1;
     jwk_n := b64_encode (rk_n key); jwk_e := b64_encode (rk_e key) |}.
Definition material (key : RsaPublicKey) : string * string := (rk_n key, rk_e key).

(** The accumulators hold the keys of [entries]. *)
Record keyset_of (fs : string -> option FileEntry) (entries : list (string * string))
    (publics : list RsaPublicKey) (keys : KeySet) : Prop := {
  ko_each : Forall2 (declares fs (ks_decoding keys)) entries publics;
  ko_kids : NoDup (map fst entries);
  ko_seen : forall kid, kid ∈ ks_seen keys <-> kid ∈ map fst entries;
  ko_decoding : forall kid, is_Some (ks_decoding keys !! kid) <-> kid ∈ map fst entries;
  ko_material : NoDup (map material publics);
  ko_seen_material : forall ne, ne ∈ ks_seen_material keys <-> ne ∈ map material publics;
  ko_jwks : ks_jwks keys = zip_with published_jwk entries publics;
}.

Lemma empty_keys_of fs : keyset_of fs [] [] empty_keys.
Proof.
  split; simpl; [constructor|apply NoDup_nil_2|set_solver| |apply NoDup_nil_2|set_solver|done].
  intros kid. rewrite lookup_empty. split; [by intros [? [=]]|by intros ?%elem_of_nil].
Qed.

Lemma NoDup_snoc {A} (l : list A) x : NoDup l -> x ∉ l -> NoDup (l ++ [x]).
Proof.
  intros Hl Hx. apply list.NoDup_app. split_and!; [done| |apply NoDup_singleton].
  by intros y Hy ->%list_elem_of_singleton.
Qed.

Lemma check_kid_Ok kid : check_kid kid = Ok tt -> kid_ok kid.
Proof.
  unfold check_kid. intros Hk. case_if Hk; [done|].
  rewrite !orb_false_iff, str_empty_false, Z.ltb_ge, negb_false_iff in E. by destruct E as [[? ?] ?].
Qed.

(** The entries keep their keys when another is added. *)
Lemma declares_insert fs decoding entries publics kid k :
  Forall2 (declares fs decoding) entries publics -> kid ∉ map fst entries ->
  Forall2 (declares fs (<[kid := k]> decoding)) entries publics.
Proof.
  induction 1 as [|e key entries publics [Hkok Hsz (file & k' & Hf & Hp & Hd & Hl)] _ IH]; simpl; intros Hn; [constructor|].
  constructor; [|by apply IH; set_solver]. split; [done..|]. exists file, k'. split_and!; [done..|].
  rewrite lookup_insert_ne; [done|set_solver].
Qed.

Lemma add_public_Ok fs entries publics entry file key keys keys' :
  keyset_of fs entries publics keys -> kid_ok entry.1 -> fs entry.2 = Some file ->
  parse_public (fe_bytes file) = Ok key -> add_public entry.1 key (fe_bytes file) keys = Ok keys' ->
  keyset_of fs (entries ++ [entry]) (publics ++ [key]) keys'.
Proof.
  intros [Heach Hkids Hseen Hdec Hmat Hmseen Hjwks] Hkid Hfile Hparse. unfold add_public.
  case_bool_decide as Hnew; [done|]. rewrite rbind_Ok. intros ([] & Hsize & Hk).
  unfold validate_size in Hsize. case_if Hsize; [done|]. apply Z.ltb_ge in E.
  case_if Hk; [done|]. apply bool_decide_eq_false in E0 as Hm.
  rewrite rbind_Ok in Hk. destruct Hk as (k & Hpem%ok_or_Ok & [= <-]). rewrite Hseen in Hnew. rewrite Hmseen in Hm.
  split; simpl; rewrite ?map_app; simpl.
  - apply Forall2_app.
    + by apply declares_insert.
    + constructor; [|constructor]. split; [done..|]. exists file, k. split_and!; [done..|]. by rewrite lookup_insert_eq.
  - by apply NoDup_snoc.
  - intros kid'. rewrite elem_of_union, elem_of_singleton, Hseen, elem_of_app, list_elem_of_singleton. tauto.
  - intros kid'. rewrite elem_of_app, list_elem_of_singleton, <- Hdec, lookup_insert_is_Some'. naive_solver.
  - by apply NoDup_snoc.
  - intros ne. rewrite elem_of_union, elem_of_singleton, elem_of_app, list_elem_of_singleton, Hmseen.
    unfold material. tauto.
  - rewrite Hjwks, zip_with_app by eapply Forall2_length, Heach. done.
Qed.

Lemma add_entries_Ok fs entries declared_ publics keys keys' :
  keyset_of fs declared_ publics keys -> add_entries fs entries keys = Ok keys' ->
  exists publics', keyset_of fs (declared_ ++ map (fun e => (pk_kid e, pk_public_key e)) entries)
                     (publics ++ publics') keys'.
Proof.
  revert declared_ publics keys. induction entries as [|entry entries IH]; intros es publics keys Hok;
    cbn [add_entries map].
  - intros [= <-]. exists []. by rewrite !app_nil_r.
  - rewrite rbind_Ok. intros ([] & Hkid%check_kid_Ok & Hk).
    rewrite rbind_Ok in Hk. destruct Hk as (file & Hfile%ok_or_Ok & Hk).
    rewrite rbind_Ok in Hk. destruct Hk as (key & Hkey & Hk).
    rewrite rbind_Ok in Hk. destruct Hk as (keys1 & Hadd & Hk).
    apply (add_public_Ok fs es publics (pk_kid entry, pk_public_key entry) file) in Hadd; [|done..].
    destruct (IH _ _ _ Hadd Hk) as (publics' & Hof). exists (key :: publics'). by rewrite <- !app_assoc in Hof.
Qed.

(** What a loaded key set satisfies. *)
Record loaded (fs : string -> option FileEntry) (manifest : Manifest) (keys : SigningKeys) : Prop := {
  ld_active : sk_active_kid keys = ak_kid (mf_active manifest);
  ld_published : exists key publics ks,
    keyset_of fs (declared manifest) (key :: publics) ks
    /\ sk_decoding keys = ks_decoding ks /\ sk_jwks_json keys = jwks_to_json (ks_jwks ks)
    /\ exists file, fs (ak_private_key (mf_active manifest)) = Some file
       /\ fe_is_file file = true /\ Z.land (fe_mode file) 63 = 0%Z
       /\ parse_private (fe_bytes file) = Ok key /\ encoding_from_pem (fe_bytes file) = Some (sk_encoding keys);
}.

Lemma read_private_key_Ok file pem :
  read_private_key file = Ok pem ->
  exists f, file = Some f /\ fe_is_file f = true /\ Z.land (fe_mode f) 63 = 0%Z /\ pem = fe_bytes f.
Proof.
  unfold read_private_key. rewrite rbind_Ok. intros (f & ->%ok_or_Ok & Hk). exists f.
  case_if Hk; [done|]. rewrite negb_false_iff in E. rewrite rbind_Ok in Hk. destruct Hk as ([] & Hmode & [= <-]).
  unfold check_private_permissions in Hmode. case_if Hmode; [done|]. rewrite negb_false_iff, Z.eqb_eq in E0. done.
Qed.

Lemma load_Ok text fs keys :
  load text fs = Ok keys ->
  exists t manifest, text = Some t /\ parse_manifest t = Some manifest /\ loaded fs manifest keys.
Proof.
  unfold load. rewrite rbind_Ok. intros (t & Ht%ok_or_Ok & Hk).
  rewrite rbind_Ok in Hk. destruct Hk as (manifest & Hmanifest%ok_or_Ok & Hk).
  exists t, manifest. split_and!; [done..|].
  rewrite rbind_Ok in Hk. destruct Hk as ([] & Hkid%check_kid_Ok & Hk).
  rewrite rbind_Ok in Hk. destruct Hk as (private_pem & (file & Hfile & Hreg & Hmode & ->)%read_private_key_Ok & Hk).
  rewrite rbind_Ok in Hk. destruct Hk as (private & Hprivate & Hk).
  rewrite rbind_Ok in Hk. destruct Hk as ([] & _ & Hk).
  rewrite rbind_Ok in Hk. destruct Hk as (public_file & Hpublic_file%ok_or_Ok & Hk).
  rewrite rbind_Ok in Hk. destruct Hk as (public & Hpublic & Hk).
  case_if Hk; [done|]. rewrite bool_decide_neq_false in E. subst public.
  rewrite rbind_Ok in Hk. destruct Hk as (keys1 & Hadd & Hk).
  rewrite rbind_Ok in Hk. destruct Hk as (keys2 & Hentries & Hk).
  rewrite rbind_Ok in Hk. destruct Hk as (encoding & Henc%ok_or_Ok & [= <-]).
  apply (add_public_Ok fs [] [] (ak_kid (mf_active manifest), ak_public_key (mf_active manifest)) public_file)
    in Hadd; [|by first [apply empty_keys_of|done]..].
  apply (add_entries_Ok _ _ _ _ _ _ Hadd) in Hentries as (publics & Hof).
  split; simpl; [done|]. exists private, publics, keys2. split_and!; [exact Hof|done..|]. by exists file.
Qed.

(** The active key pair. *)
Lemma loaded_pair `{!KeysLaws} fs manifest keys :
  loaded fs manifest keys ->
  exists k, sk_decoding keys !! sk_active_kid keys = Some k /\ signs_for (sk_encoding keys) k.
Proof.
  intros [Hactive (key & publics & ks & [Heach _ _ _ _ _ _] & Hd & _ & file & _ & _ & _ & Hpr & Hen)].
  apply Forall2_cons_1 in Heach as [[_ _ (public & k & _ & Hpu & Hde & Hk)] _].
  exists k. rewrite Hd, Hactive. split; [exact Hk|]. by eapply pem_pair.
Qed.

(** C30: Keys that load are a coherent set, the one the manifest declares.
    The manifest is the text's. Every key it declares, active, previous or
    next, has a well-formed identifier that no other has, is the public key
    of its own file, has at least 2048 bits and shares its modulus and
    exponent with no other. The published set is exactly those keys, each
    under its identifier with its modulus and exponent, and tokens are
    verified with exactly those, each under its identifier. The private key
    is that of a regular file closed to group and others, is the other half
    of the active public key, and what it signs the active key verifies. *)
Theorem load_coherent `{!KeysLaws} text fs keys :
  load text fs = Ok keys ->
  exists t manifest key publics,
    text = Some t /\ parse_manifest t = Some manifest
    /\ sk_active_kid keys = ak_kid (mf_active manifest)
    /\ Forall2 (declares fs (sk_decoding keys)) (declared manifest) (key :: publics)
    /\ NoDup (map fst (declared manifest)) /\ NoDup (map material (key :: publics))
    /\ sk_jwks_json keys = jwks_to_json (zip_with published_jwk (declared manifest) (key :: publics))
    /\ (forall kid, is_Some (sk_decoding keys !! kid) <-> kid ∈ map fst (declared manifest))
    /\ (exists file, fs (ak_private_key (mf_active manifest)) = Some file
         /\ fe_is_file file = true /\ Z.land (fe_mode file) 63 = 0%Z
         /\ parse_private (fe_bytes file) = Ok key /\ encoding_from_pem (fe_bytes file) = Some (sk_encoding keys))
    /\ exists k, sk_decoding keys !! sk_active_kid keys = Some k /\ signs_for (sk_encoding keys) k.
Proof.
  intros (t & manifest & -> & Hm & Hl)%load_Ok. pose proof (loaded_pair _ _ _ Hl) as Hpair.
  destruct Hl as [Hactive (key & publics & ks & [Heach Hkids _ Hdec Hmat _ Hjwks] & Hd & Hj & Hfile)].
  rewrite Hjwks in Hj. exists t, manifest, key, publics. rewrite Hd in *. by split_and!.
Qed.
End Loading.

(** ** Tokens *)

Section Tokens.
Context `{CryptoLaws, !JwtLib, !JwtLaws, !KeysLib, !KeysLaws, UuidLib, !UuidLaws}.

Lemma plain_header_crit t : plain_header t -> has_unsupported_crit t = false.
Proof.
  intros (segment & rest & bytes & m & Hs & Hb & Hj & Hm).
  unfold has_unsupported_crit. by rewrite Hs, Hb, Hj, Hm.
Qed.

(** The key a signed token is verified with: the active one, if the token
    has the type that is expected. *)
Lemma token_key_signed keys typ expected t message k :
  jwt_header t = Some (typed_header keys typ) -> plain_header t ->
  sk_decoding keys !! sk_active_kid keys = Some k ->
  token_key keys t expected message = if decide (typ = expected) then Ok k else Err (InvalidKeys message).
Proof.
  intros Hh Hc Hk. unfold token_key. rewrite Hh. cbn [ok_or rbind typed_header jh_alg jh_typ jh_kid].
  rewrite plain_header_crit by done.
  destruct (decide (typ = expected)) as [->|Ht].
  - rewrite !bool_decide_eq_true_2 by done. simpl. by rewrite Hk.
  - rewrite (bool_decide_eq_false_2 (Some typ = Some expected)) by congruence.
    by rewrite orb_true_r.
Qed.

(** Keys that verify what they sign, as [load] yields. *)
Definition keys_paired (keys : SigningKeys) : Prop :=
  exists k, sk_decoding keys !! sk_active_kid keys = Some k /\ signs_for (sk_encoding keys) k.

Lemma load_paired text fs keys : load text fs = Ok keys -> keys_paired keys.
Proof. intros (_ & manifest & _ & _ & Hl)%load_Ok. by eapply loaded_pair. Qed.

Lemma verify_signed keys claims t now issuer audience :
  keys_paired keys -> sign keys claims = Ok t ->
  at_iss claims = issuer -> In audience (at_aud claims) -> (now - CLOCK_SKEW_SECONDS <= at_exp claims)%Z ->
  verify keys now t issuer audience = Ok claims.
Proof.
  intros (k & Hk & Hs) Ht%ok_or_Ok Hi Ha He. unfold verify.
  rewrite (token_key_signed _ "at+jwt" _ _ _ k); [|by eapply encode_access_header|by eapply encode_access_crit|done].
  rewrite decide_True by done. simpl. by rewrite (decode_encode_access _ _ _ _ _ _ _ _ _ Ht Hs).
Qed.

(** The audiences of an access token. *)
Lemma access_claims_aud issuer userinfo exchange now jti :
  let aud := at_aud (access_claims issuer userinfo exchange now jti) in
  In (er_resource exchange) aud /\ ("openid" ∈ er_scopes exchange -> In userinfo aud).
Proof.
  cbv zeta. unfold access_claims. cbn [at_aud existsb]. rewrite orb_false_r.
  case_bool_decide as Hu; rewrite ?andb_false_r, ?andb_true_r; cbn [negb];
    rewrite ?andb_false_r, ?andb_true_r.
  - split; [by left|]. intros _. by left.
  - change (existsb (fun s => s ==? "openid")) with (fun l => bset_contains l "openid").
    cbv beta. destruct (bset_contains _ _) eqn:Ho; [split; [by left|by right; left]|].
    split; [by left|]. intros Hin. apply not_true_iff_false in Ho. exfalso. apply Ho. by apply bset_contains_true.
Qed.

Lemma split_scopes l :
  l <> [] -> Forall (fun s => valid_scope s = true) l -> split_char " " (str_join " " l) = l.
Proof.
  intros Hne Hl. apply (split_char_join " "); [done|]. eapply List.Forall_impl; [|exact Hl].
  intros s. unfold valid_scope. rewrite andb_true_iff. intros [_ Hs].
  eapply bytes_all_impl; [|exact Hs]. intros a. by destruct a as [[] [] [] [] [] [] [] []].
Qed.

(** The userinfo endpoint accepts the claims of an openid grant. *)
Lemma access_claims_acceptable issuer userinfo exchange now jti now' :
  er_scopes exchange <> [] -> Forall (fun s => valid_scope s = true) (er_scopes exchange) ->
  er_client_id exchange <> EmptyString -> "openid" ∈ er_scopes exchange ->
  (now <= now' < now + 300 + CLOCK_SKEW_SECONDS)%Z ->
  acceptable_claims (access_claims issuer userinfo exchange now jti) now' = true.
Proof.
  intros Hne Hvalid Hclient Hin%bset_contains_true Hnow. unfold CLOCK_SKEW_SECONDS in Hnow.
  unfold acceptable_claims. simpl. rewrite (split_scopes _ Hne Hvalid).
  change (existsb (fun s => s ==? "openid") (er_scopes exchange)) with (bset_contains (er_scopes exchange) "openid").
  rewrite Hin.
  assert (Hj : str_empty (uuid_text jti) = false) by by apply str_empty_false, uuid_text_visible.
  assert (Hc : str_empty (er_client_id exchange) = false) by by apply str_empty_false.
  assert (Hexp : (now + 300 <=? now' - 30 = false)%Z) by (apply Z.leb_gt; lia).
  assert (Hiat : (now' + 30 <? now = false)%Z) by (apply Z.ltb_ge; lia).
  assert (Hz : (length (er_scopes exchange) =? 0)%nat = false) by by destruct (er_scopes exchange).
  assert (Hall : forallb valid_scope (er_scopes exchange) = true).
  { apply forallb_forall. by apply List.Forall_forall. }
  by rewrite Hj, Hc, Hexp, Hiat, Hz, Hall.
Qed.

(** A token of one type is refused where the other is expected. *)
Lemma access_not_logout keys claims t now i :
  keys_paired keys -> sign keys claims = Ok t -> is_ok (verify_id_logout keys now t i) = false.
Proof.
  intros (k & Hk & _) Ht%ok_or_Ok. unfold verify_id_logout.
  by rewrite (token_key_signed _ "at+jwt" _ _ _ k); [|eapply encode_access_header|eapply encode_access_crit|].
Qed.
Lemma id_not_access keys claims t now i a :
  keys_paired keys -> sign_id keys claims = Ok t -> is_ok (verify keys now t i a) = false.
Proof.
  intros (k & Hk & _) Ht%ok_or_Ok. unfold verify.
  by rewrite (token_key_signed _ "JWT" _ _ _ k); [|eapply encode_id_header|eapply encode_id_crit|].
Qed.

(** An identity token is accepted as a logout hint once its client is named. *)
Lemma verify_signed_id keys issuer exchange t now now' :
  keys_paired keys -> sign_id keys (id_claims issuer exchange now) = Ok t ->
  er_client_id exchange <> EmptyString -> (now <= now')%Z ->
  verify_id_logout keys now' t issuer = Ok (id_claims issuer exchange now).
Proof.
  intros (k & Hk & Hsigns) Ht%ok_or_Ok Hclient Hnow. unfold verify_id_logout.
  rewrite (token_key_signed _ "JWT" _ _ _ k); [|by eapply encode_id_header|by eapply encode_id_crit|done].
  rewrite decide_True by done. simpl. rewrite (decode_encode_id _ _ _ _ _ _ Ht Hsigns) by done. simpl.
  assert (Hc : str_empty (er_client_id exchange) = false) by by apply str_empty_false.
  assert (Hexp : (now + 300 <=? now = false)%Z) by (apply Z.leb_gt; lia).
  assert (Hiat : (now' + CLOCK_SKEW_SECONDS <? now = false)%Z).
  { apply Z.ltb_ge. unfold CLOCK_SKEW_SECONDS. lia. }
  by rewrite Hc, Hexp, Hiat.
Qed.

(** C29: A token response is usable for what it grants, and for nothing else.
    The access token of an exchange verifies, until thirty seconds after its
    five minutes, at the exchange's resource, and, when the grant has openid,
    at the userinfo endpoint, which accepts its claims: the exchange's user,
    client and exactly its scopes. It is never accepted as a logout hint. An
    identity token accompanies the first exchange of an openid grant only,
    is accepted as a logout hint for its client and session, and is never
    accepted as an access token. *)
Theorem issued_tokens_typed text fs keys issuer userinfo exchange initial now jti response now' :
  load text fs = Ok keys ->
  issue keys issuer userinfo exchange initial now jti = Ok response ->
  er_scopes exchange <> [] -> Forall (fun s => valid_scope s = true) (er_scopes exchange) ->
  er_client_id exchange <> EmptyString ->
  (now <= now' < now + 300 + CLOCK_SKEW_SECONDS)%Z ->
  let claims := access_claims issuer userinfo exchange now jti in
  verify keys now' (tr_access_token response) issuer (er_resource exchange) = Ok claims
  /\ ("openid" ∈ er_scopes exchange ->
      verify keys now' (tr_access_token response) issuer userinfo = Ok claims
      /\ acceptable_claims claims now' = true)
  /\ split_char " " (at_scope claims) = er_scopes exchange
  /\ (forall i, is_ok (verify_id_logout keys now' (tr_access_token response) i) = false)
  /\ (is_Some (tr_id_token response) <-> initial = true /\ "openid" ∈ er_scopes exchange)
  /\ (forall t, tr_id_token response = Some t ->
      verify_id_logout keys now' t issuer = Ok (id_claims issuer exchange now)
      /\ forall i a, is_ok (verify keys now' t i a) = false).
Proof.
  intros Hpaired%load_paired Hissue Hne Hvalid Hclient Hnow claims.
  unfold issue in Hissue. rewrite rbind_Ok in Hissue. destruct Hissue as (access & Haccess & Hissue).
  rewrite rbind_Ok in Hissue. destruct Hissue as (idt & Hid & [= <-]). simpl.
  assert (Hopenid : existsb (fun s => s ==? "openid") (er_scopes exchange) = true <-> "openid" ∈ er_scopes exchange).
  { apply bset_contains_true. }
  assert (Hexp : (now' - CLOCK_SKEW_SECONDS <= now + 300)%Z) by (unfold CLOCK_SKEW_SECONDS in *; lia).
  split_and!.
  - apply verify_signed; try done. apply access_claims_aud.
  - intros Hin. split; [|by apply access_claims_acceptable].
    apply verify_signed; try done. by apply access_claims_aud.
  - by apply split_scopes.
  - intros i. by eapply access_not_logout.
  - rewrite <- Hopenid. destruct initial, (existsb _ _); simpl in Hid;
      [rewrite rbind_Ok in Hid; destruct Hid as (t & _ & [= <-]); done|injection Hid as <-..];
      split; first [by intros [? [=]]|by intros [[=] [=]]|by intros [_ [=]]|by intros [[=] _]].
  - intros t ->. destruct (initial && _) in Hid; [|done].
    rewrite rbind_Ok in Hid. destruct Hid as (t' & Ht & [= <-]).
    split; [apply verify_signed_id; try done; lia|intros; by eapply id_not_access].
Qed.
End Tokens.
