(* ===== verification/ConfigTheory.v ===== *)
(** * ConfigTheory: a configuration that validates starts a typed provider

    The well-formedness of declared clients and registries, the constructors
    that establish it, and what is left to fail when a validated
    configuration becomes a provider. *)

From Stdlib Require Import Ascii ZArith Lia.
From S2P Require Import Prelude Sets External Schema Effects Cimd OAuth Config Google Http Web OAuthTheory.

(** ** Generic *)

Lemma try_map_Forall {A B E} (f : A -> result B E) (P : B -> Prop) l l' :
  (forall a b, f a = Ok b -> P b) -> try_map f l = Ok l' -> Forall P l' /\ length l' = length l.
Proof.
  intros Hf. revert l'. induction l as [|a l IH]; simpl; intros l'.
  - intros [= <-]. by split.
  - rewrite rbind_Ok. intros (b & Hb & Hk). rewrite rbind_Ok in Hk. destruct Hk as (bs & Hbs & [= <-]).
    destruct (IH _ Hbs) as [Hall Hlen]. split; [by constructor; eauto|simpl; lia].
Qed.
Lemma existsb_false {A} (f : A -> bool) l : existsb f l = false <-> forall x, x ∈ l -> f x = false.
Proof.
  rewrite <- not_true_iff_false, existsb_exists. split.
  - intros Hno x Hx%list_elem_of_In. apply not_true_iff_false. intros Hf. eauto.
  - intros Hall (x & Hx%list_elem_of_In & Hf). by rewrite (Hall _ Hx) in Hf.
Qed.

(** ** Types *)

Section Types.
Context `{UrlLib}.

(** A redirect parses, without credentials or fragment, and is what its kind
    says. *)
Definition redirect_typed (r : RegisteredRedirect) : Prop :=
  exists url, safe_redirect (rr_uri r) = Some url /\
  match rr_kind r with
  | Exact => True
  | NativeLoopback => url_scheme url = "http" /\ is_Some (loopback_parts (rr_uri r))
  | AppClaimedHttps =>
      url_scheme url = "https" /\ exists host, url_host url = Some (Domain host) /\ host <> "localhost"
  end.

Record client_typed (c : FirstPartyClient) : Prop := {
  ct_id : fc_id c <> EmptyString;
  ct_redirects : fc_redirects c <> [] /\ Forall redirect_typed (fc_redirects c);
  ct_scopes : fc_scopes c <> [] /\ bset_sorted (fc_scopes c)
              /\ forall s, s ∈ fc_scopes c -> valid_scope_token s = true;
  ct_resources : bset_sorted (fc_resources c)
                 /\ forall r, r ∈ fc_resources c -> safe_security_identifier r = true;
  ct_default : forall r, fc_default_resource c = Some r -> r ∈ fc_resources c;
  ct_origins : bset_sorted (fc_browser_origins c)
               /\ forall r, r ∈ fc_browser_origins c -> bad_browser_origin r = false;
  ct_post_logout : forall r, r ∈ fc_post_logout_redirects c -> is_Some (safe_redirect r);
}.

(** Every client is typed and known by its own identifier. *)
Definition registry_typed (reg : ClientRegistry) : Prop :=
  registry_wf reg /\ forall id c, cr_clients reg !! id = Some c -> client_typed c.

Lemma new_redirect_typed uri kind r : new_redirect uri kind = Ok r -> redirect_typed r.
Proof.
  unfold new_redirect. rewrite rbind_Ok. intros (url & Hurl%ok_or_Ok & Hk).
  destruct (_ && _) eqn:Hl in Hk; [done|]. destruct (_ && _) eqn:Ha in Hk; [done|]. simplify_eq.
  exists url. split; [done|]. simpl. destruct kind; simpl in *; [done| |].
  - rewrite orb_false_iff, bool_decide_neq_false in Hl. by destruct Hl as [Hs Hp%is_none_false].
  - rewrite orb_false_iff, bool_decide_neq_false, negb_false_iff in Ha. destruct Ha as [Hs Hh].
    split; [done|]. destruct (url_host url) as [[host| |]|]; try done. exists host.
    by rewrite bool_decide_neq_true in Hh.
Qed.

Lemma with_authorization_flow_typed id name redirects scopes resources default origins logouts flow c :
  Forall redirect_typed redirects ->
  with_authorization_flow id name redirects scopes resources default origins logouts flow = Ok c ->
  client_typed c.
Proof.
  intros Hr. unfold with_authorization_flow. destruct (_ || _) eqn:H1; [done|].
  destruct (is_some_and _ _ || _ || _ || _) eqn:H2; [done|]. intros [= <-].
  rewrite !orb_false_iff in H1, H2. destruct H1 as (((H0 & Hrn) & Hsn) & Hst).
  apply orb_false_iff in H0 as [Hid _].
  destruct H2 as (((Hd & Hres) & Ho) & Hl). rewrite existsb_false in Hst, Hres, Ho, Hl.
  split; simpl.
  - by apply str_empty_false.
  - split; [by intros ->|done].
  - split_and!; [intros He; by rewrite He in Hsn|apply bset_of_list_sorted|].
    intros s Hs. by apply negb_false_iff, Hst.
  - split; [apply bset_of_list_sorted|]. intros r Hin. by apply negb_false_iff, Hres.
  - intros r ->. simpl in Hd. by apply negb_false_iff, bset_contains_true in Hd.
  - split; [apply bset_of_list_sorted|done].
  - intros r Hin. by apply is_none_false, Hl.
Qed.
Lemma with_logout_flow_typed c flow : client_typed c -> client_typed (with_logout_flow c flow).
Proof. by intros []. Qed.

Lemma build_clients_typed clients m m' :
  Forall client_typed clients ->
  (forall id c, m !! id = Some c -> client_typed c /\ fc_id c = id) -> build_clients clients m = Ok m' ->
  forall id c, m' !! id = Some c -> client_typed c /\ fc_id c = id.
Proof.
  revert m. induction clients as [|c clients IH]; simpl; intros m Hall Hm; [by intros [= <-]|].
  inversion Hall; subst. destruct (is_some _); [done|]. apply IH; [done|].
  intros id c' [[<- <-]|[_ Hc']]%lookup_insert_Some; [done|eauto].
Qed.
Lemma build_typed clients userinfo reg :
  Forall client_typed clients -> build clients userinfo = Ok reg ->
  registry_typed reg /\ cr_userinfo_resource reg = userinfo /\ cr_dynamic reg = None.
Proof.
  intros Hall. unfold build. rewrite rbind_Ok. intros (m & Hm & [= <-]). simpl. split; [|done].
  assert (Ht : forall id c, m !! id = Some c -> client_typed c /\ fc_id c = id).
  { eapply build_clients_typed; [done| |done]. intros id c. by rewrite lookup_empty. }
  split; intros id c Hc; by apply Ht in Hc as [].
Qed.

(** A client projected from its document is typed like a declared one. *)
Lemma project_cimd_typed now reg snapshot scopes resources allow reg' :
  registry_typed reg -> project_cimd now reg snapshot scopes resources allow = Ok reg' ->
  registry_typed reg'.
Proof.
  intros [Hwf Ht]. unfold project_cimd. destruct (_ || _ || _ || _); [done|].
  rewrite rbind_Ok. intros (redirects & Hr & Hk). rewrite rbind_Ok in Hk.
  destruct Hk as (client & Hclient & [= <-]).
  eapply try_map_Forall in Hr as [Hr _]; [|intros a b; apply new_redirect_typed].
  pose proof (with_authorization_flow_typed _ _ _ _ _ _ _ _ _ _ Hr Hclient) as Hc.
  split; intros id c; simpl; intros [[<- <-]|[_ Hl]]%lookup_insert_Some; eauto.
Qed.
End Types.

(** ** Validated configurations *)

Section Start.
Context `{UrlLib}.

Lemma declared_client_typed d c : declared_client d = Ok c -> client_typed c.
Proof.
  unfold declared_client. rewrite rbind_Ok. intros (redirects & Hr%map_err_Ok & Hc%map_err_Ok).
  eapply try_map_Forall in Hr as [Hr _]; [|intros a b; apply new_redirect_typed].
  destruct (with_authorization_flow _ _ _ _ _ _ _ _ _) as [c'|] eqn:Hw; [|done]. simpl in Hc. simplify_eq.
  by eapply with_logout_flow_typed, with_authorization_flow_typed.
Qed.

(** What a validated configuration declares as its registry. *)
Lemma authorization_registry_typed config reg :
  authorization_registry config = Ok (Some reg) ->
  registry_typed reg /\ cr_dynamic reg = None
  /\ exists url, url_join (cfg_issuer config) "userinfo" = Some url
                 /\ cr_userinfo_resource reg = Some (url_as_str url).
Proof.
  unfold authorization_registry. destruct (cfg_authorization config) as [auth|]; [|done].
  rewrite rbind_Ok. intros (clients & Hc & Hk).
  eapply try_map_Forall in Hc as [Hc _]; [|apply declared_client_typed].
  destruct (with_issuer _ _) as [reg'|] eqn:Hw; [|done]. simpl in Hk. simplify_eq.
  unfold with_issuer in Hw. rewrite rbind_Ok in Hw. destruct Hw as (url & Hurl%ok_or_Ok & Hb).
  apply build_typed in Hb as (? & ? & ?); [|done]. split_and!; [done..|]. by exists url.
Qed.

(** What holds of the issuer of a validated configuration. *)
Record issuer_typed (mode : Mode) (issuer : Url) : Prop := {
  it_host : is_Some (url_host issuer);
  it_username : url_username issuer = EmptyString;
  it_password : url_password issuer = None;
  it_query : url_query issuer = None;
  it_fragment : url_fragment issuer = None;
  it_path : url_path issuer = "/";
  it_scheme : url_scheme issuer = "https" \/ (mode = Development /\ is_loopback_http issuer = true);
}.

(** The sign-in a configuration declares, if it declares one, is complete. *)
Definition authorization_complete (config : Config) : Prop :=
  match cfg_authorization config with
  | None => True
  | Some auth =>
      az_clients auth <> []
      /\ (exists g, az_google auth = Some g /\ trim_is_empty (gg_client_id g) = false
                    /\ trim_is_empty (gg_client_secret_env g) = false)
      /\ (exists reg, authorization_registry config = Ok (Some reg))
      /\ (forall policy, az_cimd auth = Some policy -> validate_cimd_policy policy = Ok tt)
  end.

Lemma validate_mode_typed mode issuer :
  validate_mode mode issuer = Ok tt ->
  url_scheme issuer = "https" \/ (mode = Development /\ is_loopback_http issuer = true).
Proof.
  unfold validate_mode, is_loopback_http, is_loopback_url. intros Hv. destruct mode.
  - destruct (_ && _) eqn:Hl in Hv; [done|]. destruct (negb (_ || _)) eqn:Hs in Hv; [done|].
    rewrite negb_false_iff, orb_true_iff, !bool_decide_eq_true in Hs. destruct Hs as [Hs|Hs]; [|by left].
    right. rewrite andb_false_iff, bool_decide_eq_false, negb_false_iff in Hl.
    rewrite andb_true_iff, bool_decide_eq_true. destruct Hl as [Hl|Hl]; [congruence|by split_and!].
  - destruct (_ <>? _) eqn:Hs in Hv; [done|]. rewrite bool_decide_neq_false in Hs. by left.
Qed.

Lemma validate_Ok config :
  validate config = Ok tt ->
  issuer_typed (cfg_mode config) (cfg_issuer config)
  /\ ip_is_loopback (sa_ip (cfg_bind config)) = true /\ sa_port (cfg_bind config) <> 0%Z
  /\ authorization_complete config.
Proof.
  unfold validate. intros Hv. destruct (_ || _) eqn:Hh in Hv; [done|].
  destruct (_ || _) eqn:Hu in Hv; [done|]. destruct (_ <>? _) eqn:Hp in Hv; [done|].
  rewrite rbind_Ok in Hv. destruct Hv as ([] & Hm%validate_mode_typed & Hv).
  destruct (negb _) eqn:Hb in Hv; [done|]. destruct (_ =? _)%Z eqn:Hport in Hv; [done|].
  destruct (_ || _) eqn:Hpool in Hv; [done|]. destruct (trim_is_empty _) in Hv; [done|].
  destruct (is_some_and _ _) eqn:Ha in Hv; [done|].
  rewrite !orb_false_iff, negb_false_iff, !is_some_false in Hu.
  destruct Hu as [[[Husr%str_empty_true Hpw] Hq] Hfr]. rewrite orb_false_iff, is_none_false in Hh.
  rewrite bool_decide_neq_false in Hp. rewrite negb_false_iff in Hb. apply Z.eqb_neq in Hport.
  split_and!; [by destruct Hh; split|done|done|]. unfold authorization_complete.
  destruct (cfg_authorization config) as [auth|] eqn:Hauth; [|done]. simpl in Ha, Hv.
  rewrite !orb_false_iff in Ha. destruct Ha as ((Hn & Hg) & Hr). split_and!.
  - intros He. by rewrite He in Hn.
  - destruct (az_google auth) as [g|]; [|done]. exists g. split; [done|]. by apply orb_false_iff in Hg.
  - destruct (authorization_registry config) as [[reg|]|] eqn:Hreg; [by exists reg| |done].
    exfalso. unfold authorization_registry in Hreg. rewrite Hauth, rbind_Ok in Hreg.
    destruct Hreg as (clients & _ & Hk). by destruct (with_issuer _ _).
  - intros policy Hpol. by rewrite Hpol in Hv.
Qed.

(** Google's adapter accepts a validated issuer, if its callback joins. *)
Lemma new_adapter_typed mode issuer id secret :
  issuer_typed mode issuer -> id <> EmptyString -> secret <> EmptyString ->
  match new_adapter id secret issuer with
  | Ok a => exists callback, url_join issuer "federation/google/callback" = Some callback
                             /\ ga_callback a = url_as_str callback /\ ga_client_id a = id
  | Err _ => url_join issuer "federation/google/callback" = None
  end.
Proof.
  intros [Hh Hu Hp Hq Hf Hpath Hs] Hid Hsec. unfold new_adapter.
  apply str_empty_false in Hid, Hsec. rewrite Hid, Hsec, Hpath, Hu, Hp, Hq, Hf.
  rewrite (proj2 (is_none_false _) Hh). simpl.
  assert ((url_scheme issuer <>? "https") && negb (is_loopback_http issuer) = false) as ->.
  { apply andb_false_iff. destruct Hs as [->|[_ ->]]; [left|by right]. done. }
  destruct (url_join _ _) as [callback|]; [|done]. by exists callback.
Qed.

(** The provider of a configuration. *)
Record provider_typed (config : Config) (p : Provider) : Prop := {
  pt_registry : registry_typed (pv_registry p);
  pt_declared : authorization_registry config = Ok (Some (pv_registry p));
  pt_secure : pv_secure p = true <-> cfg_mode config = Production;
  pt_https : pv_secure p = true -> url_scheme (cfg_issuer config) = "https";
  pt_userinfo : pv_userinfo p = pv_issuer p +:+ "/userinfo";
  pt_policy : forall policy, pv_cimd_policy p = Some policy -> validate_cimd_policy policy = Ok tt;
  pt_projected : forall now snapshot policy reg,
    project_cimd now (pv_registry p) snapshot (cp_scopes policy) (cp_resources policy)
      (cp_allow_refresh policy) = Ok reg -> registry_typed reg;
}.

(** C23: A configuration that validates starts. Its provider is typed: every
    client, and every client later projected from a document, has parsed
    redirects of the kind it declares, scope tokens, https resources, safe
    origins and logout redirects, and is known by its identifier; cookies are
    secure exactly in production, where the issuer is https. The only
    failures left at start-up are a client secret missing from the
    environment, and an issuer the URL library cannot join Google's callback
    to. *)
Theorem validated_config_starts config env :
  validate config = Ok tt ->
  match new_provider config env with
  | Ok None => cfg_authorization config = None
  | Ok (Some p) => provider_typed config p
  | Err e =>
      (e = SecretMissing /\ exists auth g, cfg_authorization config = Some auth
         /\ az_google auth = Some g /\ is_none_or (env (gg_client_secret_env g)) str_empty = true)
      \/ url_join (cfg_issuer config) "federation/google/callback" = None
  end.
Proof.
  intros (Hissuer & _ & _ & Hauth)%validate_Ok. unfold new_provider, authorization_complete in *.
  destruct (cfg_authorization config) as [auth|] eqn:Hc; [|done].
  destruct Hauth as (_ & (g & Hg & Hid & Hsec) & (reg & Hreg) & Hpol). rewrite Hg. simpl.
  destruct (is_none_or _ _) eqn:Hs; [left; split; [done|by exists auth, g]|]. rewrite Hreg. simpl.
  pose proof (new_adapter_typed _ _ (gg_client_id g) (gg_client_secret_env g) Hissuer) as Ha.
  destruct (new_adapter _ _ _) as [a|e]; simpl; [|right; apply Ha; intros He; by rewrite He in *].
  destruct (authorization_registry_typed _ _ Hreg) as (Ht & _ & _). split; simpl; try done.
  - apply bool_decide_eq_true.
  - rewrite bool_decide_eq_true. intros Hm. destruct (it_scheme _ _ Hissuer) as [?|[Hd _]]; [done|congruence].
  - intros now snapshot policy reg'. by apply project_cimd_typed.
Qed.
End Start.
