(* ===== verification/CredentialsSpec.v ===== *)
(** * CredentialsSpec: what the credential store promises

    An abstract account of the store's operations as relations between the
    committed database before and after, with no statements, transactions,
    locks or clocks in them, and the invariant of the stored credentials.
    CredentialsTheory.v proves that the programs of Credentials.v implement
    it. *)

From Stdlib Require Import Ascii ZArith.
From S2P Require Import Prelude External Schema Effects Evolution Identity Cimd OAuth Credentials.

Section Spec.
Context `{Crypto, UrlLib, JsonLib, JsonDb}.

(** ** Authorization codes *)

Definition find_code (raw : string) (d : DB) : option (Uuid * code_rec) :=
  find_row (fun _ x => ac_code_hash x ==? hash raw) (authorization_codes d).

(** The code found presents the bindings of the request. *)
Definition code_bound (code : code_rec) (client uri res verifier : string) : Prop :=
  ac_client_id code = client /\ ac_redirect_uri code = uri /\ ac_resource code = res
  /\ verify_s256 verifier (ac_code_challenge code) = true.

(** The registry, when there is one, accepts the stored binding and policy. *)
Definition code_allowed (reg : option ClientRegistry) (code : code_rec) : Prop :=
  (exists t, check_binding t reg (ac_client_id code) (ac_cimd_binding code) = Ok tt)
  /\ (forall r, reg = Some r -> exists t p,
       validate_pending_parts t r (ac_client_id code) (ac_redirect_uri code) "code" "S256"
         (ac_code_challenge code) (ac_scopes code) (Some (ac_resource code)) = Ok p).

(** The row a fresh refresh token is stored as. *)
Definition fresh_member (family : Uuid) (token : string) (now : Z) : member_rec :=
  {| rt_family_id := family; rt_token_hash := hash token; rt_issued_at := now;
     rt_consumed_at := None; rt_successor_id := None |}.

(** The family of a code: it inherits the code's grant and user, and ends
    with the session and after thirty days at most. *)
Definition family_of (id : Uuid) (code : code_rec) (s : session_rec) (now : Z)
    (binding : option string) : family_rec :=
  {| rf_source_code_id := id; rf_session_id := ac_session_id code;
     rf_user_id := ps_user_id s; rf_client_id := ac_client_id code;
     rf_scopes := ac_scopes code; rf_resource := ac_resource code; rf_issued_at := now;
     rf_expires_at := Z.min (now + days 30) (ps_expires_at s);
     rf_revoked_at := None; rf_upstream_auth_time := ac_upstream_auth_time code;
     rf_cimd_binding := binding |}.

(** What an exchange adds for a code that grants refresh. *)
Inductive family_started (id : Uuid) (code : code_rec) (s : session_rec) (now : Z) (d : DB)
    : option string -> DB -> Prop :=
| NoFamily : ac_issue_refresh_token code = false -> family_started id code s now d None d
| Family fam mem token binding d1 d2 :
    ac_issue_refresh_token code = true ->
    cast_jsonb (ac_cimd_binding code) = Ok binding ->
    insert_family_row fam (family_of id code s now binding) d = Ok d1 ->
    insert_member_row mem (fresh_member fam token now) d1 = Ok d2 ->
    family_started id code s now d (Some token) d2.

Definition code_result (code : code_rec) (s : session_rec) (token : option string) : ExchangeResult :=
  {| er_session_id := ac_session_id code; er_user_id := ps_user_id s;
     er_client_id := ac_client_id code; er_scopes := ac_scopes code;
     er_resource := ac_resource code; er_refresh_token := token;
     er_oidc_nonce := ac_oidc_nonce code;
     er_upstream_auth_time := ac_upstream_auth_time code |}.

(** An exchange that answers a token set: the code was there, bound to the
    request, allowed, not consumed, not expired, its session alive; it is
    consumed afterwards. *)
Inductive exchange_success (raw client uri res verifier : string) (reg : option ClientRegistry)
    (d : DB) : ExchangeResult -> DB -> Prop :=
| ExchangeSuccess id code s now token d' :
    find_code raw d = Some (id, code) ->
    provider_sessions d !! ac_session_id code = Some s ->
    code_bound code client uri res verifier ->
    code_allowed reg code ->
    ac_consumed_at code = None ->
    (now < ac_expires_at code)%Z -> (now < ps_expires_at s)%Z -> ps_revoked_at s = None ->
    family_started id code s now
      (set_codes (alter (consume_code now) id (authorization_codes d)) d) token d' ->
    exchange_success raw client uri res verifier reg d (code_result code s token) d'.

(** A consumed code presented again with all its bindings: the family it
    issued is revoked. *)
Inductive exchange_replay (raw client uri res verifier : string) (reg : option ClientRegistry)
    (d : DB) : DB -> Prop :=
| ExchangeReplay id code now t :
    find_code raw d = Some (id, code) ->
    code_bound code client uri res verifier ->
    code_allowed reg code ->
    ac_consumed_at code = Some t ->
    exchange_replay raw client uri res verifier reg d
      (revoke_families_where (fun _ f => rf_source_code_id f ==? id) (fun _ => now) d).

(** ** Refresh tokens *)

Definition refresh_bound (f : family_rec) (client res : string) : Prop :=
  rf_client_id f = client /\ rf_resource f = res.
Definition refresh_allowed (reg : option ClientRegistry) (f : family_rec) : Prop :=
  (exists t, check_binding t reg (rf_client_id f) (rf_cimd_binding f) = Ok tt)
  /\ (forall r, reg = Some r ->
       permits_refresh r (rf_client_id f) (rf_scopes f) (rf_resource f) = true).

Definition refresh_result (f : family_rec) (s : session_rec) (token : string) : ExchangeResult :=
  {| er_session_id := rf_session_id f; er_user_id := ps_user_id s;
     er_client_id := rf_client_id f; er_scopes := rf_scopes f; er_resource := rf_resource f;
     er_refresh_token := Some token; er_oidc_nonce := None;
     er_upstream_auth_time := rf_upstream_auth_time f |}.

(** A rotation: the member presented was live in a live family of a live
    session; it is consumed and replaced by a fresh member. *)
Inductive rotate_success (raw client res : string) (reg : option ClientRegistry) (d : DB)
    : ExchangeResult -> DB -> Prop :=
| RotateSuccess id m f s now token new d1 :
    member_join_family (hash raw) d = Some (id, m, f) ->
    provider_sessions d !! rf_session_id f = Some s ->
    refresh_bound f client res ->
    refresh_allowed reg f ->
    rt_consumed_at m = None -> rf_revoked_at f = None -> ps_revoked_at s = None ->
    (now < rf_expires_at f)%Z -> (now < ps_expires_at s)%Z ->
    insert_member_row new (fresh_member (rt_family_id m) token now) d = Ok d1 ->
    rotate_success raw client res reg d (refresh_result f s token)
      (set_members (alter (consume_member now new) id (refresh_token_members d1)) d1).

Inductive rotate_replay (raw client res : string) (reg : option ClientRegistry) (d : DB) : DB -> Prop :=
| RotateReplay id m f now t :
    member_join_family (hash raw) d = Some (id, m, f) ->
    refresh_bound f client res ->
    refresh_allowed reg f ->
    rt_consumed_at m = Some t ->
    rotate_replay raw client res reg d
      (revoke_families_where (fun k _ => k ==? rt_family_id m) (fun _ => now) d).

(** ** Sessions, code issue, revocation and logout *)

(** A session stored for a user, with a deadline counted from its start. *)
Inductive session_created (user : AuthenticatedUser) (lifetime : Duration) (d : DB)
    : ProviderSession -> DB -> Prop :=
| SessionCreated raw id secs t d' :
    bounded_seconds lifetime (30 * 24 * 60 * 60) = Ok secs ->
    insert_session_row id
      {| ps_token_hash := hash raw; ps_user_id := au_id user; ps_auth_time := t;
         ps_expires_at := (t + seconds secs)%Z; ps_revoked_at := None;
         ps_upstream_auth_time := au_upstream_auth_time user |} d = Ok d' ->
    session_created user lifetime d
      {| se_raw := raw; se_id := id; se_expires_at := (t + seconds secs)%Z |} d'.

(** The row of a code issued at [t] for a grant in a session. *)
Definition issued_code (raw : string) (session_id : Uuid) (s : session_rec)
    (grant : ValidatedAuthorizationGrant) (nonce : option string) (upstream : option Z)
    (secs t : Z) (binding : option string) : code_rec :=
  {| ac_code_hash := hash raw; ac_session_id := session_id; ac_client_id := vg_client_id grant;
     ac_redirect_uri := vg_redirect_uri grant; ac_scopes := vg_scopes grant;
     ac_resource := vg_resource grant; ac_code_challenge := vg_code_challenge grant;
     ac_issue_refresh_token := vg_issue_refresh_token grant; ac_issued_at := t;
     ac_expires_at := Z.min (t + seconds secs) (ps_expires_at s); ac_consumed_at := None;
     ac_oidc_nonce := nonce; ac_upstream_auth_time := upstream; ac_cimd_binding := binding |}.

Inductive code_issued (session : ProviderSession) (grant : ValidatedAuthorizationGrant)
    (lifetime : Duration) (d : DB) : string -> DB -> Prop :=
| CodeIssued raw id s secs now t binding d' :
    bounded_seconds lifetime 60 = Ok secs ->
    provider_sessions d !! se_id session = Some s ->
    ps_revoked_at s = None -> (now < ps_expires_at s)%Z ->
    (exists i, ensure_fresh i (vg_dynamic grant) = Ok tt) ->
    cast_jsonb (cimd_binding_json (vg_dynamic grant)) = Ok binding ->
    insert_code_row id (issued_code raw (se_id session) s grant None (ps_upstream_auth_time s)
                          secs t binding) d = Ok d' ->
    code_issued session grant lifetime d raw d'.

(** A token of another client, or none at all, revokes nothing; and the
    answer does not say which. *)
Inductive token_revoked (raw client : string) (d : DB) : unit -> DB -> Prop :=
| RevokeUnknown : member_join_family (hash raw) d = None -> token_revoked raw client d tt d
| RevokeForeign id m f :
    member_join_family (hash raw) d = Some (id, m, f) -> rf_client_id f <> client ->
    token_revoked raw client d tt d
| RevokeFamily id m f t :
    member_join_family (hash raw) d = Some (id, m, f) -> rf_client_id f = client ->
    token_revoked raw client d tt
      (revoke_families_where (fun k _ => k ==? rt_family_id m) t d).

(** Logout ends the session and every family it started. *)
Inductive logged_out (id : Uuid) (d : DB) : unit -> DB -> Prop :=
| LoggedOut s t t' :
    provider_sessions d !! id = Some s ->
    logged_out id d tt
      (revoke_families_where (fun _ f => rf_session_id f ==? id) t (revoke_session_at id t' d)).

(** ** Outcomes

    Whatever the statements, the clocks and the failures do, an operation
    ends with no open transaction, and either took effect or left the
    database alone; the error of a lost COMMIT answer is the only one
    that can hide an effect. *)
Definition outcome {A} (Done : A -> DB -> Prop) (Denied : DB -> Prop) (c : DB)
    : result A CredentialError -> DB -> Prop :=
  fun r d =>
    match r with
    | Ok a => Done a d
    | Err e => d = c \/ (Denied d /\ (e = InvalidGrant \/ e = Database DbFault))
               \/ (e = Database DbFault /\ exists a, Done a d)
    end.

(** ** The invariant of the stored credentials *)

Definition session_wf (d : DB) (s : session_rec) : Prop :=
  is_Some (users d !! ps_user_id s) /\ (ps_expires_at s <= ps_auth_time s + days 30)%Z
  /\ len (ps_token_hash s) = 32%Z.

Definition code_wf (d : DB) (c : code_rec) : Prop :=
  exists s, provider_sessions d !! ac_session_id c = Some s
    /\ (ac_expires_at c <= ps_expires_at s)%Z /\ (ac_expires_at c <= ac_issued_at c + seconds 60)%Z.

(** A family comes from one consumed code whose grant it carries. *)
Definition family_wf (d : DB) (f : family_rec) : Prop :=
  exists c s, authorization_codes d !! rf_source_code_id f = Some c
    /\ provider_sessions d !! rf_session_id f = Some s
    /\ is_Some (ac_consumed_at c) /\ ac_issue_refresh_token c = true
    /\ rf_session_id f = ac_session_id c /\ rf_user_id f = ps_user_id s
    /\ rf_client_id f = ac_client_id c /\ rf_scopes f = ac_scopes c
    /\ rf_resource f = ac_resource c
    /\ (rf_expires_at f <= ps_expires_at s)%Z /\ (rf_expires_at f <= rf_issued_at f + days 30)%Z.

Definition member_wf (d : DB) (m : member_rec) : Prop :=
  is_Some (refresh_families d !! rt_family_id m)
  /\ (is_Some (rt_consumed_at m) <-> is_Some (rt_successor_id m)).

(** A column whose value identifies the row. *)
Definition key_unique {V K} (key : V -> K) (m : gmap Uuid V) : Prop :=
  forall i j v w, m !! i = Some v -> m !! j = Some w -> key v = key w -> i = j.

(** A family has one live member. *)
Definition single_live (m : gmap Uuid member_rec) : Prop :=
  forall i j v w, m !! i = Some v -> m !! j = Some w ->
    rt_family_id v = rt_family_id w -> rt_consumed_at v = None -> rt_consumed_at w = None -> i = j.

Record store_wf (d : DB) : Prop := {
  wf_sessions : map_Forall (fun _ => session_wf d) (provider_sessions d);
  wf_codes : map_Forall (fun _ => code_wf d) (authorization_codes d);
  wf_families : map_Forall (fun _ => family_wf d) (refresh_families d);
  wf_members : map_Forall (fun _ => member_wf d) (refresh_token_members d);
  wf_source : key_unique rf_source_code_id (refresh_families d);
  wf_live : single_live (refresh_token_members d);
  wf_code_hash : key_unique ac_code_hash (authorization_codes d);
  wf_member_hash : key_unique rt_token_hash (refresh_token_members d);
}.

(** A revoked session or family is refused everything. *)
Definition session_revoked (d : DB) (id : Uuid) : Prop :=
  exists s t, provider_sessions d !! id = Some s /\ ps_revoked_at s = Some t.
Definition family_revoked (d : DB) (id : Uuid) : Prop :=
  exists f t, refresh_families d !! id = Some f /\ rf_revoked_at f = Some t.
End Spec.
