(* ===== verification/CredentialsTheory.v ===== *)
(** * CredentialsTheory: properties of the credential store *)

From Stdlib Require Import Ascii ZArith.
From S2P Require Import Prelude External Schema Effects Evolution Identity Cimd OAuth Credentials CredentialsSpec.

Section Evolution.
Context `{Crypto, UrlLib, JsonLib, JsonDb}.

(** ** Every statement of the store respects [evolves] *)

Lemma revoke_session_le t s : session_le s (revoke_session t s).
Proof. unfold session_le. repeat split. intros t' Ht. simpl. by rewrite Ht. Qed.
Lemma consume_code_le t c : code_le c (consume_code t c).
Proof. unfold code_le. repeat split. by intros _; eexists. Qed.
Lemma revoke_family_le t f : family_le f (revoke_family t f).
Proof. unfold family_le. repeat split. intros t' Ht. simpl. by rewrite Ht. Qed.
Lemma consume_member_le t s m : member_le m (consume_member t s m).
Proof. unfold member_le. repeat split. by intros _; eexists. Qed.

Lemma revoke_session_at_evolves id t d : evolves d (revoke_session_at id t d).
Proof. apply evolves_set_sessions, table_le_alter; [apply _|]. intros; apply revoke_session_le. Qed.
Lemma revoke_families_where_evolves p t d : evolves d (revoke_families_where p t d).
Proof. apply evolves_set_families, table_le_update_rows; [apply _|]. intros; apply revoke_family_le. Qed.

Lemma insert_session_stmt_evolves id h u secs up :
  stmt_steps evolves _ (insert_session_stmt id h u secs up).
Proof. intros clk d r d' He. simpl in He. case_match; simplify_eq. eauto with evolves. Qed.
Lemma insert_code_stmt_evolves id h sid g n u secs :
  stmt_steps evolves _ (insert_code_stmt id h sid g n u secs).
Proof.
  apply stmt_steps_modify. intros clk d d' He. apply rbind_Ok in He as (b & _ & He).
  eauto with evolves.
Qed.
Lemma consume_code_stmt_evolves id now : stmt_steps evolves _ (consume_code_stmt id now).
Proof.
  apply stmt_steps_modify. intros clk d d' [= <-].
  apply evolves_set_codes, table_le_alter; [apply _|]. intros; apply consume_code_le.
Qed.
Lemma revoke_families_stmt_evolves p now : stmt_steps evolves _ (revoke_families_stmt p now).
Proof. apply stmt_steps_modify. intros clk d d' [= <-]. apply revoke_families_where_evolves. Qed.
Lemma insert_family_stmt_evolves id code s now :
  stmt_steps evolves _ (insert_family_stmt id code s now).
Proof.
  apply stmt_steps_modify. intros clk d d' He. apply rbind_Ok in He as (b & _ & He).
  eauto with evolves.
Qed.
Lemma insert_member_stmt_evolves id f h now : stmt_steps evolves _ (insert_member_stmt id f h now).
Proof. apply stmt_steps_modify. intros clk d d' He. eauto with evolves. Qed.
Lemma consume_member_stmt_evolves id now s : stmt_steps evolves _ (consume_member_stmt id now s).
Proof.
  apply stmt_steps_modify. intros clk d d' He. case_match; simplify_eq.
  apply evolves_set_members, table_le_alter; [apply _|]. intros; apply consume_member_le.
Qed.
Lemma revoke_family_now_evolves id : stmt_steps evolves _ (revoke_family_now id).
Proof. apply stmt_steps_modify. intros clk d d' [= <-]. apply revoke_families_where_evolves. Qed.
Lemma revoke_session_now_evolves id : stmt_steps evolves _ (revoke_session_now id).
Proof. apply stmt_steps_modify. intros clk d d' [= <-]. apply revoke_session_at_evolves. Qed.
Lemma revoke_session_families_now_evolves id :
  stmt_steps evolves _ (revoke_session_families_now id).
Proof. apply stmt_steps_modify. intros clk d d' [= <-]. apply revoke_families_where_evolves. Qed.
End Evolution.

#[export] Hint Resolve insert_session_stmt_evolves insert_code_stmt_evolves
  consume_code_stmt_evolves revoke_families_stmt_evolves insert_family_stmt_evolves
  insert_member_stmt_evolves consume_member_stmt_evolves revoke_family_now_evolves
  revoke_session_now_evolves revoke_session_families_now_evolves : stmts.

Section Programs.
Context `{Crypto, UrlLib, JsonLib, JsonDb}.

Lemma check_binding_tx_evolves reg client b :
  stmts_ok (stmt_steps evolves) (check_binding_tx reg client b).
Proof. unfold check_binding_tx. solve_stmts. Qed.
Lemma insert_refresh_evolves {E} `{!FromDb E} fam now :
  stmts_ok (stmt_steps evolves) (insert_refresh (E:=E) fam now).
Proof. unfold insert_refresh, random_credential. solve_stmts. Qed.
Lemma insert_authorization_code_tx_evolves {E} `{!FromDb E} sid g n u secs :
  stmts_ok (stmt_steps evolves) (insert_authorization_code_tx (E:=E) sid g n u secs).
Proof. unfold insert_authorization_code_tx, random_credential. solve_stmts. Qed.
Lemma grant_fresh_tx_evolves g : stmts_ok (stmt_steps evolves) (grant_fresh_tx g).
Proof. unfold grant_fresh_tx. solve_stmts. Qed.
Lemma check_policy_tx_evolves reg client uri code res :
  stmts_ok (stmt_steps evolves) (check_policy_tx reg client uri code res).
Proof. unfold check_policy_tx. solve_stmts. Qed.
#[local] Hint Resolve check_binding_tx_evolves insert_refresh_evolves insert_authorization_code_tx_evolves
  grant_fresh_tx_evolves check_policy_tx_evolves : stmts.

Lemma create_provider_session_evolves user lifetime :
  stmts_ok (stmt_steps evolves) (create_provider_session user lifetime).
Proof. unfold create_provider_session, random_credential. solve_stmts. Qed.
Lemma find_provider_session_evolves raw :
  stmts_ok (stmt_steps evolves) (find_provider_session raw).
Proof. unfold find_provider_session. solve_stmts. Qed.
Lemma issue_authorization_code_evolves s g l :
  stmts_ok (stmt_steps evolves) (issue_authorization_code s g l).
Proof. unfold issue_authorization_code. solve_stmts. Qed.
Lemma exchange_code_bound_evolves raw client uri res v reg :
  stmts_ok (stmt_steps evolves) (exchange_code_bound raw client uri res v reg).
Proof.
  unfold exchange_code_bound, replay_code_tx, start_family_tx. solve_stmts.
Qed.
#[local] Hint Resolve exchange_code_bound_evolves : stmts.
Lemma exchange_code_request_evolves raw client uri res v scopes reg :
  stmts_ok (stmt_steps evolves) (exchange_code_request raw client uri res v scopes reg).
Proof. unfold exchange_code_request. solve_stmts. Qed.
Lemma rotate_refresh_bound_evolves raw client res reg :
  stmts_ok (stmt_steps evolves) (rotate_refresh_bound raw client res reg).
Proof. unfold rotate_refresh_bound, replay_refresh_tx. solve_stmts. Qed.
#[local] Hint Resolve rotate_refresh_bound_evolves : stmts.
Lemma rotate_refresh_request_evolves raw client res scopes reg :
  stmts_ok (stmt_steps evolves) (rotate_refresh_request raw client res scopes reg).
Proof. unfold rotate_refresh_request. solve_stmts. Qed.
Lemma revoke_refresh_evolves raw client :
  stmts_ok (stmt_steps evolves) (revoke_refresh raw client).
Proof. unfold revoke_refresh. solve_stmts. Qed.
Lemma logout_evolves s : stmts_ok (stmt_steps evolves) (logout s).
Proof. unfold logout. solve_stmts. Qed.
End Programs.

(** ** Refinement of the abstract specification *)

Section Refinement.
Context `{Crypto, UrlLib, JsonLib, JsonDb}.

Lemma ewp_check_binding_tx reg client b (Q : unit -> DB -> list DB -> Prop)
    (R : CredentialError -> DB -> list DB -> Prop) c d :
  (forall t, check_binding t reg client b = Ok tt -> Q tt c [d]) ->
  (forall e, R e c []) ->
  ewp (check_binding_tx reg client b) Q R c [d].
Proof.
  intros HQ HR. unfold check_binding_tx. do 2 ewp_step. ewp_step.
  destruct (check_binding _ _ _ _) as [[]|e] eqn:Hc; [by eapply HQ|by split].
Qed.

Lemma ewp_check_policy_tx reg client uri code res (Q : unit -> DB -> list DB -> Prop)
    (R : CredentialError -> DB -> list DB -> Prop) c d :
  ((forall r, reg = Some r -> exists t p,
      validate_pending_parts t r client uri "code" "S256" (cr_code_challenge code)
        (cr_scopes code) (Some res) = Ok p) -> Q tt c [d]) ->
  (forall e, R e c []) ->
  ewp (check_policy_tx reg client uri code res) Q R c [d].
Proof.
  intros HQ HR. unfold check_policy_tx. destruct reg as [r|].
  - do 4 ewp_step.
    destruct (validate_pending_parts _ _ _ _ _ _ _ _ _) as [p|e] eqn:Hp; simpl.
    + ewp_step. apply HQ. intros r' [= <-]. eauto.
    + by split.
  - ewp_step. by apply HQ.
Qed.

Lemma ewp_insert_refresh {E} `{!FromDb E} fam now (Q : string -> DB -> list DB -> Prop)
    (R : E -> DB -> list DB -> Prop) c d tx :
  (forall token id d', insert_member_row id (fresh_member fam token now) d = Ok d' -> Q token c (d' :: tx)) ->
  (forall e d', R (from_db e) c (d' :: tx)) ->
  ewp (insert_refresh fam now) Q R c (d :: tx).
Proof.
  intros HQ HR. unfold insert_refresh, random_credential.
  do 2 ewp_step. ewp_step. ewp_step. do 2 ewp_step. do 2 ewp_step.
  - ewp_step. case_match; simplify_eq. by eapply HQ.
  - apply HR.
Qed.

Lemma ewp_start_family_tx id code s now (Q : option string -> DB -> list DB -> Prop)
    (R : CredentialError -> DB -> list DB -> Prop) c d tx :
  (forall token d', family_started id code s now d token d' -> Q token c (d' :: tx)) ->
  (forall e d', R e c (d' :: tx)) ->
  ewp (start_family_tx (code_row id code) (session_row s) now) Q R c (d :: tx).
Proof.
  intros HQ HR. unfold start_family_tx. simpl. case_match eqn:Hi.
  - do 2 ewp_step. do 2 ewp_step; [|apply HR]. case_match eqn:Hx; simplify_eq.
    apply rbind_Ok in Hx as (b & Hb & Hx).
    ewp_step. apply ewp_insert_refresh; [|intros; apply HR].
    intros token mid d' Hm. ewp_step. eapply HQ, Family; eauto.
  - ewp_step. by eapply HQ, NoFamily.
Qed.

Lemma ewp_replay_code_tx reg client code now (Q : ExchangeResult -> DB -> list DB -> Prop)
    (R : CredentialError -> DB -> list DB -> Prop) c d :
  (forall e, R e c [] ) -> (forall e d', R e c [d'] ) ->
  (forall e, e = InvalidGrant \/ e = Database DbFault -> R e (revoke_families_where (fun _ f => rf_source_code_id f ==? cr_id code) (fun _ => now) d) []) ->
  ewp (replay_code_tx reg client code now) Q R c [d].
Proof.
  intros Ha Hb Hc. unfold replay_code_tx. do 2 ewp_step; [|apply Hb]. simplify_eq.
  ewp_step. apply ewp_check_binding_tx; [|done]. intros _ _.
  ewp_step. ewp_step; [|by auto..]. ewp_step. by auto.
Qed.


Lemma outcome_unchanged {A} (Done : A -> DB -> Prop) (Denied : DB -> Prop) c e :
  outcome Done Denied c (Err e) c.
Proof. by left. Qed.
Lemma outcome_denied {A} (Done : A -> DB -> Prop) (Denied : DB -> Prop) c e d :
  Denied d -> e = InvalidGrant \/ e = Database DbFault -> outcome Done Denied c (Err e) d.
Proof. intros. right; left. eauto. Qed.
#[local] Hint Resolve outcome_unchanged : core.

(** The answer of COMMIT is lost after it took effect. *)
Ltac hidden := split; [done|right; right; split; [done|by eauto]].


Lemma exchange_code_bound_wp raw client uri res verifier reg c :
  wp (exchange_code_bound raw client uri res verifier reg)
    (fun r d tx => tx = [] /\ outcome (exchange_success raw client uri res verifier reg c)
       (exchange_replay raw client uri res verifier reg c) c r d) c [].
Proof.
  unfold exchange_code_bound. apply wp_ewp. ewp_step; [|by auto].
  ewp_step. ewp_step; [|by auto]. answered Hexec.
  case_match eqn: Hf; [|ewp_step; by auto].
  apply fmap_Some in Hf as ([id code] & Hf & ->). simpl.
  case_match eqn: Hg; [ewp_step; by auto|]. bools_all. subst client uri res.
  assert (Hc : authorization_codes c !! id = Some code) by (by eapply find_row_Some).
  ewp_step. ewp_step; [|by auto]. answered Hexec. case_match eqn: Hs; [|ewp_step; by auto].
  apply fmap_Some in Hs as (ses & Hs & ->).
  ewp_step. ewp_step; [|by auto]. rewrite Hc in Hexec. answered Hexec.
  ewp_step. ewp_step; [|by auto]. rewrite Hc in Hexec. answered Hexec.
  case_match eqn: Hg2; [ewp_step; by auto|]. clear Hg2.
  ewp_step. apply ewp_check_binding_tx; [|by auto]. intros t Hb.
  ewp_step. apply ewp_check_policy_tx; [|by auto]. intros Hp. simpl in Hp.
  ewp_step. ewp_step; [|by auto]. answered Hexec.
  ewp_step. apply ewp_check_binding_tx; [|by auto]. intros _ _.
  case_match eqn: Hcons.
  { apply is_some_true in Hcons as [t0 Hcons].
    apply ewp_replay_code_tx; [by auto..|]. intros e He. split; [done|].
    apply outcome_denied; [|done]. econstructor; [done| |split; eauto|done]. done. }
  case_match eqn: Hexp; [ewp_step; by auto|]. bools_all.
  ewp_step. ewp_step; [|by auto]. answered Hexec.
  ewp_step. apply ewp_start_family_tx; [|by auto]. intros token d1 Hfam.
  ewp_step. apply ewp_check_binding_tx; [|by auto]. intros _ _.
  assert (Hok : exchange_success raw (ac_client_id code) (ac_redirect_uri code)
            (ac_resource code) verifier reg c (code_result code ses token) d1)
    by (eapply ExchangeSuccess with (s := ses); eauto; [done|by split; eauto]).
  ewp_step. ewp_step. 2:{ by auto. } 2:{ hidden. } by ewp_step.
Qed.

Lemma ewp_replay_refresh_tx reg client lookup fam now (Q : ExchangeResult -> DB -> list DB -> Prop)
    (R : CredentialError -> DB -> list DB -> Prop) c d :
  (forall e, R e c [] ) -> (forall e d', R e c [d'] ) ->
  (forall e, e = InvalidGrant \/ e = Database DbFault ->
     R e (revoke_families_where (fun k _ => k ==? tl_family_id lookup) (fun _ => now) d) []) ->
  ewp (replay_refresh_tx reg client lookup fam now) Q R c [d].
Proof.
  intros Ha Hb Hc. unfold replay_refresh_tx. do 2 ewp_step; [|apply Hb]. simplify_eq.
  ewp_step. apply ewp_check_binding_tx; [|done]. intros _ _.
  ewp_step. ewp_step; [|by auto..]. ewp_step. by auto.
Qed.

(** The token lookup finds a member and its family. *)
Lemma member_join_family_Some h d id m f :
  member_join_family h d = Some (id, m, f) ->
  refresh_token_members d !! id = Some m /\ refresh_families d !! rt_family_id m = Some f
  /\ rt_token_hash m = h.
Proof.
  unfold member_join_family. intros Hj. case_match eqn:Hf; [|done].
  case_match; simplify_eq. case_match eqn:Hfam; simplify_eq.
  apply find_row_Some in Hf as [Hm Hh]. by bools_all.
Qed.

(** A member just inserted is the one its hash finds. *)
Lemma select_member_id_inserted id fam token now d d' :
  insert_member_row id (fresh_member fam token now) d = Ok d' ->
  find_row (fun _ m => rt_token_hash m ==? hash token) (refresh_token_members d')
  = Some (id, fresh_member fam token now).
Proof.
  unfold insert_member_row. intros Hi. case_match eqn:Hg; simplify_eq. bools_all. simpl in *.
  apply find_row_unique.
  - by rewrite lookup_insert_eq.
  - simpl. by apply bool_decide_eq_true.
  - intros k v Hk Hv. destruct (decide (k = id)) as [|Hne]; [done|].
    rewrite lookup_insert_ne in Hk by done. rewrite exists_row_false in *.
    bools_all. match goal with Hx : forall _ _, _ -> bool_decide _ = false |- _ => specialize (Hx _ _ Hk) end.
    bools_all. congruence.
Qed.

Lemma rotate_refresh_bound_wp raw client res reg c :
  wp (rotate_refresh_bound raw client res reg)
    (fun r d tx => tx = [] /\ outcome (rotate_success raw client res reg c)
       (rotate_replay raw client res reg c) c r d) c [].
Proof.
  unfold rotate_refresh_bound. apply wp_ewp. ewp_step; [|by auto].
  ewp_step. ewp_step; [|by auto]. answered Hexec.
  case_match eqn: Hf; [|ewp_step; by auto].
  apply fmap_Some in Hf as ([[id m] f] & Hf & ->). simpl.
  destruct (member_join_family_Some _ _ _ _ _ Hf) as (Hm & Hfam & _).
  ewp_step. ewp_step; [|by auto].
  destruct (provider_sessions c !! rf_session_id f) as [ses|] eqn:Hs; [|done]. answered Hexec.
  ewp_step. ewp_step; [|by auto]. rewrite Hfam in Hexec. answered Hexec.
  ewp_step. ewp_step; [|by auto]. rewrite Hm in Hexec. answered Hexec.
  case_match eqn: Hg; [ewp_step; by auto|]. bools_all. subst client res.
  ewp_step. apply ewp_check_binding_tx; [|by auto]. intros t Hb.
  case_match eqn: Hp; [ewp_step; by auto|].
  assert (Hallow : refresh_allowed reg f).
  { split; [by eauto|]. intros rg ->. simpl in Hp. by bools_all. }
  ewp_step. ewp_step; [|by auto]. answered Hexec.
  ewp_step. apply ewp_check_binding_tx; [|by auto]. intros _ _.
  case_match eqn: Hcons.
  { apply is_some_true in Hcons as [t0 Hcons].
    apply ewp_replay_refresh_tx; [by auto..|]. intros e He. split; [done|].
    apply outcome_denied; [|done]. by eapply RotateReplay. }
  case_match eqn: Hexp; [ewp_step; by auto|]. bools_all.
  ewp_step. apply ewp_insert_refresh; [|by auto]. intros token new d1 Hnew.
  ewp_step. ewp_step; [|by auto].
  rewrite (select_member_id_inserted _ _ _ _ _ _ Hnew) in Hexec. answered Hexec.
  ewp_step. ewp_step; [|by auto].
  destruct (is_none (refresh_token_members d1 !! id) || is_some (refresh_token_members d1 !! new)); [|done].
  answered Hexec.
  ewp_step. apply ewp_check_binding_tx; [|by auto]. intros _ _.
  match goal with |- ewp _ _ _ _ [?d] => 
  assert (Hok : rotate_success raw (rf_client_id f) (rf_resource f) reg c (refresh_result f ses token) d)
    by (eapply RotateSuccess; eauto; done) end.
  ewp_step. ewp_step. 2:{ by auto. } 2:{ hidden. } 
  by ewp_step.
Qed.

Lemma create_provider_session_wp user lifetime c :
  wp (create_provider_session user lifetime)
    (fun r d tx => tx = [] /\ outcome (session_created user lifetime c) (fun _ => False) c r d) c [].
Proof.
  unfold create_provider_session, random_credential. apply wp_ewp.
  do 2 ewp_step. case_match eqn:Hb; [|by auto].
  do 2 ewp_step. ewp_step. ewp_step. do 3 ewp_step. ewp_step; [|by auto].
  case_match eqn:Hi; simplify_eq.
  assert (Hok : session_created user lifetime c _ d)
    by (eapply SessionCreated with (t := clk 0%N); eauto).
  split; [by ewp_step; eauto|]. hidden.
Qed.

Lemma ewp_insert_authorization_code_tx {E} `{!FromDb E} sid s g n u secs
    (Q : string -> DB -> list DB -> Prop) (R : E -> DB -> list DB -> Prop) c d tx :
  provider_sessions d !! sid = Some s ->
  (forall raw id t binding d', cast_jsonb (cimd_binding_json (vg_dynamic g)) = Ok binding ->
     insert_code_row id (issued_code raw sid s g n u secs t binding) d = Ok d' -> Q raw c (d' :: tx)) ->
  (forall e d', R (from_db e) c (d' :: tx)) ->
  ewp (insert_authorization_code_tx sid g n u secs) Q R c (d :: tx).
Proof.
  intros Hs HQ HR. unfold insert_authorization_code_tx, random_credential.
  do 2 ewp_step. ewp_step. ewp_step. do 2 ewp_step. do 2 ewp_step; [|apply HR].
  case_match eqn:Hi; simplify_eq. apply rbind_Ok in Hi as (b & Hb & Hi).
  rewrite Hs in Hi. simpl in Hi. ewp_step. by eapply HQ.
Qed.

Lemma ewp_grant_fresh_tx g (Q : unit -> DB -> list DB -> Prop)
    (R : CredentialError -> DB -> list DB -> Prop) c d :
  (forall t, ensure_fresh t (vg_dynamic g) = Ok tt -> Q tt c [d]) ->
  (forall e, R e c []) ->
  ewp (grant_fresh_tx g) Q R c [d].
Proof.
  intros HQ HR. unfold grant_fresh_tx. do 2 ewp_step. ewp_step.
  destruct (ensure_fresh _ _) as [[]|e] eqn:Hc; [by eapply HQ|by split].
Qed.

Lemma issue_authorization_code_wp session grant lifetime c :
  wp (issue_authorization_code session grant lifetime)
    (fun r d tx => tx = [] /\ outcome (code_issued session grant lifetime c) (fun _ => False) c r d) c [].
Proof.
  unfold issue_authorization_code. apply wp_ewp.
  do 2 ewp_step. case_match eqn:Hb; [|by auto].
  ewp_step; [|by auto].
  ewp_step. ewp_step; [|by auto]. answered Hexec.
  case_match eqn:Hl; [ewp_step; by auto|]. 
  destruct (provider_sessions c !! se_id session) as [ses|] eqn:Hs; [|done].
  ewp_step. ewp_step; [|by auto]. rewrite Hs in Hexec. answered Hexec.
  case_match eqn:Ha; [ewp_step; by auto|]. bools_all.
  ewp_step. ewp_step; [|by auto]. rewrite Hs in Hexec. answered Hexec.
  ewp_step. apply ewp_grant_fresh_tx; [|by auto]. intros ti Hfresh.
  ewp_step. eapply ewp_insert_authorization_code_tx; [done| |by auto].
  intros raw id t binding d Hbi Hi.
  assert (Hok : code_issued session grant lifetime c raw d) by (eapply CodeIssued; eauto).
  ewp_step. apply ewp_grant_fresh_tx; [|by auto]. intros _ _.
  ewp_step. ewp_step; [|by auto|hidden]. by ewp_step.
Qed.

Lemma revoke_refresh_wp raw client c :
  wp (revoke_refresh raw client)
    (fun r d tx => tx = [] /\ outcome (token_revoked raw client c) (fun _ => False) c r d) c [].
Proof.
  unfold revoke_refresh. apply wp_ewp. ewp_step; [|by auto].
  ewp_step. ewp_step; [|by auto]. answered Hexec.
  destruct (member_join_family (hash raw) c) as [[[id m] f]|] eqn:Hj; simpl.
  - destruct (member_join_family_Some _ _ _ _ _ Hj) as (Hm & Hfam & _).
    destruct (rf_client_id f ==? client) eqn:Hc; bools_all; simpl.
    + ewp_step. ewp_step; [|by auto].
      destruct (provider_sessions c !! rf_session_id f) as [ses|] eqn:Hs; [|done]. answered Hexec.
      ewp_step. ewp_step; [|by auto]. rewrite Hfam in Hexec. answered Hexec.
      ewp_step. ewp_step; [|by auto]. answered Hexec.
      match goal with |- ewp _ _ _ _ [?d] =>
        assert (Hok : token_revoked raw client c tt d) by by eapply RevokeFamily end.
      ewp_step. ewp_step; [by ewp_step|by auto|hidden].
    + assert (Hok : token_revoked raw client c tt c) by by eapply RevokeForeign.
      ewp_step. ewp_step; [by ewp_step|by auto|hidden].
  - assert (Hok : token_revoked raw client c tt c) by by eapply RevokeUnknown.
    ewp_step. ewp_step; [by ewp_step|by auto|hidden].
Qed.

Lemma logout_wp session c :
  wp (logout session)
    (fun r d tx => tx = [] /\ outcome (logged_out (se_id session) c) (fun _ => False) c r d) c [].
Proof.
  unfold logout. apply wp_ewp. ewp_step; [|by auto].
  ewp_step. ewp_step; [|by auto].
  destruct (provider_sessions c !! se_id session) as [ses|] eqn:Hs; [|done]. answered Hexec.
  ewp_step. ewp_step; [|by auto]. answered Hexec.
  ewp_step. ewp_step; [|by auto]. answered Hexec.
  match goal with |- ewp _ _ _ _ [?d] =>
    assert (Hok : logged_out (se_id session) c tt d) by by eapply LoggedOut end.
  ewp_step. ewp_step; [by ewp_step|by auto|hidden].
Qed.
End Refinement.
