(* ===== verification/CredentialsInvariant.v ===== *)
(** * CredentialsInvariant: every operation keeps the store well-formed *)

From Stdlib Require Import Ascii ZArith.
From S2P Require Import Prelude External Schema Effects Evolution Identity Cimd OAuth Credentials CredentialsSpec CredentialsTheory.

(** ** Identifying columns *)

Section KeyUnique.
Context {V K : Type} (key : V -> K).
Implicit Types m : gmap Uuid V.

Lemma key_unique_insert m id v :
  key_unique key m -> (forall i w, m !! i = Some w -> key w <> key v) ->
  key_unique key (<[id := v]> m).
Proof.
  intros Hm Hv i j x y Hi Hj Hk. apply lookup_insert_Some in Hi, Hj.
  destruct Hi as [[<- <-]|[Hi1 Hi]], Hj as [[<- <-]|[Hj1 Hj]];
    [done|by edestruct Hv|by edestruct Hv|by eauto].
Qed.

Lemma exists_key_false `{EqDecision K} m k :
  exists_row (fun _ v => key v ==? k) m = false -> forall i w, m !! i = Some w -> key w <> k.
Proof. rewrite exists_row_false. intros Hx i w Hw. specialize (Hx _ _ Hw). by bools_all. Qed.

Lemma key_unique_alter m id f :
  (forall v, key (f v) = key v) -> key_unique key m -> key_unique key (alter f id m).
Proof.
  intros Hf Hm i j x y Hi Hj Hk. apply lookup_alter_Some in Hi, Hj.
  destruct Hi as [(<- & x' & Hi & ->)|[Hi1 Hi]], Hj as [(<- & y' & Hj & ->)|[Hj1 Hj]];
    [done|eapply Hm; eauto; congruence..].
Qed.

Lemma key_unique_update m p f :
  (forall i v, key (f i v) = key v) -> key_unique key m -> key_unique key (update_rows p f m).
Proof.
  intros Hf Hm i j x y Hi Hj Hk. rewrite lookup_update_rows in Hi, Hj.
  apply fmap_Some in Hi as (x' & Hi & ->), Hj as (y' & Hj & ->).
  eapply Hm; eauto. by repeat case_match; rewrite ?Hf in *.
Qed.
End KeyUnique.

Lemma taken_false {V} (col : V -> string) k (m : gmap Uuid V) :
  taken (fun v => Some (col v)) (Some k) m = false ->
  forall i w, m !! i = Some w -> col w <> k.
Proof.
  unfold taken. rewrite exists_row_false. intros Hx i w Hw. specialize (Hx _ _ Hw).
  bools_all. congruence.
Qed.

(** ** Revocations stay *)

Lemma session_revoked_evolves d d' id : evolves d d' -> session_revoked d id -> session_revoked d' id.
Proof.
  intros He (s & t & Hs & Ht). destruct (ev_sessions _ _ He _ _ Hs) as (s' & Hs' & Hle).
  exists s', t. split; [done|]. by apply Hle.
Qed.
Lemma family_revoked_evolves d d' id : evolves d d' -> family_revoked d id -> family_revoked d' id.
Proof.
  intros He (s & t & Hs & Ht). destruct (ev_families _ _ He _ _ Hs) as (s' & Hs' & Hle).
  exists s', t. split; [done|]. by apply Hle.
Qed.

(** A family update revokes the families it selects. *)
Lemma revoke_families_where_revoked p t d i f :
  refresh_families d !! i = Some f -> p i f = true -> family_revoked (revoke_families_where p t d) i.
Proof.
  intros Hf Hp. eexists _, _. simpl. rewrite lookup_update_rows, Hf. simpl. by rewrite Hp.
Qed.

Section Invariant.
Context `{Crypto, UrlLib, JsonLib, JsonDb}.
Implicit Types d : DB.

(** ** Rows under evolution *)

Lemma session_wf_evolves d d' s s' : evolves d d' -> session_le s s' -> session_wf d s -> session_wf d' s'.
Proof.
  intros He Hs ([[] Hu] & Hx & Hh). destruct (ev_users _ _ He _ _ Hu) as (u' & Hu' & _).
  unfold session_le in *. destruct_and!. repeat split; [|congruence..].
  eexists. etrans; [|exact Hu']. congruence.
Qed.

Lemma code_wf_evolves d d' c c' : evolves d d' -> code_le c c' -> code_wf d c -> code_wf d' c'.
Proof.
  intros He Hc (s & Hs & Hx & Hy). destruct (ev_sessions _ _ He _ _ Hs) as (s' & Hs' & Hle).
  unfold code_le, session_le in *. destruct_and!. exists s'. repeat split; congruence.
Qed.

Lemma family_wf_evolves d d' f f' : evolves d d' -> family_le f f' -> family_wf d f -> family_wf d' f'.
Proof.
  intros He Hf (c & s & Hc & Hs & Hrest).
  destruct (ev_sessions _ _ He _ _ Hs) as (s' & Hs' & Hsle).
  destruct (ev_codes _ _ He _ _ Hc) as (c' & Hc' & Hcle).
  unfold code_le, session_le, family_le in *. destruct_and!.
  exists c', s'. repeat split; first [congruence|by auto].
Qed.

(** The rows that were there stay well-formed; new ones have to be. *)
Lemma wf_sessions_step d d' : evolves d d' -> store_wf d ->
  (forall i s, provider_sessions d' !! i = Some s -> provider_sessions d !! i = None -> session_wf d' s) ->
  map_Forall (fun _ => session_wf d') (provider_sessions d').
Proof.
  intros He Hwf Hnew i s' Hs'. destruct (provider_sessions d !! i) as [s|] eqn:Hs; [|by eauto].
  destruct (ev_sessions _ _ He _ _ Hs) as (s2 & Hs2 & Hle). simplify_eq.
  eapply session_wf_evolves; [done..|]. by eapply (wf_sessions _ Hwf).
Qed.

Lemma wf_codes_step d d' : evolves d d' -> store_wf d ->
  (forall i c, authorization_codes d' !! i = Some c -> authorization_codes d !! i = None -> code_wf d' c) ->
  map_Forall (fun _ => code_wf d') (authorization_codes d').
Proof.
  intros He Hwf Hnew i c' Hc'. destruct (authorization_codes d !! i) as [c|] eqn:Hc; [|by eauto].
  destruct (ev_codes _ _ He _ _ Hc) as (c2 & Hc2 & Hle). simplify_eq.
  eapply code_wf_evolves; [done..|]. by eapply (wf_codes _ Hwf).
Qed.

Lemma wf_families_step d d' : evolves d d' -> store_wf d ->
  (forall i f, refresh_families d' !! i = Some f -> refresh_families d !! i = None -> family_wf d' f) ->
  map_Forall (fun _ => family_wf d') (refresh_families d').
Proof.
  intros He Hwf Hnew i f' Hf'. destruct (refresh_families d !! i) as [f|] eqn:Hf; [|by eauto].
  destruct (ev_families _ _ He _ _ Hf) as (f2 & Hf2 & Hle). simplify_eq.
  eapply family_wf_evolves; [done..|]. by eapply (wf_families _ Hwf).
Qed.

Lemma member_wf_step d d' m : evolves d d' -> member_wf d m -> member_wf d' m.
Proof.
  intros He [[f Hf] Hc]. split; [|done].
  destruct (ev_families _ _ He _ _ Hf) as (f' & Hf' & _). by eexists.
Qed.

(** ** Row operations *)

(** Leaves the fields of [store_wf] the operation really touches. *)
Local Ltac wf_fields He Hwf :=
  split; try apply Hwf;
  try (apply (wf_sessions_step _ _ He Hwf); simpl; congruence);
  try (apply (wf_codes_step _ _ He Hwf); simpl; congruence);
  try (apply (wf_families_step _ _ He Hwf); simpl; congruence);
  try (let i := fresh in let m := fresh in let Hi := fresh in
       intros i m Hi; eapply member_wf_step; [exact He|by eapply (wf_members _ Hwf)]).


Lemma store_wf_set_sessions m d :
  table_le session_le (provider_sessions d) m ->
  (forall i s, m !! i = Some s -> provider_sessions d !! i = None -> session_wf d s) ->
  store_wf d -> store_wf (set_sessions m d).
Proof.
  intros Hm Hnew Hwf. assert (He : evolves d (set_sessions m d)) by eauto with evolves.
  wf_fields He Hwf. apply (wf_sessions_step _ _ He Hwf Hnew).
Qed.

Lemma store_wf_revoke_families p t d : store_wf d -> store_wf (revoke_families_where p t d).
Proof.
  intros Hwf. pose proof (revoke_families_where_evolves p t d) as He.
  wf_fields He Hwf.
  - apply (wf_families_step _ _ He); [done|]. simpl. intros i f Hf Hn.
    rewrite lookup_update_rows in Hf. apply fmap_Some in Hf as (? & ? & ?). congruence.
  - by apply key_unique_update, Hwf.
Qed.

Lemma store_wf_revoke_session id t d : store_wf d -> store_wf (revoke_session_at id t d).
Proof.
  apply store_wf_set_sessions.
  - apply table_le_alter; [apply _|]. intros; apply revoke_session_le.
  - intros i s Hs Hn. apply lookup_alter_Some in Hs as [(<- & ? & ? & _)|[_ ?]]; congruence.
Qed.

Lemma store_wf_insert_session id r d d' :
  insert_session_row id r d = Ok d' -> store_wf d -> store_wf d'.
Proof.
  intros Hi. unfold insert_session_row in Hi. case_match eqn:Hg; simplify_eq. bools_all.
  apply store_wf_set_sessions; [apply table_le_insert; [apply _|done]|].
  intros i s Hs Hn. apply lookup_insert_Some in Hs as [[<- <-]|[_ ?]]; [|congruence].
  unfold hash_ok in *. by bools_all.
Qed.

Lemma store_wf_insert_code id c d d' :
  insert_code_row id c d = Ok d' -> code_wf d c -> store_wf d -> store_wf d'.
Proof.
  intros Hi Hc Hwf. pose proof (insert_code_evolves _ _ _ _ Hi) as He.
  unfold insert_code_row in Hi. case_match eqn:Hg; simplify_eq. bools_all.
  wf_fields He Hwf.
  - apply (wf_codes_step _ _ He Hwf). simpl. intros i c' Hc' Hn.
    apply lookup_insert_Some in Hc' as [[<- <-]|[? ?]]; [|congruence].
    by eapply code_wf_evolves.
  - simpl. apply key_unique_insert; [apply Hwf|]. by apply taken_false.
Qed.

Lemma store_wf_consume_code t id d :
  store_wf d -> store_wf (set_codes (alter (consume_code t) id (authorization_codes d)) d).
Proof.
  intros Hwf.
  assert (He : evolves d (set_codes (alter (consume_code t) id (authorization_codes d)) d)).
  { apply evolves_set_codes, table_le_alter; [apply _|]. intros; apply consume_code_le. }
  wf_fields He Hwf.
  - apply (wf_codes_step _ _ He Hwf). simpl. intros i c Hc Hn.
    apply lookup_alter_Some in Hc as [(<- & ? & ? & _)|[_ ?]]; congruence.
  - by apply key_unique_alter, Hwf.
Qed.

Lemma store_wf_insert_family id f d d' :
  insert_family_row id f d = Ok d' -> family_wf d f -> store_wf d ->
  store_wf d' /\ (forall i m, refresh_token_members d' !! i = Some m -> rt_family_id m <> id).
Proof.
  intros Hi Hf Hwf. pose proof (insert_family_evolves _ _ _ _ Hi) as He.
  unfold insert_family_row in Hi. case_match eqn:Hg; simplify_eq. bools_all. split.
  - wf_fields He Hwf.
    + apply (wf_families_step _ _ He Hwf). simpl. intros i f' Hf' Hn.
      apply lookup_insert_Some in Hf' as [[<- <-]|[? ?]]; [|congruence].
      by eapply family_wf_evolves.
    + simpl. apply key_unique_insert; [apply Hwf|]. by eapply (exists_key_false rf_source_code_id).
  - simpl. intros i m Hm <-. destruct (wf_members _ Hwf _ _ Hm) as [[? ?] _]. congruence.
Qed.

(** A live member may join a family that has none. *)
Lemma store_wf_add_member new m d :
  store_wf d -> refresh_token_members d !! new = None -> member_wf d m ->
  (forall i w, refresh_token_members d !! i = Some w -> rt_token_hash w <> rt_token_hash m) ->
  (forall i w, refresh_token_members d !! i = Some w -> rt_family_id w = rt_family_id m ->
     is_Some (rt_consumed_at w)) ->
  store_wf (set_members (<[new := m]> (refresh_token_members d)) d).
Proof.
  intros Hwf Hn Hm Hh Hlive.
  assert (He : evolves d (set_members (<[new := m]> (refresh_token_members d)) d))
    by (apply evolves_set_members, table_le_insert; [apply _|done]).
  wf_fields He Hwf.
  - simpl. apply map_Forall_insert_2; [by eapply member_wf_step|].
    intros i mb Hi. eapply member_wf_step; [exact He|]. by eapply (wf_members _ Hwf).
  - simpl. intros i j v w Hv Hw Heq Hcv Hcw. apply lookup_insert_Some in Hv, Hw.
    destruct Hv as [[<- <-]|[? Hv]], Hw as [[<- <-]|[? Hw]]; [done| | |].
    + destruct (Hlive _ _ Hw (eq_sym Heq)). congruence.
    + destruct (Hlive _ _ Hv Heq). congruence.
    + by eapply (wf_live _ Hwf).
  - simpl. by apply key_unique_insert; [apply Hwf|].
Qed.

Lemma store_wf_consume_member t id s d :
  store_wf d -> store_wf (set_members (alter (consume_member t s) id (refresh_token_members d)) d).
Proof.
  intros Hwf.
  assert (He : evolves d (set_members (alter (consume_member t s) id (refresh_token_members d)) d)).
  { apply evolves_set_members, table_le_alter; [apply _|]. intros; apply consume_member_le. }
  wf_fields He Hwf.
  - intros i mb Hi. simpl in Hi. apply lookup_alter_Some in Hi as [(<- & m & Hm & ->)|[_ Hm]].
    + eapply member_wf_step; [exact He|]. destruct (wf_members _ Hwf _ _ Hm) as [? _]. done.
    + eapply member_wf_step; [exact He|]. by eapply (wf_members _ Hwf).
  - simpl. intros i j v w Hv Hw Heq Hcv Hcw. apply lookup_alter_Some in Hv, Hw.
    destruct Hv as [(<- & ? & Hv & ->)|[? Hv]], Hw as [(<- & ? & Hw & ->)|[? Hw]]; try done.
    by eapply (wf_live _ Hwf).
  - by apply key_unique_alter, Hwf.
Qed.

(** ** Operations *)

Lemma store_wf_insert_member_row new fam token now d d' :
  insert_member_row new (fresh_member fam token now) d = Ok d' -> store_wf d ->
  (forall i w, refresh_token_members d !! i = Some w -> rt_family_id w = fam ->
     is_Some (rt_consumed_at w)) ->
  store_wf d'.
Proof.
  intros Hi Hwf Hlive. unfold insert_member_row in Hi. case_match eqn:Hg; simplify_eq. bools_all.
  apply store_wf_add_member; [done..| | |done].
  - split; [done|]. simpl. by split; intros [].
  - by apply taken_false.
Qed.

Lemma family_started_wf id code s now d token d' :
  family_started id code s now d token d' -> store_wf d ->
  authorization_codes d !! id = Some code -> is_Some (ac_consumed_at code) ->
  provider_sessions d !! ac_session_id code = Some s -> store_wf d'.
Proof.
  intros [Hn|fam mem tok b d1 d2 Hi Hb Hfam Hmem] Hwf Hc Hcons Hs; [done|].
  destruct (store_wf_insert_family _ _ _ _ Hfam) as [Hwf1 Hfree].
  - exists code, s. repeat split; simpl; try done; lia.
  - done.
  - eapply store_wf_insert_member_row; [done..|]. intros i w Hw Heq.
    by destruct (Hfree _ _ Hw).
Qed.

(** A family started for the code as it was before it was consumed is one
    for the consumed code. *)
Lemma family_started_consumed id code s now t d token d' :
  family_started id code s now d token d' -> family_started id (consume_code t code) s now d token d'.
Proof. intros []; [by apply NoFamily|by eapply Family]. Qed.

Lemma exchange_success_wf raw client uri res v reg d r d' :
  exchange_success raw client uri res v reg d r d' -> store_wf d -> store_wf d'.
Proof.
  intros [id code s now token d1 Hf Hs Hb Ha Hn Hx Hy Hr Hfam] Hwf.
  apply find_row_Some in Hf as [Hc _].
  apply (family_started_consumed _ _ _ _ now) in Hfam.
  eapply family_started_wf; [exact Hfam|by apply store_wf_consume_code| |by eexists|done].
  simpl. by rewrite lookup_alter_eq, Hc.
Qed.

Lemma rotate_success_wf raw client res reg d r d' :
  rotate_success raw client res reg d r d' -> store_wf d -> store_wf d'.
Proof.
  intros [id m f s now token new d1 Hj Hs Hb Ha Hn Hfr Hsr Hx Hy Hi] Hwf.
  destruct (member_join_family_Some _ _ _ _ _ Hj) as (Hm & Hfam & Hh).
  unfold insert_member_row in Hi. case_match eqn:Hg; simplify_eq. bools_all. simpl in *.
  assert (Hne : id <> new) by congruence.
  rewrite alter_insert_ne by done.
  set (d0 := set_members (alter (consume_member now new) id (refresh_token_members d)) d).
  change (store_wf (set_members (<[new := fresh_member (rt_family_id m) token now]>
            (refresh_token_members d0)) d0)).
  apply store_wf_add_member; simpl.
  - by apply store_wf_consume_member.
  - rewrite lookup_alter_None. done.
  - split; [done|]. simpl. by split; intros [].
  - intros i w Hw. apply lookup_alter_Some in Hw as [(<- & w' & Hw & ->)|[_ Hw]]; simpl.
    + by eapply (taken_false rt_token_hash).
    + by eapply (taken_false rt_token_hash).
  - intros i w Hw Heq. apply lookup_alter_Some in Hw as [(<- & w' & Hw & ->)|[Hni Hw]]; [by eexists|].
    destruct (rt_consumed_at w) eqn:Hcw; [by eexists|].
    destruct Hni. by eapply (wf_live _ Hwf).
Qed.

Lemma session_created_wf user lifetime d r d' :
  session_created user lifetime d r d' -> store_wf d -> store_wf d'.
Proof. intros []. by eapply store_wf_insert_session. Qed.

(** A stored code never outlives its session nor its minute. *)
Lemma code_issued_wf session grant lifetime d r d' :
  code_issued session grant lifetime d r d' -> store_wf d -> store_wf d'.
Proof.
  intros [raw id s secs now t b d1 Hb Hs Hr Hx Hf Hc Hi] Hwf.
  eapply store_wf_insert_code; [done| |done].
  unfold insert_code_row in Hi. case_match eqn:Hg; simplify_eq. bools_all. simpl in *.
  exists s. repeat split; [done|simpl; lia|done].
Qed.

Lemma token_revoked_wf raw client d r d' :
  token_revoked raw client d r d' -> store_wf d -> store_wf d'.
Proof. intros []; [done..|by apply store_wf_revoke_families]. Qed.

Lemma logged_out_wf id d r d' : logged_out id d r d' -> store_wf d -> store_wf d'.
Proof. intros [] ?. by apply store_wf_revoke_families, store_wf_revoke_session. Qed.

Lemma exchange_replay_wf raw client uri res v reg d d' :
  exchange_replay raw client uri res v reg d d' -> store_wf d -> store_wf d'.
Proof. intros []. by apply store_wf_revoke_families. Qed.

Lemma rotate_replay_wf raw client res reg d d' :
  rotate_replay raw client res reg d d' -> store_wf d -> store_wf d'.
Proof. intros []. by apply store_wf_revoke_families. Qed.

Lemma store_wf_no_sessions d :
  provider_sessions d = ∅ -> authorization_codes d = ∅ -> refresh_families d = ∅ ->
  refresh_token_members d = ∅ -> store_wf d.
Proof.
  intros Hs Hc Hf Hm. split; rewrite ?Hs, ?Hc, ?Hf, ?Hm; try apply map_Forall_empty;
    by intros i j v w ?%lookup_empty_Some.
Qed.

Lemma outcome_wf {A} (Done : A -> DB -> Prop) (Denied : DB -> Prop) d r d' :
  outcome Done Denied d r d' ->
  (forall a d1, Done a d1 -> store_wf d -> store_wf d1) ->
  (forall d1, Denied d1 -> store_wf d -> store_wf d1) ->
  store_wf d -> store_wf d'.
Proof.
  intros Ho Hd He Hwf. destruct r as [a|e]; [by eauto|].
  destruct Ho as [->|[[? _]|(_ & a & ?)]]; eauto.
Qed.

(** A program whose outcomes keep the store well-formed does. *)
Lemma keeps_wf {A} (m : M CredentialError A) (Done : DB -> A -> DB -> Prop) (Denied : DB -> DB -> Prop) :
  (forall c, wp m (fun r d tx => tx = [] /\ outcome (Done c) (Denied c) c r d) c []) ->
  (forall c a d, Done c a d -> store_wf c -> store_wf d) ->
  (forall c d, Denied c d -> store_wf c -> store_wf d) ->
  keeps store_wf m.
Proof.
  intros Hw Hd He o d n r w Hr Hwf. destruct (wp_run _ _ _ _ _ _ _ (Hw d) Hr) as [Htx Ho].
  split; [|done]. eapply outcome_wf; eauto.
Qed.

Lemma create_provider_session_keeps_wf user lifetime :
  keeps store_wf (create_provider_session user lifetime).
Proof.
  eapply keeps_wf; [intros; apply create_provider_session_wp|apply session_created_wf|done].
Qed.
Lemma issue_authorization_code_keeps_wf s g l : keeps store_wf (issue_authorization_code s g l).
Proof. eapply keeps_wf; [intros; apply issue_authorization_code_wp|apply code_issued_wf|done]. Qed.
Lemma exchange_code_bound_keeps_wf raw client uri res v reg :
  keeps store_wf (exchange_code_bound raw client uri res v reg).
Proof.
  eapply keeps_wf; [intros; apply exchange_code_bound_wp|apply exchange_success_wf|
                    apply exchange_replay_wf].
Qed.
Lemma rotate_refresh_bound_keeps_wf raw client res reg :
  keeps store_wf (rotate_refresh_bound raw client res reg).
Proof.
  eapply keeps_wf; [intros; apply rotate_refresh_bound_wp|apply rotate_success_wf|
                    apply rotate_replay_wf].
Qed.
Lemma revoke_refresh_keeps_wf raw client : keeps store_wf (revoke_refresh raw client).
Proof. eapply keeps_wf; [intros; apply revoke_refresh_wp|apply token_revoked_wf|done]. Qed.
Lemma logout_keeps_wf s : keeps store_wf (logout s).
Proof. eapply keeps_wf; [intros; apply logout_wp|apply logged_out_wf|done]. Qed.

Lemma exchange_code_request_keeps_wf raw client uri res v scopes reg :
  keeps store_wf (exchange_code_request raw client uri res v scopes reg).
Proof.
  unfold exchange_code_request. apply keeps_read; [by intros; simplify_eq/=|].
  intros [[[ss sr] ch]|]; [|apply keeps_raise]. case_match; [apply keeps_raise|].
  apply keeps_try_instant. intros _. apply exchange_code_bound_keeps_wf.
Qed.
Lemma rotate_refresh_request_keeps_wf raw client res scopes reg :
  keeps store_wf (rotate_refresh_request raw client res scopes reg).
Proof.
  unfold rotate_refresh_request. apply keeps_read; [by intros; simplify_eq/=|].
  intros [[ss sr]|]; [|apply keeps_raise]. case_match; [apply keeps_raise|].
  apply rotate_refresh_bound_keeps_wf.
Qed.
Lemma find_provider_session_keeps_wf raw : keeps store_wf (find_provider_session raw).
Proof.
  unfold find_provider_session. apply keeps_read; [by intros; simplify_eq/=|].
  intros [[id t]|]; [apply keeps_ret|apply keeps_raise].
Qed.
End Invariant.
