(* ===== verification/CredentialsProgress.v ===== *)
(** * CredentialsProgress: the store does what it is asked

    When no statement fails, an exchange or a rotation whose conditions hold
    answers tokens, and one that presents a consumed credential revokes its
    family. *)

From Stdlib Require Import Ascii ZArith.
From S2P Require Import Prelude External Schema Effects Evolution Identity Cimd OAuth Credentials CredentialsSpec CredentialsTheory CredentialsInvariant.

Section Progress.
Context `{Crypto, !CryptoLaws, UrlLib, JsonLib, JsonDb}.

(** The identifiers and secrets the oracle draws are not in the database. *)
Definition families_fresh (o : Oracle) (d : DB) : Prop :=
  forall n, refresh_families d !! o_uuid o n = None.
Definition members_fresh (o : Oracle) (d : DB) : Prop :=
  forall n, refresh_token_members d !! o_uuid o n = None
    /\ (forall i m, refresh_token_members d !! i = Some m ->
          rt_token_hash m <> hash (b64_encode (o_random o n))).

(** A request that presents the stored code with all its bindings, and that
    the registry accepts at every instant the oracle shows. *)
Record exchange_request (o : Oracle) (raw client uri res verifier : string)
    (reg : option ClientRegistry) (d : DB) (id : Uuid) (code : code_rec) (s : session_rec) : Prop := {
  xr_code : find_code raw d = Some (id, code);
  xr_session : provider_sessions d !! ac_session_id code = Some s;
  xr_bound : code_bound code client uri res verifier;
  xr_binding : forall n, check_binding (o_instant o n) reg client (ac_cimd_binding code) = Ok tt;
  xr_policy : forall n r, reg = Some r -> exists p,
    validate_pending_parts (o_instant o n) r client uri "code" "S256" (ac_code_challenge code)
      (ac_scopes code) (Some res) = Ok p;
}.

Record refresh_request (o : Oracle) (raw client res : string) (reg : option ClientRegistry)
    (d : DB) (id : Uuid) (m : member_rec) (f : family_rec) (s : session_rec) : Prop := {
  rr_member : member_join_family (hash raw) d = Some (id, m, f);
  rr_session : provider_sessions d !! rf_session_id f = Some s;
  rr_bound : refresh_bound f client res;
  rr_binding : forall n, check_binding (o_instant o n) reg client (rf_cimd_binding f) = Ok tt;
  rr_policy : forall r, reg = Some r -> permits_refresh r client (rf_scopes f) (rf_resource f) = true;
}.

Section Calm.
Context (o : Oracle) (Hcalm : calm o).

Lemma calm_check_binding_tx reg client b Q c tx :
  (forall n, check_binding (o_instant o n) reg client b = Ok tt) -> Q (Ok tt) c tx ->
  calm_wp o (check_binding_tx reg client b) Q c tx.
Proof.
  intros Hb HQ. unfold check_binding_tx. do 2 calm_step Hcalm. rewrite Hb. simpl.
  by calm_step Hcalm.
Qed.

Lemma calm_check_policy_tx reg client uri code res Q c tx :
  (forall n r, reg = Some r -> exists p,
    validate_pending_parts (o_instant o n) r client uri "code" "S256" (cr_code_challenge code)
      (cr_scopes code) (Some res) = Ok p) -> Q (Ok tt) c tx ->
  calm_wp o (check_policy_tx reg client uri code res) Q c tx.
Proof.
  intros Hp HQ. unfold check_policy_tx. destruct reg as [r|]; [|by calm_step Hcalm].
  do 3 calm_step Hcalm. destruct (Hp n r eq_refl) as [p ->]. simpl.
  do 2 calm_step Hcalm. done.
Qed.

(** Both look-ups of the code by its identifier. *)
Lemma find_code_lookup raw d id code :
  find_code raw d = Some (id, code) -> authorization_codes d !! id = Some code.
Proof. intros Hf. by apply find_row_Some in Hf as [? _]. Qed.

Lemma calm_insert_refresh fam now (Q : result string CredentialError -> DB -> list DB -> Prop) c d tx :
  members_fresh o d -> is_Some (refresh_families d !! fam) ->
  (forall token id, insert_member_row id (fresh_member fam token now) d
       = Ok (set_members (<[id := fresh_member fam token now]> (refresh_token_members d)) d) ->
     Q (Ok token) c (set_members (<[id := fresh_member fam token now]> (refresh_token_members d)) d :: tx)) ->
  calm_wp o (insert_refresh fam now) Q c (d :: tx).
Proof.
  intros Hfresh Hfam HQ. unfold insert_refresh, random_credential.
  do 4 calm_step Hcalm. do 2 calm_step Hcalm. do 2 calm_step Hcalm.
  set (token := b64_encode (o_random o n)) in *.
  assert (Hi : insert_member_row (o_uuid o n0) (fresh_member fam token now) d
     = Ok (set_members (<[o_uuid o n0 := fresh_member fam token now]> (refresh_token_members d)) d)).
  { unfold insert_member_row. simpl. destruct (Hfresh n0) as (Hm & _).
    destruct (Hfresh n) as (_ & Hh). rewrite Hm. destruct Hfam as [f ->]. simpl.
    unfold hash_ok, hash. rewrite sha256_length. simpl.
    assert (exists_row (fun _ v => Some (rt_token_hash v) ==? Some (sha256 token))
              (refresh_token_members d) = false) as ->; [|done].
    apply exists_row_false. intros k v Hk. apply bool_decide_eq_false. intros Heq.
    eapply Hh; [exact Hk|]. by injection Heq. }
  unfold fresh_member in Hi. rewrite Hi. simpl. calm_step Hcalm. by apply HQ.
Qed.

(** What an unconsumed code needs to be redeemed. *)
Record redeemable (d : DB) (code : code_rec) (s : session_rec) : Prop := {
  rd_unexpired : forall n, (o_clock o n 0 < ac_expires_at code)%Z;
  rd_session : forall n, (o_clock o n 0 < ps_expires_at s)%Z;
  rd_live : ps_revoked_at s = None;
  rd_family : families_fresh o d;
  rd_member : members_fresh o d;
  rd_binding : exists b, cast_jsonb (ac_cimd_binding code) = Ok b
    /\ cimd_check (ac_client_id code) b = true;
}.

(** An unconsumed code of a well-formed store has no family yet. *)
Lemma unconsumed_no_family d id code i f :
  store_wf d -> authorization_codes d !! id = Some code -> ac_consumed_at code = None ->
  refresh_families d !! i = Some f -> rf_source_code_id f <> id.
Proof.
  intros Hwf Hc Hn Hf Heq. destruct (wf_families _ Hwf _ _ Hf) as (c' & s & Hc' & _ & [? ?] & _).
  rewrite Heq in Hc'. congruence.
Qed.

Lemma calm_start_family_tx id code s now (Q : result (option string) CredentialError -> DB -> list DB -> Prop) c d tx :
  store_wf d -> redeemable d code s ->
  authorization_codes d !! id = Some code -> ac_consumed_at code = None ->
  provider_sessions d !! ac_session_id code = Some s ->
  (forall token d', is_some token = ac_issue_refresh_token code -> Q (Ok token) c (d' :: tx)) ->
  calm_wp o (start_family_tx (code_row id code) (session_row s) now) Q c
    (set_codes (alter (consume_code now) id (authorization_codes d)) d :: tx).
Proof.
  intros Hwf Hr Hc Hn Hs HQ. unfold start_family_tx. simpl. case_match eqn:Hi; [|by calm_step Hcalm; auto].
  destruct Hr as [_ _ _ Hfam Hmem (b & Hb & Hck)].
  do 2 calm_step Hcalm. do 2 calm_step Hcalm. rewrite Hb. simpl.
  assert (Hins : insert_family_row (o_uuid o n) (family_of id code s now b)
            (set_codes (alter (consume_code now) id (authorization_codes d)) d)
     = Ok (set_families (<[o_uuid o n := family_of id code s now b]> (refresh_families d))
            (set_codes (alter (consume_code now) id (authorization_codes d)) d))).
  { unfold insert_family_row. simpl. rewrite Hfam, Hs, lookup_alter_eq, Hc, Hck.
    destruct (wf_sessions _ Hwf _ _ Hs) as ([[] ->] & _).
    rewrite (proj2 (exists_row_false _ _)).
    - rewrite (proj2 (Z.leb_le _ _)); [done|]. lia.
    - intros k v Hk. apply bool_decide_eq_false. by eapply unconsumed_no_family. }
  unfold family_of in Hins. rewrite Hins. calm_step Hcalm.
  apply calm_insert_refresh; [done|simpl; rewrite lookup_insert_eq; by eexists|].
  intros token mem _. calm_step Hcalm. by apply HQ.
Qed.

Lemma calm_exchange raw client uri res verifier reg c id code s
    (Hreq : exchange_request o raw client uri res verifier reg c id code s) :
  store_wf c -> (ac_consumed_at code = None -> redeemable c code s) ->
  calm_wp o (exchange_code_bound raw client uri res verifier reg)
    (fun r d tx => tx = [] /\
       match ac_consumed_at code with
       | Some _ => r = Err InvalidGrant /\ exists t,
           d = revoke_families_where (fun _ f => rf_source_code_id f ==? id) (fun _ => t) c
       | None => exists token, is_some token = ac_issue_refresh_token code
           /\ r = Ok (code_result code s token)
       end) c [].
Proof.
  intros Hwf Hredeem. destruct Hreq as [Hf Hs (<- & <- & <- & Hv) Hb Hp].
  pose proof (find_code_lookup _ _ _ _ Hf) as Hc.
  unfold exchange_code_bound. do 2 calm_step Hcalm. calm_step Hcalm.
  fold (find_code raw c). rewrite Hf. simpl.
  rewrite !bool_decide_eq_true_2, Hv by done. simpl.
  do 2 calm_step Hcalm. rewrite Hs. simpl.
  do 2 calm_step Hcalm. rewrite Hc. simpl. do 2 calm_step Hcalm. rewrite Hc. simpl.
  rewrite !bool_decide_eq_true_2, Hv, N.eqb_refl by done. simpl.
  calm_step Hcalm. apply calm_check_binding_tx; [done|].
  calm_step Hcalm. apply calm_check_policy_tx; [done|].
  do 2 calm_step Hcalm. calm_step Hcalm. apply calm_check_binding_tx; [done|].
  destruct (ac_consumed_at code) as [t|] eqn:Hn; simpl.
  - unfold replay_code_tx. do 2 calm_step Hcalm. calm_step Hcalm.
    apply calm_check_binding_tx; [done|]. do 2 calm_step Hcalm. calm_step Hcalm. eauto.
  - specialize (Hredeem eq_refl). destruct Hredeem as [Hx Hy Hl ? ? ?].
    rewrite Hl, !(proj2 (Z.leb_gt _ _)) by done. simpl.
    do 2 calm_step Hcalm. calm_step Hcalm. apply calm_start_family_tx; [done..|].
    intros token d' Ht. calm_step Hcalm. apply calm_check_binding_tx; [done|].
    do 2 calm_step Hcalm. calm_step Hcalm. eauto.
Qed.

Record rotatable (d : DB) (f : family_rec) (s : session_rec) : Prop := {
  rot_family : rf_revoked_at f = None;
  rot_session : ps_revoked_at s = None;
  rot_unexpired : forall n, (o_clock o n 0 < rf_expires_at f)%Z;
  rot_session_unexpired : forall n, (o_clock o n 0 < ps_expires_at s)%Z;
  rot_member : members_fresh o d;
}.

Lemma calm_rotate raw client res reg c id m f s
    (Hreq : refresh_request o raw client res reg c id m f s) :
  (rt_consumed_at m = None -> rotatable c f s) ->
  calm_wp o (rotate_refresh_bound raw client res reg)
    (fun r d tx => tx = [] /\
       match rt_consumed_at m with
       | Some _ => r = Err InvalidGrant /\ exists t,
           d = revoke_families_where (fun k _ => k ==? rt_family_id m) (fun _ => t) c
       | None => exists token, r = Ok (refresh_result f s token)
       end) c [].
Proof.
  intros Hrot. destruct Hreq as [Hj Hs (<- & <-) Hb Hp].
  destruct (member_join_family_Some _ _ _ _ _ Hj) as (Hm & Hfam & _).
  unfold rotate_refresh_bound. do 2 calm_step Hcalm. calm_step Hcalm. rewrite Hj. simpl.
  do 2 calm_step Hcalm. rewrite Hs. simpl.
  do 2 calm_step Hcalm. rewrite Hfam. simpl. do 2 calm_step Hcalm. rewrite Hm. simpl.
  rewrite !bool_decide_eq_true_2 by done. simpl.
  calm_step Hcalm. apply calm_check_binding_tx; [done|].
  assert (is_some_and reg (fun registry => negb (permits_refresh registry (rf_client_id f)
            (rf_scopes f) (rf_resource f))) = false) as ->.
  { destruct reg as [r|]; [|done]. simpl. by rewrite (Hp r eq_refl). }
  do 2 calm_step Hcalm. calm_step Hcalm. apply calm_check_binding_tx; [done|].
  destruct (rt_consumed_at m) as [t|] eqn:Hn; simpl.
  - unfold replay_refresh_tx. do 2 calm_step Hcalm. calm_step Hcalm.
    apply calm_check_binding_tx; [done|]. do 2 calm_step Hcalm. calm_step Hcalm. eauto.
  - specialize (Hrot eq_refl). destruct Hrot as [Hfr Hsr Hx Hy Hfresh].
    rewrite Hfr, Hsr, !(proj2 (Z.leb_gt _ _)) by done. simpl.
    calm_step Hcalm. apply calm_insert_refresh; [done|by eexists|].
    intros token new Hins. do 2 calm_step Hcalm.
    pose proof (select_member_id_inserted _ _ _ _ _ _ Hins) as Hsel. simpl in Hsel.
    rewrite Hsel. simpl.
    do 2 calm_step Hcalm. rewrite lookup_insert_eq, orb_true_r. simpl.
    calm_step Hcalm. apply calm_check_binding_tx; [done|].
    do 2 calm_step Hcalm. calm_step Hcalm. eauto.
Qed.
End Calm.
End Progress.
