(* ===== verification/StoresSpec.v ===== *)
(** * StoresSpec: what the browser, logout and user stores promise

    The abstract account of the operations of Browser.v, Logout.v and
    Database.v, as relations between the committed database before and after:
    no statements, transactions, savepoints, locks or failures. The programs
    are proved to implement it in DatabaseTheory.v, LogoutTheory.v and
    BrowserTheory.v. *)

From Stdlib Require Import Ascii ZArith.
From S2P Require Import Prelude External Schema Effects Evolution Identity Cimd OAuth Jose Keys Google Credentials CredentialsSpec Database Logout Browser.

(** ** Outcomes

    An operation took effect ([Done]), or failed and left what [Failed]
    says, or left the database alone; the answer of a COMMIT or of a
    statement outside a transaction can be lost, and hide an effect. *)
Definition settled {E A} `{!FromDb E} (Done : A -> DB -> Prop) (Failed : E -> DB -> Prop) (c : DB)
    (r : result A E) (d : DB) : Prop :=
  match r with
  | Ok a => Done a d
  | Err e => d = c \/ Failed e d
             \/ (e = from_db DbFault /\ ((exists a, Done a d) \/ (exists e', Failed e' d)))
  end.

#[global] Arguments settled : simpl never.

Definition never {E} : E -> DB -> Prop := fun _ _ => False.

(** An operation that only reads. *)
Definition reads {A} (P : A -> Prop) (c : DB) : A -> DB -> Prop := fun a d => d = c /\ P a.

(** ** Users *)

Section Users.
Implicit Types d : DB.

(** The user of an identity; a first sight creates both. *)
Inductive user_of (issuer subject : string) (d : DB) : Uuid -> DB -> Prop :=
| KnownUser u : external_identities d !! (issuer, subject) = Some u -> user_of issuer subject d u d
| NewUser u d1 d2 :
    external_identities d !! (issuer, subject) = None ->
    insert_user_row u d = Ok d1 -> insert_identity_row issuer subject u d1 = Ok d2 ->
    user_of issuer subject d u d2.

(** The user of a verified Google identity, with the profile it had at [now]. *)
Inductive google_user (identity : VerifiedGoogleIdentity) (now : Z) (d : DB) : Uuid -> DB -> Prop :=
| GoogleUser u d1 :
    user_of "https://accounts.google.com" (vi_subject identity) d u d1 ->
    is_Some (users d1 !! u) ->
    google_user identity now d u
      (set_profiles (<[u := profile_of identity now]> (user_profiles d1)) d1).
End Users.

(** ** Sessions *)

Definition live_session (d : DB) (id : Uuid) (s : session_rec) (now : Z) : Prop :=
  provider_sessions d !! id = Some s /\ ps_revoked_at s = None /\ (now < ps_expires_at s)%Z.

(** ** Logout *)

Section Logout.
Context `{Crypto}.

Definition asked_row (csrf : string) (session : Uuid) (client_id redirect : string)
    (state : option string) (t : Z) : logout_rec :=
  {| lc_csrf_hash := hash csrf; lc_session_id := session; lc_client_id := client_id;
     lc_post_logout_redirect_uri := redirect; lc_downstream_state := state;
     lc_created_at := t; lc_expires_at := (t + minutes 10)%Z; lc_consumed_at := None |}.

Inductive logout_asked (session : ProviderSession) (client_id redirect : string)
    (state : option string) (d : DB) : LogoutChallenge -> DB -> Prop :=
| LogoutAsked id csrf s now t d' :
    live_session d (se_id session) s now ->
    insert_logout_row id (asked_row csrf (se_id session) client_id redirect state t) d = Ok d' ->
    logout_asked session client_id redirect state d
      {| lch_id := id; lch_csrf := csrf; lch_redirect_uri := redirect |} d'.

Definition logout_row_of (l : logout_rec) : LogoutRow :=
  {| lw_client_id := lc_client_id l; lw_post_logout_redirect_uri := lc_post_logout_redirect_uri l;
     lw_downstream_state := lc_downstream_state l; lw_expires_at := lc_expires_at l;
     lw_consumed_at := lc_consumed_at l |}.
Definition session_logout_row (s : session_rec) : SessionLogoutRow :=
  {| sl_expires_at := ps_expires_at s; sl_revoked_at := ps_revoked_at s;
     sl_user_id := ps_user_id s; sl_auth_time := ps_auth_time s |}.

(** The challenge is open: asked in this session with this secret, neither
    used nor expired, and its redirect still registered. *)
Definition logout_open (session : ProviderSession) (challenge : LogoutChallenge)
    (registry : ClientRegistry) (d : DB) (s : session_rec) (l : logout_rec) (now : Z) : Prop :=
  live_session d (se_id session) s now
  /\ logout_challenges d !! lch_id challenge = Some l
  /\ lc_session_id l = se_id session /\ lc_csrf_hash l = hash (lch_csrf challenge)
  /\ lc_consumed_at l = None /\ (now < lc_expires_at l)%Z
  /\ (lc_client_id l = EmptyString
      \/ valid_post_logout_redirect registry (lc_client_id l) (lc_post_logout_redirect_uri l) = true).

Definition hint_verdict (registry : ClientRegistry) (session : ProviderSession) (s : session_rec)
    (l : logout_rec) (now : Z) (hint : option IdClaims) : option HintVerdict :=
  option_map (judge_hint registry (se_id session) (logout_row_of l) (session_logout_row s) now) hint.

(** The challenge, the session and its refresh families end together. *)
Definition session_ended (id session : Uuid) (now : Z) (d : DB) : DB :=
  revoke_families_where (fun _ f => rf_session_id f ==? session) (fun _ => now)
    (revoke_session_at session now
       (set_logouts (alter (consume_logout now) id (logout_challenges d)) d)).

Inductive logout_finished (session : ProviderSession) (challenge : LogoutChallenge)
    (registry : ClientRegistry) (hint : option IdClaims) (d : DB) : option LogoutOutcome -> DB -> Prop :=
| LogoutForeign s l now :
    logout_open session challenge registry d s l now ->
    hint_verdict registry session s l now hint = Some HintForeign ->
    logout_finished session challenge registry hint d None d
| LogoutDone s l now :
    logout_open session challenge registry d s l now ->
    (hint = None \/ hint_verdict registry session s l now hint = Some HintAccepted) ->
    logout_finished session challenge registry hint d
      (Some {| lo_redirect_uri := lc_post_logout_redirect_uri l; lo_state := lc_downstream_state l |})
      (session_ended (lch_id challenge) (se_id session) now d).
End Logout.

(** ** Browser authorizations *)

(** The stages of a request: the steps the operations take. *)
Inductive stage_step : Stage -> Stage -> Prop :=
| StageStart : stage_step awaiting_start awaiting_google
| StageCancel : stage_step awaiting_start denied
| StageClaim : stage_step awaiting_google callback_claimed
| StageLate : stage_step awaiting_google expired
| StageFail : stage_step callback_claimed failed
| StageUpstreamDeny : stage_step callback_claimed denied
| StageTooLate : stage_step callback_claimed expired
| StageSignIn : stage_step callback_claimed awaiting_consent
| StageApprove : stage_step awaiting_consent approved
| StageDeny : stage_step awaiting_consent denied.

Section Browser.
Context `{Crypto, UrlLib, JsonLib, JsonDb, UuidLib}.

(** The policy accepts the stored request: its binding and its columns. *)
Definition policy_accepts (registry : ClientRegistry) (b : browser_rec)
    (pending : PendingAuthorizationGrant) : Prop :=
  exists now now', revalidate now now' registry (consent_row b) = Ok pending.
(** The same when there may be no registry: then only first-party requests. *)
Definition registry_accepts (registry : option ClientRegistry) (b : browser_rec) : Prop :=
  exists now now', validate_optional_registry now now' registry (consent_row b) = Ok tt.

Definition pending_fresh (pending : PendingAuthorizationGrant) : Prop :=
  exists now, OAuth.ensure_fresh now (pg_dynamic pending) = Ok tt.

Definition denial (b : browser_rec) : DenialOutcome :=
  {| do_redirect_uri := ba_redirect_uri b; do_downstream_state := ba_downstream_state b |}.

(** *** Starting *)

Inductive google_begun (pending : PendingAuthorizationGrant) (state nonce : option string)
    (allow : bool) (d : DB) : BrowserStart -> DB -> Prop :=
| GoogleBegun start t binding d' :
    pending_fresh pending ->
    cast_jsonb (cimd_binding_json (pg_dynamic pending)) = Ok binding ->
    insert_browser_row (bs_transaction_id start) (start_row start pending state nonce allow t binding) d
      = Ok d' ->
    google_begun pending state nonce allow d start d'.

(** A request its browser may start: known by all three secrets, not started
    and not expired. *)
Definition start_open (id : Uuid) (state binding : string) (d : DB) (b : browser_rec) : Prop :=
  browser_authorizations d !! id = Some b
  /\ ba_upstream_state_hash b = Some (hash state)
  /\ ba_browser_binding_hash b = Some (hash binding)
  /\ ba_stage b = awaiting_start /\ exists now, (now < ba_expires_at b)%Z.

Inductive google_started (id : Uuid) (state binding : string) (d : DB) : string * string -> DB -> Prop :=
| GoogleStarted b nonce verifier d' :
    start_open id state binding d b ->
    ba_upstream_nonce b = Some nonce -> ba_upstream_verifier b = Some verifier ->
    update_browser_row id started d = Ok d' ->
    google_started id state binding d (nonce, verifier) d'.
(** A row without its nonce or verifier starts, but the answer is an error. *)
Inductive google_unreadable (id : Uuid) (state binding : string) (d : DB) : BrowserError -> DB -> Prop :=
| GoogleUnreadable b d' :
    start_open id state binding d b ->
    (ba_upstream_nonce b = None \/ ba_upstream_verifier b = None) ->
    update_browser_row id started d = Ok d' ->
    google_unreadable id state binding d (Database DbDecode) d'.

Inductive google_cancelled (id : Uuid) (state binding : string) (registry : option ClientRegistry)
    (d : DB) : DenialOutcome -> DB -> Prop :=
| GoogleCancelled b d' :
    start_open id state binding d b -> registry_accepts registry b ->
    update_browser_row id cancelled d = Ok d' ->
    google_cancelled id state binding registry d (denial b) d'.

Inductive consent_begun (session : ProviderSession) (pending : PendingAuthorizationGrant)
    (state nonce : option string) (allow : bool) (d : DB) : ConsentHandle -> DB -> Prop :=
| ConsentBegun id csrf s now t binding d' :
    live_session d (se_id session) s now -> pending_fresh pending ->
    cast_jsonb (cimd_binding_json (pg_dynamic pending)) = Ok binding ->
    insert_browser_row id
      (consent_start_row csrf (se_id session) pending state nonce allow t binding) d = Ok d' ->
    consent_begun session pending state nonce allow d
      {| ch_transaction_id := id; ch_csrf := csrf |} d'.

(** *** Google's callback *)

Definition find_awaiting (state binding : string) (d : DB) : option (Uuid * browser_rec) :=
  find_row (awaiting state binding) (browser_authorizations d).
Definition find_claimed (claim : string) (d : DB) : option (Uuid * browser_rec) :=
  find_row (claimed_by claim) (browser_authorizations d).

Inductive callback_taken (state binding : string) (d : DB) : string * string * string -> DB -> Prop :=
| CallbackTaken id b claim nonce verifier now d' :
    find_awaiting state binding d = Some (id, b) ->
    ba_upstream_nonce b = Some nonce -> ba_upstream_verifier b = Some verifier ->
    (now < ba_expires_at b)%Z ->
    update_browser_row id (claimed (hash claim)) d = Ok d' ->
    callback_taken state binding d (claim, verifier, nonce) d'.
Inductive callback_late (state binding : string) (d : DB) : BrowserError -> DB -> Prop :=
| CallbackLate id b now d' :
    find_awaiting state binding d = Some (id, b) -> (ba_expires_at b <= now)%Z ->
    update_browser_row id expired_before_claim d = Ok d' ->
    callback_late state binding d Invalid d'.

Inductive callback_marked_failed (claim : string) (d : DB) : unit -> DB -> Prop :=
| CallbackMarkedFailed id b d' :
    find_claimed claim d = Some (id, b) -> update_browser_row id callback_failed d = Ok d' ->
    callback_marked_failed claim d tt d'.

(** The UPDATE names the claim only, not the stage. *)
Inductive callback_refused (claim : string) (registry : ClientRegistry) (d : DB) : DenialOutcome -> DB -> Prop :=
| CallbackRefused id b now pending n d' :
    find_claimed claim d = Some (id, b) -> (now < ba_expires_at b)%Z ->
    policy_accepts registry b pending ->
    update_browser_where (fun _ r => ba_claim_hash r ==? Some (hash claim)) callback_denied d = Ok (n, d') ->
    callback_refused claim registry d (denial b) d'.

(** The session of a sign-in, stored at [t] under the hash of its secret. *)
Definition login_session (raw : string) (user : Uuid) (identity : VerifiedGoogleIdentity) (t secs : Z)
    : session_rec :=
  {| ps_token_hash := hash raw; ps_user_id := user; ps_auth_time := t;
     ps_expires_at := (t + seconds secs)%Z; ps_revoked_at := None;
     ps_upstream_auth_time := identity_auth_time identity |}.

(** A sign-in: the user is found or created, the profile replaced, a
    session stored and the request bound to it, awaiting consent. *)
Inductive signed_in_by (claim : string) (identity : VerifiedGoogleIdentity) (lifetime : Duration)
    (registry : option ClientRegistry) (d : DB) : LoginCompletion -> DB -> Prop :=
| SignedInBy id b user raw session csrf secs t now d1 d2 d' :
    bounded_seconds lifetime (30 * 24 * 60 * 60) = Ok secs ->
    find_claimed claim d = Some (id, b) -> registry_accepts registry b ->
    google_user identity t d user d1 ->
    insert_session_row session (login_session raw user identity t secs) d1 = Ok d2 ->
    (now < ba_expires_at b)%Z ->
    update_browser_row id (signed_in session (hash csrf)) d2 = Ok d' ->
    signed_in_by claim identity lifetime registry d
      {| lg_session := {| se_raw := raw; se_id := session; se_expires_at := (t + seconds secs)%Z |};
         lg_consent := {| ch_transaction_id := id; ch_csrf := csrf |} |} d'.
(** Too late: the request expires, and no user, profile or session is kept. *)
Inductive sign_in_late (claim : string) (d : DB) : BrowserError -> DB -> Prop :=
| SignInLate id b now d' :
    find_claimed claim d = Some (id, b) -> (ba_expires_at b <= now)%Z ->
    update_browser_row id expired_after_claim d = Ok d' ->
    sign_in_late claim d Invalid d'.

(** *** Consent *)

Definition consent_open (session : ProviderSession) (handle : ConsentHandle) (d : DB)
    (s : session_rec) (b : browser_rec) (now : Z) : Prop :=
  live_session d (se_id session) s now
  /\ browser_authorizations d !! ch_transaction_id handle = Some b
  /\ ba_session_id b = Some (se_id session) /\ ba_csrf_hash b = Some (hash (ch_csrf handle))
  /\ ba_stage b = awaiting_consent /\ (now < ba_expires_at b)%Z.

(** An approval stores one code, for the request as the policy reads it now,
    and closes the request; [P] is what else was required. *)
Inductive consent_given (P : browser_rec -> PendingAuthorizationGrant -> Prop)
    (session : ProviderSession) (handle : ConsentHandle) (registry : ClientRegistry)
    (d : DB) : ConsentOutcome -> DB -> Prop :=
| ConsentGiven s b now pending grant ti raw id t binding d1 d' :
    consent_open session handle d s b now ->
    policy_accepts registry b pending -> P b pending ->
    approve_grant ti pending true = Ok grant ->
    cast_jsonb (cimd_binding_json (vg_dynamic grant)) = Ok binding ->
    insert_code_row id (issued_code raw (se_id session) s grant (ba_oidc_nonce b)
                          (ps_upstream_auth_time s) 60 t binding) d = Ok d1 ->
    update_browser_row (ch_transaction_id handle) consented d1 = Ok d' ->
    consent_given P session handle registry d
      {| co_code := raw; co_redirect_uri := ba_redirect_uri b;
         co_downstream_state := ba_downstream_state b |} d'.

Definition by_user : browser_rec -> PendingAuthorizationGrant -> Prop := fun _ _ => True.
(** What lets a request pass without the user. *)
Definition pre_authorized (registry : ClientRegistry) (b : browser_rec)
    (pending : PendingAuthorizationGrant) : Prop :=
  ba_allow_pre_authorization b = true /\ pre_authorizes registry pending = true.

Inductive consent_decided (session : ProviderSession) (handle : ConsentHandle)
    (registry : ClientRegistry) (d : DB) : option ConsentOutcome -> DB -> Prop :=
| ConsentAsked s b now pending :
    consent_open session handle d s b now -> policy_accepts registry b pending ->
    ~ pre_authorized registry b pending ->
    consent_decided session handle registry d None d
| ConsentPassed outcome d' :
    consent_given (pre_authorized registry) session handle registry d outcome d' ->
    consent_decided session handle registry d (Some outcome) d'.

Inductive consent_shown (session : ProviderSession) (handle : ConsentHandle)
    (registry : ClientRegistry) (d : DB) : ConsentView -> DB -> Prop :=
| ConsentShown s b now pending name :
    consent_open session handle d s b now -> policy_accepts registry b pending ->
    display_name registry (ba_client_id b) = Some name ->
    consent_shown session handle registry d
      {| cv_transaction_id := ch_transaction_id handle; cv_csrf := ch_csrf handle;
         cv_client_name := name; cv_scopes := ba_scopes b; cv_resource := ba_resource b;
         cv_redirect_uri := ba_redirect_uri b;
         cv_account := account_of
           (option_map (fun p => (up_verified_email p, up_name p)) (user_profiles d !! ps_user_id s))
           (ps_user_id s) |} d.

Inductive consent_refused (session : ProviderSession) (handle : ConsentHandle)
    (registry : option ClientRegistry) (d : DB) : DenialOutcome -> DB -> Prop :=
| ConsentRefused s b now d' :
    consent_open session handle d s b now -> registry_accepts registry b ->
    update_browser_row (ch_transaction_id handle) consent_denied d = Ok d' ->
    consent_refused session handle registry d (denial b) d'.
End Browser.
