(* ===== verification/DatabaseTheory.v ===== *)
(** * DatabaseTheory: users and identities implement their specification *)

From Stdlib Require Import Ascii ZArith.
From S2P Require Import Prelude External Schema Effects Evolution Identity Cimd Google Credentials CredentialsSpec CredentialsTheory CredentialsInvariant Database Logout Browser StoresSpec.

(** ** Evolution *)

Lemma insert_user_stmt_evolves id : stmt_steps evolves _ (insert_user_stmt id).
Proof. apply stmt_steps_modify. intros clk d d'. eauto with evolves. Qed.
Lemma insert_identity_stmt_evolves i s u : stmt_steps evolves _ (insert_identity_stmt i s u).
Proof. apply stmt_steps_modify. intros clk d d'. eauto with evolves. Qed.

Lemma set_profile_evolves u p d : evolves d (set_profiles (<[u := p]> (user_profiles d)) d).
Proof.
  apply evolves_set_profiles. intros i q Hq. destruct (decide (i = u)) as [->|Hne].
  - exists p. by rewrite lookup_insert_eq.
  - exists q. by rewrite lookup_insert_ne.
Qed.
Lemma upsert_profile_stmt_evolves u p : stmt_steps evolves _ (upsert_profile_stmt u p).
Proof.
  apply stmt_steps_modify. intros clk d d' Hd. case_match; simplify_eq. apply set_profile_evolves.
Qed.

#[export] Hint Resolve insert_user_stmt_evolves insert_identity_stmt_evolves
  upsert_profile_stmt_evolves : stmts.

Section Programs.
Context {E : Type} `{!FromDb E}.

Lemma find_or_insert_identity_evolves i s :
  stmts_ok (stmt_steps evolves) (find_or_insert_identity (E:=E) i s).
Proof. unfold find_or_insert_identity. solve_stmts. Qed.
#[local] Hint Resolve find_or_insert_identity_evolves : stmts.
Lemma lock_verified_google_identity_tx_evolves identity :
  stmts_ok (stmt_steps evolves) (lock_verified_google_identity_tx (E:=E) identity).
Proof. unfold lock_verified_google_identity_tx. solve_stmts. Qed.
Lemma upsert_verified_google_identity_tx_evolves identity now :
  stmts_ok (stmt_steps evolves) (upsert_verified_google_identity_tx (E:=E) identity now).
Proof. unfold upsert_verified_google_identity_tx. solve_stmts. Qed.
End Programs.

#[export] Hint Resolve find_or_insert_identity_evolves lock_verified_google_identity_tx_evolves
  upsert_verified_google_identity_tx_evolves : stmts.

Lemma find_or_create_external_identity_evolves identity :
  stmts_ok (stmt_steps evolves) (find_or_create_external_identity identity).
Proof. unfold find_or_create_external_identity. solve_stmts. Qed.
Lemma find_or_create_verified_google_identity_evolves identity :
  stmts_ok (stmt_steps evolves) (find_or_create_verified_google_identity identity).
Proof. unfold find_or_create_verified_google_identity. solve_stmts. Qed.
Lemma user_profile_evolves u : stmts_ok (stmt_steps evolves) (user_profile u).
Proof. unfold user_profile. solve_stmts. Qed.

(** ** Refinement *)

Section Rules.
Context {E : Type} `{!FromDb E}.

Lemma ewp_find_or_insert_identity i s (Q : Uuid -> DB -> list DB -> Prop)
    (R : E -> DB -> list DB -> Prop) c d tx :
  (forall u d', user_of i s d u d' -> Q u c (d' :: tx)) ->
  (forall e d', R (from_db e) c (d' :: tx)) ->
  ewp (find_or_insert_identity i s) Q R c (d :: tx).
Proof.
  intros HQ HR. unfold find_or_insert_identity. ewp_step. ewp_step; [|apply HR]. answered Hexec.
  destruct (external_identities d !! (i, s)) as [u|] eqn:Hi.
  - ewp_step. by apply HQ, KnownUser.
  - do 2 ewp_step. do 2 ewp_step; [|apply HR]. case_match eqn:Hu; simplify_eq.
    do 2 ewp_step; [|apply HR]. case_match eqn:Hx; simplify_eq.
    ewp_step. eapply HQ, NewUser; eauto.
Qed.

Lemma ewp_upsert_identity identity now (Q : Uuid -> DB -> list DB -> Prop)
    (R : E -> DB -> list DB -> Prop) c d tx :
  (forall u d', google_user identity now d u d' -> Q u c (d' :: tx)) ->
  (forall e d', R (from_db e) c (d' :: tx)) ->
  ewp (upsert_verified_google_identity_tx identity now) Q R c (d :: tx).
Proof.
  intros HQ HR. unfold upsert_verified_google_identity_tx. ewp_step.
  apply ewp_find_or_insert_identity; [|done]. intros u d1 Hu.
  do 2 ewp_step; [|apply HR]. case_match eqn:Hp; simplify_eq. case_match eqn:Hk; simplify_eq.
  ewp_step. apply HQ. apply is_some_true in Hk. by eapply GoogleUser.
Qed.
End Rules.

(** The database is as before, or an effect is hidden by a lost answer. *)
Lemma settled_unchanged {E A} `{!FromDb E} (Done : A -> DB -> Prop) (Failed : E -> DB -> Prop) c e :
  settled Done Failed c (Err e) c.
Proof. by left. Qed.
Lemma settled_failed {E A} `{!FromDb E} (Done : A -> DB -> Prop) (Failed : E -> DB -> Prop) c e d :
  Failed e d -> settled Done Failed c (Err e) d.
Proof. intros. right; by left. Qed.
Lemma settled_hidden {E A} `{!FromDb E} (Done : A -> DB -> Prop) (Failed : E -> DB -> Prop) c a d :
  Done a d -> settled Done Failed c (Err (from_db DbFault)) d.
Proof. intros. right; right. split; [done|]. left. by eauto. Qed.
Lemma settled_hidden_failed {E A} `{!FromDb E} (Done : A -> DB -> Prop) (Failed : E -> DB -> Prop) c e d :
  Failed e d -> settled Done Failed c (Err (from_db DbFault)) d.
Proof. intros. right; right. split; [done|]. right. by eauto. Qed.
Create HintDb settled.
#[export] Hint Resolve settled_unchanged settled_failed settled_hidden settled_hidden_failed : settled.

(** Closes the failing cases of a program proof. *)
Ltac failed := intros; cbv beta; solve [split; [done|]; eauto with settled | by eauto with settled].

Lemma find_or_create_external_identity_wp identity c :
  wp (find_or_create_external_identity identity)
    (fun r d tx => tx = [] /\ settled (user_of (ei_issuer identity) (ei_subject identity) c) never c r d) c [].
Proof.
  unfold find_or_create_external_identity. apply wp_ewp. ewp_step; [|failed].
  ewp_step. ewp_step; [|failed]. answered Hexec.
  ewp_step. apply ewp_find_or_insert_identity; [|failed]. intros u d Hu.
  ewp_step. ewp_step; [|failed..]. by ewp_step.
Qed.

Lemma find_or_create_verified_google_identity_wp identity c :
  wp (find_or_create_verified_google_identity identity)
    (fun r d tx => tx = [] /\ settled (fun a d' => exists now,
         google_user identity now c (au_id a) d' /\ au_upstream_auth_time a = identity_auth_time identity)
       never c r d) c [].
Proof.
  unfold find_or_create_verified_google_identity, lock_verified_google_identity_tx.
  apply wp_ewp. ewp_step; [|failed].
  ewp_step. ewp_step; [|failed]. answered Hexec.
  ewp_step. ewp_step; [|failed]. answered Hexec.
  ewp_step. apply ewp_upsert_identity; [|failed]. intros u d Hu.
  ewp_step. ewp_step; [|failed|].
  - ewp_step. split; [done|]. by eexists.
  - split; [done|]. eapply (settled_hidden _ _ _ {| au_id := u; au_upstream_auth_time := _ |}).
    by eexists.
Qed.

Lemma user_profile_wp u c :
  wp (user_profile u) (fun r d tx => tx = [] /\ settled (reads (fun p => p =
    option_map (fun p => {| pr_name := up_name p; pr_given_name := up_given_name p;
      pr_family_name := up_family_name p; pr_picture := up_picture p;
      pr_verified_email := up_verified_email p |}) (user_profiles c !! u)) c) never c r d) c [].
Proof.
  unfold user_profile. apply wp_ewp. ewp_step; [|failed]. answered Hexec. split; [done|]. failed.
Qed.
