(* ===== verification/LogoutTheory.v ===== *)
(** * LogoutTheory: relying-party logout implements its specification *)

From Stdlib Require Import Ascii ZArith.
From S2P Require Import Prelude External Schema Effects Evolution Identity Cimd OAuth Jose Keys Google Credentials CredentialsSpec CredentialsTheory CredentialsInvariant Database Logout Browser StoresSpec DatabaseTheory.

Section Evolution.
Context `{Crypto}.

Lemma consume_logout_le t l : logout_le l (consume_logout t l).
Proof. unfold logout_le. repeat split. by intros _; eexists. Qed.
Lemma consume_logout_evolves id t d :
  evolves d (set_logouts (alter (consume_logout t) id (logout_challenges d)) d).
Proof. apply evolves_set_logouts, table_le_alter; [apply _|]. intros; apply consume_logout_le. Qed.

Lemma insert_logout_stmt_evolves id csrf s c r st : stmt_steps evolves _ (insert_logout_stmt id csrf s c r st).
Proof. apply stmt_steps_modify. intros clk d d'. eauto with evolves. Qed.
Lemma consume_logout_stmt_evolves id t : stmt_steps evolves _ (consume_logout_stmt id t).
Proof. apply stmt_steps_modify. intros clk d d' [= <-]. apply consume_logout_evolves. Qed.
Lemma revoke_session_stmt_evolves id t : stmt_steps evolves _ (revoke_session_stmt id t).
Proof. apply stmt_steps_modify. intros clk d d' [= <-]. apply revoke_session_at_evolves. Qed.
End Evolution.

#[export] Hint Resolve insert_logout_stmt_evolves consume_logout_stmt_evolves revoke_session_stmt_evolves : stmts.

Section Programs.
Context `{Crypto}.

Lemma logout_insert_evolves s c r st : stmts_ok (stmt_steps evolves) (Logout.insert s c r st).
Proof. unfold Logout.insert, random_credential. solve_stmts. Qed.
#[local] Hint Resolve logout_insert_evolves : stmts.
Lemma begin_evolves s c r st reg : stmts_ok (stmt_steps evolves) (begin s c r st reg).
Proof. unfold begin. solve_stmts. Qed.
Lemma begin_local_evolves s uri : stmts_ok (stmt_steps evolves) (begin_local s uri).
Proof. apply logout_insert_evolves. Qed.
Lemma finish_inner_evolves s ch reg hint : stmts_ok (stmt_steps evolves) (finish_inner s ch reg hint).
Proof. unfold finish_inner, end_session_tx. solve_stmts. Qed.
#[local] Hint Resolve finish_inner_evolves : stmts.
Lemma finish_evolves s ch reg : stmts_ok (stmt_steps evolves) (finish s ch reg).
Proof. unfold finish. solve_stmts. Qed.

(** ** Refinement *)

Lemma logout_insert_wp s client uri state c :
  wp (Logout.insert s client uri state)
    (fun r d tx => tx = [] /\ settled (logout_asked s client uri state c) never c r d) c [].
Proof.
  unfold Logout.insert, random_credential. apply wp_ewp.
  do 2 ewp_step. do 2 ewp_step. ewp_step. ewp_step. ewp_step; [|failed].
  ewp_step. ewp_step; [|failed]. answered Hexec.
  ewp_step. ewp_step; [|failed]. answered Hexec.
  case_match eqn:Hg; [ewp_step; failed|].
  destruct (provider_sessions c !! se_id s) as [ses|] eqn:Hs; [|done]. simpl in Hg. bools_all.
  ewp_step. ewp_step; [|failed]. case_match eqn:Hi; simplify_eq.
  assert (Hok : logout_asked s client uri state c {| lch_id := u; lch_csrf := b64_encode s0; lch_redirect_uri := uri |} d)
    by (eapply LogoutAsked with (s := ses); [by split_and!|exact Hi]).
  ewp_step. ewp_step; [|failed..]. by ewp_step.
Qed.

Lemma begin_wp s client uri state reg c :
  wp (begin s client uri state reg)
    (fun r d tx => tx = [] /\ settled (fun a d =>
       logout_asked s client uri state c a d /\ valid_post_logout_redirect reg client uri = true)
       never c r d) c [].
Proof.
  unfold begin. destruct (valid_post_logout_redirect _ _ _) eqn:Hv; simpl.
  - eapply wp_mono; [apply logout_insert_wp|]. intros r d tx [-> Hr]. split; [done|].
    unfold settled in *. destruct r as [a|e]; [done|]. naive_solver.
  - apply wp_ewp. ewp_step. failed.
Qed.

Lemma finish_inner_wp s challenge reg hint c :
  wp (finish_inner s challenge reg hint)
    (fun r d tx => tx = [] /\ settled (logout_finished s challenge reg hint c) never c r d) c [].
Proof.
  unfold finish_inner, end_session_tx. apply wp_ewp. ewp_step; [|failed].
  ewp_step. ewp_step; [|failed]. answered Hexec.
  destruct (provider_sessions c !! se_id s) as [ses|] eqn:Hs; simpl; [|ewp_step; failed].
  ewp_step. ewp_step; [|failed]. answered Hexec.
  destruct (find_row _ _) as [[k l]|] eqn:Hf; simpl; [|ewp_step; failed].
  apply find_row_Some in Hf as [Hl Hm]. unfold logout_matches in Hm. bools_all. subst k.
  ewp_step. ewp_step; [|failed]. answered Hexec.
  case_match eqn:Hg; [ewp_step; failed|]. bools_all.
  assert (Hopen : logout_open s challenge reg c ses l (clk1 0%N)).
  { split_and!; try done. rewrite andb_false_iff, !negb_false_iff, str_empty_true in *. done. }
  change (option_map _ hint) with (hint_verdict reg s ses l (clk1 0%N) hint).
  assert (Hend : hint = None \/ hint_verdict reg s ses l (clk1 0%N) hint = Some HintAccepted ->
    ewp (end_session_tx (lch_id challenge) (se_id s) (logout_row_of l) (clk1 0%N))
      (fun a c' _ => @nil DB = [] /\ settled (logout_finished s challenge reg hint c) never c (Ok a) c')
      (fun e c' _ => @nil DB = [] /\ settled (logout_finished s challenge reg hint c) never c (Err e) c') c [c]).
  { intros Hh. assert (Hok := LogoutDone s challenge reg hint c ses l _ Hopen Hh).
    unfold end_session_tx.
    ewp_step. ewp_step; [|failed]. answered Hexec.
    ewp_step. ewp_step; [|failed]. answered Hexec.
    ewp_step. ewp_step; [|failed]. answered Hexec.
    ewp_step. ewp_step; [|failed..]. by ewp_step. }
  destruct hint as [h|]; [|apply Hend; by left]. simpl.
  destruct (judge_hint _ _ _ _ _ h) eqn:Hj.
  - ewp_step. failed.
  - ewp_step. split; [done|]. by eapply LogoutForeign; [exact Hopen|simpl; f_equal].
  - apply Hend. right. simpl. by f_equal.
Qed.

Lemma finish_wp s challenge reg c :
  wp (finish s challenge reg)
    (fun r d tx => tx = [] /\ settled (fun o => logout_finished s challenge reg None c (Some o)) never c r d) c [].
Proof.
  unfold finish. apply wp_bind. eapply wp_mono; [apply finish_inner_wp|].
  intros r d tx [-> Hr]. destruct r as [[o|]|e].
  - by intros o' n.
  - exfalso. inversion Hr; subst; discriminate.
  - intros o n. split; [done|]. unfold settled in *. simpl.
    destruct Hr as [->|[[]|[-> [[a Ha]|[? []]]]]]; [by left|].
    right; right. split; [done|]. left. destruct a as [a|]; [by exists a|].
    inversion Ha; subst; discriminate.
Qed.
End Programs.
