(* ===== verification/BrowserTheory.v ===== *)
(** * BrowserTheory: browser authorizations implement their specification *)

From Stdlib Require Import Ascii ZArith.
From S2P Require Import Prelude External Schema Effects Evolution Identity Cimd OAuth Google Credentials CredentialsSpec CredentialsTheory CredentialsInvariant Database Logout Browser StoresSpec DatabaseTheory.

Section Evolution.
Context `{Crypto, UrlLib, JsonLib, JsonDb, UuidLib}.

(** The UPDATE statements set the stage, the four secrets and the session. *)
Lemma with_state_le stage n v cl cs s b : browser_le b (with_state stage n v cl cs s b).
Proof. unfold browser_le. by repeat split. Qed.

Lemma update_browser_where_evolves p f d n d' :
  (forall b, browser_le b (f b)) -> update_browser_where p f d = Ok (n, d') -> evolves d d'.
Proof.
  intros Hf Hd. unfold update_browser_where in Hd. destruct (find_row _ _) as [[id b]|]; simplify_eq; [|done].
  destruct (update_browser_row _ _ _) eqn:Hu; simplify_eq/=. by eapply update_browser_evolves.
Qed.

Lemma update_browser_stmt_evolves id f :
  (forall b, browser_le b (f b)) -> stmt_steps evolves _ (update_browser_stmt id f).
Proof. intros Hf. apply stmt_steps_modify. intros clk d d'. by apply update_browser_evolves. Qed.
Lemma update_where_stmt_evolves p f :
  (forall b, browser_le b (f b)) -> stmt_steps evolves _ (update_where_stmt p f).
Proof. intros Hf clk d r d' Hd. simpl in Hd. by apply update_browser_where_evolves in Hd. Qed.

Lemma insert_start_stmt_evolves start p st n a : stmt_steps evolves _ (insert_start_stmt start p st n a).
Proof. apply stmt_steps_modify. intros clk d d' (b & _ & Hd)%rbind_Ok. eauto with evolves. Qed.
Lemma insert_consent_stmt_evolves id csrf s p st n a :
  stmt_steps evolves _ (insert_consent_stmt id csrf s p st n a).
Proof. apply stmt_steps_modify. intros clk d d' (b & _ & Hd)%rbind_Ok. eauto with evolves. Qed.
Lemma start_google_stmt_evolves id st b : stmt_steps evolves _ (start_google_stmt id st b).
Proof.
  intros clk d r d' Hd. simpl in Hd. destruct (find_row _ _) as [[k row]|]; [|by simplify_eq].
  apply rbind_Ok in Hd as (d1 & Hd & [= <- <-]).
  eapply update_browser_evolves; [|exact Hd]. intros; apply with_state_le.
Qed.
Lemma insert_login_session_stmt_evolves id h u t secs up :
  stmt_steps evolves _ (insert_login_session_stmt id h u t secs up).
Proof. intros clk d r d' Hd. simpl in Hd. case_match; simplify_eq. eauto with evolves. Qed.
End Evolution.

#[export] Hint Resolve with_state_le insert_start_stmt_evolves insert_consent_stmt_evolves
  start_google_stmt_evolves insert_login_session_stmt_evolves : stmts.
#[export] Hint Extern 2 (stmt_steps evolves _ (update_browser_stmt _ _)) =>
  apply update_browser_stmt_evolves; intros; apply with_state_le : stmts.
#[export] Hint Extern 2 (stmt_steps evolves _ (update_where_stmt _ _)) =>
  apply update_where_stmt_evolves; intros; apply with_state_le : stmts.

Section Programs.
Context `{Crypto, UrlLib, JsonLib, JsonDb, UuidLib}.

Lemma checked_revalidate_evolves reg row : stmts_ok (stmt_steps evolves) (checked_revalidate reg row).
Proof. unfold checked_revalidate, instant. solve_stmts. Qed.
Lemma checked_registry_evolves reg row : stmts_ok (stmt_steps evolves) (checked_registry reg row).
Proof. unfold checked_registry, instant. solve_stmts. Qed.
Lemma staged_registry_evolves reg row : stmts_ok (stmt_steps evolves) (staged_registry reg row).
Proof. unfold staged_registry, instant. solve_stmts. Qed.
Lemma checked_fresh_evolves p : stmts_ok (stmt_steps evolves) (checked_fresh p).
Proof. unfold checked_fresh, instant. solve_stmts. Qed.
Lemma checked_approve_evolves p : stmts_ok (stmt_steps evolves) (checked_approve p).
Proof. unfold checked_approve, instant. solve_stmts. Qed.
Lemma or_invalid_evolves {A} (o : option A) : stmts_ok (stmt_steps evolves) (or_invalid o).
Proof. by destruct o. Qed.
Lemma decoded_evolves {A} (o : option A) : stmts_ok (stmt_steps evolves) (decoded o).
Proof. by destruct o. Qed.
#[local] Hint Resolve checked_revalidate_evolves checked_registry_evolves staged_registry_evolves
  checked_fresh_evolves checked_approve_evolves or_invalid_evolves decoded_evolves
  insert_authorization_code_tx_evolves : stmts.
Lemma lock_session_evolves id : stmts_ok (stmt_steps evolves) (lock_session id).
Proof. unfold lock_session. solve_stmts. Qed.
Lemma lock_consent_evolves id s csrf : stmts_ok (stmt_steps evolves) (lock_consent id s csrf).
Proof. unfold lock_consent. solve_stmts. Qed.
Lemma browser_ensure_fresh_evolves s e : stmts_ok (stmt_steps evolves) (Browser.ensure_fresh s e).
Proof. unfold Browser.ensure_fresh. solve_stmts. Qed.
Lemma store_approval_evolves s h sr row p : stmts_ok (stmt_steps evolves) (store_approval s h sr row p).
Proof. unfold store_approval. solve_stmts. Qed.
#[local] Hint Resolve lock_session_evolves lock_consent_evolves browser_ensure_fresh_evolves
  store_approval_evolves : stmts.

Lemma begin_google_with_pre_authorization_evolves p st n a :
  stmts_ok (stmt_steps evolves) (begin_google_with_pre_authorization p st n a).
Proof. unfold begin_google_with_pre_authorization, random_credential. solve_stmts. Qed.
Lemma start_google_evolves id st b : stmts_ok (stmt_steps evolves) (start_google id st b).
Proof. unfold start_google. solve_stmts. Qed.
Lemma cancel_google_bound_evolves id st b reg :
  stmts_ok (stmt_steps evolves) (cancel_google_bound id st b reg).
Proof. unfold cancel_google_bound. solve_stmts. Qed.
Lemma begin_authenticated_with_pre_authorization_evolves s p st n a :
  stmts_ok (stmt_steps evolves) (begin_authenticated_with_pre_authorization s p st n a).
Proof. unfold begin_authenticated_with_pre_authorization, random_credential. solve_stmts. Qed.
Lemma session_upstream_auth_time_evolves s : stmts_ok (stmt_steps evolves) (session_upstream_auth_time s).
Proof. unfold session_upstream_auth_time. solve_stmts. Qed.
Lemma claim_callback_evolves st b : stmts_ok (stmt_steps evolves) (claim_callback st b).
Proof. unfold claim_callback, random_credential. solve_stmts. Qed.
Lemma fail_callback_evolves cl : stmts_ok (stmt_steps evolves) (fail_callback cl).
Proof. unfold fail_callback, fail_callback_stmt. solve_stmts. Qed.
Lemma deny_callback_evolves cl reg : stmts_ok (stmt_steps evolves) (deny_callback cl reg).
Proof. unfold deny_callback, deny_callback_stmt. solve_stmts. Qed.
Lemma complete_callback_bound_evolves cl i l reg :
  stmts_ok (stmt_steps evolves) (complete_callback_bound cl i l reg).
Proof. unfold complete_callback_bound, sign_in_stmt, random_credential. solve_stmts. Qed.
Lemma approve_evolves s h reg : stmts_ok (stmt_steps evolves) (approve s h reg).
Proof. unfold approve. solve_stmts. Qed.
Lemma approve_pre_authorized_evolves s h reg :
  stmts_ok (stmt_steps evolves) (approve_pre_authorized s h reg).
Proof. unfold approve_pre_authorized. solve_stmts. Qed.
Lemma consent_view_evolves s h reg : stmts_ok (stmt_steps evolves) (consent_view s h reg).
Proof. unfold consent_view. solve_stmts. Qed.
Lemma deny_bound_evolves s h reg : stmts_ok (stmt_steps evolves) (deny_bound s h reg).
Proof. unfold deny_bound. solve_stmts. Qed.
End Programs.

(** ** Rules of the operations' parts

    In a transaction an error discards the working copies, so what the
    error rule asks is the same for all of them. *)

Section Rules.
Context `{Crypto, UrlLib, JsonLib, JsonDb, UuidLib}.
Context (R : BrowserError -> DB -> list DB -> Prop) (c d : DB) (HR : forall e tx, R e c tx).

Lemma ewp_checked_revalidate reg b (Q : PendingAuthorizationGrant -> DB -> list DB -> Prop) :
  (forall p, policy_accepts reg b p -> Q p c [d]) ->
  ewp (checked_revalidate reg (consent_row b)) Q R c [d].
Proof.
  intros HQ. unfold checked_revalidate, instant. do 4 ewp_step. ewp_step.
  destruct (revalidate _ _ _ _) as [p|e] eqn:Hp; [|by split]. apply HQ. by eexists _, _.
Qed.

Lemma ewp_checked_registry reg b (Q : unit -> DB -> list DB -> Prop) :
  (registry_accepts reg b -> Q tt c [d]) ->
  ewp (checked_registry reg (consent_row b)) Q R c [d].
Proof.
  intros HQ. unfold checked_registry, instant. do 4 ewp_step. ewp_step.
  destruct (validate_optional_registry _ _ _ _) as [[]|e] eqn:Hp; [|by split].
  apply HQ. by eexists _, _.
Qed.

Lemma ewp_staged_registry reg b (Q : unit -> DB -> list DB -> Prop) d1 :
  Q tt c [d1; d] -> ewp (staged_registry reg (consent_row b)) Q R c [d1; d].
Proof.
  intros HQ. unfold staged_registry, instant. do 4 ewp_step.
  destruct (validate_optional_registry _ _ _ _) as [[]|e]; [by ewp_step|].
  do 2 ewp_step; [|by apply HR]. do 2 ewp_step; [|by apply HR]. by ewp_step.
Qed.

Lemma ewp_checked_fresh p (Q : unit -> DB -> list DB -> Prop) :
  (pending_fresh p -> Q tt c [d]) -> ewp (checked_fresh p) Q R c [d].
Proof.
  intros HQ. unfold checked_fresh, instant. do 2 ewp_step. ewp_step.
  destruct (OAuth.ensure_fresh _ _) as [[]|e] eqn:Hp; simpl; [|by split].
  apply HQ. by eexists.
Qed.

Lemma ewp_checked_approve p (Q : ValidatedAuthorizationGrant -> DB -> list DB -> Prop) :
  (forall t g, approve_grant t p true = Ok g -> Q g c [d]) -> ewp (checked_approve p) Q R c [d].
Proof.
  intros HQ. unfold checked_approve, instant. do 2 ewp_step. ewp_step.
  destruct (approve_grant _ _ _) as [g|e] eqn:Hp; simpl; [by eapply HQ|by split].
Qed.

Definition session_row_of (s : session_rec) : SessionRow :=
  {| sw_user_id := ps_user_id s; sw_upstream_auth_time := ps_upstream_auth_time s;
     sw_expires_at := ps_expires_at s; sw_revoked_at := ps_revoked_at s |}.

Lemma ewp_lock_session id (Q : SessionRow -> DB -> list DB -> Prop) :
  (forall s, provider_sessions d !! id = Some s -> Q (session_row_of s) c [d]) ->
  ewp (lock_session id) Q R c [d].
Proof.
  intros HQ. unfold lock_session. do 2 ewp_step; [|by apply HR]. answered Hexec.
  destruct (provider_sessions d !! id) as [s|] eqn:Hs; simpl; ewp_step; [by apply HQ|by apply HR].
Qed.

Lemma ewp_lock_consent id session csrf (Q : ConsentRow -> DB -> list DB -> Prop) :
  (forall b, browser_authorizations d !! id = Some b -> ba_session_id b = Some session ->
     ba_csrf_hash b = Some (hash csrf) -> ba_stage b = awaiting_consent -> Q (consent_row b) c [d]) ->
  ewp (lock_consent id session csrf) Q R c [d].
Proof.
  intros HQ. unfold lock_consent. do 2 ewp_step; [|by apply HR]. answered Hexec.
  destruct (find_row _ _) as [[k b]|] eqn:Hf; simpl; ewp_step; [|by apply HR].
  apply find_row_Some in Hf as [Hb Hc]. unfold consentable in Hc. bools_all. subst k. by apply HQ.
Qed.

Lemma ewp_ensure_fresh s expiry (Q : unit -> DB -> list DB -> Prop) :
  (forall now, ps_revoked_at s = None -> (now < ps_expires_at s)%Z ->
     (forall x, expiry = Some x -> (now < x)%Z) -> Q tt c [d]) ->
  ewp (Browser.ensure_fresh (session_row_of s) expiry) Q R c [d].
Proof.
  intros HQ. unfold Browser.ensure_fresh. do 2 ewp_step; [|by apply HR]. answered Hexec.
  case_match eqn:Hg; ewp_step; [by apply HR|]. bools_all. eapply HQ; [done..|].
  intros x ->. simpl in *. by bools_all.
Qed.
End Rules.

(** ** Starting *)

Section Starting.
Context `{Crypto, UrlLib, JsonLib, JsonDb, UuidLib}.

Lemma begin_google_wp pending state nonce allow c :
  wp (begin_google_with_pre_authorization pending state nonce allow)
    (fun r d tx => tx = [] /\ settled (google_begun pending state nonce allow c) never c r d) c [].
Proof.
  unfold begin_google_with_pre_authorization, random_credential. apply wp_ewp.
  do 2 ewp_step. do 4 (do 2 ewp_step; ewp_step; ewp_step). ewp_step; [|failed].
  ewp_step. apply ewp_checked_fresh; [failed|]. intros Hf.
  ewp_step. ewp_step; [|failed]. case_match eqn:Hi; simplify_eq.
  apply rbind_Ok in Hi as (binding & Hb & Hi).
  match goal with |- context [ret ?start] =>
    assert (Hok : google_begun pending state nonce allow c start d)
      by (eapply GoogleBegun; [done|exact Hb|exact Hi]) end.
  ewp_step. apply ewp_checked_fresh; [failed|]. intros _.
  ewp_step. ewp_step; [|failed..]. by ewp_step.
Qed.

Lemma startable_open id state binding clk d k b :
  find_row (startable id state binding clk) (browser_authorizations d) = Some (k, b) ->
  k = id /\ start_open id state binding d b.
Proof.
  intros [Hb Hs]%find_row_Some. unfold startable in Hs. bools_all. subst k.
  split; [done|]. split_and!; try done. by eexists.
Qed.

Lemma start_google_wp id state binding c :
  wp (start_google id state binding)
    (fun r d tx => tx = [] /\ settled (google_started id state binding c)
                                (google_unreadable id state binding c) c r d) c [].
Proof.
  unfold start_google. apply wp_ewp. ewp_step. ewp_step; [|failed].
  destruct (find_row _ _) as [[k b]|] eqn:Hf; simpl in Hexec.
  - apply startable_open in Hf as [-> Ho]. apply rbind_Ok in Hexec as (d' & Hu & [= <- <-]).
    assert (Hbad : ba_upstream_nonce b = None \/ ba_upstream_verifier b = None ->
      google_unreadable id state binding c (Database DbDecode) d') by (intros; by eapply GoogleUnreadable).
    assert (Hgood : forall n v, ba_upstream_nonce b = Some n -> ba_upstream_verifier b = Some v ->
      google_started id state binding c (n, v) d') by (intros; by eapply GoogleStarted).
    split.
    + ewp_step. simpl. ewp_step. ewp_step.
      destruct (ba_upstream_nonce b) as [n|]; simpl; ewp_step; [|split; [done|eauto with settled]].
      ewp_step. destruct (ba_upstream_verifier b) as [v|]; simpl; ewp_step; [|split; [done|eauto with settled]].
      ewp_step. split; [done|]. by apply Hgood.
    + split; [done|]. destruct (ba_upstream_nonce b) as [n|]; [|eauto with settled].
      destruct (ba_upstream_verifier b) as [v|]; eauto with settled.
  - simplify_eq. split; [|failed]. ewp_step. simpl. ewp_step. failed.
Qed.

Lemma cancel_google_bound_wp id state binding reg c :
  wp (cancel_google_bound id state binding reg)
    (fun r d tx => tx = [] /\ settled (google_cancelled id state binding reg c) never c r d) c [].
Proof.
  unfold cancel_google_bound. apply wp_ewp. ewp_step; [|failed].
  ewp_step. ewp_step; [|failed]. answered Hexec.
  destruct (find_row _ _) as [[k b]|] eqn:Hf; simpl; ewp_step; ewp_step; [|failed].
  apply startable_open in Hf as [-> Ho].
  ewp_step. apply ewp_checked_registry; [failed|]. intros Hr.
  ewp_step. ewp_step; [|failed]. case_match eqn:Hu; simplify_eq.
  assert (Hok := GoogleCancelled id state binding reg c b _ Ho Hr Hu).
  ewp_step. apply ewp_checked_registry; [failed|]. intros _.
  ewp_step. ewp_step; [|failed..]. by ewp_step.
Qed.

Lemma begin_authenticated_wp session pending state nonce allow c :
  wp (begin_authenticated_with_pre_authorization session pending state nonce allow)
    (fun r d tx => tx = [] /\ settled (consent_begun session pending state nonce allow c) never c r d) c [].
Proof.
  unfold begin_authenticated_with_pre_authorization, random_credential. apply wp_ewp.
  do 2 ewp_step. do 2 ewp_step. ewp_step. ewp_step. ewp_step; [|failed].
  ewp_step. apply ewp_lock_session; [failed|]. intros ses Hs.
  ewp_step. apply ewp_ensure_fresh; [failed|]. intros now Hr Hx _.
  ewp_step. apply ewp_checked_fresh; [failed|]. intros Hf.
  ewp_step. ewp_step; [|failed]. case_match eqn:Hi; simplify_eq.
  apply rbind_Ok in Hi as (binding & Hb & Hi).
  match goal with |- context [ret ?handle] =>
    assert (Hok : consent_begun session pending state nonce allow c handle d)
      by (eapply ConsentBegun; [by split_and!|done|exact Hb|exact Hi]) end.
  ewp_step. apply ewp_checked_fresh; [failed|]. intros _.
  ewp_step. ewp_step; [|failed..]. by ewp_step.
Qed.

Lemma session_upstream_auth_time_wp session c :
  wp (session_upstream_auth_time session)
    (fun r d tx => tx = [] /\ settled (reads (fun t => exists s now,
         live_session c (se_id session) s now /\ t = ps_upstream_auth_time s) c) never c r d) c [].
Proof.
  unfold session_upstream_auth_time. apply wp_ewp. ewp_step; [|failed].
  ewp_step. apply ewp_lock_session; [failed|]. intros s Hs.
  ewp_step. apply ewp_ensure_fresh; [failed|]. intros now Hr Hx _.
  ewp_step. ewp_step; [|failed..]. ewp_step. split; [done|]. split; [done|].
  exists s, now. by split_and!.
Qed.
End Starting.

(** ** Google's callback *)

Section Callback.
Context `{Crypto, UrlLib, JsonLib, JsonDb, UuidLib}.

(** An UPDATE by the primary key of a row. *)
Lemma ewp_update_browser id f (Q : unit -> DB -> list DB -> Prop)
    (R : BrowserError -> DB -> list DB -> Prop) c d tx :
  (forall d', update_browser_row id f d = Ok d' -> Q tt c (d' :: tx)) ->
  (forall e tx, R e c tx) ->
  ewp (sql (update_browser_stmt id f)) Q R c (d :: tx).
Proof.
  intros HQ HR. ewp_step; [|by apply HR]. case_match eqn:Hu; simplify_eq. by apply HQ.
Qed.

Lemma claim_callback_wp state binding c :
  wp (claim_callback state binding)
    (fun r d tx => tx = [] /\ settled (callback_taken state binding c) (callback_late state binding c) c r d) c [].
Proof.
  unfold claim_callback, random_credential. apply wp_ewp.
  do 2 ewp_step. ewp_step. ewp_step. ewp_step; [|failed].
  ewp_step. ewp_step; [|failed]. answered Hexec.
  destruct (find_row _ _) as [[id b]|] eqn:Hf; simpl; [|ewp_step; failed].
  ewp_step. destruct (ba_upstream_verifier b) as [v|] eqn:Hv; simpl; ewp_step; [|failed].
  ewp_step. destruct (ba_upstream_nonce b) as [n|] eqn:Hn; simpl; ewp_step; [|failed].
  ewp_step. ewp_step; [|failed]. answered Hexec.
  case_match eqn:Hg; bools_all.
  - ewp_step. apply ewp_update_browser; [|failed]. intros d Hu.
    assert (Hlate := CallbackLate state binding c id b _ d Hf Hg Hu).
    ewp_step. ewp_step; [|failed..]. ewp_step. failed.
  - ewp_step. apply ewp_update_browser; [|failed]. intros d Hu.
    assert (Hok := CallbackTaken state binding c id b _ n v _ d Hf Hn Hv Hg Hu).
    ewp_step. ewp_step; [|failed..]. by ewp_step.
Qed.

Lemma fail_callback_wp claim c :
  wp (fail_callback claim)
    (fun r d tx => tx = [] /\ settled (callback_marked_failed claim c) never c r d) c [].
Proof.
  unfold fail_callback. apply wp_ewp. ewp_step. ewp_step; [|failed].
  unfold update_browser_where in Hexec. destruct (find_row _ _) as [[id b]|] eqn:Hf.
  - destruct (update_browser_row _ _ _) as [d'|] eqn:Hu; simplify_eq/=.
    assert (Hok := CallbackMarkedFailed claim c id b _ Hf Hu).
    split; [|failed]. by ewp_step.
  - simplify_eq/=. split; [|failed]. ewp_step. failed.
Qed.

Lemma deny_callback_wp claim reg c :
  wp (deny_callback claim reg)
    (fun r d tx => tx = [] /\ settled (callback_refused claim reg c) never c r d) c [].
Proof.
  unfold deny_callback. apply wp_ewp. ewp_step; [|failed].
  ewp_step. ewp_step; [|failed]. answered Hexec.
  destruct (find_row _ _) as [[id b]|] eqn:Hf; simpl; [|ewp_step; failed].
  ewp_step. ewp_step; [|failed]. answered Hexec.
  case_match eqn:Hg; bools_all; [ewp_step; failed|].
  ewp_step. apply ewp_checked_revalidate; [failed|]. intros p Hp.
  ewp_step. ewp_step; [|failed].
  assert (Hok := CallbackRefused claim reg c id b _ p _ d Hf Hg Hp Hexec).
  ewp_step. apply ewp_checked_revalidate; [failed|]. intros _ _.
  ewp_step. ewp_step; [|failed..]. by ewp_step.
Qed.

(** The user and session tables do not hold the requests. *)
Lemma google_user_browser identity t d u d' :
  google_user identity t d u d' -> browser_authorizations d' = browser_authorizations d.
Proof.
  intros [v d1 Hu _]. simpl. destruct Hu as [|v d1 d2 _ Hu Hi]; [done|].
  unfold insert_user_row, insert_identity_row in *. by repeat case_match; simplify_eq.
Qed.
Lemma insert_session_browser id r d d' :
  insert_session_row id r d = Ok d' -> browser_authorizations d' = browser_authorizations d.
Proof. unfold insert_session_row. by intros; case_match; simplify_eq. Qed.

Lemma find_claimed_Some claim d id b :
  find_claimed claim d = Some (id, b) ->
  browser_authorizations d !! id = Some b /\ ba_claim_hash b = Some (hash claim)
  /\ ba_stage b = callback_claimed.
Proof. intros [Hb Hc]%find_row_Some. unfold claimed_by in Hc. by bools_all. Qed.

(** The row that is bound to the session is the one that was claimed. *)
Lemma sign_in_row (m : gmap Uuid browser_rec) id b :
  m !! id = Some b -> ba_stage b = callback_claimed ->
  find_row (fun k r => (k ==? id) && (ba_stage r ==? callback_claimed)) m = Some (id, b).
Proof.
  intros Hb Hs. apply find_row_unique; [done| |].
  - by rewrite !bool_decide_eq_true_2.
  - intros k v Hk Hv. by bools_all.
Qed.

Lemma complete_callback_bound_wp claim identity lifetime reg c :
  wp (complete_callback_bound claim identity lifetime reg)
    (fun r d tx => tx = [] /\ settled (signed_in_by claim identity lifetime reg c) (sign_in_late claim c) c r d) c [].
Proof.
  unfold complete_callback_bound, lock_verified_google_identity_tx, random_credential. apply wp_ewp.
  do 2 ewp_step. case_match eqn:Hsecs; [|failed].
  ewp_step; [|failed]. ewp_step. ewp_step; [|failed]. answered Hexec.
  destruct (find_row _ _) as [[id b]|] eqn:Hf; simpl; [|ewp_step; failed].
  destruct (find_claimed_Some _ _ _ _ Hf) as (Hb & Hc & Hst).
  ewp_step. ewp_step; [|failed]. rewrite Hb in Hexec. answered Hexec.
  ewp_step. apply ewp_checked_registry; [failed|]. intros Hreg.
  do 2 ewp_step. ewp_step. ewp_step. do 2 ewp_step.
  ewp_step. ewp_step; [|failed].
  ewp_step. ewp_step; [|failed]. answered Hexec.
  ewp_step. apply ewp_staged_registry; [failed|].
  ewp_step. ewp_step; [|failed]. answered Hexec.
  ewp_step. apply ewp_upsert_identity; [|failed]. intros user d1 Huser.
  ewp_step. ewp_step; [|failed]. case_match eqn:Hses; simplify_eq.
  ewp_step. ewp_step; [|failed]. answered Hexec.
  case_match eqn:Hg; bools_all.
  - ewp_step. ewp_step; [|failed]. simpl.
    ewp_step. apply ewp_update_browser; [|failed]. intros d2 Hu.
    assert (Hlate := SignInLate claim c id b _ d2 Hf Hg Hu).
    ewp_step. ewp_step; [|failed..]. ewp_step. failed.
  - ewp_step. apply ewp_staged_registry; [failed|].
    ewp_step. ewp_step; [|failed..].
    do 2 ewp_step. ewp_step. ewp_step. ewp_step. ewp_step; [|failed].
    assert (Hb2 : browser_authorizations d !! id = Some b)
      by by rewrite (insert_session_browser _ _ _ _ Hses), (google_user_browser _ _ _ _ _ Huser).
    unfold update_browser_where in Hexec. rewrite (sign_in_row _ _ _ Hb2 Hst) in Hexec.
    destruct (update_browser_row _ _ _) as [d2|] eqn:Hu; simplify_eq/=.
    ewp_step. apply ewp_checked_registry; [failed|]. intros _.
    match goal with |- context [ret ?login] =>
      assert (Hok : signed_in_by claim identity lifetime reg c login d0)
        by (eapply SignedInBy; [exact Hsecs|exact Hf|exact Hreg|exact Huser|exact Hses|exact Hg|exact Hu]) end.
    ewp_step. ewp_step; [|failed..]. by ewp_step.
Qed.
End Callback.

(** ** Consent *)

Section Consent.
Context `{Crypto, UrlLib, JsonLib, JsonDb, UuidLib}.

Lemma consent_is_open session handle c s b now :
  provider_sessions c !! se_id session = Some s ->
  browser_authorizations c !! ch_transaction_id handle = Some b ->
  ba_session_id b = Some (se_id session) -> ba_csrf_hash b = Some (hash (ch_csrf handle)) ->
  ba_stage b = awaiting_consent -> ps_revoked_at s = None -> (now < ps_expires_at s)%Z ->
  (forall x, Some (ba_expires_at b) = Some x -> (now < x)%Z) ->
  consent_open session handle c s b now.
Proof. intros. by split_and!; auto. Qed.

(** The locked reads of a consent: a live session and an open request. *)
Lemma ewp_open_consent {A} session handle c (f : SessionRow -> ConsentRow -> M BrowserError A) Q
    (R : BrowserError -> DB -> list DB -> Prop) :
  (forall e tx, R e c tx) ->
  (forall s b now, consent_open session handle c s b now ->
     ewp (f (session_row_of s) (consent_row b)) Q R c [c]) ->
  ewp (session_row <- lock_session (se_id session) ;;
       row <- lock_consent (ch_transaction_id handle) (se_id session) (ch_csrf handle) ;;
       Browser.ensure_fresh session_row (Some (cw_expires_at row)) ;;;
       f session_row row) Q R c [c].
Proof.
  intros HR Hf. ewp_step. apply ewp_lock_session; [done|]. intros s Hs.
  ewp_step. apply ewp_lock_consent; [done|]. intros b Hb H4 H5 H6.
  ewp_step. apply ewp_ensure_fresh; [done|]. intros now Hr Hx He.
  eapply Hf. by apply consent_is_open.
Qed.

Lemma ewp_store_approval (P : browser_rec -> PendingAuthorizationGrant -> Prop) session handle registry
    c s b now pending (Q : string -> DB -> list DB -> Prop) (R : BrowserError -> DB -> list DB -> Prop) :
  consent_open session handle c s b now -> policy_accepts registry b pending -> P b pending ->
  (forall e tx, R e c tx) ->
  (forall code d, consent_given P session handle registry c (approval_outcome code (consent_row b)) d ->
     Q code c [d]) ->
  ewp (store_approval session handle (session_row_of s) (consent_row b) pending) Q R c [c].
Proof.
  intros Ho Hp HP HR HQ. unfold store_approval.
  ewp_step. apply ewp_checked_approve; [done|]. intros ti g Hg.
  ewp_step. eapply ewp_insert_authorization_code_tx; [exact (proj1 (proj1 Ho))| |by auto].
  intros raw id t binding d1 Hbi Hi.
  ewp_step. apply ewp_update_browser; [|done]. intros d Hu.
  ewp_step. apply HQ. by eapply ConsentGiven.
Qed.

Lemma approve_wp session handle registry c :
  wp (approve session handle registry)
    (fun r d tx => tx = [] /\ settled (consent_given by_user session handle registry c) never c r d) c [].
Proof.
  unfold approve. apply wp_ewp. ewp_step; [|failed].
  apply ewp_open_consent; [failed|]. intros s b now Ho.
  ewp_step. apply ewp_checked_revalidate; [failed|]. intros p Hp.
  ewp_step. apply (ewp_store_approval by_user _ _ registry _ _ _ now); [done..|failed|]. intros code d Hok.
  ewp_step. apply ewp_checked_revalidate; [failed|]. intros _ _.
  ewp_step. ewp_step; [|failed..]. by ewp_step.
Qed.

Lemma approve_pre_authorized_wp session handle registry c :
  wp (approve_pre_authorized session handle registry)
    (fun r d tx => tx = [] /\ settled (consent_decided session handle registry c) never c r d) c [].
Proof.
  unfold approve_pre_authorized. apply wp_ewp. ewp_step; [|failed].
  apply ewp_open_consent; [failed|]. intros s b now Ho.
  ewp_step. apply ewp_checked_revalidate; [failed|]. intros p Hp. simpl.
  case_match eqn:Hg; bools_all.
  - ewp_step. split; [done|]. apply (ConsentAsked _ _ _ _ s b now p); [done..|].
    unfold pre_authorized. intros [Ha Hb]. destruct Hg; congruence.
  - ewp_step. apply (ewp_store_approval (pre_authorized registry) _ _ registry _ _ _ now);
      [done|done|by split|failed|].
    intros code d Hok. apply ConsentPassed in Hok.
    ewp_step. apply ewp_checked_revalidate; [failed|]. intros p' _.
    case_match; [ewp_step; ewp_step; [ewp_step|]; failed|].
    ewp_step. apply ewp_ensure_fresh; [failed|]. intros _ _ _ _.
    ewp_step. ewp_step; [|failed..]. by ewp_step.
Qed.

Lemma consent_view_wp session handle registry c :
  wp (consent_view session handle registry)
    (fun r d tx => tx = [] /\ settled (consent_shown session handle registry c) never c r d) c [].
Proof.
  unfold consent_view. apply wp_ewp. ewp_step; [|failed].
  apply ewp_open_consent; [failed|]. intros s b now Ho.
  ewp_step. apply ewp_checked_revalidate; [failed|]. intros p Hp.
  ewp_step. ewp_step. destruct (display_name _ _) as [name|] eqn:Hn; simpl; [|failed].
  ewp_step. ewp_step; [|failed]. answered Hexec.
  ewp_step. apply ewp_checked_revalidate; [failed|]. intros _ _.
  match goal with |- context [ret ?view] =>
    assert (Hok : consent_shown session handle registry c view c)
      by (exact (ConsentShown _ _ _ _ s b now p name Ho Hp Hn)) end.
  ewp_step. ewp_step; [|failed..]. by ewp_step.
Qed.

Lemma deny_bound_wp session handle registry c :
  wp (deny_bound session handle registry)
    (fun r d tx => tx = [] /\ settled (consent_refused session handle registry c) never c r d) c [].
Proof.
  unfold deny_bound. apply wp_ewp. ewp_step; [|failed].
  apply ewp_open_consent; [failed|]. intros s b now Ho.
  ewp_step. apply ewp_checked_registry; [failed|]. intros Hr.
  ewp_step. apply ewp_update_browser; [|failed]. intros d Hu.
  assert (Hok := ConsentRefused session handle registry c s b now d Ho Hr Hu).
  ewp_step. apply ewp_checked_registry; [failed|]. intros _.
  ewp_step. ewp_step; [|failed..]. by ewp_step.
Qed.
End Consent.
