(* ===== verification/StoresInvariant.v ===== *)
(** * StoresInvariant: every operation keeps the whole database well-formed

    The invariants of the requests, logouts and identities, beside that of
    the credentials (CredentialsSpec.v); the order on stages along which
    requests move; and that every operation's specification respects them. *)

From Stdlib Require Import Ascii ZArith.
From S2P Require Import Prelude External Schema Effects Evolution Identity Cimd OAuth Jose Keys Google Credentials CredentialsSpec CredentialsTheory CredentialsInvariant Database Logout Browser StoresSpec DatabaseTheory LogoutTheory BrowserTheory.

(** ** The invariants *)

(** Which secrets a request still holds at each stage. *)
Definition stage_ok (b : browser_rec) : Prop :=
  match ba_stage b with
  | awaiting_start | awaiting_google =>
      is_Some (ba_upstream_state_hash b) /\ is_Some (ba_browser_binding_hash b)
      /\ is_Some (ba_upstream_nonce b) /\ is_Some (ba_upstream_verifier b)
      /\ ba_claim_hash b = None /\ ba_csrf_hash b = None /\ ba_session_id b = None
  | callback_claimed =>
      ba_upstream_verifier b = None /\ is_Some (ba_claim_hash b)
      /\ ba_csrf_hash b = None /\ ba_session_id b = None
  | awaiting_consent =>
      ba_upstream_verifier b = None /\ ba_claim_hash b = None
      /\ is_Some (ba_csrf_hash b) /\ is_Some (ba_session_id b)
  | approved =>
      ba_upstream_verifier b = None /\ ba_claim_hash b = None
      /\ ba_csrf_hash b = None /\ is_Some (ba_session_id b)
  | denied | failed | expired => ba_upstream_verifier b = None /\ ba_csrf_hash b = None
  end.

Definition request_wf (d : DB) (b : browser_rec) : Prop :=
  stage_ok b /\ (ba_expires_at b <= ba_created_at b + minutes 10)%Z
  /\ (forall s, ba_session_id b = Some s -> is_Some (provider_sessions d !! s)).

(** A column that identifies the row, where it is not NULL. *)
Definition opt_unique {V K} (key : V -> option K) (m : gmap Uuid V) : Prop :=
  forall i j v w k, m !! i = Some v -> m !! j = Some w -> key v = Some k -> key w = Some k -> i = j.

Record browser_wf (d : DB) : Prop := {
  bw_rows : map_Forall (fun _ => request_wf d) (browser_authorizations d);
  bw_claim : opt_unique ba_claim_hash (browser_authorizations d);
  bw_state : opt_unique ba_upstream_state_hash (browser_authorizations d);
}.

Definition logout_wf (d : DB) (l : logout_rec) : Prop :=
  is_Some (provider_sessions d !! lc_session_id l)
  /\ (lc_expires_at l <= lc_created_at l + minutes 10)%Z /\ len (lc_csrf_hash l) = 32%Z.
Definition logouts_wf (d : DB) : Prop := map_Forall (fun _ => logout_wf d) (logout_challenges d).

(** An identity is Google's and belongs to one user, who has no other. *)
Record identities_wf (d : DB) : Prop := {
  iw_rows : forall k u, external_identities d !! k = Some u ->
    k.1 = google_issuer_text /\ k.2 <> EmptyString /\ is_Some (users d !! u);
  iw_inj : forall k k' u, external_identities d !! k = Some u ->
    external_identities d !! k' = Some u -> k = k';
}.

(** A revoked session has no live refresh family. *)
Definition revoked_together (d : DB) : Prop :=
  forall i f, refresh_families d !! i = Some f -> session_revoked d (rf_session_id f) -> family_revoked d i.

Record system_wf `{Crypto, UrlLib, JsonLib, JsonDb} (d : DB) : Prop := {
  sw_store : store_wf d;
  sw_revoked : revoked_together d;
  sw_browser : browser_wf d;
  sw_logouts : logouts_wf d;
  sw_identities : identities_wf d;
}.

(** ** The order on requests *)

Definition stage_le (b b' : browser_rec) : Prop := rtc stage_step (ba_stage b) (ba_stage b').
#[export] Instance stage_le_preorder : PreOrder stage_le.
Proof. split; [intros b; apply rtc_refl|intros b1 b2 b3; unfold stage_le; by etrans]. Qed.

(** What every operation moves along. *)
Record moves (d d' : DB) : Prop := {
  mv_evolves : evolves d d';
  mv_stages : table_le stage_le (browser_authorizations d) (browser_authorizations d');
}.
#[export] Instance moves_preorder : PreOrder moves.
Proof.
  split; [intros d; split; reflexivity|].
  intros d1 d2 d3 [] []. split; by etrans.
Qed.

Lemma session_revoked_moves d d' id : moves d d' -> session_revoked d id -> session_revoked d' id.
Proof. intros [He _]. by apply session_revoked_evolves. Qed.
Lemma family_revoked_moves d d' id : moves d d' -> family_revoked d id -> family_revoked d' id.
Proof. intros [He _]. by apply family_revoked_evolves. Qed.

Definition final_stage (s : Stage) : bool :=
  match s with approved | denied | failed | expired => true | _ => false end.
Lemma final_stage_rtc s s' : rtc stage_step s s' -> final_stage s = true -> s' = s.
Proof. intros Hr Hf. destruct Hr as [|s s1 s' Hs _]; [done|]. by destruct Hs. Qed.

(** A request never comes back to a stage it left. *)
Definition rank (s : Stage) : nat :=
  match s with
  | awaiting_start => 0 | awaiting_google => 1 | callback_claimed => 2 | awaiting_consent => 3
  | approved | denied | failed | expired => 4
  end.
Lemma stage_step_rank s s' : stage_step s s' -> (rank s < rank s')%nat.
Proof. destruct 1; simpl; lia. Qed.
Lemma stage_rtc_rank s s' : rtc stage_step s s' -> s' = s \/ (rank s < rank s')%nat.
Proof.
  induction 1 as [|s s1 s' Hs _ IH]; [by left|]. right. apply stage_step_rank in Hs.
  destruct IH as [->|IH]; lia.
Qed.

(** ** Frames *)

(** The tables of requests, logouts, users and identities are as before. *)
Record others_kept (d d' : DB) : Prop := {
  ok_users : users d' = users d;
  ok_identities : external_identities d' = external_identities d;
  ok_browser : browser_authorizations d' = browser_authorizations d;
  ok_logouts : logout_challenges d' = logout_challenges d;
}.
#[export] Instance others_kept_preorder : PreOrder others_kept.
Proof. split; [intros d; by split|]. intros d1 d2 d3 [] []. split; congruence. Qed.

(** The credential tables are as before. *)
Record credentials_kept (d d' : DB) : Prop := {
  ck_sessions : provider_sessions d' = provider_sessions d;
  ck_codes : authorization_codes d' = authorization_codes d;
  ck_families : refresh_families d' = refresh_families d;
  ck_members : refresh_token_members d' = refresh_token_members d;
}.
#[export] Instance credentials_kept_preorder : PreOrder credentials_kept.
Proof. split; [intros d; by split|]. intros d1 d2 d3 [] []. split; congruence. Qed.

Section Frames.
Context `{Crypto, UrlLib, JsonLib, JsonDb}.
Implicit Types d : DB.

Lemma store_wf_frame d d' : evolves d d' -> credentials_kept d d' -> store_wf d -> store_wf d'.
Proof.
  intros He [Hs Hc Hf Hm] Hwf. split; rewrite ?Hs, ?Hc, ?Hf, ?Hm; try apply Hwf.
  - intros i s Hi. eapply session_wf_evolves; [done|reflexivity|]. by eapply (wf_sessions _ Hwf).
  - intros i s Hi. eapply code_wf_evolves; [done|reflexivity|]. by eapply (wf_codes _ Hwf).
  - intros i s Hi. eapply family_wf_evolves; [done|reflexivity|]. by eapply (wf_families _ Hwf).
  - intros i s Hi. eapply member_wf_step; [done|]. by eapply (wf_members _ Hwf).
Qed.

Lemma session_known d d' s : evolves d d' ->
  is_Some (provider_sessions d !! s) -> is_Some (provider_sessions d' !! s).
Proof. intros He [r Hr]. destruct (ev_sessions _ _ He _ _ Hr) as (r' & Hr' & _). by eexists. Qed.
Lemma request_wf_evolves d d' b : evolves d d' -> request_wf d b -> request_wf d' b.
Proof. intros He (Ho & Hx & Hs). split_and!; [done..|]. intros s Hb. eapply session_known; eauto. Qed.
Lemma logout_wf_evolves d d' l : evolves d d' -> logout_wf d l -> logout_wf d' l.
Proof. intros He (Hs & ? & ?). split_and!; [|done..]. by eapply session_known. Qed.

Lemma browser_wf_frame d d' : evolves d d' ->
  browser_authorizations d' = browser_authorizations d -> browser_wf d -> browser_wf d'.
Proof.
  intros He Hb [Hr Hc Hs]. split; rewrite ?Hb; [|done..].
  intros i b Hi. eapply request_wf_evolves; [done|]. by eapply Hr.
Qed.
Lemma logouts_wf_frame d d' : evolves d d' ->
  logout_challenges d' = logout_challenges d -> logouts_wf d -> logouts_wf d'.
Proof.
  intros He Hl Hwf i l Hi. rewrite Hl in Hi. eapply logout_wf_evolves; [done|]. by eapply Hwf.
Qed.
Lemma identities_wf_frame d d' : evolves d d' ->
  external_identities d' = external_identities d -> identities_wf d -> identities_wf d'.
Proof.
  intros He Hi [Hr Hj]. split; rewrite ?Hi; [|done].
  intros k u Hk. destruct (Hr _ _ Hk) as (? & ? & [x Hu]). split_and!; [done..|].
  destruct (ev_users _ _ He _ _ Hu) as (y & Hy & _). by eexists.
Qed.

Lemma revoked_together_frame d d' :
  provider_sessions d' = provider_sessions d -> refresh_families d' = refresh_families d ->
  revoked_together d -> revoked_together d'.
Proof. unfold revoked_together, session_revoked, family_revoked. by intros -> ->. Qed.

(** What is left of an operation that changes credentials only. *)
Lemma system_wf_credentials d d' :
  evolves d d' -> others_kept d d' -> store_wf d' -> revoked_together d' ->
  system_wf d -> system_wf d' /\ moves d d'.
Proof.
  intros He [Hu Hi Hb Hl] Hs Hr [_ _ Hwb Hwl Hwi]. split; [split|split; [done|]].
  - done.
  - done.
  - by eapply browser_wf_frame.
  - by eapply logouts_wf_frame.
  - by eapply identities_wf_frame.
  - rewrite Hb. reflexivity.
Qed.
End Frames.

(** ** Credentials: the other tables are kept *)

Section Credentials.
Context `{Crypto, UrlLib, JsonLib, JsonDb}.
Implicit Types d : DB.

Ltac row_kept := intros; repeat case_match; simplify_eq; by split.

Lemma insert_session_kept id r d d' : insert_session_row id r d = Ok d' -> others_kept d d'.
Proof. unfold insert_session_row. row_kept. Qed.
Lemma insert_code_kept id r d d' : insert_code_row id r d = Ok d' -> others_kept d d'.
Proof. unfold insert_code_row. row_kept. Qed.
Lemma insert_family_kept id r d d' : insert_family_row id r d = Ok d' -> others_kept d d'.
Proof. unfold insert_family_row. row_kept. Qed.
Lemma insert_member_kept id r d d' : insert_member_row id r d = Ok d' -> others_kept d d'.
Proof. unfold insert_member_row. row_kept. Qed.

Lemma exchange_success_kept raw client uri res v reg d r d' :
  exchange_success raw client uri res v reg d r d' -> others_kept d d'.
Proof.
  intros [id code s now token d1 _ _ _ _ _ _ _ _ Hfam].
  destruct Hfam as [|fam mem tok b d1 d2 _ _ Hfam Hmem]; [by split|].
  apply insert_family_kept in Hfam as []. apply insert_member_kept in Hmem as [].
  simpl in *. split; congruence.
Qed.
Lemma exchange_replay_kept raw client uri res v reg d d' :
  exchange_replay raw client uri res v reg d d' -> others_kept d d'.
Proof. intros []. by split. Qed.
Lemma rotate_success_kept raw client res reg d r d' :
  rotate_success raw client res reg d r d' -> others_kept d d'.
Proof.
  intros [id m f s now token new d1 _ _ _ _ _ _ _ _ _ Hi]. apply insert_member_kept in Hi as [].
  by split.
Qed.
Lemma rotate_replay_kept raw client res reg d d' :
  rotate_replay raw client res reg d d' -> others_kept d d'.
Proof. intros []. by split. Qed.
Lemma session_created_kept user lifetime d r d' : session_created user lifetime d r d' -> others_kept d d'.
Proof. intros []. by eapply insert_session_kept. Qed.
Lemma code_issued_kept session grant lifetime d r d' :
  code_issued session grant lifetime d r d' -> others_kept d d'.
Proof. intros []. by eapply insert_code_kept. Qed.
Lemma token_revoked_kept raw client d r d' : token_revoked raw client d r d' -> others_kept d d'.
Proof. intros []; by split. Qed.
Lemma logged_out_kept id d r d' : logged_out id d r d' -> others_kept d d'.
Proof. intros []. by split. Qed.
End Credentials.

(** ** Credentials: sessions and families are revoked together *)

Section Revocation.
Context `{Crypto, UrlLib, JsonLib, JsonDb}.
Implicit Types d : DB.

(** A new session has no family yet. *)
Lemma insert_session_revoked id r d d' :
  insert_session_row id r d = Ok d' -> store_wf d -> revoked_together d -> revoked_together d'.
Proof.
  unfold insert_session_row. intros Hi Hwf Hr. case_match eqn:Hg; simplify_eq. bools_all.
  intros i f Hf (s & t & Hs & Ht). simpl in *. apply lookup_insert_Some in Hs as [[Heq _]|[_ Hs]].
  - destruct (wf_families _ Hwf _ _ Hf) as (c & s' & _ & Hs' & _). congruence.
  - apply (Hr _ _ Hf). by exists s, t.
Qed.

Lemma revoke_families_revoked p t d : revoked_together d -> revoked_together (revoke_families_where p t d).
Proof.
  intros Hr i f Hf Hs. unfold family_revoked. simpl in *. rewrite lookup_update_rows in *.
  apply fmap_Some in Hf as (f0 & Hf0 & ->). rewrite Hf0. simpl.
  assert (Hs0 : session_revoked d (rf_session_id f0)) by by destruct (p i f0).
  destruct (Hr _ _ Hf0 Hs0) as (f1 & t1 & Hf1 & Ht1). rewrite Hf0 in Hf1. injection Hf1 as <-.
  destruct (p i f0); eexists _, _; (split; [done|]); simpl; [by rewrite Ht1|done].
Qed.

(** Revoking a session and its families. *)
Lemma revoke_session_revoked id t t' d :
  revoked_together d ->
  revoked_together (revoke_families_where (fun _ f => rf_session_id f ==? id) t (revoke_session_at id t' d)).
Proof.
  intros Hr i f Hf (s & ts & Hs & Hts). unfold family_revoked. simpl in *.
  rewrite lookup_update_rows in *. apply fmap_Some in Hf as (f0 & Hf0 & ->). rewrite Hf0. simpl.
  destruct (decide (rf_session_id f0 = id)) as [Heq|Hne].
  - rewrite bool_decide_eq_true_2 by done. by eexists _, _.
  - rewrite bool_decide_eq_false_2 in * by done. rewrite lookup_alter_ne in Hs by done.
    assert (Hs0 : session_revoked d (rf_session_id f0)) by by exists s, ts.
    destruct (Hr _ _ Hf0 Hs0) as (f1 & t1 & Hf1 & Ht1). rewrite Hf0 in Hf1. injection Hf1 as <-.
    by eexists _, _.
Qed.

Lemma insert_member_revoked id r d d' :
  insert_member_row id r d = Ok d' -> revoked_together d -> revoked_together d'.
Proof. unfold insert_member_row. intros Hi. case_match; simplify_eq. by apply revoked_together_frame. Qed.

Lemma family_started_revoked id code s now d token d' :
  family_started id code s now d token d' -> provider_sessions d !! ac_session_id code = Some s ->
  ps_revoked_at s = None -> revoked_together d -> revoked_together d'.
Proof.
  intros [|fam mem tok b d1 d2 _ _ Hfam Hmem] Hs Hlive Hr; [done|].
  unfold insert_family_row in Hfam. case_match eqn:Hg; simplify_eq. bools_all.
  eapply insert_member_revoked; [exact Hmem|].
  intros i f Hf (s' & t & Hs' & Ht). unfold family_revoked. simpl in *.
  apply lookup_insert_Some in Hf as [[<- <-]|[Hne Hf]]; [simpl in *; congruence|].
  rewrite lookup_insert_ne by done. apply (Hr _ _ Hf). by exists s', t.
Qed.

Lemma exchange_success_revoked raw client uri res v reg d r d' :
  exchange_success raw client uri res v reg d r d' -> store_wf d -> revoked_together d -> revoked_together d'.
Proof.
  intros [id code s now token d1 Hf Hs _ _ _ _ _ Hlive Hfam] _ Hr.
  by eapply family_started_revoked.
Qed.
Lemma exchange_replay_revoked raw client uri res v reg d d' :
  exchange_replay raw client uri res v reg d d' -> store_wf d -> revoked_together d -> revoked_together d'.
Proof. intros [] _. apply revoke_families_revoked. Qed.
Lemma rotate_success_revoked raw client res reg d r d' :
  rotate_success raw client res reg d r d' -> store_wf d -> revoked_together d -> revoked_together d'.
Proof.
  intros [id m f s now token new d1 _ _ _ _ _ _ _ _ _ Hi] _ Hr.
  eapply revoked_together_frame; [..|by eapply insert_member_revoked]; done.
Qed.
Lemma rotate_replay_revoked raw client res reg d d' :
  rotate_replay raw client res reg d d' -> store_wf d -> revoked_together d -> revoked_together d'.
Proof. intros [] _. apply revoke_families_revoked. Qed.
Lemma session_created_revoked user lifetime d r d' :
  session_created user lifetime d r d' -> store_wf d -> revoked_together d -> revoked_together d'.
Proof. intros []. by eapply insert_session_revoked. Qed.
Lemma insert_code_revoked id r d d' : insert_code_row id r d = Ok d' -> revoked_together d -> revoked_together d'.
Proof. unfold insert_code_row. intros Hi. case_match; simplify_eq. by apply revoked_together_frame. Qed.
Lemma code_issued_revoked session grant lifetime d r d' :
  code_issued session grant lifetime d r d' -> store_wf d -> revoked_together d -> revoked_together d'.
Proof. intros [] _. by eapply insert_code_revoked. Qed.
Lemma token_revoked_revoked raw client d r d' :
  token_revoked raw client d r d' -> store_wf d -> revoked_together d -> revoked_together d'.
Proof. intros [] _; [done..|apply revoke_families_revoked]. Qed.
Lemma logged_out_revoked id d r d' :
  logged_out id d r d' -> store_wf d -> revoked_together d -> revoked_together d'.
Proof. intros [] _. apply revoke_session_revoked. Qed.
End Revocation.

(** ** Requests: rows and stages *)

Section Requests.
Context `{Crypto, UrlLib, JsonLib, JsonDb, UuidLib}.
Implicit Types d : DB.

Lemma opt_unique_insert {V K} `{EqDecision K} (key : V -> option K) (m : gmap Uuid V) id v :
  opt_unique key m ->
  (forall i w k, delete id m !! i = Some w -> key v = Some k -> key w <> Some k) ->
  opt_unique key (<[id := v]> m).
Proof.
  intros Hm Hv i j x y k Hi Hj Hx Hy. apply lookup_insert_Some in Hi, Hj.
  destruct Hi as [[<- <-]|[Hi1 Hi]], Hj as [[<- <-]|[Hj1 Hj]]; [done| | |by eauto].
  - destruct (Hv j y k); [|done..]. by rewrite lookup_delete_ne.
  - destruct (Hv i x k); [|done..]. by rewrite lookup_delete_ne.
Qed.

Lemma not_taken {V} (col : V -> option string) x (m : gmap Uuid V) :
  taken col x m = false -> forall i w k, m !! i = Some w -> x = Some k -> col w <> Some k.
Proof.
  unfold taken. intros Ht i w k Hw ->. rewrite exists_row_false in Ht. specialize (Ht _ _ Hw). by bools_all.
Qed.

(** A row that satisfies the table's constraints may be put at its key. *)
Lemma browser_wf_put id r d :
  evolves d (set_browser (<[id := r]> (browser_authorizations d)) d) ->
  browser_row_ok id r d = true -> stage_ok r -> browser_wf d ->
  browser_wf (set_browser (<[id := r]> (browser_authorizations d)) d).
Proof.
  intros He Hok Hst [Hr Hc Hs]. unfold browser_row_ok in Hok. bools_all. split; simpl.
  - apply map_Forall_insert_2.
    + split_and!; [done..|]. intros s Hses. rewrite Hses in *. simpl in *. by bools_all.
    + intros i b Hi. eapply request_wf_evolves; [exact He|]. by eapply Hr.
  - apply opt_unique_insert; [done|]. by apply not_taken.
  - apply opt_unique_insert; [done|]. by apply not_taken.
Qed.

Lemma put_credentials_kept m d : credentials_kept d (set_browser m d).
Proof. by split. Qed.

Lemma system_wf_put id r d :
  evolves d (set_browser (<[id := r]> (browser_authorizations d)) d) ->
  (forall b, browser_authorizations d !! id = Some b -> stage_le b r) ->
  browser_row_ok id r d = true -> stage_ok r -> system_wf d ->
  system_wf (set_browser (<[id := r]> (browser_authorizations d)) d)
  /\ moves d (set_browser (<[id := r]> (browser_authorizations d)) d).
Proof.
  intros He Hle Hok Hst [Hs Hrt Hb Hl Hi]. split; [split|split; [done|]].
  - eapply store_wf_frame; [done|by split|done].
  - by eapply revoked_together_frame.
  - by apply browser_wf_put.
  - by eapply logouts_wf_frame.
  - by eapply identities_wf_frame.
  - intros i b Hbi. simpl. destruct (decide (i = id)) as [->|Hne].
    + exists r. rewrite lookup_insert_eq. eauto.
    + exists b. by rewrite lookup_insert_ne.
Qed.

Lemma insert_browser_wf id r d d' :
  insert_browser_row id r d = Ok d' -> stage_ok r -> system_wf d -> system_wf d' /\ moves d d'.
Proof.
  intros Hi Hst Hwf. pose proof (insert_browser_evolves _ _ _ _ Hi) as He.
  unfold insert_browser_row in Hi. case_match eqn:Hg; simplify_eq. bools_all.
  apply system_wf_put; try done. congruence.
Qed.

(** An UPDATE that takes the row one step. *)
Lemma update_browser_wf id f d d' b :
  update_browser_row id f d = Ok d' -> browser_authorizations d !! id = Some b ->
  (forall b, browser_le b (f b)) -> stage_step (ba_stage b) (ba_stage (f b)) ->
  (stage_ok b -> stage_ok (f b)) -> system_wf d -> system_wf d' /\ moves d d'.
Proof.
  intros Hu Hb Hf Hst Hok Hwf. pose proof (update_browser_evolves _ _ _ _ Hf Hu) as He.
  unfold update_browser_row in Hu. rewrite Hb in Hu. case_match eqn:Hg; simplify_eq.
  apply system_wf_put; try done.
  - intros b' Hb'. simplify_eq. by apply rtc_once.
  - apply Hok. by eapply (bw_rows _ (sw_browser _ Hwf)).
Qed.

(** *** The updates keep what each stage holds *)
Ltac stage_update :=
  unfold stage_ok; intros Hs Hok; simpl; rewrite Hs in Hok; destruct_and?; by split_and!.

Lemma started_ok b : ba_stage b = awaiting_start -> stage_ok b -> stage_ok (started b).
Proof. stage_update. Qed.
Lemma cancelled_ok b : ba_stage b = awaiting_start -> stage_ok b -> stage_ok (cancelled b).
Proof. stage_update. Qed.
Lemma expired_before_claim_ok b : ba_stage b = awaiting_google -> stage_ok b -> stage_ok (expired_before_claim b).
Proof. stage_update. Qed.
Lemma claimed_ok h b : ba_stage b = awaiting_google -> stage_ok b -> stage_ok (claimed h b).
Proof. stage_update. Qed.
Lemma callback_failed_ok b : ba_stage b = callback_claimed -> stage_ok b -> stage_ok (callback_failed b).
Proof. stage_update. Qed.
Lemma callback_denied_ok b : ba_stage b = callback_claimed -> stage_ok b -> stage_ok (callback_denied b).
Proof. stage_update. Qed.
Lemma expired_after_claim_ok b : ba_stage b = callback_claimed -> stage_ok b -> stage_ok (expired_after_claim b).
Proof. stage_update. Qed.
Lemma signed_in_ok s h b : ba_stage b = callback_claimed -> stage_ok b -> stage_ok (signed_in s h b).
Proof. stage_update. Qed.
Lemma consented_ok b : ba_stage b = awaiting_consent -> stage_ok b -> stage_ok (consented b).
Proof. stage_update. Qed.
Lemma consent_denied_ok b : ba_stage b = awaiting_consent -> stage_ok b -> stage_ok (consent_denied b).
Proof. stage_update. Qed.
End Requests.

(** ** Every specification preserves the invariant *)

Section Preservation.
Context `{Crypto, UrlLib, JsonLib, JsonDb, UuidLib}.
Implicit Types d : DB.

Definition preserves (d d' : DB) : Prop := system_wf d -> system_wf d' /\ moves d d'.

Lemma preserves_refl d : preserves d d.
Proof. intros Hwf. split; [done|reflexivity]. Qed.
Lemma preserves_trans d1 d2 d3 : preserves d1 d2 -> preserves d2 d3 -> preserves d1 d3.
Proof.
  intros H12 H23 Hwf. destruct (H12 Hwf) as [Hwf2 Hm2]. destruct (H23 Hwf2) as [Hwf3 Hm3].
  split; [done|by etrans].
Qed.

(** *** Rows *)

Lemma insert_session_preserves id r d d' : insert_session_row id r d = Ok d' -> preserves d d'.
Proof.
  intros Hi Hwf. apply system_wf_credentials; [by eauto with evolves|by eapply insert_session_kept| | |done].
  - eapply store_wf_insert_session; [done|apply Hwf].
  - eapply insert_session_revoked; [done|apply Hwf..].
Qed.

Lemma insert_code_preserves id r d d' : insert_code_row id r d = Ok d' -> code_wf d r -> preserves d d'.
Proof.
  intros Hi Hr Hwf. apply system_wf_credentials; [by eauto with evolves|by eapply insert_code_kept| | |done].
  - eapply store_wf_insert_code; [done..|apply Hwf].
  - eapply insert_code_revoked; [done|apply Hwf].
Qed.

Lemma insert_user_preserves u d d' : insert_user_row u d = Ok d' -> preserves d d'.
Proof.
  intros Hu [Hs Hrt Hb Hl Hi]. pose proof (insert_user_evolves _ _ _ Hu) as He.
  unfold insert_user_row in Hu. case_match; simplify_eq. split; [split|split; [done|reflexivity]].
  - eapply store_wf_frame; [done|by split|done].
  - by eapply revoked_together_frame.
  - by eapply browser_wf_frame.
  - by eapply logouts_wf_frame.
  - by eapply identities_wf_frame.
Qed.

Lemma identities_wf_insert issuer subject u d d' :
  insert_identity_row issuer subject u d = Ok d' -> identities_wf d -> identities_wf d'.
Proof.
  unfold insert_identity_row. intros Hu [Hr Hj]. case_match eqn:Hg; simplify_eq. bools_all.
  match goal with Ha : forallb _ _ = true |- _ => rename Ha into Hall end.
  assert (Hnew : forall k, external_identities d !! k = Some u -> False).
  { intros k Hk. destruct (Hr _ _ Hk) as (Hg1 & _ & _). rewrite forallb_forall in Hall.
    apply elem_of_map_to_list, list_elem_of_In in Hk. specialize (Hall _ Hk). simpl in Hall.
    rewrite negb_true_iff, andb_false_iff, !bool_decide_eq_false in Hall. destruct Hall; congruence. }
  split; simpl.
  - intros k v Hk. apply lookup_insert_Some in Hk as [[<- <-]|[_ Hk]]; [|by apply Hr].
    split_and!; try done. by apply str_empty_false.
  - intros k k' v Hk Hk'. apply lookup_insert_Some in Hk, Hk'.
    destruct Hk as [[<- <-]|[? Hk]], Hk' as [[<- Heq]|[? Hk']]; simplify_eq; [done| | |by eauto].
    + by destruct (Hnew k').
    + by destruct (Hnew k).
Qed.

Lemma insert_identity_preserves issuer subject u d d' :
  insert_identity_row issuer subject u d = Ok d' -> preserves d d'.
Proof.
  intros Hu [Hs Hrt Hb Hl Hi]. pose proof (insert_identity_evolves _ _ _ _ _ Hu) as He.
  pose proof (identities_wf_insert _ _ _ _ _ Hu Hi) as Hi'.
  unfold insert_identity_row in Hu. case_match; simplify_eq. split; [split|split; [done|reflexivity]].
  - eapply store_wf_frame; [done|by split|done].
  - by eapply revoked_together_frame.
  - by eapply browser_wf_frame.
  - by eapply logouts_wf_frame.
  - done.
Qed.

Lemma set_profile_preserves u p d : preserves d (set_profiles (<[u := p]> (user_profiles d)) d).
Proof.
  intros [Hs Hrt Hb Hl Hi]. pose proof (set_profile_evolves u p d) as He.
  split; [split|split; [done|reflexivity]].
  - eapply store_wf_frame; [done|by split|done].
  - by eapply revoked_together_frame.
  - by eapply browser_wf_frame.
  - by eapply logouts_wf_frame.
  - by eapply identities_wf_frame.
Qed.

Lemma logouts_preserves m d :
  table_le logout_le (logout_challenges d) m ->
  (forall i l, m !! i = Some l -> logout_wf d l) ->
  preserves d (set_logouts m d).
Proof.
  intros Hm Hnew [Hs Hrt Hb Hl Hi]. pose proof (evolves_set_logouts d m Hm) as He.
  split; [split|split; [done|reflexivity]].
  - eapply store_wf_frame; [done|by split|done].
  - by eapply revoked_together_frame.
  - by eapply browser_wf_frame.
  - intros i l Hil. simpl in Hil. eapply logout_wf_evolves; [done|by eapply Hnew].
  - by eapply identities_wf_frame.
Qed.

(** *** Users and logouts *)

Lemma user_of_preserves i s d u d' : user_of i s d u d' -> preserves d d'.
Proof.
  intros [v Hv|v d1 d2 _ Hu Hi]; [apply preserves_refl|].
  eapply preserves_trans; [by eapply insert_user_preserves|by eapply insert_identity_preserves].
Qed.
Lemma google_user_preserves identity t d u d' : google_user identity t d u d' -> preserves d d'.
Proof.
  intros [v d1 Hu _]. eapply preserves_trans; [by eapply user_of_preserves|apply set_profile_preserves].
Qed.

Lemma logout_asked_preserves session client uri state d ch d' :
  logout_asked session client uri state d ch d' -> preserves d d'.
Proof.
  intros [id csrf s now t d1 _ Hi]. pose proof (insert_logout_evolves _ _ _ _ Hi) as He.
  unfold insert_logout_row in Hi. case_match eqn:Hg; simplify_eq. bools_all.
  intros Hwf. apply logouts_preserves; [by apply table_le_insert; [apply _|]| |done].
  intros i l Hl. apply lookup_insert_Some in Hl as [[_ <-]|[_ Hl]]; [|by eapply (sw_logouts _ Hwf)].
  split_and!; [done..|]. by apply Z.eqb_eq.
Qed.

Lemma session_ended_preserves id session now d :
  preserves d (session_ended id session now d).
Proof.
  intros Hwf. eapply preserves_trans; [|intros Hwf1|done].
  - apply logouts_preserves; [apply table_le_alter; [apply _|]; intros; apply consume_logout_le|].
    intros i l Hl. apply lookup_alter_Some in Hl as [(<- & l' & Hl & ->)|[_ Hl]];
      by eapply (sw_logouts _ Hwf) in Hl.
  - apply system_wf_credentials; [|by split| | |done].
    + etrans; [apply revoke_session_at_evolves|apply revoke_families_where_evolves].
    + by apply store_wf_revoke_families, store_wf_revoke_session, Hwf1.
    + apply revoke_session_revoked, Hwf1.
Qed.
Lemma logout_finished_preserves session ch reg hint d o d' :
  logout_finished session ch reg hint d o d' -> preserves d d'.
Proof. intros []; [apply preserves_refl|apply session_ended_preserves]. Qed.

(** *** Requests *)

Lemma google_begun_preserves pending st n a d start d' :
  google_begun pending st n a d start d' -> preserves d d'.
Proof.
  intros [start' t b d1 _ _ Hi] Hwf. eapply insert_browser_wf; [done| |done].
  unfold stage_ok. simpl. split_and!; try done; by eexists.
Qed.
Lemma consent_begun_preserves session pending st n a d h d' :
  consent_begun session pending st n a d h d' -> preserves d d'.
Proof.
  intros [id csrf s now t b d1 _ _ _ Hi] Hwf. eapply insert_browser_wf; [done| |done].
  unfold stage_ok. simpl. split_and!; try done; by eexists.
Qed.

(** An UPDATE of a row whose stage is known. *)
Ltac row_update lem :=
  match goal with
  | Hu : update_browser_row _ _ _ = Ok _, Hb : browser_authorizations _ !! _ = Some ?b,
    Hs : ba_stage ?b = _ |- _ =>
      intros Hwf; eapply update_browser_wf;
        [exact Hu|exact Hb|intros; apply with_state_le|simpl; rewrite Hs; constructor|by apply lem|done]
  end.

Lemma google_started_preserves id st bd d r d' : google_started id st bd d r d' -> preserves d d'.
Proof. intros [b n v d1 (Hb & _ & _ & Hs & _) _ _ Hu]. row_update started_ok. Qed.
Lemma google_unreadable_preserves id st bd d e d' : google_unreadable id st bd d e d' -> preserves d d'.
Proof. intros [b d1 (Hb & _ & _ & Hs & _) _ Hu]. row_update started_ok. Qed.
Lemma google_cancelled_preserves id st bd reg d r d' : google_cancelled id st bd reg d r d' -> preserves d d'.
Proof. intros [b d1 (Hb & _ & _ & Hs & _) _ Hu]. row_update cancelled_ok. Qed.

Lemma find_awaiting_Some st bd d id b :
  find_awaiting st bd d = Some (id, b) ->
  browser_authorizations d !! id = Some b /\ ba_stage b = awaiting_google
  /\ ba_upstream_state_hash b = Some (hash st) /\ ba_browser_binding_hash b = Some (hash bd).
Proof. intros [Hb Hs]%find_row_Some. unfold awaiting in Hs. by bools_all. Qed.

Lemma callback_taken_preserves st bd d r d' : callback_taken st bd d r d' -> preserves d d'.
Proof. intros [id b cl n v now d1 (Hb & Hs & _)%find_awaiting_Some _ _ _ Hu]. row_update claimed_ok. Qed.
Lemma callback_late_preserves st bd d e d' : callback_late st bd d e d' -> preserves d d'.
Proof. intros [id b now d1 (Hb & Hs & _)%find_awaiting_Some _ Hu]. row_update expired_before_claim_ok. Qed.
Lemma callback_marked_failed_preserves cl d r d' : callback_marked_failed cl d r d' -> preserves d d'.
Proof. intros [id b d1 (Hb & _ & Hs)%find_claimed_Some Hu]. row_update callback_failed_ok. Qed.

(** The claim's hash names the claimed row only. *)
Lemma callback_refused_row cl reg d r d' :
  callback_refused cl reg d r d' -> browser_wf d ->
  exists id b, find_claimed cl d = Some (id, b) /\ update_browser_row id callback_denied d = Ok d'.
Proof.
  intros [id b now p n d1 Hf _ _ Hu] Hwf. exists id, b. split; [done|].
  destruct (find_claimed_Some _ _ _ _ Hf) as (Hb & Hc & _).
  unfold update_browser_where in Hu. erewrite find_row_unique in Hu; [|exact Hb| |].
  - by destruct (update_browser_row _ _ _); simplify_eq/=.
  - by rewrite Hc, bool_decide_eq_true_2.
  - intros k v Hk Hv. bools_all. by eapply (bw_claim _ Hwf).
Qed.
Lemma callback_refused_preserves cl reg d r d' : callback_refused cl reg d r d' -> preserves d d'.
Proof.
  intros Hr Hwf0. destruct (callback_refused_row _ _ _ _ _ Hr (sw_browser _ Hwf0))
    as (id & b & (Hb & _ & Hs)%find_claimed_Some & Hu).
  revert Hwf0. row_update callback_denied_ok.
Qed.

Lemma sign_in_late_preserves cl d e d' : sign_in_late cl d e d' -> preserves d d'.
Proof. intros [id b now d1 (Hb & _ & Hs)%find_claimed_Some _ Hu]. row_update expired_after_claim_ok. Qed.

Lemma signed_in_by_preserves cl identity l reg d r d' :
  signed_in_by cl identity l reg d r d' -> preserves d d'.
Proof.
  intros [id b user raw sid csrf secs t now d1 d2 d3 _ (Hb0 & _ & Hs)%find_claimed_Some _ Hg Hi _ Hu].
  eapply preserves_trans; [by eapply google_user_preserves|].
  eapply preserves_trans; [by eapply insert_session_preserves|].
  assert (Hb : browser_authorizations d2 !! id = Some b)
    by by rewrite (insert_session_browser _ _ _ _ Hi), (google_user_browser _ _ _ _ _ Hg).
  clear Hb0. row_update signed_in_ok.
Qed.

Lemma consent_given_preserves P session handle reg d r d' :
  consent_given P session handle reg d r d' -> preserves d d'.
Proof.
  intros [s b now p g ti raw id t bd d1 d2 Ho _ _ _ _ Hi Hu].
  destruct Ho as ((Hses & _ & _) & Hb0 & _ & _ & Hs & _).
  eapply preserves_trans.
  - eapply insert_code_preserves; [done|]. unfold insert_code_row in Hi.
    case_match eqn:Hg; simplify_eq. bools_all. exists s. split_and!; [done|simpl; lia|done].
  - assert (Hb : browser_authorizations d1 !! ch_transaction_id handle = Some b)
      by by rewrite (ok_browser _ _ (insert_code_kept _ _ _ _ Hi)).
    clear Hb0. row_update consented_ok.
Qed.
Lemma consent_decided_preserves session handle reg d r d' :
  consent_decided session handle reg d r d' -> preserves d d'.
Proof. intros []; [apply preserves_refl|by eapply consent_given_preserves]. Qed.
Lemma consent_shown_preserves session handle reg d r d' :
  consent_shown session handle reg d r d' -> preserves d d'.
Proof. intros []. apply preserves_refl. Qed.
Lemma consent_refused_preserves session handle reg d r d' :
  consent_refused session handle reg d r d' -> preserves d d'.
Proof.
  intros [s b now d1 (_ & Hb & _ & _ & Hs & _) _ Hu]. row_update consent_denied_ok.
Qed.

(** ** Programs *)

(** A program that, run alone, takes a well-formed database to a
    well-formed one along [moves], with no transaction left open. *)
Definition safe {A} (p : prog A) : Prop :=
  forall o d n a w, run o p (idle d n) = (a, w) -> w_tx w = [] /\ preserves d (w_db w).

Lemma settled_safe {E A} `{!FromDb E} (m : M E A) (Done : DB -> A -> DB -> Prop) (Failed : DB -> E -> DB -> Prop) :
  (forall c, wp m (fun r d tx => tx = [] /\ settled (Done c) (Failed c) c r d) c []) ->
  (forall c a d, Done c a d -> preserves c d) -> (forall c e d, Failed c e d -> preserves c d) ->
  safe m.
Proof.
  intros Hw Hd Hf o d n r w Hr. destruct (wp_run _ _ _ _ _ _ _ (Hw d) Hr) as [Htx Hs]. split; [done|].
  unfold settled in Hs. destruct r as [a|e]; [by eauto|].
  destruct Hs as [->|[Hs|[_ [[a Hs]|[e' Hs]]]]]; eauto using preserves_refl.
Qed.

Lemma never_preserves {E} (c : DB) (e : E) (d : DB) : never e d -> preserves c d.
Proof. by intros []. Qed.
Lemma reads_preserves {A} (P : A -> Prop) c a d : reads P c a d -> preserves c d.
Proof. intros [-> _]. apply preserves_refl. Qed.

(** The operations of the credential store. *)
Lemma outcome_safe {A} (m : M CredentialError A) (Done : DB -> A -> DB -> Prop) (Denied : DB -> DB -> Prop) :
  stmts_ok (stmt_steps evolves) m -> keeps store_wf m ->
  (forall c, wp m (fun r d tx => tx = [] /\ outcome (Done c) (Denied c) c r d) c []) ->
  (forall c a d, Done c a d -> others_kept c d) -> (forall c d, Denied c d -> others_kept c d) ->
  (forall c a d, Done c a d -> store_wf c -> revoked_together c -> revoked_together d) ->
  (forall c d, Denied c d -> store_wf c -> revoked_together c -> revoked_together d) ->
  safe m.
Proof.
  intros He Hk Hw Hd Hf Hrd Hrf o d n r w Hr. destruct (wp_run _ _ _ _ _ _ _ (Hw d) Hr) as [Htx Ho].
  split; [done|]. intros Hwf. pose proof (sw_store _ Hwf) as Hs. pose proof (sw_revoked _ Hwf) as Hrt.
  assert (Hboth : others_kept d (w_db w) /\ revoked_together (w_db w)).
  { unfold outcome in Ho. destruct r as [a|e]; [by eauto|].
    destruct Ho as [->|[[Ho _]|[_ [a Ho]]]]; eauto. split; [reflexivity|done]. }
  destruct Hboth as [Hkept Hrt']. apply system_wf_credentials; [by eapply run_evolves|done| |done..].
  destruct (Hk _ _ _ _ _ Hr Hs) as [? _]. done.
Qed.
End Preservation.
