(* ===== verification/Transitions.v ===== *)
(** * Transitions: the stores as one atomic system

    Each specification of CredentialsSpec.v and StoresSpec.v, successes and
    the effects of failures, as one step of the committed database. That is
    what the operations, interleaved, are shown to amount to
    (ConcurrencyProperties.v). *)

From Stdlib Require Import Ascii ZArith.
From S2P Require Import Prelude External Schema Effects Evolution Identity Cimd OAuth Jose Keys Google Credentials CredentialsSpec CredentialsTheory CredentialsInvariant Database Logout Browser StoresSpec DatabaseTheory LogoutTheory BrowserTheory StoresInvariant.

Section Transitions.
Context `{Crypto, UrlLib, JsonLib, JsonDb, UuidLib}.

Inductive transition (c c' : DB) : Prop :=
(* credentials.rs *)
| StepSession user l a : session_created user l c a c' -> transition c c'
| StepIssue session grant l a : code_issued session grant l c a c' -> transition c c'
| StepExchange raw client uri res v reg a : exchange_success raw client uri res v reg c a c' -> transition c c'
| StepExchangeReplay raw client uri res v reg : exchange_replay raw client uri res v reg c c' -> transition c c'
| StepRotate raw client res reg a : rotate_success raw client res reg c a c' -> transition c c'
| StepRotateReplay raw client res reg : rotate_replay raw client res reg c c' -> transition c c'
| StepRevoke raw client a : token_revoked raw client c a c' -> transition c c'
| StepLogout id a : logged_out id c a c' -> transition c c'
(* logout.rs *)
| StepAsk session client uri st a : logout_asked session client uri st c a c' -> transition c c'
| StepFinish session ch reg hint a : logout_finished session ch reg hint c a c' -> transition c c'
(* browser.rs *)
| StepBegin p st n allow a : google_begun p st n allow c a c' -> transition c c'
| StepStart id st bd a : google_started id st bd c a c' -> transition c c'
| StepUnreadable id st bd e : google_unreadable id st bd c e c' -> transition c c'
| StepCancel id st bd reg a : google_cancelled id st bd reg c a c' -> transition c c'
| StepBeginConsent session p st n allow a : consent_begun session p st n allow c a c' -> transition c c'
| StepClaim st bd a : callback_taken st bd c a c' -> transition c c'
| StepLate st bd e : callback_late st bd c e c' -> transition c c'
| StepFail claim a : callback_marked_failed claim c a c' -> transition c c'
| StepRefuse claim reg a : callback_refused claim reg c a c' -> transition c c'
| StepSignIn claim i l reg a : signed_in_by claim i l reg c a c' -> transition c c'
| StepSignInLate claim e : sign_in_late claim c e c' -> transition c c'
| StepApprove P session h reg a : consent_given P session h reg c a c' -> transition c c'
| StepDeny session h reg a : consent_refused session h reg c a c' -> transition c c'
(* database.rs *)
| StepUser issuer subject a : user_of issuer subject c a c' -> transition c c'
| StepGoogleUser identity t a : google_user identity t c a c' -> transition c c'.

(** Credentials: the constraints hold after, and the rows evolved. *)
Lemma credentials_preserve c c' :
  others_kept c c' -> (store_wf c -> store_wf c') -> (store_wf c -> revoked_together c -> revoked_together c') ->
  moves c c' -> system_wf c -> system_wf c'.
Proof.
  intros Hk Hs Hr [He _] Hwf.
  by apply (system_wf_credentials c c' He Hk (Hs (sw_store _ Hwf)) (Hr (sw_store _ Hwf) (sw_revoked _ Hwf))).
Qed.

Lemma transition_wf c c' : transition c c' -> moves c c' -> system_wf c -> system_wf c'.
Proof.
  intros [] Hm Hwf;
    try (eapply credentials_preserve; [by eauto using session_created_kept, code_issued_kept,
           exchange_success_kept, exchange_replay_kept, rotate_success_kept, rotate_replay_kept,
           token_revoked_kept, logged_out_kept
         |by eauto using session_created_wf, code_issued_wf, exchange_success_wf, exchange_replay_wf,
           rotate_success_wf, rotate_replay_wf, token_revoked_wf, logged_out_wf
         |by eauto using session_created_revoked, code_issued_revoked, exchange_success_revoked,
           exchange_replay_revoked, rotate_success_revoked, rotate_replay_revoked,
           token_revoked_revoked, logged_out_revoked
         |exact Hm|exact Hwf]; fail);
    eapply (_ : preserves c c'), Hwf.
  Unshelve.
  all: eauto using logout_asked_preserves, logout_finished_preserves, google_begun_preserves,
    google_started_preserves, google_unreadable_preserves, google_cancelled_preserves,
    consent_begun_preserves, callback_taken_preserves, callback_late_preserves,
    callback_marked_failed_preserves, callback_refused_preserves, signed_in_by_preserves,
    sign_in_late_preserves, consent_given_preserves, consent_refused_preserves, user_of_preserves,
    google_user_preserves.
Qed.

(** ** Sessions that end

    The statement that revokes the families of a session locks those it
    finds. That no other was added before the COMMIT is not the operation's
    doing (Settling.v): it revoked the families in [rows]. *)
Definition revoke_rows (s : Uuid) (rows : list RowId) (t : Uuid -> Z) (d : DB) : DB :=
  revoke_families_where (fun i f => bool_decide (RowFamily i ∈ rows) && (rf_session_id f ==? s)) t d.
Definition revoke_all (s : Uuid) (t : Uuid -> Z) (d : DB) : DB :=
  revoke_families_where (fun _ f => rf_session_id f ==? s) t d.

Definition but_families (T : DB -> DB -> Prop) (c c' : DB) : Prop :=
  T c c' \/ exists s t rows d,
    session_revoked d s /\ T c (revoke_all s t d) /\ c' = revoke_rows s rows t d.

Lemma but_families_mono (T T' : DB -> DB -> Prop) c c' :
  (forall c c', T c c' -> T' c c') -> but_families T c c' -> but_families T' c c'.
Proof. intros HT [?|(s & t & rows & d & ? & ? & ->)]; [left; auto|right; exists s, t, rows, d; auto]. Qed.

Lemma revoke_family_again t f : is_Some (rf_revoked_at f) -> revoke_family t f = f.
Proof. intros [x Hx]. destruct f; simpl in *; subst. done. Qed.

Lemma revoke_rows_all s rows t d :
  session_revoked d s -> revoked_together (revoke_rows s rows t d) -> revoke_rows s rows t d = revoke_all s t d.
Proof.
  intros (r & u & Hr & Hu) Ht. unfold revoke_rows, revoke_all, revoke_families_where. f_equal. apply map_eq. intros i.
  rewrite !lookup_update_rows. destruct (refresh_families d !! i) as [f|] eqn:Hf; [simpl; f_equal|done].
  destruct (rf_session_id f ==? s) eqn:Hs; [|by rewrite andb_false_r]. rewrite andb_true_r.
  destruct (bool_decide (RowFamily i ∈ rows)) eqn:Hi; [done|]. symmetry. apply revoke_family_again.
  apply bool_decide_eq_true in Hs. subst s.
  assert (Hi' : refresh_families (revoke_rows (rf_session_id f) rows t d) !! i = Some f).
  { simpl. by rewrite lookup_update_rows, Hf, Hi. }
  destruct (Ht _ _ Hi') as (f' & x & Hf' & Hx); [by exists r, u|]. exists x. congruence.
Qed.

(** Where revoked sessions have no live family, it revoked them all. *)
Lemma but_families_together T c c' : but_families T c c' -> revoked_together c' -> T c c'.
Proof. intros [?|(s & t & rows & d & Hs & HT & ->)] Hr; [done|]. by rewrite revoke_rows_all. Qed.
End Transitions.

Create HintDb transitions.
#[export] Hint Constructors transition : transitions.
