(* ===== verification/Concurrency.v ===== *)
(** * Concurrency: programs interleaved over one database

    PostgreSQL at READ COMMITTED, as far as the stores rely on it: every
    statement of a transaction sees the last committed rows, except those its
    own transaction has locked, whose versions are its own; a statement waits
    while another transaction holds a row it locks; a commit publishes the
    transaction's versions at once and releases its locks; the UNIQUE
    constraints hold of every committed database. A pool of programs advances
    one effect at a time, in any order, each effect with any outcome. *)

From Stdlib Require Import ZArith Lia.
From S2P Require Import Prelude External Schema Effects Evolution.

(** ** Rows *)

Definition row_type (r : RowId) : Type :=
  match r with
  | RowUser _ => unit
  | RowProfile _ => profile_rec
  | RowSession _ => session_rec
  | RowCode _ => code_rec
  | RowFamily _ => family_rec
  | RowMember _ => member_rec
  | RowBrowser _ => browser_rec
  | RowLogout _ => logout_rec
  | RowIdentity _ _ => Uuid
  end.

Definition row_get (r : RowId) (d : DB) : option (row_type r) :=
  match r with
  | RowUser id => users d !! id
  | RowProfile id => user_profiles d !! id
  | RowSession id => provider_sessions d !! id
  | RowCode id => authorization_codes d !! id
  | RowFamily id => refresh_families d !! id
  | RowMember id => refresh_token_members d !! id
  | RowBrowser id => browser_authorizations d !! id
  | RowLogout id => logout_challenges d !! id
  | RowIdentity i s => external_identities d !! (i, s)
  end.

(** The row [r] of [src], in [dst]. *)
Definition copy_row (r : RowId) (src dst : DB) : DB :=
  match r with
  | RowUser id => set_users (partial_alter (fun _ => users src !! id) id (users dst)) dst
  | RowProfile id => set_profiles (partial_alter (fun _ => user_profiles src !! id) id (user_profiles dst)) dst
  | RowSession id =>
      set_sessions (partial_alter (fun _ => provider_sessions src !! id) id (provider_sessions dst)) dst
  | RowCode id =>
      set_codes (partial_alter (fun _ => authorization_codes src !! id) id (authorization_codes dst)) dst
  | RowFamily id =>
      set_families (partial_alter (fun _ => refresh_families src !! id) id (refresh_families dst)) dst
  | RowMember id =>
      set_members (partial_alter (fun _ => refresh_token_members src !! id) id (refresh_token_members dst)) dst
  | RowBrowser id =>
      set_browser (partial_alter (fun _ => browser_authorizations src !! id) id (browser_authorizations dst)) dst
  | RowLogout id =>
      set_logouts (partial_alter (fun _ => logout_challenges src !! id) id (logout_challenges dst)) dst
  | RowIdentity i s =>
      set_identities
        (partial_alter (fun _ => external_identities src !! (i, s)) (i, s) (external_identities dst)) dst
  end.
Fixpoint copy_rows (rows : list RowId) (src dst : DB) : DB :=
  match rows with
  | [] => dst
  | r :: rows' => copy_row r src (copy_rows rows' src dst)
  end.

(** ** UNIQUE constraints *)

(** No two rows have the same value in a column that may be NULL. *)
Definition unique_column {V C} `{EqDecision C} (col : V -> option C) (m : gmap Uuid V) : bool :=
  bool_decide (NoDup (omap (fun kv => col kv.2) (map_to_list m))).
(** A user has one identity of an issuer. *)
Definition unique_identities (m : gmap (string * string) Uuid) : bool :=
  bool_decide (NoDup (map (fun kv => (kv.2, kv.1.1)) (map_to_list m))).
Definition unique_db (d : DB) : bool :=
  unique_identities (external_identities d)
  && unique_column (fun s => Some (ps_token_hash s)) (provider_sessions d)
  && unique_column (fun c => Some (ac_code_hash c)) (authorization_codes d)
  && unique_column (fun f => Some (rf_source_code_id f)) (refresh_families d)
  && unique_column (fun m => Some (rt_token_hash m)) (refresh_token_members d)
  && unique_column ba_upstream_state_hash (browser_authorizations d)
  && unique_column ba_claim_hash (browser_authorizations d).

(** ** Transactions *)

(** A transaction or a savepoint of one: the rows it locked, and a database
    that has its versions of them. *)
Record Level := {
  lv_held : list RowId;
  lv_db : DB;
}.

(** The innermost level first. *)
Definition held (tx : list Level) : list RowId := List.concat (map lv_held tx).

(** The database a statement sees. *)
Definition tx_view (c : DB) (tx : list Level) : DB :=
  match tx with
  | [] => c
  | lv :: _ => copy_rows (held tx) (lv_db lv) c
  end.
Definition push_level (c : DB) (tx : list Level) : list Level :=
  {| lv_held := []; lv_db := tx_view c tx |} :: tx.
(** RELEASE SAVEPOINT: the level below takes the locks and the versions. *)
Definition merge_level (lv below : Level) : Level :=
  {| lv_held := lv_held lv ++ lv_held below; lv_db := lv_db lv |}.

(** ** One effect *)

(** What the environment decides of an effect. *)
Record Choice := {
  ch_fault : Fault;
  ch_clock : Uuid -> Z;
  ch_uuid : Uuid;
  ch_bytes : string;
  ch_time : Z;
}.

Definition answer_of {R} (f : Fault) (r : R) : result R DbError :=
  match f with NoFault => Ok r | _ => Err DbFault end.

(** The statement waits for a row another transaction holds. *)
Definition waits (busy rows : list RowId) : bool := existsb (fun r => bool_decide (r ∈ busy)) rows.

(** The program, its transaction and the committed database after one
    effect; [busy] are the rows the others hold. [None]: the program ended,
    it waits, or this outcome is not possible. *)
Definition advance {A} (busy : list RowId) (ch : Choice) (p : prog A) (tx : list Level) (c : DB)
    : option (prog A * list Level * DB) :=
  let f := ch_fault ch in
  match p with
  | Ret _ => None
  | Sql s k =>
      match f with
      | FailBefore => Some (k (Err DbFault), tx, c)
      | _ =>
          let v := tx_view c tx in
          if waits busy (locks s v) then None
          else
            match exec s (ch_clock ch) v with
            | Err e => Some (k (Err e), tx, c)
            | Ok (r, v') =>
                match tx with
                | [] => if unique_db v' then Some (k (answer_of f r), [], v') else None
                | lv :: below =>
                    Some (k (answer_of f r),
                          {| lv_held := locks s v ++ lv_held lv; lv_db := v' |} :: below, c)
                end
            end
      end
  | Begin k =>
      match f with
      | NoFault => Some (k (Ok tt), push_level c tx, c)
      | _ => Some (k (Err DbFault), tx, c)
      end
  | Commit k =>
      match tx with
      | [] => Some (k (answer_of f tt), [], c)
      | lv :: below =>
          match f, below with
          | FailBefore, _ => Some (k (Err DbFault), below, c)
          | _, [] =>
              let c' := tx_view c tx in
              if unique_db c' then Some (k (answer_of f tt), [], c') else None
          | _, lv' :: below' => Some (k (answer_of f tt), merge_level lv lv' :: below', c)
          end
      end
  | Rollback k => Some (k (answer_of f tt), tail tx, c)
  | EndTx k => Some (k, [], c)
  | NewUuid k => Some (k (ch_uuid ch), tx, c)
  | RandomBytes k => Some (k (ch_bytes ch), tx, c)
  | InstantNow k => Some (k (ch_time ch), tx, c)
  | UtcNow k => Some (k (ch_time ch), tx, c)
  end.

(** ** Pools *)

(** A program answers whether it won what it was after. *)
Record Thread := {
  th_prog : prog bool;
  th_tx : list Level;
}.
Record Pool := {
  pl_db : DB;
  pl_threads : list Thread;
}.

(** The rows held by the threads other than the [i]-th. *)
Fixpoint busy_rows (i : nat) (threads : list Thread) {struct threads} : list RowId :=
  match threads, i with
  | [], _ => []
  | _ :: threads', O => flat_map (fun th => held (th_tx th)) threads'
  | th :: threads', S i' => held (th_tx th) ++ busy_rows i' threads'
  end.

Definition advance_thread (i : nat) (ch : Choice) (pool : Pool) : option Pool :=
  match pl_threads pool !! i with
  | None => None
  | Some th =>
      match advance (busy_rows i (pl_threads pool)) ch (th_prog th) (th_tx th) (pl_db pool) with
      | None => None
      | Some (p, tx, c) =>
          Some {| pl_db := c; pl_threads := <[i := {| th_prog := p; th_tx := tx |}]> (pl_threads pool) |}
      end
  end.

(** Some thread advances. *)
Definition pool_step (pool pool' : Pool) : Prop := exists i ch, advance_thread i ch pool = Some pool'.

Definition spawn (p : prog bool) : Thread := {| th_prog := p; th_tx := [] |}.
Definition start (d : DB) (ps : list (prog bool)) : Pool :=
  {| pl_db := d; pl_threads := spawn <$> ps |}.
(** Programs that begin in a running pool. *)
Definition join (pool : Pool) (ps : list (prog bool)) : Pool :=
  {| pl_db := pl_db pool; pl_threads := pl_threads pool ++ (spawn <$> ps) |}.
(** The [i]-th program ended and won. *)
Definition won (i : nat) (pool : Pool) : Prop :=
  exists th, pl_threads pool !! i = Some th /\ th_prog th = Ret true.
(** An operation that wins when it answers what [win] accepts, and one that
    is only there. *)
Definition accepts {E A} (win : A -> bool) (r : result A E) : bool :=
  match r with Ok a => win a | Err _ => false end.
Definition contend {E A} (win : A -> bool) (m : M E A) : prog bool :=
  bind m (fun r => Ret (accepts win r)).
Definition bystand {A} (p : prog A) : prog bool := bind p (fun _ => Ret false).

(** A schedule: which thread advances, and how; threads that cannot are
    passed over. *)
Fixpoint schedule (l : list (nat * Choice)) (pool : Pool) : Pool :=
  match l with
  | [] => pool
  | (i, ch) :: l' =>
      schedule l' (match advance_thread i ch pool with Some pool' => pool' | None => pool end)
  end.

Lemma schedule_steps l pool : rtc pool_step pool (schedule l pool).
Proof.
  revert pool. induction l as [|[i ch] l IH]; intros pool; simpl; [apply rtc_refl|].
  destruct (advance_thread i ch pool) as [pool'|] eqn:Ha; [|apply IH].
  eapply rtc_l; [by exists i, ch|apply IH].
Qed.
