(* ===== verification/ConcurrencyTheory.v ===== *)
(** * ConcurrencyTheory: rely and guarantee for interleaved transactions

    Statements change only rows they lock, so an open transaction finds the
    rows it holds as it left them, and publishes them on top of a database
    that only evolved. [inter] is the logic for one program among others
    ([cwp] for fallible ones); [at_most_one_winner] combines the programs of
    a pool that contend for the same thing. *)

From Stdlib Require Import ZArith Lia.
From S2P Require Import Prelude External Schema Effects Evolution CredentialsSpec StoresSpec StoresInvariant Concurrency.

(** ** Columns with a UNIQUE constraint *)

Lemma NoDup_omap_eq {A B} (f : A -> option B) l x y b :
  NoDup (omap f l) -> x ∈ l -> y ∈ l -> f x = Some b -> f y = Some b -> x = y.
Proof.
  induction l as [|z l IH]; [set_solver|]. simpl. intros Hd Hx Hy Fx Fy.
  assert (Hin : forall w, w ∈ l -> f w = Some b -> b ∈ omap f l).
  { intros w Hw Fw. apply list_elem_of_omap. by exists w. }
  apply elem_of_cons in Hx as [->|Hx], Hy as [->|Hy].
  - done.
  - rewrite Fx in Hd. inversion Hd as [|? ? Hn _]. destruct Hn; eauto.
  - rewrite Fy in Hd. inversion Hd as [|? ? Hn _]. destruct Hn; eauto.
  - destruct (f z); [inversion Hd; subst|]; auto.
Qed.

Lemma unique_column_eq {V C} `{EqDecision C} (col : V -> option C) (m : gmap Uuid V) i j v w x :
  unique_column col m = true -> m !! i = Some v -> col v = Some x ->
  m !! j = Some w -> col w = Some x -> i = j.
Proof.
  intros Hu Hi Hv Hj Hw. apply bool_decide_eq_true in Hu.
  assert (Heq : (i, v) = (j, w)); [|by simplify_eq].
  by eapply (NoDup_omap_eq (fun kv : Uuid * V => col kv.2)); [exact Hu|by apply elem_of_map_to_list..| |].
Qed.
Lemma unique_column_key {V C} `{EqDecision C} (key : V -> C) (m : gmap Uuid V) :
  unique_column (fun v => Some (key v)) m = true -> key_unique key m.
Proof.
  intros Hu i j v w Hi Hj Hk.
  eapply (unique_column_eq (fun v => Some (key v))); [done|exact Hi|done|exact Hj|]. simpl. congruence.
Qed.
Lemma unique_codes d : unique_db d = true -> key_unique ac_code_hash (authorization_codes d).
Proof. intros Hu. unfold unique_db in Hu. bools_all. by apply unique_column_key. Qed.
Lemma unique_members d : unique_db d = true -> key_unique rt_token_hash (refresh_token_members d).
Proof. intros Hu. unfold unique_db in Hu. bools_all. by apply unique_column_key. Qed.
Lemma unique_sources d : unique_db d = true -> key_unique rf_source_code_id (refresh_families d).
Proof. intros Hu. unfold unique_db in Hu. bools_all. by apply unique_column_key. Qed.

(** ** Rows and databases *)

Lemma copy_row_get r r' src dst :
  row_get r' (copy_row r src dst) = if decide (r = r') then row_get r' src else row_get r' dst.
Proof.
  destruct (decide (r = r')) as [->|Hne].
  - destruct r'; simpl; apply lookup_partial_alter_eq.
  - destruct r, r'; simpl; try done; apply lookup_partial_alter_ne; congruence.
Qed.

Lemma copy_rows_get rows r src dst :
  row_get r (copy_rows rows src dst) = if decide (r ∈ rows) then row_get r src else row_get r dst.
Proof.
  induction rows as [|r' rows IH]; cbn [copy_rows].
  - case_decide; [set_solver|done].
  - rewrite copy_row_get, IH.
    destruct (decide (r' = r)) as [->|Hne]; [by destruct (decide (r ∈ r :: rows)); [|set_solver]|].
    destruct (decide (r ∈ rows)), (decide (r ∈ r' :: rows)); set_solver.
Qed.

Lemma tx_view_get c lv below r :
  row_get r (tx_view c (lv :: below)) =
  if decide (r ∈ held (lv :: below)) then row_get r (lv_db lv) else row_get r c.
Proof. apply copy_rows_get. Qed.

Lemma db_ext d d' : (forall r, row_get r d = row_get r d') -> d = d'.
Proof.
  intros H. destruct d, d'. f_equal; apply map_eq.
  - intros k. exact (H (RowUser k)).
  - intros [i s]. exact (H (RowIdentity i s)).
  - intros k. exact (H (RowProfile k)).
  - intros k. exact (H (RowSession k)).
  - intros k. exact (H (RowCode k)).
  - intros k. exact (H (RowFamily k)).
  - intros k. exact (H (RowMember k)).
  - intros k. exact (H (RowBrowser k)).
  - intros k. exact (H (RowLogout k)).
Qed.

Definition row_le (r : RowId) : row_type r -> row_type r -> Prop :=
  match r with
  | RowUser _ => eq
  | RowProfile _ => profile_le
  | RowSession _ => session_le
  | RowCode _ => code_le
  | RowFamily _ => family_le
  | RowMember _ => member_le
  | RowBrowser _ => fun b b' => browser_le b b' /\ stage_le b b'
  | RowLogout _ => logout_le
  | RowIdentity _ _ => eq
  end.
(** The row, if it is there, stays and goes along its order. *)
Definition row_evolves (r : RowId) (o o' : option (row_type r)) : Prop :=
  forall v, o = Some v -> exists v', o' = Some v' /\ row_le r v v'.

Lemma moves_row d d' r : moves d d' -> row_evolves r (row_get r d) (row_get r d').
Proof.
  intros [[] Hs]. destruct r; intros v Hv; simpl in *; eauto.
  destruct (ev_browser _ _ Hv) as (b & Hb & Hle). exists b. split_and!; [done..|].
  destruct (Hs _ _ Hv) as (b' & Hb' & Hle'). by simplify_eq.
Qed.
Lemma rows_move d d' : (forall r, row_evolves r (row_get r d) (row_get r d')) -> moves d d'.
Proof.
  intros H. split; [split|].
  - intros k. exact (H (RowUser k)).
  - intros [i s]. exact (H (RowIdentity i s)).
  - intros k. exact (H (RowProfile k)).
  - intros k. exact (H (RowSession k)).
  - intros k. exact (H (RowCode k)).
  - intros k. exact (H (RowFamily k)).
  - intros k. exact (H (RowMember k)).
  - intros k b Hb. destruct (H (RowBrowser k) _ Hb) as (b' & Hb' & Hle & _). by exists b'.
  - intros k. exact (H (RowLogout k)).
  - intros k b Hb. destruct (H (RowBrowser k) _ Hb) as (b' & Hb' & _ & Hle). by exists b'.
Qed.
Lemma row_evolves_refl r o : row_evolves r o o.
Proof. intros v Hv. exists v. split; [done|]. destruct r; simpl; try reflexivity. by split. Qed.

(** ** Transactions among others *)

(** The rows of the list are the same in both. *)
Definition agree (rows : list RowId) (c c' : DB) : Prop :=
  forall r, r ∈ rows -> row_get r c' = row_get r c.

(** What the others may do to the committed database while a transaction is
    open: it evolves, but for the rows the transaction holds. *)
Definition rely (tx : list Level) (c c' : DB) : Prop := moves c c' /\ agree (held tx) c c'.

#[export] Instance rely_preorder tx : PreOrder (rely tx).
Proof.
  split.
  - intros c. split; [reflexivity|by intros r].
  - intros c1 c2 c3 [H1 A1] [H2 A2]. split; [by etrans|].
    intros r Hr. rewrite (A2 r Hr). by apply A1.
Qed.

(** Each level is ahead of what is below it. *)
Fixpoint tx_ok (c : DB) (tx : list Level) : Prop :=
  match tx with
  | [] => True
  | lv :: below => moves (tx_view c below) (tx_view c (lv :: below)) /\ tx_ok c below
  end.

Lemma tx_ok_moves c tx : tx_ok c tx -> moves c (tx_view c tx).
Proof.
  induction tx as [|lv below IH]; [by intros _|]. intros [Hv Hb]. etrans; [by apply IH|exact Hv].
Qed.

Lemma held_cons lv below : held (lv :: below) = lv_held lv ++ held below.
Proof. done. Qed.

Lemma rely_below lv below c c' : rely (lv :: below) c c' -> rely below c c'.
Proof.
  intros [He Ha]. split; [done|]. intros r Hr. apply Ha. rewrite held_cons. set_solver.
Qed.

(** The view of a transaction, row by row, when the others move. *)
Lemma tx_view_rely tx c c' r : rely tx c c' -> r ∈ held tx ->
  row_get r (tx_view c' tx) = row_get r (tx_view c tx).
Proof.
  destruct tx as [|lv below]; [set_solver|]. intros _ Hr.
  by rewrite !tx_view_get, !decide_True.
Qed.
Lemma tx_view_free tx c r : r ∉ held tx -> row_get r (tx_view c tx) = row_get r c.
Proof. destruct tx as [|lv below]; [done|]. intros Hr. by rewrite tx_view_get, decide_False. Qed.

Lemma tx_ok_rely tx c c' : rely tx c c' -> tx_ok c tx -> tx_ok c' tx.
Proof.
  revert c c'. induction tx as [|lv below IH]; [done|]. intros c c' Hr [Hv Hb].
  split; [|by eapply IH; [eapply rely_below|]].
  apply rows_move. intros r. apply (moves_row _ _ r) in Hv.
  destruct (decide (r ∈ held (lv :: below))) as [Hh|Hh].
  - rewrite (tx_view_rely _ _ _ _ Hr Hh). destruct (decide (r ∈ held below)) as [Hb'|Hb'].
    + by rewrite (tx_view_rely _ _ _ _ (rely_below _ _ _ _ Hr) Hb').
    + rewrite (tx_view_free below) in Hv by done. rewrite (tx_view_free below) by done.
      destruct Hr as [_ Ha]. by rewrite (Ha r Hh).
  - rewrite (tx_view_free (lv :: below)) by done. rewrite held_cons in Hh.
    rewrite tx_view_free by set_solver. apply row_evolves_refl.
Qed.

(** ** Statements *)

(** [d'] is [d] but for the rows of [rows]. *)
Definition touches (rows : list RowId) (d d' : DB) : Prop :=
  forall row, row ∉ rows -> row_get row d' = row_get row d.

(** A statement changes only rows it locks. *)
Definition confined (R : Type) (s : stmt R) : Prop :=
  forall clk d r d', exec s clk d = Ok (r, d') -> touches (locks s d) d d'.

(** On the database it sees, the statement goes along the order and changes
    only rows it locks. *)
Definition fine {R} (s : stmt R) (v : DB) : Prop :=
  forall clk r v', exec s clk v = Ok (r, v') -> moves v v' /\ touches (locks s v) v v'.
Definition sound_stmt (R : Type) (s : stmt R) : Prop := forall v, fine s v.

Section Statement.
Context {R : Type} (s : stmt R) (c : DB) (lv : Level) (below : list Level).
Context (Hs : fine s (tx_view c (lv :: below))).

(** In a transaction, what the statement leaves is what the next one sees. *)
Lemma stmt_view clk r v' :
  exec s clk (tx_view c (lv :: below)) = Ok (r, v') ->
  tx_view c ({| lv_held := locks s (tx_view c (lv :: below)) ++ lv_held lv; lv_db := v' |} :: below) = v'.
Proof.
  intros He. apply db_ext. intros row. rewrite tx_view_get.
  destruct (decide _) as [Hh|Hh]; [done|]. rewrite held_cons in Hh. simpl in Hh.
  destruct (Hs _ _ _ He) as [_ Hc]. rewrite (Hc row) by set_solver.
  rewrite tx_view_free; [done|]. rewrite held_cons. set_solver.
Qed.

Lemma stmt_tx_ok clk r v' :
  exec s clk (tx_view c (lv :: below)) = Ok (r, v') -> tx_ok c (lv :: below) ->
  tx_ok c ({| lv_held := locks s (tx_view c (lv :: below)) ++ lv_held lv; lv_db := v' |} :: below).
Proof.
  intros He [Hv Hb]. split; [|done]. rewrite (stmt_view _ _ _ He).
  etrans; [exact Hv|]. by destruct (Hs _ _ _ He).
Qed.
End Statement.

(** The next statement of a program is fine. *)
Definition stmt_fine {A} (p : prog A) (v : DB) : Prop :=
  match p with Sql s _ => fine s v | _ => True end.

(** ** What an effect guarantees the others *)

Lemma waits_false busy rows : waits busy rows = false -> forall r, r ∈ rows -> r ∉ busy.
Proof.
  unfold waits. induction rows as [|r' rows IH]; simpl; [set_solver|].
  intros [Hb Hw]%orb_false_iff r. apply bool_decide_eq_false in Hb. set_solver.
Qed.

(** The lists have no row in common. *)
Definition apart (rows rows' : list RowId) : Prop := forall r, r ∈ rows -> r ∉ rows'.
Lemma apart_none busy : apart (held []) busy.
Proof. intros r Hr. unfold held in Hr. simpl in Hr. set_solver. Qed.

Lemma merge_held lv lv' below : held (merge_level lv lv' :: below) = held (lv :: lv' :: below).
Proof. rewrite !held_cons. simpl. by rewrite app_assoc. Qed.
Lemma merge_view c lv lv' below : tx_view c (merge_level lv lv' :: below) = tx_view c (lv :: lv' :: below).
Proof. apply db_ext. intros r. by rewrite !tx_view_get, merge_held. Qed.
Lemma push_held c tx : held (push_level c tx) = held tx.
Proof. done. Qed.
Lemma push_view c tx : tx_view c (push_level c tx) = tx_view c tx.
Proof.
  apply db_ext. intros r. unfold push_level. rewrite tx_view_get, held_cons. simpl.
  destruct (decide _) as [Hr|Hr]; [done|]. by rewrite tx_view_free.
Qed.

Lemma view_agree busy tx c : apart (held tx) busy -> agree busy c (tx_view c tx).
Proof. intros Ha r Hr. apply tx_view_free. intros Hh. by apply (Ha r). Qed.

(** An effect that is fine, from a consistent state, leaves a consistent
    state, and to the others: the database moves along the order, their rows
    are as they were. *)
Record guarantees (busy : list RowId) (c : DB) (tx' : list Level) (c' : DB) : Prop := {
  gr_tx : tx_ok c' tx';
  gr_unique : unique_db c' = true;
  gr_moves : moves c c';
  gr_agree : agree busy c c';
  gr_apart : apart (held tx') busy;
}.

Section Guarantee.
Context (busy : list RowId) (c : DB) (Hu : unique_db c = true).

Lemma guarantee_stay tx' : tx_ok c tx' -> apart (held tx') busy -> guarantees busy c tx' c.
Proof. by split. Qed.

Lemma guarantee_publish tx :
  tx_ok c tx -> apart (held tx) busy -> unique_db (tx_view c tx) = true ->
  guarantees busy c [] (tx_view c tx).
Proof.
  intros Htx Ha Hu'. split; auto using apart_none; [done|by apply tx_ok_moves|by apply view_agree].
Qed.
End Guarantee.

Lemma apart_tail tx busy : apart (held tx) busy -> apart (held (tail tx)) busy.
Proof. destruct tx as [|lv tx]; [done|]. intros Ha r Hr. apply Ha. rewrite held_cons. set_solver. Qed.
Lemma tx_ok_tail c tx : tx_ok c tx -> tx_ok c (tail tx).
Proof. destruct tx; [done|]. by intros [_ ?]. Qed.
Lemma tx_ok_push c tx : tx_ok c tx -> tx_ok c (push_level c tx).
Proof.
  intros H. split; [|done]. change (moves (tx_view c tx) (tx_view c (push_level c tx))).
  by rewrite push_view.
Qed.
Lemma tx_ok_merge c lv lv' below : tx_ok c (lv :: lv' :: below) -> tx_ok c (merge_level lv lv' :: below).
Proof. intros (H1 & H2 & H3). split; [|done]. rewrite merge_view. by etrans. Qed.

Lemma statement_guarantee {A R} busy clk (s : stmt R) tx c r v' (p q : prog A) tx' c' :
  fine s (tx_view c tx) -> tx_ok c tx -> unique_db c = true -> apart (held tx) busy ->
  apart (locks s (tx_view c tx)) busy -> exec s clk (tx_view c tx) = Ok (r, v') ->
  match tx with
  | [] => if unique_db v' then Some (p, [], v') else None
  | lv :: below => Some (p, {| lv_held := locks s (tx_view c tx) ++ lv_held lv; lv_db := v' |} :: below, c)
  end = Some (q, tx', c') -> guarantees busy c tx' c'.
Proof.
  intros Hs Htx Hu Ha Hl He. destruct tx as [|lv below].
  - destruct (unique_db v') eqn:Hu'; intros; simplify_eq. destruct (Hs _ _ _ He) as [Hm Hc].
    split; try done. intros row Hrow. apply Hc. intros Hr. by apply (Hl row).
  - intros; simplify_eq. apply guarantee_stay; [done|by eapply stmt_tx_ok|].
    intros row Hrow. rewrite held_cons in Hrow. simpl in Hrow. rewrite <- app_assoc in Hrow.
    apply elem_of_app in Hrow as [Hrow|Hrow]; [by apply Hl|by apply Ha].
Qed.

Lemma commit_guarantee {A} busy lv below c (p q : prog A) tx' c' :
  tx_ok c (lv :: below) -> unique_db c = true -> apart (held (lv :: below)) busy ->
  match below with
  | [] => if unique_db (tx_view c (lv :: below)) then Some (p, [], tx_view c (lv :: below)) else None
  | lv' :: below' => Some (p, merge_level lv lv' :: below', c)
  end = Some (q, tx', c') -> guarantees busy c tx' c'.
Proof.
  intros Htx Hu Ha. destruct below as [|lv' below].
  - destruct (unique_db (tx_view c [lv])) eqn:Hu'; intros; simplify_eq. by apply guarantee_publish.
  - intros; simplify_eq. apply guarantee_stay; [done|by apply tx_ok_merge|by rewrite merge_held].
Qed.

Lemma advance_guarantee {A} busy ch (p : prog A) tx c p' tx' c' :
  stmt_fine p (tx_view c tx) -> tx_ok c tx -> unique_db c = true -> apart (held tx) busy ->
  advance busy ch p tx c = Some (p', tx', c') -> guarantees busy c tx' c'.
Proof.
  intros Hp Htx Hu Ha. destruct p as [a|R s k|k|k|k|k|k|k|k|k]; simpl in *; try done;
    try (intros; simplify_eq; by apply guarantee_stay; auto using apart_none).
  - (* a statement *)
    destruct (ch_fault ch) eqn:Hf;
      [|by intros; simplify_eq; apply guarantee_stay|];
      destruct (waits busy _) eqn:Hw; try done; pose proof (waits_false _ _ Hw) as Hl;
      destruct (exec s _ _) as [[r v']|e] eqn:He; intros; simplify_eq;
      try (by apply guarantee_stay); by eapply statement_guarantee.
  - destruct (ch_fault ch); intros; simplify_eq;
      apply guarantee_stay; auto using tx_ok_push.
  - (* COMMIT *)
    destruct tx as [|lv below]; [by intros; simplify_eq; apply guarantee_stay|].
    destruct (ch_fault ch); intros Hadv; [by eapply commit_guarantee in Hadv| |by eapply commit_guarantee in Hadv].
    simplify_eq. apply guarantee_stay; [done|by destruct Htx|by apply (apart_tail (lv :: _))].
  - intros; simplify_eq. apply guarantee_stay; auto using tx_ok_tail, apart_tail.
Qed.

(** ** One program among others

    What a program's own effects have done to the committed database is
    noted in a ledger, of what form the argument asks for; the ledger says
    too which changes the program may make. [inter Q p c tx m]: however the
    others move, [p], from transaction [tx] over [c] and with ledger [m],
    issues only statements that are fine, makes only changes that are allowed
    and answers only what [Q] allows. *)

Record Ledger (G : Type) := {
  note : G -> DB -> DB -> G;
  allows : DB -> DB -> Prop;
  note_same : forall m c, note m c c = m;
  allows_same : forall c, allows c c;
}.
Arguments note {G} _ _ _ _.
Arguments allows {G} _ _ _.
Arguments note_same {G} _ _ _.
Arguments allows_same {G} _ _.

(** A ledger that allows any change. *)
Class Permissive {G} (L : Ledger G) : Prop := permits : forall c c', allows L c c'.

(** Nothing is noted. *)
Definition blank : Ledger unit :=
  {| note m _ _ := m; allows _ _ := True; note_same _ _ := eq_refl; allows_same _ := I |}.
#[export] Instance blank_permissive : Permissive blank.
Proof. done. Qed.

Section Logic.
Context {G : Type} (L : Ledger G).

(** The others moved, and what any thread may count on still holds. *)
Record env (tx : list Level) (c c' : DB) : Prop := {
  env_rely : rely tx c c';
  env_unique : unique_db c' = true;
  env_tx : tx_ok c' tx;
}.

Inductive inter {A} (Q : A -> DB -> list Level -> G -> Prop) (p : prog A) (c : DB)
    (tx : list Level) (m : G) : Prop :=
| Inter
    (inter_ret : forall a c1, p = Ret a -> env tx c c1 -> Q a c1 tx m)
    (inter_fine : forall c1, env tx c c1 -> stmt_fine p (tx_view c1 tx))
    (inter_allowed : forall c1 busy ch p' tx' c', env tx c c1 ->
       advance busy ch p tx c1 = Some (p', tx', c') -> allows L c1 c')
    (inter_advance : forall c1 busy ch p' tx' c', env tx c c1 ->
       advance busy ch p tx c1 = Some (p', tx', c') -> inter Q p' c' tx' (note L m c1 c')).

Lemma env_rely_l tx c c1 c2 : rely tx c c1 -> env tx c1 c2 -> env tx c c2.
Proof. intros Hr []. split; [by etrans|done..]. Qed.

Lemma inter_rely {A} Q (p : prog A) c c1 tx m : rely tx c c1 -> inter Q p c tx m -> inter Q p c1 tx m.
Proof. intros Hr [Hret Hfine Hall Hadv]. split; eauto using env_rely_l. Qed.
Lemma inter_env {A} Q (p : prog A) c c1 tx m : env tx c c1 -> inter Q p c tx m -> inter Q p c1 tx m.
Proof. intros []. by apply inter_rely. Qed.

Lemma inter_pure {A} (Q : A -> DB -> list Level -> G -> Prop) a c tx m :
  (forall c1, env tx c c1 -> Q a c1 tx m) -> inter Q (Ret a) c tx m.
Proof. intros HQ. split; [intros a' c1 [= <-]; apply HQ|done..]. Qed.

Lemma is_ret {A} (p : prog A) : (exists a, p = Ret a) \/ ~ (exists a, p = Ret a).
Proof. destruct p as [a|R s k|k|k|k|k|k|k|k|k]; [by left; eexists|right; by intros [? ?]..]. Qed.
Lemma advance_bind {A B} busy ch (p : prog A) (f : A -> prog B) tx c q tx' c' :
  advance busy ch (bind p f) tx c = Some (q, tx', c') ->
  (exists a, p = Ret a) \/ exists p', q = bind p' f /\ advance busy ch p tx c = Some (p', tx', c').
Proof.
  destruct p as [a|R s k|k|k|k|k|k|k|k|k]; simpl; [by left; eexists|right..];
    repeat case_match; intros; simplify_eq; eauto.
Qed.

Lemma env_self tx c c1 : env tx c c1 -> env tx c1 c1.
Proof. intros []. by split. Qed.
Lemma inter_later {A} Q (p : prog A) c tx m :
  (forall c1, env tx c c1 -> inter Q p c1 tx m) -> inter Q p c tx m.
Proof.
  intros H. split.
  - intros a c1 Hp He. destruct (H _ He) as [Hret _ _ _]. eauto using env_self.
  - intros c1 He. destruct (H _ He) as [_ Hfine _ _]. eauto using env_self.
  - intros c1 busy ch p' tx' c' He Ha. destruct (H _ He) as [_ _ Hall _]. eauto using env_self.
  - intros c1 busy ch p' tx' c' He Ha. destruct (H _ He) as [_ _ _ Hadv]. eauto using env_self.
Qed.

Lemma inter_bind {A B} Q (p : prog A) (f : A -> prog B) c tx m :
  inter (fun a => inter Q (f a)) p c tx m -> inter Q (bind p f) c tx m.
Proof.
  induction 1 as [p c tx m Hret Hfine Hall _ IH].
  destruct (is_ret p) as [[a ->]|Hp]; [by apply inter_later; eauto|].
  split.
  - intros b c1 Hb. destruct p; [by edestruct Hp; eexists|done..].
  - intros c1 He. specialize (Hfine _ He). destruct p; [by edestruct Hp; eexists|done..].
  - intros c1 busy ch q tx' c' He Ha.
    apply advance_bind in Ha as [Ha|(p' & -> & Ha)]; [done|by eapply Hall].
  - intros c1 busy ch q tx' c' He Ha.
    apply advance_bind in Ha as [Ha|(p' & -> & Ha)]; [done|by eapply IH].
Qed.

Lemma inter_mono {A} (Q Q' : A -> DB -> list Level -> G -> Prop) (p : prog A) c tx m :
  inter Q p c tx m -> (forall a c' tx' m', Q a c' tx' m' -> Q' a c' tx' m') -> inter Q' p c tx m.
Proof. intros Hp HQ. induction Hp as [p c tx m Hret Hfine Hall _ IH]. split; eauto. Qed.

(** An effect that changes nothing for the others. *)
Lemma inter_quiet {A} Q (p : prog A) c tx m :
  (forall a, p <> Ret a) -> (forall c1, env tx c c1 -> stmt_fine p (tx_view c1 tx)) ->
  (forall c1 busy ch p' tx' c', env tx c c1 -> advance busy ch p tx c1 = Some (p', tx', c') ->
     c' = c1 /\ inter Q p' c1 tx' m) -> inter Q p c tx m.
Proof.
  intros Hp Hfine H. split; [by intros a c1 Hr; destruct (Hp a)|done| |];
    intros c1 busy ch p' tx' c' He Ha; destruct (H _ _ _ _ _ _ He Ha) as [-> Hi];
    [apply allows_same|by rewrite note_same].
Qed.

(** Sound statements, and nothing is asked of the answer. *)
Lemma inter_sound `{!Permissive L} {A} (p : prog A) c tx m :
  stmts_ok sound_stmt p -> inter (fun _ _ _ _ => True) p c tx m.
Proof.
  revert c tx m. induction p as [a|R s k IH|k IH|k IH|k IH|k IH|k IH|k IH|k IH|k IH]; intros c tx m Hp;
    simpl in Hp; try destruct Hp as [Hs Hp];
    (split; [done|by intros; try apply Hs|intros; apply permits|]); intros c1 busy ch p' tx' c' _; simpl;
    repeat case_match; intros; simplify_eq; auto.
Qed.

(** ** Rules for fallible programs: only success is looked at *)

Definition cwp {E A} (m : M E A) (Q : A -> DB -> list Level -> G -> Prop) (c : DB)
    (tx : list Level) (g : G) : Prop :=
  inter (fun r => match r with Ok a => Q a | Err _ => fun _ _ _ => True end) m c tx g.
Section Rules.
Context {E : Type} `{!FromDb E}.
Implicit Types (c : DB) (tx : list Level) (g : G).

Lemma cwp_err {A} (e : E) (Q : A -> DB -> list Level -> G -> Prop) c tx g : cwp (Ret (Err e)) Q c tx g.
Proof. by apply inter_pure. Qed.
Lemma cwp_raise {A} (e : E) (Q : A -> DB -> list Level -> G -> Prop) c tx g : cwp (raise e) Q c tx g.
Proof. apply cwp_err. Qed.
Lemma cwp_ret {A} (a : A) (Q : A -> DB -> list Level -> G -> Prop) c tx g :
  (forall c1, env tx c c1 -> Q a c1 tx g) -> cwp (ret (E:=E) a) Q c tx g.
Proof. intros HQ. by apply inter_pure. Qed.
Lemma cwp_lift {A} (r : result A E) (Q : A -> DB -> list Level -> G -> Prop) c tx g :
  match r with Ok a => forall c1, env tx c c1 -> Q a c1 tx g | Err _ => True end -> cwp (lift r) Q c tx g.
Proof. intros HQ. by destruct r; apply inter_pure. Qed.

Lemma cwp_bindE {A B} (m : M E A) (f : A -> M E B) Q c tx g :
  cwp m (fun a => cwp (f a) Q) c tx g -> cwp (bindE m f) Q c tx g.
Proof.
  intros H. apply inter_bind. eapply inter_mono; [exact H|].
  intros [a|e] c' tx' g' Hq; [exact Hq|apply cwp_err].
Qed.

Lemma cwp_env {A} (m : M E A) Q c c1 tx g : env tx c c1 -> cwp m Q c tx g -> cwp m Q c1 tx g.
Proof. apply inter_env. Qed.

(** A statement fails, or its answer is read. *)
Lemma advance_sql {A B} busy ch (s : stmt B) (k : result B DbError -> prog A) tx c p' tx' c' :
  advance busy ch (Sql s k) tx c = Some (p', tx', c') ->
  (exists e, p' = k (Err e))
  \/ exists r v', exec s (ch_clock ch) (tx_view c tx) = Ok (r, v') /\ p' = k (Ok r)
     /\ (tx', c') = match tx with
                    | [] => ([], v')
                    | lv :: below =>
                        ({| lv_held := locks s (tx_view c tx) ++ lv_held lv; lv_db := v' |} :: below, c)
                    end.
Proof.
  cbn [advance]. destruct (ch_fault ch).
  - destruct (waits _ _); [discriminate|].
    destruct (exec s _ _) as [[r v']|e]; [|intros [= <- _ _]; left; by exists e].
    right. exists r, v'. split; [done|]. destruct tx; [destruct (unique_db v'); [|done]|]; by simplify_eq.
  - intros [= <- _ _]. left. by exists DbFault.
  - destruct (waits _ _); [discriminate|]. intros H1. left.
    destruct (exec s _ _) as [[r v']|e]; [exists DbFault|exists e; by simplify_eq].
    destruct tx; [destruct (unique_db v'); [|done]|]; by simplify_eq.
Qed.

Lemma advance_sql_open {A B} busy ch (s : stmt B) (k : result B DbError -> prog A) lv below c p' tx' c' :
  advance busy ch (Sql s k) (lv :: below) c = Some (p', tx', c') -> c' = c.
Proof. cbn [advance]. intros. repeat case_match; by simplify_eq. Qed.

(** A statement in a transaction. *)
Lemma cwp_sql_tx {B} (s : stmt B) (Q : B -> DB -> list Level -> G -> Prop) c lv below g :
  (forall c1, env (lv :: below) c c1 -> fine s (tx_view c1 (lv :: below))) ->
  (forall c1 clk r v', env (lv :: below) c c1 -> exec s clk (tx_view c1 (lv :: below)) = Ok (r, v') ->
     let tx1 := {| lv_held := locks s (tx_view c1 (lv :: below)) ++ lv_held lv; lv_db := v' |} :: below in
     forall c2, env tx1 c1 c2 -> Q r c2 tx1 g) ->
  cwp (sql (E:=E) s) Q c (lv :: below) g.
Proof.
  intros Hs HQ. apply inter_quiet; [done|done|]. intros c1 busy ch p' tx' c' He Ha. unfold sql in Ha.
  split; [by apply advance_sql_open in Ha|].
  apply advance_sql in Ha as [[e ->]|(r & v' & Hx & -> & [= -> ->])]; [apply cwp_err|].
  apply inter_pure. intros c2 He2. by eapply HQ.
Qed.

Lemma advance_sql_auto {A B} busy ch (s : stmt B) (k : result B DbError -> prog A) c p' tx' c' :
  advance busy ch (Sql s k) [] c = Some (p', tx', c') ->
  (c' = c /\ exists e, p' = k (Err e))
  \/ exists r v', exec s (ch_clock ch) c = Ok (r, v') /\ unique_db v' = true
     /\ tx' = [] /\ c' = v' /\ ((exists e, p' = k (Err e)) \/ p' = k (Ok r)).
Proof.
  cbn [advance tx_view]. intros. repeat case_match; simplify_eq; eauto; right; eexists _, _;
    (split_and!; [done..|]); rewrite ?H; simpl; eauto.
Qed.

(** A statement outside a transaction. *)
Lemma cwp_sql_auto {B} (s : stmt B) (Q : B -> DB -> list Level -> G -> Prop) c g :
  (forall c1, env [] c c1 -> fine s c1) ->
  (forall c1 clk r v', env [] c c1 -> exec s clk c1 = Ok (r, v') -> unique_db v' = true ->
     allows L c1 v' /\ forall c2, env [] v' c2 -> Q r c2 [] (note L g c1 v')) ->
  cwp (sql (E:=E) s) Q c [] g.
Proof.
  intros Hs HQ. split; [done|done| |]; intros c1 busy ch p' tx' c' He Ha; unfold sql in Ha;
    apply advance_sql_auto in Ha as [[-> [e ->]]|(r & v' & Hx & Hu & -> & -> & Hp)].
  - apply allows_same.
  - by eapply HQ.
  - apply cwp_err.
  - destruct (HQ _ _ _ _ He Hx Hu) as [_ HQ']. destruct Hp as [[e ->]| ->]; [apply cwp_err|by apply inter_pure].
Qed.

Lemma cwp_begin (Q : unit -> DB -> list Level -> G -> Prop) c tx g :
  (forall c1, env tx c c1 -> forall c2, env (push_level c1 tx) c1 c2 -> Q tt c2 (push_level c1 tx) g) ->
  cwp (begin_tx (E:=E)) Q c tx g.
Proof.
  intros HQ. apply inter_quiet; [done|done|]. intros c1 busy ch p' tx' c' He. simpl.
  destruct (ch_fault ch); intros; simplify_eq; (split; [done|]);
    [|by apply cwp_err..]. apply inter_pure. intros c2 He2. by apply HQ.
Qed.

Lemma cwp_commit (Q : unit -> DB -> list Level -> G -> Prop) c lv g :
  (forall c1, env [lv] c c1 ->
     let c' := tx_view c1 [lv] in unique_db c' = true ->
     allows L c1 c' /\ forall c2, env [] c' c2 -> Q tt c2 [] (note L g c1 c')) ->
  cwp (commit (E:=E)) Q c [lv] g.
Proof.
  intros HQ. split; [done|done| |]; intros c1 busy ch p' tx' c' He; cbn [commit advance];
    destruct (ch_fault ch), (unique_db (tx_view c1 [lv])) eqn:Hu'; intros; simplify_eq;
    try (by apply cwp_err); try apply allows_same; try by apply HQ.
  apply inter_pure. intros c2 He2. by apply HQ.
Qed.

Lemma cwp_commit_savepoint (Q : unit -> DB -> list Level -> G -> Prop) c lv lv' below g :
  (forall c1, env (merge_level lv lv' :: below) c c1 -> Q tt c1 (merge_level lv lv' :: below) g) ->
  cwp (commit (E:=E)) Q c (lv :: lv' :: below) g.
Proof.
  intros HQ. apply inter_quiet; [done|done|]. intros c1 busy ch p' tx' c' [Hr Hu Ht]. cbn [commit advance].
  destruct (ch_fault ch); intros; simplify_eq; (split; [done|]); try (by apply cwp_err).
  apply inter_pure. intros c2 He2. apply HQ.
  eapply env_rely_l; [|exact He2]. destruct Hr as [Hm Ha]. split; [done|by rewrite merge_held].
Qed.

Lemma cwp_rollback (Q : unit -> DB -> list Level -> G -> Prop) c tx g :
  (forall c1, env (tail tx) c c1 -> Q tt c1 (tail tx) g) -> cwp (rollback (E:=E)) Q c tx g.
Proof.
  intros HQ. apply inter_quiet; [done|done|]. intros c1 busy ch p' tx' c' [Hr Hu Ht]. cbn [rollback advance].
  intros; simplify_eq. split; [done|].
  destruct (ch_fault ch); [|by apply cwp_err..]. apply inter_pure. intros c2 He2. apply HQ.
  eapply env_rely_l; [|exact He2]. destruct tx as [|lv below]; [done|]. by eapply rely_below.
Qed.

(** A transaction's scope, when only the answer and the ghost bit matter. *)
Lemma cwp_with_tx {A} (body : M E A) (Q : A -> G -> Prop) c g :
  (forall c1, env [] c c1 -> cwp body (fun a _ _ => Q a) c1 (push_level c1 []) g) ->
  cwp (with_tx body) (fun a _ _ => Q a) c [] g.
Proof.
  intros H. apply inter_bind.
  eapply inter_mono; [apply (cwp_bindE begin_tx (fun _ => body) (fun a _ _ => Q a)), cwp_begin|].
  - intros c1 He c2 He2. eapply cwp_env; [exact He2|by apply H].
  - intros r c' tx' g' Hr. apply inter_quiet; [done|done|]. intros c1 busy ch p' tx1 c1' He. simpl.
    intros; simplify_eq. split; [done|]. apply inter_pure. intros c2 _. by destruct r.
Qed.

Lemma cwp_or_rollback {A} (r : result A E) (Q : A -> DB -> list Level -> G -> Prop) c tx g :
  (forall a, r = Ok a -> forall c1, env tx c c1 -> Q a c1 tx g) -> cwp (or_rollback r) Q c tx g.
Proof.
  intros H. destruct r as [a|e]; [by apply cwp_ret, H|].
  apply cwp_bindE, cwp_rollback. intros c1 _. apply cwp_raise.
Qed.

Lemma cwp_new_uuid (Q : Uuid -> DB -> list Level -> G -> Prop) c tx g :
  (forall u c1, env tx c c1 -> Q u c1 tx g) -> cwp (new_uuid (E:=E)) Q c tx g.
Proof.
  intros HQ. apply inter_quiet; [done|done|]. simpl. intros; simplify_eq. split; [done|].
  apply inter_pure. eauto using env_rely_l, env_rely.
Qed.
Lemma cwp_random_bytes (Q : string -> DB -> list Level -> G -> Prop) c tx g :
  (forall u c1, env tx c c1 -> Q u c1 tx g) -> cwp (random_bytes (E:=E)) Q c tx g.
Proof.
  intros HQ. apply inter_quiet; [done|done|]. simpl. intros; simplify_eq. split; [done|].
  apply inter_pure. eauto using env_rely_l, env_rely.
Qed.
Lemma cwp_at_instant {A} (f : Z -> A) (Q : A -> DB -> list Level -> G -> Prop) c tx g :
  (forall t c1, env tx c c1 -> Q (f t) c1 tx g) -> cwp (at_instant (E:=E) f) Q c tx g.
Proof.
  intros HQ. apply inter_quiet; [done|done|]. simpl. intros; simplify_eq. split; [done|].
  apply inter_pure. eauto using env_rely_l, env_rely.
Qed.
Lemma cwp_try_instant {A} (f : Z -> result A E) (Q : A -> DB -> list Level -> G -> Prop) c tx g :
  (forall t a c1, f t = Ok a -> env tx c c1 -> Q a c1 tx g) -> cwp (try_instant f) Q c tx g.
Proof.
  intros HQ. apply inter_quiet; [done|done|]. simpl. intros; simplify_eq. split; [done|].
  destruct (f (ch_time ch)) eqn:Hf; [|apply cwp_err].
  apply inter_pure. eauto using env_rely_l, env_rely.
Qed.
End Rules.
End Logic.

(** When nothing is asked of the answer, any ledger that allows all will do. *)
Lemma inter_ledger {A G G'} (L : Ledger G) (L' : Ledger G') `{!Permissive L'}
    (Q : A -> DB -> list Level -> G -> Prop) (p : prog A) c tx g g' :
  inter L Q p c tx g -> inter L' (fun _ _ _ _ => True) p c tx g'.
Proof.
  intros Hi. revert g'. induction Hi as [p c tx g _ Hfine _ _ IH]. intros g'.
  split; [done|exact Hfine|intros; apply permits|]. intros c1 busy ch p' tx' c' He Ha.
  exact (IH _ _ _ _ _ _ He Ha _).
Qed.
