(* ===== verification/Pools.v ===== *)
(** * Pools: what holds of programs advancing together

    A pool whose programs issue fine statements stays consistent, and what
    one program does is what the others rely on; so what the logic says of
    each program ([follows]) holds as the pool advances. [publishes] is a run
    with what one thread committed; [at_most_one_winner] is of programs that
    contend for something that can be had once. *)

From Stdlib Require Import ZArith Lia.
From S2P Require Import Prelude External Schema Effects Evolution StoresSpec StoresInvariant Concurrency ConcurrencyTheory.

(** ** Consistent pools *)

Record thread_ok (c : DB) (busy : list RowId) (th : Thread) : Prop := {
  to_tx : tx_ok c (th_tx th);
  to_apart : apart (held (th_tx th)) busy;
  to_fine : inter blank (fun _ _ _ _ => True) (th_prog th) c (th_tx th) ();
}.
Record pool_ok (pool : Pool) : Prop := {
  po_unique : unique_db (pl_db pool) = true;
  po_threads : forall i th, pl_threads pool !! i = Some th ->
    thread_ok (pl_db pool) (busy_rows i (pl_threads pool)) th;
}.

Lemma busy_rows_spec i threads r :
  r ∈ busy_rows i threads <-> exists j th, j <> i /\ threads !! j = Some th /\ r ∈ held (th_tx th).
Proof.
  revert i. induction threads as [|th threads IH]; intros i; simpl.
  - split; [intros Hr; by apply not_elem_of_nil in Hr|]. by intros (j & th & _ & Hj & _).
  - destruct i as [|i].
    + rewrite list_elem_of_In, in_flat_map. split.
      * intros (th' & [j Hj]%list_elem_of_In%list_elem_of_lookup & Hr%list_elem_of_In).
        by exists (S j), th'.
      * intros ([|j] & th' & Hne & Hj & Hr); [done|]. exists th'. rewrite <- !list_elem_of_In.
        split; [by eapply list_elem_of_lookup_2|done].
    + rewrite elem_of_app, IH. split.
      * intros [Hr|(j & th' & Hne & Hj & Hr)]; [by exists 0%nat, th|].
        exists (S j), th'. split; [congruence|done].
      * intros ([|j] & th' & Hne & Hj & Hr); [by simplify_eq/=; left|right].
        exists j, th'. split; [congruence|done].
Qed.

Lemma busy_rows_insert i th threads : busy_rows i (<[i := th]> threads) = busy_rows i threads.
Proof. revert i. induction threads as [|th' threads IH]; intros [|i]; simpl; [done..|by rewrite IH]. Qed.

(** One thread of the pool did one effect. *)
Record advanced (i : nat) (ch : Choice) (th th' : Thread) (pool pool' : Pool) : Prop := {
  ad_thread : pl_threads pool !! i = Some th;
  ad_advance : advance (busy_rows i (pl_threads pool)) ch (th_prog th) (th_tx th) (pl_db pool)
               = Some (th_prog th', th_tx th', pl_db pool');
  ad_threads : pl_threads pool' = <[i := th']> (pl_threads pool);
}.
Lemma advance_thread_inv i ch pool pool' :
  advance_thread i ch pool = Some pool' -> exists th th', advanced i ch th th' pool pool'.
Proof.
  unfold advance_thread. destruct (pl_threads pool !! i) as [th|] eqn:Hi; [|done].
  destruct (advance _ _ _ _ _) as [[[p tx] c]|] eqn:Ha; intros; simplify_eq.
  exists th, {| th_prog := p; th_tx := tx |}. by split.
Qed.

Section Advanced.
Context {i ch th th' pool pool'} (Had : advanced i ch th th' pool pool') (Hok : pool_ok pool).

Lemma advanced_self : pl_threads pool' !! i = Some th'.
Proof.
  rewrite (ad_threads _ _ _ _ _ _ Had).
  apply list_lookup_insert_eq. eapply lookup_lt_Some, Had.
Qed.
Lemma advanced_other j : j <> i -> pl_threads pool' !! j = pl_threads pool !! j.
Proof. intros Hne. rewrite (ad_threads _ _ _ _ _ _ Had). by apply list_lookup_insert_ne. Qed.
Lemma advanced_busy_self : busy_rows i (pl_threads pool') = busy_rows i (pl_threads pool).
Proof. rewrite (ad_threads _ _ _ _ _ _ Had). apply busy_rows_insert. Qed.

Lemma advanced_env : env (th_tx th) (pl_db pool) (pl_db pool).
Proof. destruct (po_threads _ Hok _ _ (ad_thread _ _ _ _ _ _ Had)). split; [done|by apply po_unique|done]. Qed.
Lemma advanced_fine : stmt_fine (th_prog th) (tx_view (pl_db pool) (th_tx th)).
Proof.
  destruct (po_threads _ Hok _ _ (ad_thread _ _ _ _ _ _ Had)) as [_ _ [_ Hfine _ _]].
  apply Hfine, advanced_env.
Qed.
Lemma advanced_guarantees : guarantees (busy_rows i (pl_threads pool)) (pl_db pool) (th_tx th') (pl_db pool').
Proof.
  destruct (po_threads _ Hok _ _ (ad_thread _ _ _ _ _ _ Had)) as [Htx Hap _].
  eapply advance_guarantee; [apply advanced_fine|done|by apply po_unique|done|apply Had].
Qed.
Lemma advanced_moves : moves (pl_db pool) (pl_db pool').
Proof. apply advanced_guarantees. Qed.

(** What the others rely on. *)
Lemma advanced_rely j thj : j <> i -> pl_threads pool !! j = Some thj ->
  rely (th_tx thj) (pl_db pool) (pl_db pool').
Proof.
  intros Hne Hj. split; [apply advanced_moves|]. intros r Hr.
  apply (gr_agree _ _ _ _ advanced_guarantees). apply busy_rows_spec. by exists j, thj.
Qed.

Lemma advanced_ok : pool_ok pool'.
Proof.
  destruct advanced_guarantees as [Gtx Gu _ _ Gap]. split; [done|]. intros j thj Hj.
  destruct (decide (j = i)) as [->|Hne].
  - rewrite advanced_self in Hj. injection Hj as <-. rewrite advanced_busy_self. split; [done..|].
    destruct (po_threads _ Hok _ _ (ad_thread _ _ _ _ _ _ Had)) as [_ _ [_ _ _ Hadv]].
    exact (Hadv _ _ _ _ _ _ advanced_env (ad_advance _ _ _ _ _ _ Had)).
  - rewrite (advanced_other _ Hne) in Hj. destruct (po_threads _ Hok _ _ Hj) as [Jtx Jap Jf].
    pose proof (advanced_rely _ _ Hne Hj) as Hr. split; [by eapply tx_ok_rely| |by eapply inter_rely].
    intros r Hrj (k & thk & Hk & Hkt & Hrk)%busy_rows_spec.
    destruct (decide (k = i)) as [->|Hki].
    + rewrite advanced_self in Hkt. injection Hkt as <-. apply (Gap r Hrk), busy_rows_spec. by exists j, thj.
    + rewrite (advanced_other _ Hki) in Hkt. apply (Jap r Hrj), busy_rows_spec. by exists k, thk.
Qed.
End Advanced.

Lemma pool_step_ok pool pool' : pool_ok pool -> pool_step pool pool' -> pool_ok pool' /\ moves (pl_db pool) (pl_db pool').
Proof.
  intros Hok (i & ch & (th & th' & Had)%advance_thread_inv).
  split; [exact (advanced_ok Had Hok)|exact (advanced_moves Had Hok)].
Qed.
Lemma pool_steps_ok pool pool' :
  pool_ok pool -> rtc pool_step pool pool' -> pool_ok pool' /\ moves (pl_db pool) (pl_db pool').
Proof.
  intros Hok Hs. induction Hs as [|pool pool1 pool2 Hs _ IH]; [done|].
  destruct (pool_step_ok _ _ Hok Hs) as [Hok1 Hm1]. destruct (IH Hok1) as [Hok2 Hm2]. split; [done|by etrans].
Qed.

(** Programs that begin: alone, or in a running pool. *)
Definition fresh_ok (c : DB) (p : prog bool) : Prop := inter blank (fun _ _ _ _ => True) p c [] ().
Lemma busy_rows_join i pool ps r :
  r ∈ busy_rows i (pl_threads (join pool ps)) -> r ∈ busy_rows i (pl_threads pool).
Proof.
  rewrite !busy_rows_spec. intros (j & th & Hne & Hj & Hr). exists j, th. split_and!; [done| |done].
  simpl in Hj. apply lookup_app_Some in Hj as [?|[_ Hj]]; [done|]. rewrite list_lookup_fmap in Hj.
  apply fmap_Some in Hj as (p & _ & ->). by apply not_elem_of_nil in Hr.
Qed.
(** A thread of a pool that others joined is one of the pool or a newcomer. *)
Lemma join_lookup pool ps i th : pl_threads (join pool ps) !! i = Some th ->
  pl_threads pool !! i = Some th
  \/ (length (pl_threads pool) <= i)%nat /\ exists p, ps !! (i - length (pl_threads pool))%nat = Some p /\ th = spawn p.
Proof.
  intros [Hi|[Hle Hi]]%lookup_app_Some; [by left|right]. split; [done|].
  rewrite list_lookup_fmap in Hi. by apply fmap_Some in Hi.
Qed.
Lemma join_ok pool ps : pool_ok pool -> Forall (fresh_ok (pl_db pool)) ps -> pool_ok (join pool ps).
Proof.
  intros [Hu Hth] Hps. split; simpl; [done|]. intros i th [Hi|(_ & p & Hp & ->)]%join_lookup.
  - destruct (Hth _ _ Hi) as [Htx Hap Hf]. split; [done| |done].
    intros r Hr Hb. exact (Hap r Hr (busy_rows_join _ _ _ _ Hb)).
  - rewrite Forall_lookup in Hps. split; [done|apply apart_none|exact (Hps _ _ Hp)].
Qed.
Lemma start_join d ps : start d ps = join {| pl_db := d; pl_threads := [] |} ps.
Proof. done. Qed.
Lemma start_ok d ps : unique_db d = true -> Forall (fresh_ok d) ps -> pool_ok (start d ps).
Proof. intros Hu Hps. rewrite start_join. by apply join_ok. Qed.

(** ** What the logic says of a thread *)

Definition follows {G} (L : Ledger G) (Q : bool -> DB -> list Level -> G -> Prop) (i : nat) (g : G)
    (pool : Pool) : Prop :=
  forall th, pl_threads pool !! i = Some th -> inter L Q (th_prog th) (pl_db pool) (th_tx th) g.

Section Follows.
Context {G : Type} (L : Ledger G) (Q : bool -> DB -> list Level -> G -> Prop).
Context {i ch th th' pool pool'} (Had : advanced i ch th th' pool pool') (Hok : pool_ok pool).

Lemma follows_self g : follows L Q i g pool -> follows L Q i (note L g (pl_db pool) (pl_db pool')) pool'.
Proof.
  intros Hf thi Hi. rewrite (advanced_self Had) in Hi. injection Hi as <-.
  destruct (Hf _ (ad_thread _ _ _ _ _ _ Had)) as [_ _ _ Hadv].
  exact (Hadv _ _ _ _ _ _ (advanced_env Had Hok) (ad_advance _ _ _ _ _ _ Had)).
Qed.
Lemma follows_allowed g : follows L Q i g pool -> allows L (pl_db pool) (pl_db pool').
Proof.
  intros Hf. destruct (Hf _ (ad_thread _ _ _ _ _ _ Had)) as [_ _ Hall _].
  exact (Hall _ _ _ _ _ _ (advanced_env Had Hok) (ad_advance _ _ _ _ _ _ Had)).
Qed.
Lemma follows_other j g : j <> i -> follows L Q j g pool -> follows L Q j g pool'.
Proof.
  intros Hne Hf thj Hj. rewrite (advanced_other Had _ Hne) in Hj.
  eapply inter_rely; [by apply (advanced_rely Had Hok _ _ Hne Hj)|by apply Hf].
Qed.
End Follows.

Lemma follows_answer {G} (L : Ledger G) (Q : bool -> DB -> list Level -> G -> Prop) i g pool :
  pool_ok pool -> follows L Q i g pool -> won i pool -> exists tx, Q true (pl_db pool) tx g.
Proof.
  intros Hok Hf (th & Hi & Hr). destruct (po_threads _ Hok _ _ Hi) as [Htx _ _].
  destruct (Hf _ Hi) as [Hret _ _ _]. exists (th_tx th). apply Hret; [done|].
  split; [done|by apply po_unique|done].
Qed.

(** ** Runs, and what a thread published *)

(** A change of the committed database. *)
Definition change (c c' : DB) : list (DB * DB) := if c ==? c' then [] else [(c, c')].
Inductive publishes (i : nat) : Pool -> list (DB * DB) -> Pool -> Prop :=
| PublishesNone pool : publishes i pool [] pool
| PublishesOther j ch pool pool1 l pool2 :
    j <> i -> advance_thread j ch pool = Some pool1 -> publishes i pool1 l pool2 ->
    publishes i pool l pool2
| PublishesOwn ch pool pool1 l pool2 :
    advance_thread i ch pool = Some pool1 -> publishes i pool1 l pool2 ->
    publishes i pool (change (pl_db pool) (pl_db pool1) ++ l) pool2.

Lemma publishes_total i pool pool' : rtc pool_step pool pool' <-> exists l, publishes i pool l pool'.
Proof.
  split.
  - induction 1 as [pool|pool pool1 pool2 (j & ch & Ha) _ (l & IH)]; [eexists; constructor|].
    destruct (decide (j = i)) as [->|Hne]; eexists; by econstructor.
  - intros (l & Hp). induction Hp as [|j ch pool pool1 l pool2 _ Ha _ IH|ch pool pool1 l pool2 Ha _ IH];
      [done|eapply rtc_l; [by eexists _, _|done]..].
Qed.

(** The ledger that keeps what a program published: changes that [T] allows. *)
Lemma change_same (l : list (DB * DB)) c : l ++ change c c = l.
Proof. unfold change. by rewrite bool_decide_true, app_nil_r by done. Qed.
Definition may_change (T : DB -> DB -> Prop) (c c' : DB) : Prop := c' = c \/ T c c'.
Definition journal (T : DB -> DB -> Prop) : Ledger (list (DB * DB)) :=
  {| note l c c' := l ++ change c c'; allows := may_change T;
     note_same := change_same; allows_same c := or_introl eq_refl |}.

Lemma publishes_follows T Q i l g pool pool' :
  publishes i pool l pool' -> pool_ok pool -> follows (journal T) Q i g pool ->
  pool_ok pool' /\ follows (journal T) Q i (g ++ l) pool'.
Proof.
  intros Hp. revert g. induction Hp as [pool|j ch pool pool1 l pool2 Hne Ha _ IH|ch pool pool1 l pool2 Ha _ IH];
    intros g Hok Hf.
  - by rewrite app_nil_r.
  - apply advance_thread_inv in Ha as (th & th' & Had).
    apply IH; [exact (advanced_ok Had Hok)|by apply (follows_other _ _ Had Hok)].
  - apply advance_thread_inv in Ha as (th & th' & Had).
    rewrite app_assoc. apply IH; [exact (advanced_ok Had Hok)|exact (follows_self _ _ Had Hok _ Hf)].
Qed.

(** What is published was published at a step of the run. *)
Lemma publishes_at i l pool pool' c c' :
  publishes i pool l pool' -> (c, c') ∈ l ->
  exists before after, rtc pool_step pool before /\ pool_step before after /\ rtc pool_step after pool'
    /\ pl_db before = c /\ pl_db after = c'.
Proof.
  induction 1 as [pool|j ch pool pool1 l pool2 Hne Ha Hp IH|ch pool pool1 l pool2 Ha Hp IH]; intros Hin;
    [by apply not_elem_of_nil in Hin|..].
  all: assert (Hs : pool_step pool pool1) by (by eexists _, _).
  - destruct (IH Hin) as (b & a & Hb & ?). exists b, a. split; [by eapply rtc_l|done].
  - apply elem_of_app in Hin as [Hin|Hin].
    + unfold change in Hin. destruct (bool_decide _); [by apply not_elem_of_nil in Hin|].
      apply list_elem_of_singleton in Hin. simplify_eq. exists pool, pool1.
      split_and!; [done|done| |done..]. apply (publishes_total i). by exists l.
    + destruct (IH Hin) as (b & a & Hb & ?). exists b, a. split; [by eapply rtc_l|done].
Qed.

(** ** At most one winner

    Programs contend for something that can be had once: [done] says of a
    database that it was. The ledger of a program is a bit: it was its effect
    that made it so. *)

Definition mark (done : DB -> bool) (c c' : DB) : bool := negb (done c) && done c'.
Lemma mark_none done m c : m || mark done c c = m.
Proof. unfold mark. destruct (done c); apply orb_false_r. Qed.
Definition marks (done : DB -> bool) : Ledger bool :=
  {| note m c c' := m || mark done c c'; allows _ _ := True;
     note_same := mark_none done; allows_same _ := I |}.
#[export] Instance marks_permissive done : Permissive (marks done).
Proof. done. Qed.

(** A program that wins only by its own effect. *)
Definition fairly : bool -> DB -> list Level -> bool -> Prop := fun a _ _ m => a = true -> m = true.

Section Contest.
Context (done : DB -> bool).
Context (done_moves : forall c c', moves c c' -> done c = true -> done c' = true).
Definition fair (p : prog bool) (c : DB) (tx : list Level) (m : bool) : Prop :=
  inter (marks done) fairly p c tx m.

(** [w] is the thread whose effect made it [done], if any. *)
Record contest_ok (w : option nat) (pool : Pool) : Prop := {
  co_pool : pool_ok pool;
  co_fair : forall i, follows (marks done) fairly i (w ==? Some i) pool;
  co_open : done (pl_db pool) = false -> w = None;
  co_won : is_Some w -> done (pl_db pool) = true;
  co_range : forall k, w = Some k -> (k < length (pl_threads pool))%nat;
}.

Lemma contest_step w pool pool' :
  contest_ok w pool -> pool_step pool pool' ->
  exists w', contest_ok w' pool' /\ (done (pl_db pool) = true -> w' = w).
Proof.
  intros [Hok Hf Hopen Hwon Hrange] (i & ch & (th & th' & Had)%advance_thread_inv).
  set (c := pl_db pool) in *. set (c' := pl_db pool').
  pose proof (done_moves _ _ (advanced_moves Had Hok)) as Hdm. fold c c' in Hdm.
  assert (Hm : mark done c c' = true -> w = None /\ done c' = true).
  { intros [Hd%negb_true_iff Hd']%andb_true_iff. split; [by apply Hopen|done]. }
  exists (if mark done c c' then Some i else w).
  split; [|unfold mark; by intros ->]. split.
  - exact (advanced_ok Had Hok).
  - intros j. destruct (decide (j = i)) as [->|Hne].
    + pose proof (follows_self _ _ Had Hok _ (Hf i)) as Hs. cbn [note marks] in Hs. fold c c' in Hs.
      destruct (mark done c c'); [|by rewrite orb_false_r in Hs].
      rewrite orb_true_r in Hs. by rewrite bool_decide_true.
    + pose proof (follows_other _ _ Had Hok _ _ Hne (Hf j)) as Hs.
      destruct (mark done c c'); [|done]. destruct (Hm eq_refl) as [-> _].
      rewrite bool_decide_false in Hs by done. by rewrite bool_decide_false by congruence.
  - intros Hd. unfold mark. fold c' in Hd. rewrite Hd, andb_false_r. apply Hopen.
    destruct (done c); [by rewrite Hdm in Hd|done].
  - destruct (mark done c c'); [by intros _; apply Hm|]. intros Hw. by apply Hdm, Hwon.
  - intros k. rewrite (ad_threads _ _ _ _ _ _ Had), length_insert.
    destruct (mark done c c'); [|by apply Hrange]. intros [= <-]. eapply lookup_lt_Some, Had.
Qed.

Lemma contest_steps w pool pool' :
  contest_ok w pool -> rtc pool_step pool pool' ->
  exists w', contest_ok w' pool' /\ (done (pl_db pool) = true -> w' = w).
Proof.
  intros Hw Hs. revert w Hw. induction Hs as [pool|pool pool1 pool2 Ha _ IH]; intros w Hw; [by exists w|].
  destruct (contest_step _ _ _ Hw Ha) as (w1 & Hw1 & Hk1). destruct (IH _ Hw1) as (w2 & Hw2 & Hk2).
  exists w2. split; [done|]. intros Hd. rewrite Hk2; [by apply Hk1|].
  eapply done_moves, Hd. eapply pool_step_ok; [apply Hw|done].
Qed.

Lemma winner_unique w pool i : contest_ok w pool -> won i pool -> w = Some i.
Proof.
  intros Hw Hwon. destruct (follows_answer _ _ _ _ _ (co_pool _ _ Hw) (co_fair _ _ Hw i) Hwon) as [tx Hq].
  apply (bool_decide_eq_true (w = Some i)). by apply Hq.
Qed.

Lemma fair_fresh c p : fair p c [] false -> fresh_ok c p.
Proof. intros Hf. by eapply inter_ledger; [apply _|]. Qed.
Lemma join_contest w pool ps :
  contest_ok w pool -> Forall (fun p => fair p (pl_db pool) [] false) ps -> contest_ok w (join pool ps).
Proof.
  intros [Hok Hf Hopen Hwon Hrange] Hps. split; [|intros i th|done|done|].
  - apply join_ok; [done|]. eapply Forall_impl, Hps. apply fair_fresh.
  - intros [Hi|(Hle & p & Hp & ->)]%join_lookup; [by apply Hf|].
    rewrite bool_decide_false by (intros ->; specialize (Hrange _ eq_refl); lia).
    rewrite Forall_lookup in Hps. exact (Hps _ _ Hp).
  - intros k Hk. simpl. rewrite length_app. specialize (Hrange _ Hk). lia.
Qed.
Lemma start_contest d ps :
  unique_db d = true -> Forall (fun p => fair p d [] false) ps -> contest_ok None (start d ps).
Proof. intros Hu Hps. rewrite start_join. apply join_contest; [|done]. by split; [split| | |intros [? ?]|]. Qed.

(** At most one program of the pool wins, only if it was done, and none if it
    was done before. *)
Lemma at_most_one_winner d ps pool :
  unique_db d = true -> Forall (fun p => fair p d [] false) ps ->
  rtc pool_step (start d ps) pool ->
  (forall i j, won i pool -> won j pool -> i = j)
  /\ (forall i, won i pool -> done d = false /\ done (pl_db pool) = true)
  /\ moves d (pl_db pool).
Proof.
  intros Hu Hps Hs. pose proof (start_contest _ _ Hu Hps) as Hst.
  destruct (contest_steps _ _ _ Hst Hs) as (w & Hw & Hk).
  split_and!; [| |by apply (pool_steps_ok _ _ (co_pool _ _ Hst) Hs)].
  - intros i j Hi Hj. apply (winner_unique _ _ _ Hw) in Hi, Hj. congruence.
  - intros i Hi. pose proof (winner_unique _ _ _ Hw Hi) as ->. split; [|by apply (co_won _ _ Hw)].
    simpl in Hk. destruct (done d); [by specialize (Hk eq_refl)|done].
Qed.

Lemma fair_bystand {A} (p : prog A) c :
  inter (marks done) (fun _ _ _ _ => True) p c [] false -> fair (bystand p) c [] false.
Proof.
  intros Hp. apply inter_bind. eapply inter_mono; [exact Hp|]. intros a c' tx' m' _.
  by apply inter_pure.
Qed.

(** An answer that [win] accepts means it won. *)
Definition winning {A} (win : A -> bool) : A -> DB -> list Level -> bool -> Prop :=
  fun a _ _ g => win a = true -> g = true.

Lemma fair_contend {E A} win (m : M E A) c :
  cwp (marks done) m (winning win) c [] false -> fair (contend win m) c [] false.
Proof.
  intros H. apply inter_bind. eapply inter_mono; [exact H|].
  intros [a|e] c' tx' g Hg; apply inter_pure; intros c1 _; [exact Hg|done].
Qed.
End Contest.
