(* ===== verification/System.v ===== *)
(** * System: the operations of all stores, in any order

    One constructor for each operation of the stores; a step of the system
    runs one of them alone, whatever its parameters, the clocks, the random
    draws and the failures. The invariant and the order of StoresInvariant.v
    hold of all that is reachable, by induction on the steps. *)

From Stdlib Require Import Ascii ZArith.
From S2P Require Import Prelude External Schema Effects Evolution Identity Cimd OAuth Jose Keys Google Credentials CredentialsSpec CredentialsTheory CredentialsInvariant Database Logout Browser StoresSpec DatabaseTheory LogoutTheory BrowserTheory StoresInvariant.

Section System.
Context `{Crypto, UrlLib, JsonLib, JsonDb, UuidLib}.

(** The operations. The variants of the code that fix an argument
    ([exchange_code], [approve]'s shortcuts, [deny], ...) are instances. *)
Inductive operation : forall A, prog A -> Prop :=
(* credentials.rs *)
| OpCreateSession user l : operation _ (create_provider_session user l)
| OpFindSession raw : operation _ (find_provider_session raw)
| OpIssueCode s g l : operation _ (issue_authorization_code s g l)
| OpExchange raw c u r v reg : operation _ (exchange_code_bound raw c u r v reg)
| OpExchangeRequest raw c u r v sc reg : operation _ (exchange_code_request raw c u r v sc reg)
| OpRotate raw c r reg : operation _ (rotate_refresh_bound raw c r reg)
| OpRotateRequest raw c r sc reg : operation _ (rotate_refresh_request raw c r sc reg)
| OpRevoke raw c : operation _ (revoke_refresh raw c)
| OpLogout s : operation _ (logout s)
(* browser.rs *)
| OpTransactionClient id : operation _ (transaction_client_id id)
| OpCallbackClient cl : operation _ (callback_client_id cl)
| OpBeginGoogle p st n a : operation _ (begin_google_with_pre_authorization p st n a)
| OpStartGoogle id st bd : operation _ (start_google id st bd)
| OpCancelGoogle id st bd reg : operation _ (cancel_google_bound id st bd reg)
| OpBeginAuthenticated s p st n a : operation _ (begin_authenticated_with_pre_authorization s p st n a)
| OpUpstreamAuthTime s : operation _ (session_upstream_auth_time s)
| OpClaimCallback st bd : operation _ (claim_callback st bd)
| OpFailCallback cl : operation _ (fail_callback cl)
| OpDenyCallback cl reg : operation _ (deny_callback cl reg)
| OpCompleteCallback cl i l reg : operation _ (complete_callback_bound cl i l reg)
| OpApprove s h reg : operation _ (approve s h reg)
| OpApprovePreAuthorized s h reg : operation _ (approve_pre_authorized s h reg)
| OpConsentView s h reg : operation _ (consent_view s h reg)
| OpDeny s h reg : operation _ (deny_bound s h reg)
(* logout.rs *)
| OpBeginLogout s c u st reg : operation _ (begin s c u st reg)
| OpBeginLocal s u : operation _ (begin_local s u)
| OpFinish s ch reg : operation _ (finish s ch reg)
| OpFinishInner s ch reg hint : operation _ (finish_inner s ch reg hint)
(* database.rs *)
| OpFindOrCreate i : operation _ (find_or_create_external_identity i)
| OpFindOrCreateGoogle i : operation _ (find_or_create_verified_google_identity i)
| OpProfile u : operation _ (user_profile u).

(** ** Programs that begin with a read *)

Lemma safe_read {E} `{!FromDb E} {A B} (s : stmt B) (k : B -> M E A) :
  (forall clk d r d', exec s clk d = Ok (r, d') -> d' = d) ->
  (forall b, safe (k b)) -> safe (b <- sql s ;; k b).
Proof.
  intros Hs Hk o d n r w Hr. unfold bindE in Hr. rewrite run_bind in Hr. simpl in Hr.
  unfold view, set_view in Hr; simpl in Hr.
  destruct (o_fault o n); [|by simpl in Hr; simplify_eq; split; [|apply preserves_refl]|];
    (destruct (exec s _ d) as [[b d']|e] eqn:He; simpl in Hr;
       [|by simplify_eq; split; [|apply preserves_refl]]);
    apply Hs in He as ->; [by eapply (Hk b o d (S n))|by simplify_eq; split; [|apply preserves_refl]].
Qed.
Lemma safe_pure {A} (a : A) : safe (Ret a).
Proof. intros o d n r w Hr. simpl in Hr. simplify_eq. split; [done|apply preserves_refl]. Qed.
Lemma safe_try_instant {E A B} (f : Z -> result B E) (k : B -> M E A) :
  (forall b, safe (k b)) -> safe (b <- try_instant f ;; k b).
Proof.
  intros Hk o d n r w Hr. unfold bindE in Hr. simpl in Hr.
  destruct (f _) as [b|e].
  - by eapply (Hk b o d (S n)).
  - simpl in Hr; simplify_eq. split; [done|apply preserves_refl].
Qed.

(** ** Every operation is safe *)

Lemma find_provider_session_safe raw : safe (find_provider_session raw).
Proof.
  unfold find_provider_session. apply safe_read; [by intros; simplify_eq/=|].
  intros [[id t]|]; apply safe_pure.
Qed.
Lemma exchange_code_bound_safe raw client uri res v reg : safe (exchange_code_bound raw client uri res v reg).
Proof.
  eapply outcome_safe; [apply exchange_code_bound_evolves|apply exchange_code_bound_keeps_wf|
    intros; apply exchange_code_bound_wp|apply exchange_success_kept|apply exchange_replay_kept|
    apply exchange_success_revoked|apply exchange_replay_revoked].
Qed.
Lemma rotate_refresh_bound_safe raw client res reg : safe (rotate_refresh_bound raw client res reg).
Proof.
  eapply outcome_safe; [apply rotate_refresh_bound_evolves|apply rotate_refresh_bound_keeps_wf|
    intros; apply rotate_refresh_bound_wp|apply rotate_success_kept|apply rotate_replay_kept|
    apply rotate_success_revoked|apply rotate_replay_revoked].
Qed.
Lemma exchange_code_request_safe raw client uri res v sc reg :
  safe (exchange_code_request raw client uri res v sc reg).
Proof.
  unfold exchange_code_request. apply safe_read; [by intros; simplify_eq/=|].
  intros [[[ss sr] ch]|]; [|apply safe_pure]. case_match; [apply safe_pure|].
  apply safe_try_instant. intros _. apply exchange_code_bound_safe.
Qed.
Lemma rotate_refresh_request_safe raw client res sc reg : safe (rotate_refresh_request raw client res sc reg).
Proof.
  unfold rotate_refresh_request. apply safe_read; [by intros; simplify_eq/=|].
  intros [[ss sr]|]; [|apply safe_pure]. case_match; [apply safe_pure|].
  apply rotate_refresh_bound_safe.
Qed.
Lemma transaction_client_id_safe id : safe (transaction_client_id id).
Proof.
  unfold transaction_client_id. apply safe_read; [by intros; simplify_eq/=|].
  intros [c|]; apply safe_pure.
Qed.
Lemma callback_client_id_safe claim : safe (callback_client_id claim).
Proof.
  unfold callback_client_id. apply safe_read; [by intros; simplify_eq/=|].
  intros [c|]; apply safe_pure.
Qed.

Lemma operation_safe {A} (p : prog A) : operation A p -> safe p.
Proof.
  destruct 1;
    try first [apply find_provider_session_safe|apply exchange_code_bound_safe
              |apply exchange_code_request_safe|apply rotate_refresh_bound_safe
              |apply rotate_refresh_request_safe|apply transaction_client_id_safe
              |apply callback_client_id_safe].
  - eapply outcome_safe; [apply create_provider_session_evolves|apply create_provider_session_keeps_wf|
      intros; apply create_provider_session_wp|apply session_created_kept|done|
      apply session_created_revoked|done].
  - eapply outcome_safe; [apply issue_authorization_code_evolves|apply issue_authorization_code_keeps_wf|
      intros; apply issue_authorization_code_wp|apply code_issued_kept|done|
      apply code_issued_revoked|done].
  - eapply outcome_safe; [apply revoke_refresh_evolves|apply revoke_refresh_keeps_wf|
      intros; apply revoke_refresh_wp|apply token_revoked_kept|done|
      apply token_revoked_revoked|done].
  - eapply outcome_safe; [apply logout_evolves|apply logout_keeps_wf|
      intros; apply logout_wp|apply logged_out_kept|done|
      apply logged_out_revoked|done].
  - eapply settled_safe; [intros; apply begin_google_wp|apply google_begun_preserves|apply never_preserves].
  - eapply settled_safe; [intros; apply start_google_wp|apply google_started_preserves|
      apply google_unreadable_preserves].
  - eapply settled_safe; [intros; apply cancel_google_bound_wp|apply google_cancelled_preserves|
      apply never_preserves].
  - eapply settled_safe; [intros; apply begin_authenticated_wp|apply consent_begun_preserves|
      apply never_preserves].
  - eapply settled_safe; [intros; apply session_upstream_auth_time_wp|intros ? ? ?; apply reads_preserves|
      apply never_preserves].
  - eapply settled_safe; [intros; apply claim_callback_wp|apply callback_taken_preserves|
      apply callback_late_preserves].
  - eapply settled_safe; [intros; apply fail_callback_wp|apply callback_marked_failed_preserves|
      apply never_preserves].
  - eapply settled_safe; [intros; apply deny_callback_wp|apply callback_refused_preserves|
      apply never_preserves].
  - eapply settled_safe; [intros; apply complete_callback_bound_wp|apply signed_in_by_preserves|
      apply sign_in_late_preserves].
  - eapply settled_safe; [intros; apply approve_wp|apply consent_given_preserves|apply never_preserves].
  - eapply settled_safe; [intros; apply approve_pre_authorized_wp|apply consent_decided_preserves|
      apply never_preserves].
  - eapply settled_safe; [intros; apply consent_view_wp|apply consent_shown_preserves|apply never_preserves].
  - eapply settled_safe; [intros; apply deny_bound_wp|apply consent_refused_preserves|apply never_preserves].
  - eapply settled_safe; [intros; apply begin_wp| |apply never_preserves].
    intros c' a d [Ha _]. by eapply logout_asked_preserves.
  - eapply settled_safe; [intros; apply logout_insert_wp|apply logout_asked_preserves|apply never_preserves].
  - eapply settled_safe; [intros; apply finish_wp| |apply never_preserves].
    intros c' a d Ha. exact (logout_finished_preserves _ _ _ _ _ _ _ Ha).
  - eapply settled_safe; [intros; apply finish_inner_wp|apply logout_finished_preserves|apply never_preserves].
  - eapply settled_safe; [intros; apply find_or_create_external_identity_wp|apply user_of_preserves|
      apply never_preserves].
  - eapply settled_safe; [intros; apply find_or_create_verified_google_identity_wp| |apply never_preserves].
    intros c' a d (now & Ha & _). by eapply google_user_preserves.
  - eapply settled_safe; [intros; apply user_profile_wp|intros ? ? ?; apply reads_preserves|
      apply never_preserves].
Qed.

(** ** Steps *)

(** One operation, run alone. *)
Inductive step (d : DB) : DB -> Prop :=
| Step A (p : prog A) o n a w : operation A p -> run o p (idle d n) = (a, w) -> step d (w_db w).

Definition reachable : DB -> Prop := rtc step empty_db.

Lemma step_preserves d d' : step d d' -> preserves d d'.
Proof. intros [A p o n a w Hp Hr]. by destruct (operation_safe p Hp _ _ _ _ _ Hr). Qed.
Lemma steps_preserve d d' : rtc step d d' -> preserves d d'.
Proof.
  induction 1 as [d|d d1 d2 Hs _ IH]; [apply preserves_refl|].
  eapply preserves_trans; [by apply step_preserves|done].
Qed.

Lemma empty_db_wf : system_wf empty_db.
Proof.
  split.
  - by apply store_wf_no_sessions.
  - intros i f. simpl. by rewrite lookup_empty.
  - split; simpl; [apply map_Forall_empty|..]; intros i j v w k; by rewrite lookup_empty.
  - apply map_Forall_empty.
  - split; simpl; [intros k u|intros k k' u]; by rewrite lookup_empty.
Qed.

Lemma reachable_system_wf d : reachable d -> system_wf d.
Proof. intros Hr. by apply (steps_preserve _ _ Hr empty_db_wf). Qed.
Lemma reachable_moves d d' : reachable d -> rtc step d d' -> moves d d'.
Proof. intros Hr Hs. by apply (steps_preserve _ _ Hs), reachable_system_wf. Qed.
Lemma reachable_step A (p : prog A) o d n a w :
  reachable d -> operation A p -> run o p (idle d n) = (a, w) -> reachable (w_db w).
Proof. intros Hr Hp Hw. eapply rtc_r; [exact Hr|by eapply Step]. Qed.
End System.
