(* ===== verification/Confinement.v ===== *)
(** * Confinement: every statement changes only rows it locks

    Most statements are quiet: they stay off the requests' table, and rows
    evolve. The others of this file check the stage of the request they
    change themselves. What is left, the updates whose check is an earlier
    locked read, is in Deciders.v. *)

From Stdlib Require Import Ascii ZArith.
From S2P Require Import Prelude External Schema Effects Evolution Identity Cimd OAuth Jose Keys Google Credentials CredentialsSpec CredentialsTheory CredentialsInvariant Database Logout Browser StoresSpec DatabaseTheory LogoutTheory BrowserTheory StoresInvariant System Concurrency ConcurrencyTheory.

(** ** Row operations *)

(** Only one table differs: its rows are compared. *)
Ltac one_table :=
  let row := fresh "row" in let Hrow := fresh "Hrow" in
  intros row Hrow; destruct row; simpl in *; try done;
  first [rewrite lookup_insert_ne; [done|] | rewrite lookup_alter_ne; [done|]];
  let Heq := fresh in intros Heq; apply Hrow; simplify_eq; set_solver.

Section Rows.
Context `{JsonDb}.
Implicit Types d : DB.

Lemma touches_refl rows d : touches rows d d.
Proof. by intros row. Qed.

Lemma insert_session_touches id r d d' : insert_session_row id r d = Ok d' -> touches [RowSession id] d d'.
Proof. unfold insert_session_row. intros. case_match; simplify_eq. one_table. Qed.
Lemma insert_code_touches id r d d' : insert_code_row id r d = Ok d' -> touches [RowCode id] d d'.
Proof. unfold insert_code_row. intros. case_match; simplify_eq. one_table. Qed.
Lemma insert_family_touches id r d d' : insert_family_row id r d = Ok d' -> touches [RowFamily id] d d'.
Proof. unfold insert_family_row. intros. case_match; simplify_eq. one_table. Qed.
Lemma insert_member_touches id r d d' : insert_member_row id r d = Ok d' -> touches [RowMember id] d d'.
Proof. unfold insert_member_row. intros. case_match; simplify_eq. one_table. Qed.
Lemma insert_browser_touches id r d d' : insert_browser_row id r d = Ok d' -> touches [RowBrowser id] d d'.
Proof. unfold insert_browser_row. intros. case_match; simplify_eq. one_table. Qed.
Lemma update_browser_touches id f d d' : update_browser_row id f d = Ok d' -> touches [RowBrowser id] d d'.
Proof.
  unfold update_browser_row. intros. case_match; [|by simplify_eq]. case_match; simplify_eq. one_table.
Qed.
Lemma insert_logout_touches id r d d' : insert_logout_row id r d = Ok d' -> touches [RowLogout id] d d'.
Proof. unfold insert_logout_row. intros. case_match; simplify_eq. one_table. Qed.
Lemma insert_identity_touches i s u d d' :
  insert_identity_row i s u d = Ok d' -> touches [RowIdentity i s] d d'.
Proof. unfold insert_identity_row. intros. case_match; simplify_eq. one_table. Qed.
Lemma insert_user_touches id d d' : insert_user_row id d = Ok d' -> touches [RowUser id] d d'.
Proof. unfold insert_user_row. intros. case_match; simplify_eq. one_table. Qed.

Lemma revoke_session_at_touches id t d : touches [RowSession id] d (revoke_session_at id t d).
Proof. unfold revoke_session_at. one_table. Qed.

Lemma families_where_elem p d id f :
  refresh_families d !! id = Some f -> p id f = true -> RowFamily id ∈ families_where p d.
Proof.
  intros Hf Hp. apply list_elem_of_In, in_map_iff. exists (id, f). split; [done|].
  apply List.filter_In. split; [|done]. by apply list_elem_of_In, elem_of_map_to_list.
Qed.
Lemma revoke_families_touches p t d : touches (families_where p d) d (revoke_families_where p t d).
Proof.
  intros row Hrow. destruct row; simpl; try done. rewrite lookup_update_rows.
  destruct (refresh_families d !! id) as [f|] eqn:Hf; [|done]. simpl.
  destruct (p id f) eqn:Hp; [|done]. destruct Hrow. by eapply families_where_elem.
Qed.
End Rows.

#[export] Hint Resolve touches_refl insert_session_touches insert_code_touches insert_family_touches
  insert_member_touches insert_browser_touches update_browser_touches insert_logout_touches
  insert_identity_touches insert_user_touches revoke_session_at_touches revoke_families_touches : evolves.

(** ** Statements *)

Lemma confined_select {R} (f : (Uuid -> Z) -> DB -> R) : confined R (select f).
Proof. intros clk d r d' Hd. simpl in Hd. by simplify_eq. Qed.
Lemma confined_for_update {R} lk (f : (Uuid -> Z) -> DB -> R) : confined R (select_for_update lk f).
Proof. intros clk d r d' Hd. simpl in Hd. by simplify_eq. Qed.
Lemma confined_fetch_one {R} (s : stmt (option R)) : confined _ s -> confined R (fetch_one s).
Proof.
  intros Hs clk d r d' Hd. simpl in Hd.
  destruct (exec s clk d) as [[[r'|] d1]|] eqn:He; simplify_eq. by eapply Hs.
Qed.
Lemma confined_modify lk f :
  (forall clk d d', f clk d = Ok d' -> touches (lk d) d d') -> confined unit (modify lk f).
Proof.
  intros Hf clk d r d' Hd. simpl in Hd. destruct (f clk d) eqn:He; simplify_eq. by eapply Hf.
Qed.


Section Statements.
Context `{Crypto, UrlLib, JsonLib, JsonDb, UuidLib}.

(** A statement that answers unit, by its row operation. *)
Ltac row_op := apply confined_modify; intros ? ? ? Hd; simpl in *.

Lemma insert_session_stmt_confined id h u secs up : confined _ (insert_session_stmt id h u secs up).
Proof. intros clk d r d' Hd. simpl in Hd. case_match; simplify_eq. by eapply insert_session_touches. Qed.
Lemma insert_login_session_stmt_confined id h u t secs up :
  confined _ (insert_login_session_stmt id h u t secs up).
Proof. intros clk d r d' Hd. simpl in Hd. case_match; simplify_eq. by eapply insert_session_touches. Qed.
Lemma insert_code_stmt_confined id h sid g n u secs : confined _ (insert_code_stmt id h sid g n u secs).
Proof. row_op. apply rbind_Ok in Hd as (b & _ & Hd). eauto with evolves. Qed.
Lemma consume_code_stmt_confined id now : confined _ (consume_code_stmt id now).
Proof. row_op. simplify_eq. one_table. Qed.
Lemma revoke_families_stmt_confined p now : confined _ (revoke_families_stmt p now).
Proof. row_op. simplify_eq. apply revoke_families_touches. Qed.
Lemma insert_family_stmt_confined id code s now : confined _ (insert_family_stmt id code s now).
Proof. row_op. apply rbind_Ok in Hd as (b & _ & Hd). eauto with evolves. Qed.
Lemma insert_member_stmt_confined id f h now : confined _ (insert_member_stmt id f h now).
Proof. row_op. eauto with evolves. Qed.
Lemma consume_member_stmt_confined id now s : confined _ (consume_member_stmt id now s).
Proof. row_op. case_match; simplify_eq. one_table. Qed.
Lemma revoke_family_now_confined id : confined _ (revoke_family_now id).
Proof.
  row_op. simplify_eq. intros row Hrow. apply revoke_families_touches.
  unfold families_where. intros Hin. apply Hrow. apply list_elem_of_In, in_map_iff in Hin as ([k f] & <- & Hk).
  apply List.filter_In in Hk as [_ Hk]. simpl in *. bools_all. set_solver.
Qed.
Lemma revoke_session_now_confined id : confined _ (revoke_session_now id).
Proof. row_op. simplify_eq. apply revoke_session_at_touches. Qed.
Lemma revoke_session_families_now_confined id : confined _ (revoke_session_families_now id).
Proof. row_op. simplify_eq. apply revoke_families_touches. Qed.
Lemma revoke_session_stmt_confined id t : confined _ (revoke_session_stmt id t).
Proof. row_op. simplify_eq. apply revoke_session_at_touches. Qed.
Lemma insert_logout_stmt_confined id csrf s c r st : confined _ (insert_logout_stmt id csrf s c r st).
Proof. row_op. eauto with evolves. Qed.
Lemma consume_logout_stmt_confined id t : confined _ (consume_logout_stmt id t).
Proof. row_op. simplify_eq. one_table. Qed.
Lemma insert_user_stmt_confined id : confined _ (insert_user_stmt id).
Proof. row_op. eauto with evolves. Qed.
Lemma insert_identity_stmt_confined i s u : confined _ (insert_identity_stmt i s u).
Proof. row_op. eauto with evolves. Qed.
Lemma upsert_profile_stmt_confined u p : confined _ (upsert_profile_stmt u p).
Proof. row_op. case_match; simplify_eq. one_table. Qed.
Lemma insert_start_stmt_confined start p st n a : confined _ (insert_start_stmt start p st n a).
Proof. row_op. apply rbind_Ok in Hd as (b & _ & Hd). eauto with evolves. Qed.
Lemma insert_consent_stmt_confined id csrf s p st n a : confined _ (insert_consent_stmt id csrf s p st n a).
Proof. row_op. apply rbind_Ok in Hd as (b & _ & Hd). eauto with evolves. Qed.
Lemma update_browser_stmt_confined id f : confined _ (update_browser_stmt id f).
Proof. row_op. eauto with evolves. Qed.
Lemma update_where_stmt_confined p f : confined _ (update_where_stmt p f).
Proof.
  intros clk d r d' Hd. simpl in Hd. unfold update_browser_where in Hd. simpl. unfold browser_where.
  destruct (find_row p _) as [[id b]|]; [|by simplify_eq].
  destruct (update_browser_row _ _ _) as [d1|] eqn:Hu; simplify_eq/=. by eapply update_browser_touches.
Qed.
Lemma start_google_stmt_confined id st b : confined _ (start_google_stmt id st b).
Proof.
  intros clk d r d' Hd. simpl in *. destruct (find_row _ _) as [[k row]|] eqn:Hf; [|by simplify_eq].
  apply rbind_Ok in Hd as (d1 & Hd & [= <- <-]). apply find_row_Some in Hf as [_ Hf].
  unfold startable in Hf. bools_all. subst. by eapply update_browser_touches.
Qed.
End Statements.

(** ** Quiet statements *)

(** The statement locks no request. *)
Definition off_browser {R} (s : stmt R) : Prop := forall d id, RowBrowser id ∉ locks s d.
Definition quiet (R : Type) (s : stmt R) : Prop :=
  stmt_steps evolves R s /\ confined R s /\ off_browser s.

Lemma touches_off_browser rows d d' :
  touches rows d d' -> (forall id, RowBrowser id ∉ rows) ->
  browser_authorizations d' = browser_authorizations d.
Proof. intros Ht Ho. apply map_eq. intros id. exact (Ht (RowBrowser id) (Ho id)). Qed.

Lemma quiet_sound {R} (s : stmt R) : quiet R s -> sound_stmt R s.
Proof.
  intros (He & Hc & Ho) v clk r v' Hx. split; [|by eapply Hc].
  split; [by eapply He|]. rewrite (touches_off_browser _ _ _ (Hc _ _ _ _ Hx) (Ho v)). reflexivity.
Qed.

Lemma quiet_select {R} (f : (Uuid -> Z) -> DB -> R) : quiet R (select f).
Proof. split_and!; [apply stmt_steps_select; apply _|apply confined_select|intros d id; simpl; set_solver]. Qed.
Lemma quiet_for_update {R} lk (f : (Uuid -> Z) -> DB -> R) :
  (forall d id, RowBrowser id ∉ lk d) -> quiet R (select_for_update lk f).
Proof. intros Hl. split_and!; [apply stmt_steps_for_update; apply _|apply confined_for_update|exact Hl]. Qed.
Lemma quiet_fetch_one {R} (s : stmt (option R)) : quiet _ s -> quiet R (fetch_one s).
Proof.
  intros (He & Hc & Ho). split_and!; [by apply stmt_steps_fetch_one|by apply confined_fetch_one|exact Ho].
Qed.

Lemma sound_for_update {R} lk (f : (Uuid -> Z) -> DB -> R) : sound_stmt R (select_for_update lk f).
Proof.
  intros v clk r v' Hx. pose proof (confined_for_update _ _ _ _ _ _ Hx) as Ht.
  simpl in Hx. simplify_eq. split; [reflexivity|exact Ht].
Qed.
Lemma sound_fetch_one {R} (s : stmt (option R)) : sound_stmt _ s -> sound_stmt R (fetch_one s).
Proof.
  intros Hs v clk r v' Hx. simpl in Hx. destruct (exec s clk v) as [[[r'|] d1]|] eqn:He; simplify_eq.
  by eapply Hs.
Qed.

Lemma off_families p d id : RowBrowser id ∉ families_where p d.
Proof.
  intros Hin. apply list_elem_of_In, in_map_iff in Hin as (kv & Heq & _). done.
Qed.

Lemma off_logout `{Crypto} c session csrf d id : RowBrowser id ∉ logout_where c session csrf d.
Proof. unfold logout_where. destruct (find_row _ _) as [[k l]|]; set_solver. Qed.

#[export] Hint Resolve quiet_select quiet_fetch_one sound_for_update sound_fetch_one quiet_sound : stmts.
#[export] Hint Extern 1 (RowBrowser _ ∉ _) =>
  first [apply off_families | apply off_logout | cbn; set_solver] : stmts.
#[export] Hint Extern 2 (quiet _ _) => apply quiet_for_update; intros ? ? : stmts.

(** What evolves, is confined and locks no request is quiet. *)
Ltac quiet_stmt lem :=
  split_and!; [auto with stmts|apply lem|intros ? ?; first [apply off_families | cbn; set_solver]].

Section Quiet.
Context `{Crypto, UrlLib, JsonLib, JsonDb, UuidLib}.

Lemma insert_session_stmt_quiet id h u secs up : quiet _ (insert_session_stmt id h u secs up).
Proof. quiet_stmt insert_session_stmt_confined. Qed.
Lemma insert_login_session_stmt_quiet id h u t secs up : quiet _ (insert_login_session_stmt id h u t secs up).
Proof. quiet_stmt insert_login_session_stmt_confined. Qed.
Lemma insert_code_stmt_quiet id h sid g n u secs : quiet _ (insert_code_stmt id h sid g n u secs).
Proof. quiet_stmt insert_code_stmt_confined. Qed.
Lemma consume_code_stmt_quiet id now : quiet _ (consume_code_stmt id now).
Proof. quiet_stmt consume_code_stmt_confined. Qed.
Lemma revoke_families_stmt_quiet p now : quiet _ (revoke_families_stmt p now).
Proof. quiet_stmt revoke_families_stmt_confined. Qed.
Lemma insert_family_stmt_quiet id code s now : quiet _ (insert_family_stmt id code s now).
Proof. quiet_stmt insert_family_stmt_confined. Qed.
Lemma insert_member_stmt_quiet id f h now : quiet _ (insert_member_stmt id f h now).
Proof. quiet_stmt insert_member_stmt_confined. Qed.
Lemma consume_member_stmt_quiet id now s : quiet _ (consume_member_stmt id now s).
Proof. quiet_stmt consume_member_stmt_confined. Qed.
Lemma revoke_family_now_quiet id : quiet _ (revoke_family_now id).
Proof. quiet_stmt revoke_family_now_confined. Qed.
Lemma revoke_session_now_quiet id : quiet _ (revoke_session_now id).
Proof. quiet_stmt revoke_session_now_confined. Qed.
Lemma revoke_session_families_now_quiet id : quiet _ (revoke_session_families_now id).
Proof. quiet_stmt revoke_session_families_now_confined. Qed.
Lemma revoke_session_stmt_quiet id t : quiet _ (revoke_session_stmt id t).
Proof. quiet_stmt revoke_session_stmt_confined. Qed.
Lemma insert_logout_stmt_quiet id csrf s c r st : quiet _ (insert_logout_stmt id csrf s c r st).
Proof. quiet_stmt insert_logout_stmt_confined. Qed.
Lemma consume_logout_stmt_quiet id t : quiet _ (consume_logout_stmt id t).
Proof. quiet_stmt consume_logout_stmt_confined. Qed.
Lemma insert_user_stmt_quiet id : quiet _ (insert_user_stmt id).
Proof. quiet_stmt insert_user_stmt_confined. Qed.
Lemma insert_identity_stmt_quiet i s u : quiet _ (insert_identity_stmt i s u).
Proof. quiet_stmt insert_identity_stmt_confined. Qed.
Lemma upsert_profile_stmt_quiet u p : quiet _ (upsert_profile_stmt u p).
Proof. quiet_stmt upsert_profile_stmt_confined. Qed.
End Quiet.

#[export] Hint Resolve insert_session_stmt_quiet insert_login_session_stmt_quiet
  insert_code_stmt_quiet consume_code_stmt_quiet revoke_families_stmt_quiet
  insert_family_stmt_quiet insert_member_stmt_quiet consume_member_stmt_quiet
  revoke_family_now_quiet revoke_session_now_quiet revoke_session_families_now_quiet
  revoke_session_stmt_quiet insert_logout_stmt_quiet consume_logout_stmt_quiet
  insert_user_stmt_quiet insert_identity_stmt_quiet upsert_profile_stmt_quiet : stmts.

(** ** Statements on requests that check the stage they leave *)

Section Checked.
Context `{Crypto, UrlLib, JsonLib, JsonDb, UuidLib}.

(** A request is added. *)
Lemma insert_browser_moves id r d d' : insert_browser_row id r d = Ok d' -> moves d d'.
Proof.
  intros Hi. split; [eauto with evolves|]. unfold insert_browser_row in Hi. case_match; simplify_eq.
  bools_all. simpl. apply table_le_insert; [apply _|done].
Qed.

(** A request goes from its stage to a next one. *)
Lemma update_browser_moves id f d d' b :
  update_browser_row id f d = Ok d' -> browser_authorizations d !! id = Some b ->
  browser_le b (f b) -> stage_step (ba_stage b) (ba_stage (f b)) -> moves d d'.
Proof.
  unfold update_browser_row. intros Hu Hb Hle Hs. rewrite Hb in Hu. case_match; simplify_eq.
  split; [apply evolves_set_browser|simpl]; eapply table_le_replace; eauto using rtc_once with typeclass_instances.
  by apply rtc_once.
Qed.

Lemma insert_start_stmt_sound start p st n a : sound_stmt _ (insert_start_stmt start p st n a).
Proof.
  intros v clk r v' Hx. pose proof (insert_start_stmt_confined _ _ _ _ _ _ _ _ _ Hx) as Ht.
  split; [|exact Ht]. simpl in Hx. case_match eqn:Hd; simplify_eq.
  apply rbind_Ok in Hd as (b & _ & Hd). by eapply insert_browser_moves.
Qed.
Lemma insert_consent_stmt_sound id csrf s p st n a : sound_stmt _ (insert_consent_stmt id csrf s p st n a).
Proof.
  intros v clk r v' Hx. pose proof (insert_consent_stmt_confined _ _ _ _ _ _ _ _ _ _ _ Hx) as Ht.
  split; [|exact Ht]. simpl in Hx. case_match eqn:Hd; simplify_eq.
  apply rbind_Ok in Hd as (b & _ & Hd). by eapply insert_browser_moves.
Qed.
Lemma start_google_stmt_sound id st b : sound_stmt _ (start_google_stmt id st b).
Proof.
  intros v clk r v' Hx. pose proof (start_google_stmt_confined _ _ _ _ _ _ _ Hx) as Ht.
  split; [|exact Ht]. simpl in Hx. destruct (find_row _ _) as [[k row]|] eqn:Hf; [|by simplify_eq].
  apply rbind_Ok in Hx as (d1 & Hu & [= <- <-]). apply find_row_Some in Hf as [Hrow Hf].
  unfold startable in Hf. bools_all. subst.
  eapply update_browser_moves; [exact Hu|exact Hrow|apply with_state_le|].
  match goal with Hst : ba_stage row = _ |- _ => rewrite Hst end. constructor.
Qed.
(** An UPDATE whose WHERE tests the stage. *)
Lemma update_where_stmt_sound p f s :
  (forall id b, p id b = true -> ba_stage b = s) ->
  (forall b, browser_le b (f b) /\ (ba_stage b = s -> stage_step s (ba_stage (f b)))) ->
  sound_stmt _ (update_where_stmt p f).
Proof.
  intros Hp Hf v clk r v' Hx. pose proof (update_where_stmt_confined _ _ _ _ _ _ Hx) as Ht.
  split; [|exact Ht]. simpl in Hx. unfold update_browser_where in Hx.
  destruct (find_row p _) as [[id b]|] eqn:Hr; [|by simplify_eq]. apply find_row_Some in Hr as [Hb Hpb].
  destruct (update_browser_row _ _ _) as [d1|] eqn:Hu; simplify_eq/=. apply Hp in Hpb.
  destruct (Hf b) as [Hle Hs]. eapply update_browser_moves; [exact Hu|exact Hb|done|]. rewrite Hpb. auto.
Qed.
Lemma claimed_by_stage claim id b : claimed_by claim id b = true -> ba_stage b = callback_claimed.
Proof. unfold claimed_by. intros. by bools_all. Qed.
Lemma fail_callback_stmt_sound claim : sound_stmt _ (fail_callback_stmt claim).
Proof.
  apply (update_where_stmt_sound _ _ callback_claimed); [apply claimed_by_stage|].
  intros b. split; [apply with_state_le|]. intros _. constructor.
Qed.
Lemma sign_in_stmt_sound id session csrf : sound_stmt _ (sign_in_stmt id session csrf).
Proof.
  apply (update_where_stmt_sound _ _ callback_claimed); [intros k b; intros; by bools_all|].
  intros b. split; [apply with_state_le|]. intros _. constructor.
Qed.
End Checked.

#[export] Hint Resolve insert_start_stmt_sound insert_consent_stmt_sound start_google_stmt_sound
  fail_callback_stmt_sound sign_in_stmt_sound : stmts.
