(* ===== verification/Framing.v ===== *)
(** * Framing: what a transaction goes on knowing

    A fact about an open transaction is framed when neither the others nor
    its own quiet statements can break it; a part of a transaction is framing
    when, succeeding, it keeps every framed fact. The rules carry facts
    through the parts of an operation that only read, check and write
    elsewhere. *)

From Stdlib Require Import Ascii ZArith.
From S2P Require Import Prelude External Schema Effects Evolution StoresSpec StoresInvariant Concurrency ConcurrencyTheory Confinement.

Record framed (F : DB -> list Level -> Prop) : Prop := {
  fr_env : forall c c1 tx, env tx c c1 -> F c tx -> F c1 tx;
  fr_stmt : forall R (s : stmt R) clk c lv below r v', quiet R s ->
    exec s clk (tx_view c (lv :: below)) = Ok (r, v') -> F c (lv :: below) ->
    F c ({| lv_held := locks s (tx_view c (lv :: below)) ++ lv_held lv; lv_db := v' |} :: below);
}.

(** The facts of the level below hold when the innermost one is dropped. *)
Definition below_keeps (F : DB -> list Level -> Prop) (tx0 : list Level) (c : DB) (tx : list Level) : Prop :=
  tail tx = tx0 /\ tx <> [] /\ F c tx0.

Lemma env_below lv below c c1 : env (lv :: below) c c1 -> env below c c1.
Proof. intros [Hr Hu [_ Ht]]. split; [by eapply rely_below|done|done]. Qed.

Lemma framed_below F tx0 : framed F -> framed (below_keeps F tx0).
Proof.
  intros HF. split.
  - intros c c1 [|lv tx] He (Ht & Hne & Hf); [done|]. simpl in Ht. subst tx.
    split_and!; [done..|]. by eapply (fr_env _ HF), Hf; eapply env_below.
  - by intros R s clk c lv below r v' _ _ (Ht & _ & Hf).
Qed.

Lemma framed_and F G : framed F -> framed G -> framed (fun c tx => F c tx /\ G c tx).
Proof.
  intros HF HG. split.
  - intros c c1 tx He [Hf Hg]. split; [by eapply (fr_env _ HF)|by eapply (fr_env _ HG)].
  - intros R s clk c lv below r v' Hs Hx [Hf Hg]. split; [by eapply (fr_stmt _ HF)|by eapply (fr_stmt _ HG)].
Qed.

Section Framing.
Context {G : Type} (L : Ledger G) {E : Type} `{!FromDb E}.
Notation cwp := (cwp L).

(** A statement: what it answers, and the facts it keeps. *)
Lemma cwp_read {A B} (s : stmt B) (f : B -> M E A) Q F c lv below g :
  framed F -> quiet _ s -> F c (lv :: below) ->
  (forall clk d r v' c1 lv1, exec s clk d = Ok (r, v') -> F c1 (lv1 :: below) -> cwp (f r) Q c1 (lv1 :: below) g) ->
  cwp (bindE (sql s) f) Q c (lv :: below) g.
Proof.
  intros HF Hs Hc Hf. apply cwp_bindE, cwp_sql_tx; [intros; by apply quiet_sound|].
  intros c1 clk r v' He Hx tx1 c2 He2. eapply cwp_env; [exact He2|]. eapply Hf; [exact Hx|].
  eapply (fr_stmt _ HF); [done|exact Hx|]. by eapply (fr_env _ HF).
Qed.

(** The same, with the version of the database it saw. *)
Lemma cwp_read_ahead {A B} (s : stmt B) (f : B -> M E A) Q F c lv below g :
  framed F -> quiet _ s -> F c (lv :: below) ->
  (forall clk c0 d r v' c1 lv1, F c0 (lv :: below) -> unique_db c0 = true -> moves c0 d ->
     (held (lv :: below) = [] -> d = c0) -> exec s clk d = Ok (r, v') ->
     F c1 (lv1 :: below) -> cwp (f r) Q c1 (lv1 :: below) g) ->
  cwp (bindE (sql s) f) Q c (lv :: below) g.
Proof.
  intros HF Hs Hc Hf. apply cwp_bindE, cwp_sql_tx; [intros; by apply quiet_sound|].
  intros c1 clk r v' He Hx tx1 c2 He2. eapply cwp_env; [exact He2|].
  apply (fr_env _ HF _ _ _ He) in Hc. destruct He as [_ Hu Ht].
  eapply (Hf clk c1 _ r v'); [exact Hc|exact Hu|by apply tx_ok_moves| |exact Hx|].
  - intros Hn. apply db_ext. intros row. apply tx_view_free. rewrite Hn. by intros ?%not_elem_of_nil.
  - by eapply (fr_stmt _ HF).
Qed.

Definition framing {A} (m : M E A) : Prop := forall F Q c lv below g,
  framed F -> F c (lv :: below) ->
  (forall a c1 lv1, F c1 (lv1 :: below) -> Q a c1 (lv1 :: below) g) -> cwp m Q c (lv :: below) g.

Lemma framing_ret {A} (a : A) : framing (ret a).
Proof. intros F Q c lv below g HF Hc HQ. apply cwp_ret. intros c1 He. by eapply HQ, (fr_env _ HF). Qed.
Lemma framing_raise {A} (e : E) : framing (raise (A:=A) e).
Proof. intros F Q c lv below g _ _ _. apply cwp_raise. Qed.
Lemma framing_bindE {A B} (m : M E A) (f : A -> M E B) :
  framing m -> (forall a, framing (f a)) -> framing (bindE m f).
Proof. intros Hm Hf F Q c lv below g HF Hc HQ. apply cwp_bindE. eapply Hm; [done..|]. intros. by eapply Hf. Qed.
Lemma framing_sql {A} (s : stmt A) : quiet _ s -> framing (sql s).
Proof.
  intros Hs F Q c lv below g HF Hc HQ. apply cwp_sql_tx; [intros; by apply quiet_sound|].
  intros c1 clk r v' He Hx tx1 c2 He2. apply HQ, (fr_env _ HF _ _ _ He2).
  eapply (fr_stmt _ HF); [done|exact Hx|]. by eapply (fr_env _ HF).
Qed.
Lemma framing_new_uuid : framing new_uuid.
Proof. intros F Q c lv below g HF Hc HQ. apply cwp_new_uuid. intros u c1 He. by eapply HQ, (fr_env _ HF). Qed.
Lemma framing_random_bytes : framing random_bytes.
Proof. intros F Q c lv below g HF Hc HQ. apply cwp_random_bytes. intros u c1 He. by eapply HQ, (fr_env _ HF). Qed.
Lemma framing_at_instant {A} (f : Z -> A) : framing (at_instant f).
Proof. intros F Q c lv below g HF Hc HQ. apply cwp_at_instant. intros u c1 He. by eapply HQ, (fr_env _ HF). Qed.
Lemma framing_or_rollback {A} (r : result A E) : framing (or_rollback r).
Proof. intros F Q c lv below g HF Hc HQ. apply cwp_or_rollback. intros a _ c1 He. by eapply HQ, (fr_env _ HF). Qed.
Lemma cwp_frame {A B} (m : M E B) (f : B -> M E A) Q F c lv below g :
  framing m -> framed F -> F c (lv :: below) ->
  (forall r c1 lv1, F c1 (lv1 :: below) -> cwp (f r) Q c1 (lv1 :: below) g) ->
  cwp (bindE m f) Q c (lv :: below) g.
Proof. intros Hm HF Hc Hf. apply cwp_bindE. by eapply Hm. Qed.

(** What follows is good whatever happened before. *)
Lemma cwp_then `{!Permissive L} {A B} (m : M E B) (f : B -> M E A) Q c tx g :
  stmts_ok sound_stmt m -> (forall b c1 tx1 g1, cwp (f b) Q c1 tx1 g1) -> cwp (bindE m f) Q c tx g.
Proof.
  intros Hm Hf. apply cwp_bindE. eapply inter_mono; [by apply inter_sound; [apply _|]|].
  intros [] ? ? ? _; [apply Hf|done].
Qed.

(** A part that fails, whatever it does before. *)
Lemma framing_fails {A} (m : M E A) : (forall Q c tx g, cwp m Q c tx g) -> framing m.
Proof. intros Hm F Q c lv below g _ _ _. apply Hm. Qed.

(** Sound statements, and any answer. *)
Lemma cwp_sound `{!Permissive L} {A} (m : M E A) c tx g : stmts_ok sound_stmt m -> cwp m (fun _ _ _ _ => True) c tx g.
Proof. intros Hm. eapply inter_mono; [by apply inter_sound; [apply _|]|]. by intros [] ? ? ? _. Qed.
End Framing.

(** Goes through a part of a transaction that only reads, checks and writes. *)
Ltac solve_framing :=
  repeat first
    [ progress intros
    | apply framing_bindE
    | apply framing_ret | apply framing_raise | apply framing_new_uuid | apply framing_random_bytes
    | apply framing_at_instant | apply framing_or_rollback
    | apply framing_sql; solve [eauto with stmts typeclass_instances]
    | case_match ].

Create HintDb framing.
#[export] Hint Resolve framing_ret framing_raise framing_new_uuid framing_random_bytes : framing.

(** The next effects keep the fact [Hu] about [c] and [lv]; their answer is
    [x]. *)
Tactic Notation "carry" simple_intropattern(x) "keeping" constr(HF) "of" hyp(Hu) hyp(c) hyp(lv) :=
  eapply cwp_frame;
    [first [ solve [auto 2 with framing nocore]
           | apply framing_sql; solve [eauto with stmts typeclass_instances] ]
    |apply HF
    |exact Hu|];
  clear c lv Hu; intros x c lv Hu.
