(* ===== verification/Drafts.v ===== *)
(** * Drafts: what a transaction has locked and written

    A transaction that will be published as one step is a draft: it knows the
    committed version of the rows it locked, and its own version of the rows
    it wrote; everything else it shows as committed. The rules take a draft
    through the statements of an operation to its COMMIT. *)

From Stdlib Require Import Ascii ZArith.
From S2P Require Import Prelude External Schema Effects Evolution Cimd OAuth Jose Credentials CredentialsSpec StoresSpec StoresInvariant Transitions Concurrency ConcurrencyTheory Pools Confinement.

(** ** Versions of rows *)

Record version := Version {
  vn_row : RowId;
  vn_value : option (row_type vn_row);
}.
(** The version of a row in [d]. *)
Definition version_in (d : DB) (r : RowId) : version := Version r (row_get r d).
Definition is_in (d : DB) (v : version) : Prop := row_get (vn_row v) d = vn_value v.

(** [d] is [c] with the rows written. *)
Record shows (ws : list version) (c d : DB) : Prop := {
  sh_written : Forall (is_in d) ws;
  sh_rest : forall r, r ∉ map vn_row ws -> row_get r d = row_get r c;
}.

Lemma shows_nothing c d : shows [] c d -> d = c.
Proof. intros [_ Hr]. apply db_ext. intros r. apply Hr. set_solver. Qed.
Lemma shows_same c : shows [] c c.
Proof. by split. Qed.

Lemma shows_eq ws c d d' : shows ws c d -> shows ws c d' -> d = d'.
Proof.
  intros [Hw Hr] [Hw' Hr']. apply db_ext. intros r.
  destruct (decide (r ∈ map vn_row ws)) as [Hin|Hin]; [|by rewrite Hr, Hr'].
  apply list_elem_of_fmap in Hin as (v & -> & Hv). rewrite list.Forall_forall in Hw, Hw'.
  by rewrite (Hw _ Hv), (Hw' _ Hv).
Qed.

(** One more row written. *)
Lemma shows_write ws c d d' r :
  shows ws c d -> r ∉ map vn_row ws -> touches [r] d d' -> shows (version_in d' r :: ws) c d'.
Proof.
  intros [Hw Hr] Hn Ht. split.
  - constructor; [done|]. rewrite list.Forall_forall in *. intros v Hv. unfold is_in.
    rewrite Ht; [by apply Hw|]. intros <-%list_elem_of_singleton. apply Hn, list_elem_of_fmap. by exists v.
  - intros r' Hr'. simpl in Hr'. rewrite Ht by set_solver. apply Hr. set_solver.
Qed.

(** More rows written. *)
Lemma shows_writes ws c d d' rs :
  shows ws c d -> (forall r, r ∈ rs -> r ∉ map vn_row ws) -> touches rs d d' ->
  shows (map (version_in d') rs ++ ws) c d'.
Proof.
  intros [Hw Hr] Hn Ht. split.
  - apply Forall_app_2; rewrite list.Forall_forall in *; [by intros v (r & -> & _)%list_elem_of_fmap|].
    intros v Hv. unfold is_in. rewrite Ht; [by apply Hw|]. intros Hin. eapply Hn; [exact Hin|].
    apply list_elem_of_fmap. by exists v.
  - intros r Hin. rewrite map_app, map_map in Hin. simpl in Hin. rewrite map_id in Hin.
    rewrite Ht by set_solver. apply Hr. set_solver.
Qed.

(** A row that was not written is the committed one. *)
Lemma shows_row ws c d r : shows ws c d -> r ∉ map vn_row ws -> row_get r d = row_get r c.
Proof. intros [_ Hr]. apply Hr. Qed.

(** ** Drafts *)

(** From [c] on, as rows move, it holds. *)
Definition always (P : DB -> Prop) (c : DB) : Prop := forall c', moves c c' -> P c'.
Lemma always_moves P c c' : moves c c' -> always P c -> always P c'.
Proof. intros Hm Ha c2 Hm2. apply Ha. by etrans. Qed.
Lemma always_now P c : always P c -> P c.
Proof. intros Ha. by apply Ha. Qed.

(** [P] holds from now on; [ks] are the rows locked, as committed; [ws] the
    rows written, all in the innermost level. *)
Record draft (P : DB -> Prop) (ks ws : list version) (c : DB) (tx : list Level) : Prop := {
  dr_fact : always P c;
  dr_kept : Forall (fun v => vn_row v ∈ held tx /\ is_in c v) ks;
  dr_held : Forall (fun v => vn_row v ∈ held tx) ws;
  dr_shows : shows ws c (tx_view c tx);
  dr_below : tx_view c (tail tx) = c;
}.

Lemma draft_start P c : always P c -> draft P [] [] c (push_level c []).
Proof. intros Hp. split; [done..| |done]. rewrite push_view. apply shows_same. Qed.

Lemma draft_learn (P' P : DB -> Prop) ks ws c tx :
  always P' c -> draft P ks ws c tx -> draft (fun d => P' d /\ P d) ks ws c tx.
Proof. intros Hp' [Hp Hk Hh Hs Hb]. split; [|done..]. intros c' Hm. split; [by apply Hp'|by apply Hp]. Qed.

Lemma unwritten_rely tx c c1 : rely tx c c1 -> tx_view c (tail tx) = c -> tx_view c1 (tail tx) = c1.
Proof.
  destruct tx as [|lv below]; [done|]. intros Hr%rely_below Hb. apply db_ext. intros r. simpl in *.
  destruct (decide (r ∈ held below)) as [Hh|Hh]; [|by apply tx_view_free].
  rewrite (tx_view_rely _ _ _ _ Hr Hh), Hb. symmetry. by apply Hr.
Qed.

Lemma draft_env P ks ws c c1 tx : env tx c c1 -> draft P ks ws c tx -> draft P ks ws c1 tx.
Proof.
  intros [[Hm Ha] _ _] [Hp Hk Hh [Hw Hr] Hb]. split; [by eapply always_moves| |done|split|by apply (unwritten_rely _ c)].
  - eapply list.Forall_impl; [exact Hk|]. intros v [Hv Hi]. split; [done|]. unfold is_in. by rewrite Ha.
  - rewrite list.Forall_forall in *. intros v Hv. unfold is_in. specialize (Hh _ Hv). specialize (Hw _ Hv).
    destruct tx as [|lv below]; [by apply not_elem_of_nil in Hh|].
    rewrite tx_view_get, decide_True by done. unfold is_in in Hw. by rewrite tx_view_get, decide_True in Hw.
  - intros r Hn. specialize (Hr r Hn). destruct (decide (r ∈ held tx)) as [Hh'|Hh'].
    + destruct tx as [|lv below]; [by apply not_elem_of_nil in Hh'|].
      rewrite tx_view_get, decide_True in * by done. by rewrite Ha.
    + by apply tx_view_free.
Qed.

(** What is known of the committed database. *)
Definition known (P : DB -> Prop) (ks : list version) (c : DB) : Prop := always P c /\ Forall (is_in c) ks.
Lemma draft_known P ks ws c tx : draft P ks ws c tx -> known P ks c.
Proof. intros [Hp Hk _ _ _]. split; [done|]. eapply list.Forall_impl; [exact Hk|]. by intros v []. Qed.

(** *** Savepoints *)

Lemma draft_push P ks c tx : draft P ks [] c tx -> draft P ks [] c (push_level c tx).
Proof.
  intros [Hp Hk Hh Hs _]. split; [done..| |by apply shows_nothing]. by rewrite push_view.
Qed.
Lemma draft_merge P ks ws c lv lv' :
  draft P ks ws c [lv; lv'] -> draft P ks ws c [merge_level lv lv'].
Proof. intros [Hp Hk Hh Hs _]. split; [done|by rewrite merge_held..|by rewrite merge_view|done]. Qed.
(** The savepoint is dropped: what the level below holds is still held. *)
Lemma draft_drop P ks ks' ws c lv lv' :
  draft P ks ws c [lv; lv'] -> ks' ⊆ ks -> Forall (fun v => vn_row v ∈ held [lv']) ks' ->
  draft P ks' [] c [lv'].
Proof.
  intros [Hp Hk _ _ Hb] Hsub Hh. cbn [tail] in Hb. split; [done| |done|rewrite Hb; apply shows_same|done].
  rewrite list.Forall_forall in *. intros v Hv. split; [by apply Hh|]. by apply Hk, Hsub.
Qed.

(** ** Rules *)

(** A statement that only reads. *)
Definition reads (R : Type) (s : stmt R) : Prop := forall clk d r d', exec s clk d = Ok (r, d') -> d' = d.

Lemma reads_select {R} (f : (Uuid -> Z) -> DB -> R) : reads R (select f).
Proof. intros clk d r d' H. simpl in H. by simplify_eq. Qed.
Lemma reads_for_update {R} lk (f : (Uuid -> Z) -> DB -> R) : reads R (select_for_update lk f).
Proof. intros clk d r d' H. simpl in H. by simplify_eq. Qed.
Lemma reads_fetch_one {R} (s : stmt (option R)) : reads _ s -> reads R (fetch_one s).
Proof.
  intros Hs clk d r d' H. simpl in H.
  destruct (exec s clk d) as [[[r'|] d1]|] eqn:He; simplify_eq. by eapply Hs.
Qed.

Section Rules.
Context {G : Type} (L : Ledger G) {E : Type} `{!FromDb E}.
Notation cwp := (cwp L).
Implicit Types (ks ws : list version).

(** The draft after a statement of its transaction. *)
Lemma draft_statement {R} P ks ks' ws ws' c lv below (s : stmt R) clk r v' :
  fine s (tx_view c (lv :: below)) -> exec s clk (tx_view c (lv :: below)) = Ok (r, v') ->
  draft P ks ws c (lv :: below) -> shows ws' c v' ->
  Forall (fun v => vn_row v ∈ locks s (tx_view c (lv :: below)) /\ is_in c v) ks' ->
  Forall (fun v => vn_row v ∈ locks s (tx_view c (lv :: below)) \/ v ∈ ws) ws' ->
  draft P (ks' ++ ks) ws' c
    ({| lv_held := locks s (tx_view c (lv :: below)) ++ lv_held lv; lv_db := v' |} :: below).
Proof.
  intros Hf Hx [Hp Hk Hh _ Hb] Hs Hk' Hw'. split; [done|..|done].
  - apply Forall_app_2; (eapply list.Forall_impl; [eassumption|]); intros v [Hv Hi]; (split; [|done]);
      rewrite held_cons in *; simpl; set_solver.
  - rewrite list.Forall_forall in *. intros v Hv. rewrite held_cons. simpl.
    destruct (Hw' _ Hv) as [Hl|Hin]; [set_solver|]. specialize (Hh _ Hin). rewrite held_cons in Hh. set_solver.
  - by rewrite (stmt_view _ _ _ _ Hf _ _ _ Hx).
Qed.

(** A read, which locks the rows [rs d r] when it answers [r] of [d]. *)
Lemma cwp_draft_read_at {A B} (rs : DB -> B -> list RowId) (s : stmt B) (f : B -> M E A) Q P ks ws c lv below g :
  sound_stmt _ s -> reads _ s -> (forall clk d r, exec s clk d = Ok (r, d) -> rs d r ⊆ locks s d) ->
  draft P ks ws c (lv :: below) ->
  (forall clk c0 d r c1 lv1, moves c0 c1 -> unique_db c0 = true -> shows ws c0 d -> known P ks c0 ->
     exec s clk d = Ok (r, d) ->
     draft P (map (version_in c0) (rs d r) ++ ks) ws c1 (lv1 :: below) -> cwp (f r) Q c1 (lv1 :: below) g) ->
  cwp (bindE (sql s) f) Q c (lv :: below) g.
Proof.
  intros Hs Hrd Hl Hd Hf. apply cwp_bindE, cwp_sql_tx; [intros; apply Hs|].
  intros c0 clk r v' He Hx tx1 c1 He1. pose proof (draft_env _ _ _ _ _ _ He Hd) as Hd0.
  pose proof (Hrd _ _ _ _ Hx) as ->.
  eapply (Hf clk c0 (tx_view c0 (lv :: below))); [apply He1|apply He|apply Hd0|by eapply draft_known|done|].
  apply (draft_env _ _ _ _ _ _ He1).
  apply (draft_statement P ks _ ws _ _ _ _ _ clk r); [apply Hs|done|done|apply Hd0| |].
  - rewrite list.Forall_forall in *. intros v (r' & -> & Hr')%list_elem_of_fmap. split; [|done]. by eapply Hl.
  - rewrite list.Forall_forall. by right.
Qed.
(** The rows that follow from the answer. *)
Lemma cwp_draft_read {A B} (rs : B -> list RowId) (s : stmt B) (f : B -> M E A) Q P ks ws c lv below g :
  sound_stmt _ s -> reads _ s -> (forall clk d r, exec s clk d = Ok (r, d) -> rs r ⊆ locks s d) ->
  draft P ks ws c (lv :: below) ->
  (forall clk c0 d r c1 lv1, moves c0 c1 -> unique_db c0 = true -> shows ws c0 d -> known P ks c0 ->
     exec s clk d = Ok (r, d) ->
     draft P (map (version_in c0) (rs r) ++ ks) ws c1 (lv1 :: below) -> cwp (f r) Q c1 (lv1 :: below) g) ->
  cwp (bindE (sql s) f) Q c (lv :: below) g.
Proof. apply (cwp_draft_read_at (fun _ => rs)). Qed.

(** The same, when nothing is written yet. *)
Lemma cwp_draft_lock {A B} (rs : B -> list RowId) (s : stmt B) (f : B -> M E A) Q P ks c lv below g :
  sound_stmt _ s -> reads _ s -> (forall clk d r, exec s clk d = Ok (r, d) -> rs r ⊆ locks s d) ->
  draft P ks [] c (lv :: below) ->
  (forall clk c0 r c1 lv1, moves c0 c1 -> unique_db c0 = true -> known P ks c0 ->
     exec s clk c0 = Ok (r, c0) ->
     draft P (map (version_in c0) (rs r) ++ ks) [] c1 (lv1 :: below) -> cwp (f r) Q c1 (lv1 :: below) g) ->
  cwp (bindE (sql s) f) Q c (lv :: below) g.
Proof.
  intros Hs Hrd Hl Hd Hf. eapply (cwp_draft_read rs); [done..|exact Hd|].
  intros clk c0 d r c1 lv1 Hm Hu ->%shows_nothing. by apply Hf.
Qed.

(** A write of the rows it locks, whatever they are. *)
Lemma cwp_draft_writes {A B} (s : stmt B) (f : B -> M E A) Q P ks ws c lv below g :
  (forall c0 d, unique_db c0 = true -> known P ks c0 -> shows ws c0 d ->
     fine s d /\ forall r, r ∈ locks s d -> r ∉ map vn_row ws) ->
  draft P ks ws c (lv :: below) ->
  (forall clk c0 d x d' c1 lv1, moves c0 c1 -> unique_db c0 = true -> shows ws c0 d -> known P ks c0 ->
     exec s clk d = Ok (x, d') ->
     draft P (map (version_in c0) (locks s d) ++ ks) (map (version_in d') (locks s d) ++ ws) c1 (lv1 :: below) ->
     cwp (f x) Q c1 (lv1 :: below) g) ->
  cwp (bindE (sql s) f) Q c (lv :: below) g.
Proof.
  intros Hs Hd Hf.
  assert (Hfine : forall c0, env (lv :: below) c c0 -> fine s (tx_view c0 (lv :: below))
    /\ forall r, r ∈ locks s (tx_view c0 (lv :: below)) -> r ∉ map vn_row ws).
  { intros c0 He. pose proof (draft_env _ _ _ _ _ _ He Hd) as Hd0.
    apply (Hs c0); [apply He|by eapply draft_known|apply Hd0]. }
  apply cwp_bindE, cwp_sql_tx; [intros; by apply Hfine|].
  intros c0 clk x v' He Hx tx1 c1 He1. pose proof (draft_env _ _ _ _ _ _ He Hd) as Hd0.
  destruct (Hfine _ He) as [Hfi Hn].
  eapply (Hf clk c0 (tx_view c0 (lv :: below))); [apply He1|apply He|apply Hd0|by eapply draft_known|exact Hx|].
  apply (draft_env _ _ _ _ _ _ He1). pose proof (Hfi _ _ _ Hx) as [_ Ht].
  set (rs := locks s (tx_view c0 (lv :: below))) in *.
  assert (Hrs : forall (d : DB) v, v ∈ map (version_in d) rs -> vn_row v ∈ rs /\ is_in d v).
  { intros d v (r & -> & Hr)%list_elem_of_fmap. done. }
  apply (draft_statement P ks _ ws _ _ _ _ s clk x); [done|done|done| | |].
  - by eapply shows_writes; [apply Hd0| |].
  - rewrite list.Forall_forall. apply Hrs.
  - rewrite list.Forall_forall. intros v [Hv|Hv]%elem_of_app; [left; by apply Hrs in Hv as []|by right].
Qed.

(** A write of one row. *)
Lemma cwp_draft_write_at {A B} (r : RowId) (s : stmt B) (f : B -> M E A) Q P ks ws c lv below g :
  (forall c0 d, unique_db c0 = true -> known P ks c0 -> shows ws c0 d -> fine s d /\ locks s d = [r]) ->
  draft P ks ws c (lv :: below) -> r ∉ map vn_row ws ->
  (forall clk c0 d x d' c1 lv1, moves c0 c1 -> unique_db c0 = true -> shows ws c0 d -> known P ks c0 ->
     exec s clk d = Ok (x, d') ->
     draft P (version_in c0 r :: ks) (version_in d' r :: ws) c1 (lv1 :: below) ->
     cwp (f x) Q c1 (lv1 :: below) g) ->
  cwp (bindE (sql s) f) Q c (lv :: below) g.
Proof.
  intros Hs Hd Hn Hf. eapply cwp_draft_writes; [|exact Hd|].
  - intros c0 d Hu Hk Hsh. destruct (Hs c0 d Hu Hk Hsh) as [Hfi ->].
    split; [done|]. by intros r' ->%list_elem_of_singleton.
  - intros clk c0 d x d' c1 lv1 Hm Hu Hsh Hk Hx. destruct (Hs c0 d Hu Hk Hsh) as [_ ->]. by eapply Hf.
Qed.
Lemma cwp_draft_write {A B} (r : RowId) (s : stmt B) (f : B -> M E A) Q P ks ws c lv below g :
  (forall c0 d, unique_db c0 = true -> known P ks c0 -> shows ws c0 d -> fine s d) ->
  (forall d, locks s d = [r]) -> draft P ks ws c (lv :: below) -> r ∉ map vn_row ws ->
  (forall clk c0 d x d' c1 lv1, moves c0 c1 -> unique_db c0 = true -> shows ws c0 d -> known P ks c0 ->
     exec s clk d = Ok (x, d') ->
     draft P (version_in c0 r :: ks) (version_in d' r :: ws) c1 (lv1 :: below) ->
     cwp (f x) Q c1 (lv1 :: below) g) ->
  cwp (bindE (sql s) f) Q c (lv :: below) g.
Proof. intros Hs Hl. apply cwp_draft_write_at. intros. split; [by eapply Hs|done]. Qed.

(** A check that does not touch the database. *)
Lemma cwp_check {A} (f : Z -> result A E) (Q : A -> DB -> list Level -> G -> Prop) c tx g :
  (forall t a c1, f t = Ok a -> env tx c c1 -> Q a c1 tx g) ->
  cwp (r <- at_instant f ;; or_rollback r) Q c tx g.
Proof.
  intros H. apply cwp_bindE, cwp_at_instant. intros t c1 He. apply cwp_or_rollback.
  intros a Ha c2 He2. eapply H; [exact Ha|]. eapply env_rely_l; [apply He|done].
Qed.

End Rules.

(** ** Transactions ready to be published *)

(** Committed now, the transaction takes the database from one to another
    that [T] allows. *)
Definition ready (T : DB -> DB -> Prop) (c : DB) (tx : list Level) : Prop :=
  exists P ks ws, draft P ks ws c tx
    /\ forall c0 c', unique_db c0 = true -> unique_db c' = true -> known P ks c0 -> shows ws c0 c' -> T c0 c'.

Lemma ready_env T c c1 tx : env tx c c1 -> ready T c tx -> ready T c1 tx.
Proof. intros He (P & ks & ws & Hd & HT). exists P, ks, ws. split; [by eapply draft_env|done]. Qed.
Lemma ready_mono (T T' : DB -> DB -> Prop) c tx :
  (forall c0 c', unique_db c0 = true -> T c0 c' -> T' c0 c') -> ready T c tx -> ready T' c tx.
Proof. intros Hm (P & ks & ws & Hd & HT). exists P, ks, ws. split; [done|]. intros. apply Hm; auto. Qed.

(** A read keeps it ready. *)
Lemma cwp_ready_read {G} (L : Ledger G) {E} `{!FromDb E} {A B} (s : stmt B) (f : B -> M E A) Q T c lv g :
  sound_stmt _ s -> reads _ s -> ready T c [lv] ->
  (forall r c1 lv1, ready T c1 [lv1] -> cwp L (f r) Q c1 [lv1] g) -> cwp L (bindE (sql s) f) Q c [lv] g.
Proof.
  intros Hs Hr (P & ks & ws & Hd & HT) Hf.
  eapply (cwp_draft_read L (fun _ => [])); [done|done|set_solver|exact Hd|].
  intros clk c0 d r c1 lv1 _ _ _ _ _ Hd'. apply Hf. by exists P, ks, ws.
Qed.

(** What was published is one change, of which [spec] holds (but for the
    families of a session that ends). *)
Definition takes_effect {A} (spec : DB -> A -> DB -> Prop) (a : A) (l : list (DB * DB)) : Prop :=
  exists c c', l = [(c, c')] /\ but_families (fun c c' => spec c a c') c c'.

(** The specification, where [P] holds. *)
Definition meanwhile (P : DB -> Prop) {A} (spec : DB -> A -> DB -> Prop) : DB -> A -> DB -> Prop :=
  fun c a c' => P c /\ unique_db c = true /\ spec c a c'.

Lemma takes_effect_mono {A} (spec spec' : DB -> A -> DB -> Prop) a l :
  (forall c c', spec c a c' -> spec' c a c') -> takes_effect spec a l -> takes_effect spec' a l.
Proof.
  intros Hs (c & c' & -> & Hc). exists c, c'. split; [done|]. eapply but_families_mono, Hc. intros c1 c2. apply Hs.
Qed.

(** ** Publishing *)

Section Publishing.
Context `{Crypto, UrlLib, JsonLib, JsonDb, UuidLib} {E : Type} `{!FromDb E}.

(** The ledger of what an operation published, each change a transition. *)
Definition stepping : Ledger (list (DB * DB)) := journal (but_families transition).

(** A COMMIT that publishes what [R] says, which is what was promised. *)
Lemma cwp_commit_as {A} (R : DB -> DB -> Prop) (spec : DB -> A -> DB -> Prop) (a : A) c lv :
  (forall c0 c', R c0 c' -> c0 <> c' /\ but_families (fun c c' => spec c a c') c0 c') ->
  (forall c0 c', spec c0 a c' -> transition c0 c') -> ready R c [lv] ->
  cwp stepping (E:=E) (commit ;;; ret a) (fun a _ _ => takes_effect spec a) c [lv] [].
Proof.
  intros HR Ht Hr. apply cwp_bindE, cwp_commit. intros c1 He c' Hu.
  destruct (ready_env _ _ _ _ He Hr) as (P & ks & ws & Hd & HT).
  destruct (HR c1 c') as [Hne Hs].
  { apply HT; [apply He|exact Hu|by eapply draft_known|apply Hd]. }
  split; [right; by eapply but_families_mono, Hs|]. intros c2 He2. apply cwp_ret. intros c3 _.
  exists c1, c'. split; [|done]. cbn [note stepping journal]. unfold change. by rewrite bool_decide_false by done.
Qed.
Lemma cwp_commit_ready {A} (spec : DB -> A -> DB -> Prop) (a : A) c lv :
  (forall c0 c', spec c0 a c' -> c0 <> c') -> (forall c0 c', spec c0 a c' -> transition c0 c') ->
  ready (fun c0 => spec c0 a) c [lv] ->
  cwp stepping (E:=E) (commit ;;; ret a) (fun a _ _ => takes_effect spec a) c [lv] [].
Proof. intros Hne. apply cwp_commit_as. intros c0 c' Hs. split; [by apply Hne|by left]. Qed.

(** A statement outside a transaction publishes at once. *)
Lemma cwp_auto {A B} (s : stmt B) (f : B -> M E A) Q c g :
  (forall c0, fine s c0) ->
  (forall clk c0 r c', unique_db c0 = true -> exec s clk c0 = Ok (r, c') -> unique_db c' = true ->
     may_change (but_families transition) c0 c'
     /\ forall c1, moves c' c1 -> cwp stepping (f r) Q c1 [] (g ++ change c0 c')) ->
  cwp stepping (bindE (sql s) f) Q c [] g.
Proof.
  intros Hs Hf. apply cwp_bindE, cwp_sql_auto; [intros; apply Hs|].
  intros c1 clk r v' He Hx Hu. destruct (Hf clk c1 r v') as [Ha Hc]; [apply He|done|done|].
  split; [exact Ha|]. intros c2 He2. apply Hc, He2.
Qed.
Lemma change_ne c c' : c <> c' -> change c c' = [(c, c')].
Proof. intros Hne. unfold change. by rewrite bool_decide_false. Qed.

(** A COMMIT that publishes a transition, or nothing. *)
Lemma cwp_commit_step {A} (m : M E A) Q c lv g :
  ready (may_change (but_families transition)) c [lv] -> (forall c1 g1, cwp stepping m Q c1 [] g1) ->
  cwp stepping (commit ;;; m) Q c [lv] g.
Proof.
  intros Hr Hm. apply cwp_bindE, cwp_commit. intros c1 He c' Hu.
  destruct (ready_env _ _ _ _ He Hr) as (P & ks & ws & Hd & HT). split; [|intros; apply Hm].
  apply HT; [apply He|exact Hu|by eapply draft_known|apply Hd].
Qed.
End Publishing.

#[export] Hint Resolve reads_select reads_for_update reads_fetch_one : stmts.

(** ** Tactics *)

(** The side conditions of the rules. *)
Ltac sound :=
  solve [intros; first [apply quiet_sound; solve [eauto with stmts typeclass_instances] | apply sound_for_update | apply sound_fetch_one, sound_for_update]].
Ltac reads := solve [eauto with stmts typeclass_instances].
Ltac listed := apply elem_of_cons; first [left; reflexivity | right; listed].
(** The row [r] of a table was set, and no other. *)
Ltac shows_insert :=
  let Hs := fresh in let Hn := fresh in let Hv := fresh in intros Hs Hn;
  lazymatch type of Hs with shows _ ?c ?d =>
  lazymatch goal with |- shows (Version ?r ?v :: _) _ ?d' =>
    assert (Hv : version_in d' r = Version r v) by (unfold version_in; simpl; by rewrite lookup_insert_eq);
    rewrite <- Hv; apply shows_write with (d := d); [exact Hs|exact Hn|one_table]
  end end.
(** The transaction begins. *)
Ltac drafting :=
  lazymatch goal with
  | Hp : always ?P ?c |- context [push_level ?c []] =>
      let Hd := fresh "Hd" in pose proof (draft_start P c Hp) as Hd; clear Hp; revert Hd; unfold push_level;
      generalize {| lv_held := []; lv_db := tx_view c [] |}; intros lv Hd
  end.
(** The next statement reads and locks the rows that [rows] finds in its
    answer [r] at [c0]; then what was known at that moment only is forgotten. *)
Ltac reading_found rows r :=
  lazymatch goal with
  | Hd : draft _ _ _ ?now (?top :: _) |- _ =>
      eapply (cwp_draft_lock _ rows); [sound|reads| |exact Hd|];
      [|clear Hd; clear now top; intros clk c0 r c lv Hm Hu Hk Hx Hd; unfold version_in in Hd; simpl in Hx, Hd]
  end.
Ltac reading rows r := let f := uconstr:(fun _ => rows) in reading_found f r; [set_solver|].
Ltac forget :=
  match goal with Hm : moves ?c0 _ |- _ => clear dependent c0 end;
  match goal with clk : Uuid -> Z |- _ => clear dependent clk end.
(** The next part is a check that does not touch the database. *)
Ltac checking rule Hb :=
  lazymatch goal with
  | Hd : draft _ _ _ ?now _ |- _ =>
      let c1 := fresh "c" in let He := fresh in
      apply cwp_bindE, rule; intros c1 Hb He;
      apply (draft_env _ _ _ _ _ _ He) in Hd; clear He now; rename c1 into c
  end.
(** The same, with its answer [r]. *)
Ltac checking_as rule r Hb :=
  lazymatch goal with
  | Hd : draft _ _ _ ?now _ |- _ =>
      let c1 := fresh "c" in let He := fresh in
      apply cwp_bindE, rule; intros r c1 Hb He;
      apply (draft_env _ _ _ _ _ _ He) in Hd; clear He now; rename c1 into c
  end.
