(* ===== verification/Revoking.v ===== *)
(** * Revoking: the families a transaction revokes

    The statements that revoke families lock those they find. At the COMMIT
    the ones they locked are as they were, and become revoked; others may
    have been added. *)

From Stdlib Require Import Ascii ZArith.
From S2P Require Import Prelude External Schema Effects Evolution Cimd OAuth Jose Credentials CredentialsSpec CredentialsTheory StoresSpec StoresInvariant Transitions Concurrency ConcurrencyTheory Pools Confinement Drafts.

Implicit Types (p : Uuid -> family_rec -> bool) (t : Uuid -> Z) (fs : list (Uuid * family_rec)) (ks ws : list version).

Definition found_families p (d : DB) : list (Uuid * family_rec) :=
  List.filter (fun kv => p kv.1 kv.2) (map_to_list (refresh_families d)).
Definition rows_of fs : list RowId := map (fun kv => RowFamily kv.1) fs.
(** Their versions before and after. *)
Definition as_found fs : list version := map (fun kv => Version (RowFamily kv.1) (Some kv.2)) fs.
Definition as_revoked t fs : list version :=
  map (fun kv => Version (RowFamily kv.1) (Some (revoke_family (t kv.1) kv.2))) fs.
Definition revoke_listed fs t (d : DB) : DB :=
  revoke_families_where (fun i _ => bool_decide (RowFamily i ∈ rows_of fs)) t d.

Lemma found_families_elem p d i f :
  (i, f) ∈ found_families p d <-> refresh_families d !! i = Some f /\ p i f = true.
Proof.
  unfold found_families. rewrite list_elem_of_In, List.filter_In, <- list_elem_of_In. simpl.
  by rewrite elem_of_map_to_list.
Qed.
Lemma rows_of_elem i fs : RowFamily i ∈ rows_of fs <-> exists f, (i, f) ∈ fs.
Proof.
  unfold rows_of. rewrite list_elem_of_fmap. split; [intros ([j f] & [= ->] & Hf); by exists f|].
  intros (f & Hf). by exists (i, f).
Qed.
Lemma no_other_row r fs : (forall i, r <> RowFamily i) -> r ∉ rows_of fs.
Proof. intros Hr (kv & -> & _)%list_elem_of_fmap. by eapply Hr. Qed.
Lemma as_revoked_rows t fs : map vn_row (as_revoked t fs) = rows_of fs.
Proof. unfold as_revoked, rows_of. by rewrite map_map. Qed.

Lemma versions_of_families (d : DB) (g : Uuid -> family_rec -> family_rec) fs :
  (forall i f, (i, f) ∈ fs -> refresh_families d !! i = Some (g i f)) ->
  map (version_in d) (rows_of fs) = map (fun kv => Version (RowFamily kv.1) (Some (g kv.1 kv.2))) fs.
Proof.
  intros Hg. unfold rows_of. rewrite map_map. apply map_ext_in. intros [i f] Hi%list_elem_of_In.
  unfold version_in. simpl. by rewrite (Hg _ _ Hi).
Qed.

Lemma revoke_where_ext p q t d :
  (forall i f, refresh_families d !! i = Some f -> p i f = q i f) ->
  revoke_families_where p t d = revoke_families_where q t d.
Proof.
  intros Hpq. unfold revoke_families_where. f_equal. apply map_eq. intros i. rewrite !lookup_update_rows.
  destruct (refresh_families d !! i) as [f|] eqn:Hf; [|done]. simpl. by rewrite (Hpq _ _ Hf).
Qed.
Lemma revoke_listed_row fs t d i f :
  (i, f) ∈ fs -> refresh_families d !! i = Some f ->
  refresh_families (revoke_listed fs t d) !! i = Some (revoke_family (t i) f).
Proof.
  intros Hi Hf. simpl. rewrite lookup_update_rows, Hf. simpl. rewrite bool_decide_true; [done|].
  apply rows_of_elem. by exists f.
Qed.

(** The families of the list are as found. *)
Definition present fs (c : DB) : Prop := forall i f, (i, f) ∈ fs -> refresh_families c !! i = Some f.
Lemma known_present P ks fs c : known P ks c -> as_found fs ⊆ ks -> present fs c.
Proof.
  intros [_ Hk] Hsub i f Hi. rewrite list.Forall_forall in Hk.
  apply (Hk (Version (RowFamily i) (Some f))), Hsub, list_elem_of_fmap. by exists (i, f).
Qed.

Lemma shows_revoked ws c d fs t :
  shows ws c d -> (forall i, RowFamily i ∉ map vn_row ws) -> present fs c ->
  shows (as_revoked t fs ++ ws) c (revoke_listed fs t d).
Proof.
  intros Hs Hn Hp.
  assert (Hd : present fs d).
  { intros i f Hi. pose proof (shows_row _ _ _ (RowFamily i) Hs (Hn i)) as Hr. simpl in Hr. rewrite Hr. by apply Hp. }
  assert (Hv : as_revoked t fs = map (version_in (revoke_listed fs t d)) (rows_of fs)).
  { symmetry. apply (versions_of_families _ (fun i => revoke_family (t i))). intros i f Hi.
    apply revoke_listed_row; [done|by apply Hd]. }
  rewrite Hv. apply (shows_writes _ _ d); [done| |].
  - intros r (kv & -> & _)%list_elem_of_fmap. apply Hn.
  - intros r Hr. destruct r; simpl; try done. rewrite lookup_update_rows.
    destruct (refresh_families d !! id); [|done]. simpl. by rewrite bool_decide_false.
Qed.

(** All that [p] says, when the list has them all. *)
Lemma revoke_listed_all p fs t d :
  (forall i f, refresh_families d !! i = Some f -> RowFamily i ∈ rows_of fs <-> p i f = true) ->
  revoke_listed fs t d = revoke_families_where p t d.
Proof.
  intros Hp. apply revoke_where_ext. intros i f Hf. specialize (Hp i f Hf).
  destruct (p i f); [apply bool_decide_true; tauto|apply bool_decide_false]. intros Hin. by apply Hp in Hin.
Qed.

Section Rules.
Context {G : Type} (L : Ledger G) {E : Type} `{!FromDb E}.
Notation cwp := (cwp L).

(** A statement that revokes the families of [p]. *)
Lemma cwp_draft_revoke {A B} p (time : (Uuid -> Z) -> Uuid -> Z) (s : stmt B) (f : B -> M E A) Q P ks ws c lv g :
  sound_stmt _ s -> (forall d, locks s d = families_where p d) ->
  (forall clk d x d', exec s clk d = Ok (x, d') -> d' = revoke_families_where p (time clk) d) ->
  draft P ks ws c [lv] -> (forall i, RowFamily i ∉ map vn_row ws) ->
  (forall clk c0 d x c1 lv1, moves c0 c1 -> unique_db c0 = true -> shows ws c0 d -> known P ks c0 ->
     let fs := found_families p d in let t := time clk in
     draft P (as_found fs ++ ks) (as_revoked t fs ++ ws) c1 [lv1] -> cwp (f x) Q c1 [lv1] g) ->
  cwp (bindE (sql s) f) Q c [lv] g.
Proof.
  intros Hs Hl Hx Hd Hn Hf.
  assert (Hrows : forall d, families_where p d = rows_of (found_families p d)) by done.
  eapply cwp_draft_writes; [|exact Hd|].
  - intros c0 d _ _ _. split; [apply Hs|]. rewrite Hl, Hrows. intros r (kv & -> & _)%list_elem_of_fmap. apply Hn.
  - clear c lv Hd. intros clk c0 d x d' c lv Hm Hu Hsh Hk He. apply Hx in He as ->. rewrite Hl, Hrows.
    set (fs := found_families p d).
    rewrite (versions_of_families c0 (fun _ f => f)), (versions_of_families _ (fun i => revoke_family (time clk i))).
    + by eapply Hf.
    + intros i r [Hi Hp]%found_families_elem. simpl. by rewrite lookup_update_rows, Hi; simpl; rewrite Hp.
    + intros i r [Hi Hp]%found_families_elem. rewrite <- Hi. symmetry. exact (shows_row _ _ _ (RowFamily i) Hsh (Hn i)).
Qed.
End Rules.
