(* ===== verification/Atomicity.v ===== *)
(** * Atomicity: the credential store's operations, in a pool

    An operation that succeeds published one change of the committed
    database, at its COMMIT, and that change is what its specification says
    of the database of that moment, whatever the other operations did before
    and meanwhile. *)

From Stdlib Require Import Ascii ZArith.
From S2P Require Import Prelude External Schema Effects Evolution Identity Cimd OAuth Jose Keys Google Credentials CredentialsSpec CredentialsTheory CredentialsInvariant Database Logout Browser StoresSpec DatabaseTheory LogoutTheory BrowserTheory StoresInvariant Transitions System Concurrency ConcurrencyTheory Pools Confinement Framing Drafts Revoking.

(** ** Inserted again *)

(** Checks the constraints of an insertion one by one. *)
Ltac constraints :=
  match goal with |- (if ?b then _ else _) = _ => assert (b = true) as ->; [|done] end;
  rewrite !andb_true_iff in *; destruct_and!; split_and!; try done.

Section Again.
Context `{Crypto, UrlLib, JsonLib, JsonDb}.
Implicit Types d : DB.

Lemma not_taken_key {V C} `{EqDecision C} (key : V -> C) id r (m : gmap Uuid V) :
  m !! id = None -> key_unique key (<[id := r]> m) -> exists_row (fun _ v => key v ==? key r) m = false.
Proof.
  intros Hn Hk. apply exists_row_false. intros k v Hv. apply bool_decide_eq_false. intros Heq.
  assert (Hne : id <> k) by congruence. apply Hne.
  eapply Hk; [apply lookup_insert_eq|by rewrite lookup_insert_ne|done].
Qed.

Lemma not_taken_again {V} (key : V -> string) id r (m : gmap Uuid V) :
  m !! id = None -> key_unique key (<[id := r]> m) -> taken (fun v => Some (key v)) (Some (key r)) m = false.
Proof.
  intros Hn Hk. pose proof (not_taken_key _ _ _ _ Hn Hk) as Ht. unfold taken. rewrite exists_row_false in *.
  intros k v Hv. specialize (Ht _ _ Hv). apply bool_decide_eq_false in Ht. apply bool_decide_eq_false. congruence.
Qed.

(** An insertion that the constraints allowed when the statement ran is
    allowed at the COMMIT: the rows it refers to are still there, and no
    other transaction published a row with the same key. *)
Lemma insert_family_again fam f d d' d1 :
  insert_family_row fam f d = Ok d' -> refresh_families d1 !! fam = None ->
  is_Some (authorization_codes d1 !! rf_source_code_id f) ->
  is_Some (provider_sessions d1 !! rf_session_id f) -> is_Some (users d1 !! rf_user_id f) ->
  key_unique rf_source_code_id (<[fam := f]> (refresh_families d1)) ->
  insert_family_row fam f d1 = Ok (set_families (<[fam := f]> (refresh_families d1)) d1).
Proof.
  unfold insert_family_row. intros Hi Hn Hc Hs Hu Hk. case_match; [|done]. apply is_some_true in Hc, Hs, Hu.
  constraints; [by rewrite Hn|]. by rewrite (not_taken_key _ _ _ _ Hn Hk).
Qed.

Lemma insert_member_again mem fam token now d d' d1 :
  insert_member_row mem (fresh_member fam token now) d = Ok d' -> refresh_token_members d1 !! mem = None ->
  is_Some (refresh_families d1 !! fam) ->
  key_unique rt_token_hash (<[mem := fresh_member fam token now]> (refresh_token_members d1)) ->
  insert_member_row mem (fresh_member fam token now) d1
  = Ok (set_members (<[mem := fresh_member fam token now]> (refresh_token_members d1)) d1).
Proof.
  unfold insert_member_row. intros Hi Hn Hf Hk. case_match; [|done]. apply is_some_true in Hf.
  constraints; [by rewrite Hn|]. by rewrite (not_taken_again _ _ _ _ Hn Hk).
Qed.

Lemma insert_code_again id r d d' d1 :
  insert_code_row id r d = Ok d' -> authorization_codes d1 !! id = None ->
  is_Some (provider_sessions d1 !! ac_session_id r) ->
  key_unique ac_code_hash (<[id := r]> (authorization_codes d1)) ->
  insert_code_row id r d1 = Ok (set_codes (<[id := r]> (authorization_codes d1)) d1).
Proof.
  unfold insert_code_row. intros Hi Hn Hs Hk. case_match; [|done]. apply is_some_true in Hs.
  constraints; [by rewrite Hn|]. by rewrite (not_taken_again _ _ _ _ Hn Hk).
Qed.
End Again.

(** ** Exchanging a code *)

Section Credentials.
Context `{Crypto, UrlLib, JsonLib, JsonDb, UuidLib}.
Notation cwp := (cwp stepping).

Lemma cwp_check_binding reg client b (Q : unit -> DB -> list Level -> list (DB * DB) -> Prop) c tx g :
  (forall c1, (exists t, check_binding t reg client b = Ok tt) -> env tx c c1 -> Q tt c1 tx g) ->
  cwp (check_binding_tx reg client b) Q c tx g.
Proof. intros HQ. apply cwp_check. intros t [] c1 Hb. apply HQ. by exists t. Qed.

Lemma cwp_check_policy reg client uri code res
    (Q : unit -> DB -> list Level -> list (DB * DB) -> Prop) c tx g :
  (forall c1, (forall r, reg = Some r -> exists t p,
      validate_pending_parts t r client uri "code" "S256" (cr_code_challenge code)
        (cr_scopes code) (Some res) = Ok p) -> env tx c c1 -> Q tt c1 tx g) ->
  cwp (check_policy_tx reg client uri code res) Q c tx g.
Proof.
  intros HQ. unfold check_policy_tx. destruct reg as [r|]; [|by apply cwp_ret; intros; apply HQ].
  apply cwp_bindE, cwp_at_instant. intros t c1 He1.
  apply cwp_bindE, cwp_or_rollback. intros p Hp c2 He2. apply cwp_ret. intros c3 He3. apply HQ.
  - intros r' [= <-]. destruct (validate_pending_parts _ _ _ _ _ _ _ _ _) as [q|e] eqn:Hv; [by eauto|done].
  - eapply env_rely_l; [apply He1|]. eapply env_rely_l; [apply He2|done].
Qed.

Lemma insert_member_inv mem m d d' : insert_member_row mem m d = Ok d' ->
  refresh_token_members d !! mem = None /\ d' = set_members (<[mem := m]> (refresh_token_members d)) d
  /\ is_Some (refresh_families d !! rt_family_id m).
Proof. unfold insert_member_row. intros. case_match eqn:Hg; simplify_eq. bools_all. by split_and!. Qed.
Lemma insert_family_inv fam f d d' : insert_family_row fam f d = Ok d' ->
  refresh_families d !! fam = None /\ d' = set_families (<[fam := f]> (refresh_families d)) d
  /\ is_Some (users d !! rf_user_id f).
Proof. unfold insert_family_row. intros. case_match eqn:Hg; simplify_eq. bools_all. by split_and!. Qed.
Lemma insert_code_inv id r d d' : insert_code_row id r d = Ok d' ->
  authorization_codes d !! id = None /\ d' = set_codes (<[id := r]> (authorization_codes d)) d.
Proof. unfold insert_code_row. intros. case_match eqn:Hg; simplify_eq. bools_all. by split_and!. Qed.

(** A fresh member: it is not there yet for the others. *)
Lemma cwp_insert_member {A} fam now (f : string -> M CredentialError A) Q P ks ws c lv g :
  draft P ks ws c [lv] -> (forall id, RowMember id ∉ map vn_row ws) ->
  (forall token mem c0 d d' c1 lv1, moves c0 c1 -> shows ws c0 d ->
     insert_member_row mem (fresh_member fam token now) d = Ok d' ->
     draft P (Version (RowMember mem) None :: ks)
       (Version (RowMember mem) (Some (fresh_member fam token now)) :: ws) c1 [lv1] ->
     cwp (f token) Q c1 [lv1] g) ->
  cwp (token <- insert_refresh fam now ;; f token) Q c [lv] g.
Proof.
  intros Hd Hn Hf. apply cwp_bindE. unfold insert_refresh, random_credential.
  apply cwp_bindE, cwp_bindE, cwp_random_bytes. intros bytes c1 He1.
  apply cwp_ret. intros c2 He2. apply cwp_bindE, cwp_new_uuid. intros mem c3 He3.
  apply (draft_env _ _ _ _ _ _ He1), (draft_env _ _ _ _ _ _ He2), (draft_env _ _ _ _ _ _ He3) in Hd.
  eapply (cwp_draft_write _ (RowMember mem)); [sound|done|exact Hd|apply Hn|].
  clear c lv Hd c1 He1 c2 He2 c3 He3. intros clk c0 d [] d' c1 lv1 Hm _ Hs _ Hx Hd.
  simpl in Hx. case_match eqn:Hi; simplify_eq. apply cwp_ret. intros c2 He2.
  destruct (insert_member_inv _ _ _ _ Hi) as (Hnone & -> & _).
  apply (draft_env _ _ _ _ _ _ He2) in Hd. unfold version_in in Hd. simpl in Hd.
  rewrite lookup_insert_eq in Hd. pose proof (shows_row _ _ _ (RowMember mem) Hs (Hn mem)) as Hrow.
  simpl in Hrow. rewrite Hrow in Hnone. rewrite Hnone in Hd. eapply Hf; [|exact Hs|exact Hi|exact Hd].
  etrans; [exact Hm|apply He2].
Qed.
Lemma in_known P ks c r v : known P ks c -> Version r v ∈ ks -> row_get r c = v.
Proof. intros [_ Hk] Hin. rewrite list.Forall_forall in Hk. exact (Hk _ Hin). Qed.

(** The rows an exchange writes. *)
Lemma shows_consumed id x now c : authorization_codes c !! id = Some x ->
  shows [Version (RowCode id) (Some (consume_code now x))] c
    (set_codes (alter (consume_code now) id (authorization_codes c)) c).
Proof.
  intros Hx. assert (Hv : version_in (set_codes (alter (consume_code now) id (authorization_codes c)) c) (RowCode id)
    = Version (RowCode id) (Some (consume_code now x))).
  { unfold version_in. simpl. by rewrite lookup_alter_eq, Hx. }
  rewrite <- Hv. apply shows_write with (d := c); [apply shows_same|apply not_elem_of_nil|]. one_table.
Qed.
Lemma shows_family ws c d fam f : shows ws c d -> RowFamily fam ∉ map vn_row ws ->
  shows (Version (RowFamily fam) (Some f) :: ws) c (set_families (<[fam := f]> (refresh_families d)) d).
Proof. shows_insert. Qed.
Lemma shows_member ws c d mem m : shows ws c d -> RowMember mem ∉ map vn_row ws ->
  shows (Version (RowMember mem) (Some m) :: ws) c (set_members (<[mem := m]> (refresh_token_members d)) d).
Proof. shows_insert. Qed.

Lemma always_user u d c : is_Some (users d !! u) -> users d !! u = users c !! u ->
  always (fun c => is_Some (users c !! u)) c.
Proof.
  intros Hu Heq c' Hm. rewrite Heq in Hu. destruct Hu as [v Hv].
  destruct (ev_users _ _ (mv_evolves _ _ Hm) _ _ Hv) as (v' & Hv' & _). by exists v'.
Qed.

(** The family as it is published. *)
Lemma family_published P ks id x s now fam binding token mem d d1 d2 d3 c0 c' :
  let f := family_of id x s now binding in
  let m := fresh_member fam token now in
  ac_issue_refresh_token x = true -> cast_jsonb (ac_cimd_binding x) = Ok binding ->
  insert_family_row fam f d = Ok d1 -> insert_member_row mem m d2 = Ok d3 ->
  Version (RowCode id) (Some x) ∈ ks -> Version (RowSession (ac_session_id x)) (Some s) ∈ ks ->
  unique_db c' = true ->
  known (fun c => is_Some (users c !! ps_user_id s) /\ P c)
    (Version (RowMember mem) None :: Version (RowFamily fam) None :: ks) c0 ->
  shows [Version (RowMember mem) (Some m); Version (RowFamily fam) (Some f);
         Version (RowCode id) (Some (consume_code now x))] c0 c' ->
  family_started id x s now (set_codes (alter (consume_code now) id (authorization_codes c0)) c0) (Some token) c'.
Proof.
  intros f m Hi Hb Hf Hm Hx Hs Hu Hk Hsh.
  assert (Hx' : authorization_codes c0 !! id = Some x) by (eapply (in_known _ _ _ (RowCode id)); [exact Hk|set_solver]).
  assert (Hs' : provider_sessions c0 !! ac_session_id x = Some s)
    by (eapply (in_known _ _ _ (RowSession _)); [exact Hk|set_solver]).
  assert (Hfam : refresh_families c0 !! fam = None) by (eapply (in_known _ _ _ (RowFamily fam)); [exact Hk|set_solver]).
  assert (Hmem : refresh_token_members c0 !! mem = None) by (eapply (in_known _ _ _ (RowMember mem)); [exact Hk|set_solver]).
  destruct (always_now _ _ (proj1 Hk)) as [Huser _].
  set (d0 := set_codes (alter (consume_code now) id (authorization_codes c0)) c0).
  pose proof (shows_consumed _ _ now _ Hx') as S0. fold d0 in S0.
  pose proof (shows_family _ _ _ fam f S0 ltac:(simpl; set_solver)) as S1.
  pose proof (shows_member _ _ _ mem m S1 ltac:(simpl; set_solver)) as S2.
  rewrite (shows_eq _ _ _ _ Hsh S2) in *. eapply (Family _ _ _ _ _ fam mem); [done|done| |].
  - eapply insert_family_again; [exact Hf|exact Hfam| |by exists s|exact Huser|exact (unique_sources _ Hu)].
    simpl. rewrite lookup_alter_eq, Hx'. by eexists.
  - eapply insert_member_again; [exact Hm|exact Hmem| |exact (unique_members _ Hu)].
    simpl. rewrite lookup_insert_eq. by eexists.
Qed.
Lemma cwp_start_family {A} id x s now (f : option string -> M CredentialError A) Q P ks c lv g :
  draft P ks [Version (RowCode id) (Some (consume_code now x))] c [lv] ->
  Version (RowCode id) (Some x) ∈ ks -> Version (RowSession (ac_session_id x)) (Some s) ∈ ks ->
  (forall token c1 lv1,
     ready (fun c0 c' => known P ks c0 /\
       family_started id x s now (set_codes (alter (consume_code now) id (authorization_codes c0)) c0) token c')
       c1 [lv1] -> cwp (f token) Q c1 [lv1] g) ->
  cwp (token <- start_family_tx (code_row id x) (session_row s) now ;; f token) Q c [lv] g.
Proof.
  intros Hd Hx Hs Hf. apply cwp_bindE. unfold start_family_tx. simpl. destruct (ac_issue_refresh_token x) eqn:Hi.
  - apply cwp_bindE, cwp_new_uuid. intros fam c1 He. apply (draft_env _ _ _ _ _ _ He) in Hd. clear c He.
    eapply (cwp_draft_write _ (RowFamily fam)); [sound|done|exact Hd|simpl; set_solver|].
    clear c1 lv Hd. intros clk c0 d [] d1 c1 lv Hm _ Hsh _ Hins Hd. simpl in Hins. case_match eqn:Hr; simplify_eq.
    apply rbind_Ok in Hr as (binding & Hb & Hins). fold (family_of id x s now binding) in Hins.
    destruct (insert_family_inv _ _ _ _ Hins) as (Hnone & -> & Huser). simpl in Huser.
    pose proof (shows_row _ _ _ (RowFamily fam) Hsh ltac:(simpl; set_solver)) as Hrow. simpl in Hrow.
    unfold version_in in Hd. simpl in Hd. rewrite lookup_insert_eq in Hd. rewrite <- Hrow, Hnone in Hd.
    eapply draft_learn in Hd; [|eapply always_moves, always_user; [exact Hm|exact Huser|]].
    2:{ exact (shows_row _ _ _ (RowUser (ps_user_id s)) Hsh ltac:(simpl; set_solver)). }
    eapply cwp_insert_member; [exact Hd|simpl; set_solver|].
    clear Hm c1 lv Hd. intros token mem c2 d2 d3 c1 lv _ _ Hmem Hd. apply cwp_ret. intros c3 He3.
    apply Hf. eexists _, _, _. split; [by eapply draft_env|]. intros c4 c' _ Hu Hk Hs'. split.
    + destruct Hk as [Hp Hk]. split; [intros c5 Hm5; by apply Hp|]. by inversion_clear Hk as [|? ? _ Hk']; inversion_clear Hk'.
    + by eapply family_published.
  - apply cwp_ret. intros c1 He. apply Hf. eexists _, _, _. split; [by eapply draft_env|].
    intros c0 c' _ Hu Hk Hs'. split; [done|].
    rewrite (shows_eq _ _ _ _ Hs' (shows_consumed _ _ now _ (in_known _ _ _ _ _ Hk Hx))). by apply NoFamily.
Qed.

(** A row found by its hash keeps it. *)
Definition code_hashed (h : string) (id : Uuid) (c : DB) : Prop :=
  exists x, authorization_codes c !! id = Some x /\ ac_code_hash x = h.
Lemma always_code_hashed h id x c c' : authorization_codes c !! id = Some x -> ac_code_hash x = h ->
  moves c c' -> always (code_hashed h id) c'.
Proof.
  intros Hx Hh Hm c2 Hm2. destruct (ev_codes _ _ (mv_evolves _ _ (transitivity Hm Hm2)) _ _ Hx) as (x' & Hx' & Hle).
  exists x'. split; [done|]. unfold code_le in Hle. destruct_and?. congruence.
Qed.
Lemma find_code_hashed raw id x c : unique_db c = true -> authorization_codes c !! id = Some x ->
  code_hashed (hash raw) id c -> find_code raw c = Some (id, x).
Proof.
  intros Hu Hx (x' & Hx' & Hh). simplify_eq. apply find_row_unique; [done|by apply bool_decide_eq_true|].
  intros k v Hk Hv. bools_all. eapply (unique_codes _ Hu); [exact Hk|exact Hx|congruence].
Qed.

Lemma family_started_codes id x s now d token d' :
  family_started id x s now d token d' -> authorization_codes d' = authorization_codes d.
Proof.
  destruct 1 as [|fam mem token binding d1 d2 _ _ I1 I2]; [done|].
  apply insert_family_inv in I1 as (_ & -> & _). by apply insert_member_inv in I2 as (_ & -> & _).
Qed.
Lemma exchange_changes raw client uri res v reg c a c' : exchange_success raw client uri res v reg c a c' -> c <> c'.
Proof.
  intros [id x s now token d' Hf _ _ _ Hn _ _ _ Hst] Hc. apply family_started_codes in Hst.
  apply find_row_Some in Hf as [Hx _]. simpl in Hst. rewrite <- Hc in Hst.
  pose proof Hx as Hx'. rewrite Hst, lookup_alter_eq, Hx in Hx'. injection Hx' as Heq. by rewrite <- Heq in Hn.
Qed.

(** A replay publishes the revocation of the one family the code may have. *)
Lemma cwp_replay_code raw client uri res v reg id x now Q (P : DB -> Prop) ks c lv g :
  draft (fun c => code_hashed (hash raw) id c /\ P c) ks [] c [lv] -> Version (RowCode id) (Some x) ∈ ks ->
  code_bound x client uri res v -> code_allowed reg x -> is_Some (ac_consumed_at x) ->
  cwp (replay_code_tx reg client (code_row id x) now) Q c [lv] g.
Proof.
  intros Hd Hx Hb Ha [u Hu]. unfold replay_code_tx.
  eapply (cwp_draft_revoke _ (fun _ f => rf_source_code_id f ==? id) (fun _ _ => now));
    [sound|done|by intros; simplify_eq/=|exact Hd|by intros; apply not_elem_of_nil|].
  clear c lv Hd. intros clk c0 d [] c lv _ _ _ _ fs t Hd.
  assert (Hfs : forall i f, (i, f) ∈ fs -> rf_source_code_id f = id).
  { intros i f' [_ Hi]%found_families_elem. by bools_all. }
  clearbody fs. change t with (fun _ : Uuid => now) in Hd. clear clk t c0 d. checking cwp_check_binding Hb'. clear Hb'.
  apply cwp_commit_step; [|intros; apply cwp_raise]. eexists _, _, _. split; [exact Hd|].
  clear c lv Hd. intros c0 c' Hu0 _ Hk Hsh. pose proof (known_present _ _ fs _ Hk ltac:(set_solver)) as Hp.
  destruct fs as [|[i f0] fs]; [left; by apply shows_nothing|right; left].
  rewrite (shows_eq _ _ _ _ Hsh (shows_revoked _ _ _ _ (fun _ => now) (shows_same _) ltac:(set_solver) Hp)).
  rewrite (revoke_listed_all (fun _ f => rf_source_code_id f ==? id)).
  - eapply StepExchangeReplay, ExchangeReplay; [|exact Hb|exact Ha|exact Hu].
    apply find_code_hashed; [done| |by apply (always_now _ _ (proj1 Hk))].
    apply (in_known _ _ _ (RowCode id) _ Hk). set_solver.
  - intros j fj Hj. rewrite bool_decide_eq_true, rows_of_elem. split.
    + intros (f' & Hf'). specialize (Hp _ _ Hf'). rewrite Hj in Hp. simplify_eq. by eapply Hfs.
    + intros Hid. exists f0. specialize (Hp i f0 ltac:(left)). specialize (Hfs i f0 ltac:(left)).
      assert (j = i) as ->; [|left]. eapply (unique_sources _ Hu0); [exact Hj|exact Hp|congruence].
Qed.

Lemma exchange_code_bound_takes P raw client uri res verifier reg c : always P c ->
  cwp (exchange_code_bound raw client uri res verifier reg)
    (fun a _ _ => takes_effect (meanwhile P (exchange_success raw client uri res verifier reg)) a) c [] [].
Proof.
  unfold exchange_code_bound. intros HP. apply cwp_with_tx. intros c1 He.
  apply (always_moves _ _ _ (proj1 (env_rely _ _ _ He))) in HP. clear c He. rename c1 into c.
  drafting.
  reading (@nil RowId) found. injection Hx as <-.
  destruct (find_row _ _) as [[id x0]|] eqn:Hf; simpl; [|apply cwp_raise].
  apply find_row_Some in Hf as [Hx0 Hh]. bools_all.
  apply (draft_learn _ _ _ _ _ _ (always_code_hashed _ _ _ _ _ Hx0 Hh Hm)) in Hd. forget.
  case_match eqn:Hg; [apply cwp_raise|]. clear Hg.
  reading [RowSession (ac_session_id x0)] found. injection Hx as <-.
  destruct (provider_sessions c0 !! _) as [s|]; simpl; [|apply cwp_raise]. forget.
  reading [RowCode id] locked. destruct (authorization_codes c0 !! id) as [x|]; [|discriminate].
  injection Hx as <-. simpl. forget.
  reading (@nil RowId) current. pose proof (in_known _ _ _ (RowCode id) _ Hk ltac:(listed)) as Hc.
  simpl in Hc. rewrite Hc in Hx. injection Hx as <-. simpl. clear Hc. forget.
  case_match eqn:Hg; [apply cwp_raise|]. bools_all. subst client uri res.
  checking cwp_check_binding Hb. checking cwp_check_policy Hp.
  reading (@nil RowId) now. forget. checking cwp_check_binding Hb'. clear Hb'.
  destruct (is_some (ac_consumed_at x)) eqn:Hcons.
  { eapply cwp_replay_code; [exact Hd|listed| | |by apply is_some_true]; done. }
  case_match eqn:Hexp; [apply cwp_raise|].
  eapply (cwp_draft_write _ (RowCode id)); [sound|done|exact Hd|simpl; set_solver|].
  clear c Hd lv. intros clk c0 d [] d' c lv Hm _ Hs Hk Hx Hd.
  simpl in Hx. injection Hx as <-. apply shows_nothing in Hs as ->.
  pose proof (in_known _ _ _ (RowCode id) _ Hk ltac:(listed)) as Hc. simpl in Hc.
  unfold version_in in Hd. simpl in Hd. rewrite lookup_alter_eq, Hc in Hd. simpl in Hd. clear Hc. forget.
  match goal with Hx : ac_session_id x = _ |- _ => rewrite <- Hx in Hd end.
  eapply cwp_start_family; [exact Hd|listed|listed|]. clear c lv Hd. intros token c lv Hr.
  apply cwp_bindE, cwp_check_binding. intros c1 _ He. apply (ready_env _ _ _ _ He) in Hr. clear c He.
  apply cwp_commit_ready;
    [intros ? ? (_ & _ & ?); by eapply exchange_changes|intros ? ? (_ & _ & ?); by eapply StepExchange|]. eapply ready_mono; [|exact Hr].
  clear c1 lv Hr. intros c0 c' Hu [Hk Hst]. bools_all.
  pose proof (in_known _ _ _ (RowCode id) _ Hk ltac:(listed)) as Hx.
  destruct (always_now _ _ (proj1 Hk)) as [Hhash HP]. split_and!; [done..|].
  apply (ExchangeSuccess _ _ _ _ _ _ _ id x s now token); try done; [by apply find_code_hashed|].
  apply (in_known _ _ _ (RowSession (ac_session_id x)) _ Hk). listed.
Qed.
(** ** Rotating a refresh token *)

Definition token_known (h : string) (id fam sid : Uuid) (c : DB) : Prop :=
  exists m f, refresh_token_members c !! id = Some m /\ rt_token_hash m = h /\ rt_family_id m = fam
    /\ refresh_families c !! fam = Some f /\ rf_session_id f = sid.
Lemma always_token_known h id m f c c' :
  member_join_family h c = Some (id, m, f) -> moves c c' ->
  always (token_known h id (rt_family_id m) (rf_session_id f)) c'.
Proof.
  intros (Hm & Hf & Hh)%member_join_family_Some Hmv c2 Hmv2. pose proof (transitivity Hmv Hmv2) as Hmc.
  destruct (ev_members _ _ (mv_evolves _ _ Hmc) _ _ Hm) as (m' & Hm' & Hle).
  destruct (ev_families _ _ (mv_evolves _ _ Hmc) _ _ Hf) as (f' & Hf' & Hlf).
  exists m', f'. unfold member_le, family_le in *. destruct_and?. split_and!; try done; congruence.
Qed.
Lemma join_known h id fam sid m f c : unique_db c = true -> token_known h id fam sid c ->
  refresh_token_members c !! id = Some m -> refresh_families c !! fam = Some f ->
  member_join_family h c = Some (id, m, f) /\ rt_family_id m = fam /\ rf_session_id f = sid.
Proof.
  intros Hu (m' & f' & Hm' & <- & <- & Hf' & <-) Hm Hf.
  assert (m' = m) as -> by congruence. assert (f' = f) as -> by congruence. split_and!; [|done..].
  unfold member_join_family. rewrite (find_row_unique _ _ id m); [by rewrite Hf|done|by apply bool_decide_eq_true|].
  intros k v Hk Hv. bools_all. eapply (unique_members _ Hu); [exact Hk|exact Hm|congruence].
Qed.

(** The member found by the hash of the fresh one: it, as UNIQUE will have it. *)
Definition found_member (h : string) (mem k : Uuid) (c : DB) : Prop :=
  k = mem \/ exists v, refresh_token_members c !! k = Some v /\ rt_token_hash v = h.
Lemma always_found_member h mem k v ws c c' d : ws = [RowMember mem] ->
  (forall r, r ∉ ws -> row_get r d = row_get r c) -> moves c c' ->
  find_row (fun _ v => rt_token_hash v ==? h) (refresh_token_members d) = Some (k, v) ->
  always (found_member h mem k) c'.
Proof.
  intros -> Hr Hm [Hv Hh]%find_row_Some c2 Hm2. bools_all.
  destruct (decide (k = mem)) as [->|Hne]; [by left|right].
  pose proof (Hr (RowMember k) ltac:(set_solver)) as Heq. simpl in Heq. rewrite Heq in Hv.
  destruct (ev_members _ _ (mv_evolves _ _ (transitivity Hm Hm2)) _ _ Hv) as (v' & Hv' & Hle).
  exists v'. unfold member_le in Hle. destruct_and?. split; [done|congruence].
Qed.

Lemma key_unique_unalter {V K} (key : V -> K) (f : V -> V) id (m : gmap Uuid V) :
  (forall v, key (f v) = key v) -> key_unique key (alter f id m) -> key_unique key m.
Proof.
  intros Hf Hk i j v w Hi Hj Hkey.
  assert (Ha : forall k x, m !! k = Some x -> exists y, alter f id m !! k = Some y /\ key y = key x).
  { intros k x Hx. destruct (decide (k = id)) as [->|Hne].
    - exists (f x). by rewrite lookup_alter_eq, Hx.
    - exists x. by rewrite lookup_alter_ne. }
  destruct (Ha _ _ Hi) as (v' & Hi' & Hv), (Ha _ _ Hj) as (w' & Hj' & Hw).
  eapply Hk; [exact Hi'|exact Hj'|congruence].
Qed.

Lemma rotation_published P ks id m f s now mem k token d d' c0 c' reg raw client res :
  let fresh := fresh_member (rt_family_id m) token now in
  insert_member_row mem fresh d = Ok d' ->
  Version (RowMember mem) None ∈ ks ->
  Version (RowMember id) (Some m) ∈ ks -> Version (RowFamily (rt_family_id m)) (Some f) ∈ ks ->
  Version (RowSession (rf_session_id f)) (Some s) ∈ ks ->
  refresh_bound f client res -> refresh_allowed reg f ->
  rt_consumed_at m = None -> rf_revoked_at f = None -> ps_revoked_at s = None ->
  (now < rf_expires_at f)%Z -> (now < ps_expires_at s)%Z ->
  unique_db c0 = true -> unique_db c' = true ->
  known (fun c => found_member (hash token) mem k c
     /\ token_known (hash raw) id (rt_family_id m) (rf_session_id f) c /\ P c) ks c0 ->
  shows [Version (RowMember id) (Some (consume_member now k m)); Version (RowMember mem) (Some fresh)] c0 c' ->
  rotate_success raw client res reg c0 (refresh_result f s token) c'.
Proof.
  intros fresh Hi Kn Km Kf Ks Hb Ha Hm Hf Hs Ht Ht' Hu Hu' Hk Hsh.
  assert (Hid : refresh_token_members c0 !! id = Some m) by (by apply (in_known _ _ _ (RowMember id) _ Hk)).
  assert (Hfam : refresh_families c0 !! rt_family_id m = Some f)
    by (by apply (in_known _ _ _ (RowFamily _) _ Hk)).
  assert (Hses : provider_sessions c0 !! rf_session_id f = Some s)
    by (by apply (in_known _ _ _ (RowSession _) _ Hk)).
  assert (Hmem : refresh_token_members c0 !! mem = None) by (by apply (in_known _ _ _ (RowMember _) _ Hk)).
  destruct (always_now _ _ (proj1 Hk)) as (Hfound & Htok & _).
  assert (Hne : mem <> id) by congruence.
  set (d1 := set_members (<[mem := fresh]> (refresh_token_members c0)) c0).
  set (d2 := fun k => set_members (alter (consume_member now k) id (refresh_token_members d1)) d1).
  pose proof (shows_member [] c0 c0 mem fresh (shows_same _) ltac:(set_solver)) as S1. fold d1 in S1.
  assert (Hc' : c' = d2 k).
  { eapply shows_eq; [exact Hsh|].
    assert (Hv : version_in (d2 k) (RowMember id) = Version (RowMember id) (Some (consume_member now k m))).
    { unfold version_in. simpl. by rewrite lookup_alter_eq, lookup_insert_ne, Hid. }
    rewrite <- Hv. apply (shows_write _ _ d1); [exact S1|simpl; set_solver|]. unfold d2. one_table. }
  assert (Hku : key_unique rt_token_hash (<[mem := fresh]> (refresh_token_members c0))).
  { apply unique_members in Hu'. rewrite Hc' in Hu'. by eapply key_unique_unalter, Hu'. }
  assert (k = mem) as ->.
  { destruct Hfound as [|(v & Hv & Hvh)]; [done|]. destruct (decide (k = mem)) as [|Hkm]; [done|].
    eapply Hku; [by rewrite lookup_insert_ne|by apply lookup_insert_eq|done]. }
  rewrite Hc'. apply (join_known (hash raw)) with (m := m) (f := f) in Htok as (Hj & _ & _); [|done..].
  apply (RotateSuccess _ _ _ _ _ id m f s now token mem d1); try done.
  eapply insert_member_again; [exact Hi|done|by eexists|exact Hku].
Qed.
Lemma rotate_changes raw client res reg c a c' : rotate_success raw client res reg c a c' -> c <> c'.
Proof.
  intros [id m f s now token new d1 Hj _ _ _ Hn _ _ _ _ Hi] Hc.
  apply member_join_family_Some in Hj as (Hm & _ & _). apply insert_member_inv in Hi as (Hnew & -> & _).
  apply (f_equal refresh_token_members) in Hc. simpl in Hc. pose proof Hm as Hm'.
  rewrite Hc, lookup_alter_eq, lookup_insert_ne, Hm in Hm' by congruence. injection Hm' as Heq. by rewrite <- Heq in Hn.
Qed.

Lemma consume_member_inv id now k clk d u d' :
  exec (consume_member_stmt id now k) clk d = Ok (u, d') ->
  d' = set_members (alter (consume_member now k) id (refresh_token_members d)) d.
Proof. simpl. intros Hx. by destruct (_ || _); simplify_eq. Qed.
(** A replay publishes the revocation of the token's family. *)
Lemma cwp_replay_refresh raw client res reg id m f lookup now Q (P : DB -> Prop) ks c lv g :
  let fam := rt_family_id m in
  draft (fun c => token_known (hash raw) id fam (rf_session_id f) c /\ P c) ks [] c [lv] ->
  Version (RowMember id) (Some m) ∈ ks -> Version (RowFamily fam) (Some f) ∈ ks ->
  refresh_bound f client res -> refresh_allowed reg f -> is_Some (rt_consumed_at m) ->
  tl_family_id lookup = fam ->
  cwp (replay_refresh_tx reg client lookup (family_row f) now) Q c [lv] g.
Proof.
  intros fam Hd Hm Hf Hb Ha [u Hu] Hl. unfold replay_refresh_tx. rewrite Hl.
  eapply (cwp_draft_revoke _ (fun k _ => k ==? fam) (fun _ _ => now));
    [sound|done|by intros; simplify_eq/=|exact Hd|by intros; apply not_elem_of_nil|].
  clear c lv Hd. intros clk c0 d [] c lv _ _ Hs Hk fs t Hd. apply shows_nothing in Hs as ->.
  pose proof (in_known _ _ _ (RowFamily fam) _ Hk Hf) as Hf0.
  assert (Hfs : forall i, RowFamily i ∈ rows_of fs <-> i = fam).
  { intros i. rewrite rows_of_elem. split; [intros (f' & [_ Hi]%found_families_elem); by bools_all|].
    intros ->. exists f. apply found_families_elem. split; [exact Hf0|by apply bool_decide_eq_true]. }
  clearbody fs. change t with (fun _ : Uuid => now) in Hd. clear clk t Hk Hf0 c0. checking cwp_check_binding Hb'.
  apply cwp_commit_step; [|intros; apply cwp_raise]. eexists _, _, _. split; [exact Hd|].
  clear c lv Hd Hb'. intros c0 c' Hu0 _ Hk Hsh. pose proof (known_present _ _ fs _ Hk ltac:(set_solver)) as Hp.
  right; left. rewrite (shows_eq _ _ _ _ Hsh (shows_revoked _ _ _ _ (fun _ => now) (shows_same _) ltac:(set_solver) Hp)).
  rewrite (revoke_listed_all (fun k _ => k ==? fam)).
  - eapply StepRotateReplay, (RotateReplay _ _ _ _ _ id m f); [|exact Hb|exact Ha|exact Hu].
    destruct (always_now _ _ (proj1 Hk)) as [Htok _].
    eapply join_known; [exact Hu0|exact Htok|..].
    + apply (in_known _ _ _ (RowMember id) _ Hk). set_solver.
    + apply (in_known _ _ _ (RowFamily fam) _ Hk). set_solver.
  - intros j fj _. by rewrite bool_decide_eq_true, Hfs.
Qed.

Lemma rotate_refresh_bound_takes P raw client res reg c : always P c ->
  cwp (rotate_refresh_bound raw client res reg)
    (fun a _ _ => takes_effect (meanwhile P (rotate_success raw client res reg)) a) c [] [].
Proof.
  unfold rotate_refresh_bound. intros HP. apply cwp_with_tx. intros c1 He.
  apply (always_moves _ _ _ (proj1 (env_rely _ _ _ He))) in HP. clear c He. rename c1 into c. drafting.
  reading (@nil RowId) found. injection Hx as <-.
  destruct (member_join_family _ _) as [[[id m] f]|] eqn:Hf; simpl; [|apply cwp_raise].
  apply (draft_learn _ _ _ _ _ _ (always_token_known _ _ _ _ _ _ Hf Hm)) in Hd. clear Hf. forget.
  reading [RowSession (rf_session_id f)] found. destruct (provider_sessions c0 !! _) as [s|]; [|discriminate].
  injection Hx as <-. simpl. forget.
  reading [RowFamily (rt_family_id m)] found. destruct (refresh_families c0 !! _) as [f1|] eqn:Hf; [|discriminate].
  injection Hx as <-. simpl. forget.
  reading [RowMember id] found. destruct (refresh_token_members c0 !! _) as [m1|] eqn:Hm1; [|discriminate].
  injection Hx as <-. simpl.
  pose proof (in_known _ _ _ (RowFamily _) _ Hk ltac:(listed)) as Hf1. destruct (always_now _ _ (proj1 Hk)) as [Htok _].
  destruct (join_known _ _ _ _ _ _ _ Hu Htok Hm1 Hf1) as (_ & Em & Ef). rewrite <- Em, <- Ef in *.
  clear m f Em Ef Htok Hf1 Hm1. forget. rename m1 into m, f1 into f.
  case_match eqn:Hg; [apply cwp_raise|]. bools_all. subst client res. checking cwp_check_binding Hb.
  case_match eqn:Hp; [apply cwp_raise|]. reading (@nil RowId) now. forget.
  checking cwp_check_binding Hb'. clear Hb'.
  destruct (is_some (rt_consumed_at m)) eqn:Hcons.
  { eapply (cwp_replay_refresh raw _ _ reg id m f); [exact Hd|listed|listed|done| |by apply is_some_true|done].
    split; [done|]. intros rg ->. simpl in Hp. by bools_all. }
  case_match eqn:Hexp; [apply cwp_raise|]. bools_all.
  eapply cwp_insert_member; [exact Hd|simpl; set_solver|].
  clear c lv Hd. intros token mem c0 d d' c lv Hm _ Hi Hd. clear c0 Hm.
  eapply (cwp_draft_read _ (fun _ => [])); [sound|reads|set_solver|exact Hd|].
  clear c lv Hd. intros clk c0 d2 k c lv Hm Hu Hs Hk Hx Hd. simpl in Hx, Hd.
  destruct (find_row _ _) as [[k' v]|] eqn:Hf; simplify_eq/=.
  eapply draft_learn in Hd; [|eapply (always_found_member (hash token) mem); [done|apply Hs|exact Hm|exact Hf]].
  clear v Hf Hs. forget.
  assert (Hne : RowMember id ∉ map vn_row [Version (RowMember mem) (Some (fresh_member (rt_family_id m) token now))]).
  { simpl. intros [= ->]%list_elem_of_singleton. destruct (draft_known _ _ _ _ _ Hd) as [_ Hk].
    inversion Hk as [|? ? K1 Hk']. inversion Hk' as [|? ? K2 _]. unfold is_in in *. simpl in *. congruence. }
  eapply (cwp_draft_write _ (RowMember id)); [sound|done|exact Hd|exact Hne|].
  clear c lv Hd. intros clk c0 d3 [] d4 c lv Hm _ Hs Hk Hx Hd. apply consume_member_inv in Hx as ->.
  pose proof (shows_row _ _ _ _ Hs Hne) as Hrow. pose proof (in_known _ _ _ (RowMember id) _ Hk ltac:(listed)) as Hc.
  unfold version_in in Hd. simpl in Hd, Hrow, Hc. rewrite lookup_alter_eq, Hrow, Hc in Hd. simpl in Hd.
  clear Hrow Hc Hs. forget. checking cwp_check_binding Hb'. clear Hb'.
  apply cwp_commit_ready;
    [intros ? ? (_ & _ & ?); by eapply rotate_changes|intros ? ? (_ & _ & ?); by eapply StepRotate|]. eexists _, _, _. split; [exact Hd|].
  intros c1 c' Hu Hu' Hk' Hsh. split_and!; [by apply (always_now _ _ (proj1 Hk'))|done|].
  eapply rotation_published; [exact Hi| | | | | | | |done..|exact Hk'|exact Hsh]; try listed.
  - done.
  - split; [done|]. intros rg ->. simpl in Hp. by bools_all.
  - done.
Qed.
End Credentials.
