(* ===== verification/Contest.v ===== *)
(** * Contest: rows that can be spent once

    A code, a refresh token or a logout challenge is a row that a
    transaction locks, finds unspent, marks spent and commits. [Contested]
    is what a table must offer for that, [unspent_held] and [spent_held] what
    the transaction knows before and after it marked the row, and the
    operations' proofs go through their statements with these. *)

From Stdlib Require Import Ascii ZArith.
From S2P Require Import Prelude External Schema Effects Evolution StoresSpec StoresInvariant Concurrency ConcurrencyTheory Pools Confinement Framing.

Class Contested (T : Type) := {
  ct_table : DB -> gmap Uuid T;
  ct_row : Uuid -> RowId;
  ct_match : Uuid -> T -> bool;
  ct_spent : T -> bool;
  ct_same : forall c c' id, row_get (ct_row id) c' = row_get (ct_row id) c ->
    ct_table c' !! id = ct_table c !! id;
  ct_moves : forall c c' id r, moves c c' -> ct_table c !! id = Some r ->
    exists r', ct_table c' !! id = Some r' /\ (ct_match id r = true -> ct_match id r' = true)
               /\ (ct_spent r = true -> ct_spent r' = true);
  ct_unique : forall c id id' r r', unique_db c = true ->
    ct_table c !! id = Some r -> ct_match id r = true ->
    ct_table c !! id' = Some r' -> ct_match id' r' = true -> id = id';
}.

Section Contested.
Context `{Contested T}.

(** A matching row is spent. *)
Definition all_spent (c : DB) : bool := exists_row (fun id r => ct_match id r && ct_spent r) (ct_table c).

Definition row_is (spent : bool) (id : Uuid) (c : DB) : Prop :=
  exists r, ct_table c !! id = Some r /\ ct_match id r = true /\ ct_spent r = spent.
Definition row_there (id : Uuid) (c : DB) : Prop :=
  exists r, ct_table c !! id = Some r /\ ct_match id r = true.

Lemma all_spent_true c : all_spent c = true <-> exists id, row_is true id c.
Proof.
  unfold all_spent, exists_row. rewrite is_some_true. split.
  - intros [[id r] Hf]. apply find_row_Some in Hf as [Hr [Hm Hs]%andb_true_iff]. by exists id, r.
  - intros (id & r & Hr & Hm & Hs). destruct (find_row _ _) as [kv|] eqn:Hf; [by exists kv|].
    apply (find_row_None _ _ _ _ Hf) in Hr. by rewrite Hm, Hs in Hr.
Qed.

Lemma all_spent_moves c c' : moves c c' -> all_spent c = true -> all_spent c' = true.
Proof.
  intros He. rewrite !all_spent_true. intros (id & r & Hr & Hm & Hs).
  destruct (ct_moves _ _ _ _ He Hr) as (r' & Hr' & Hm' & Hs'). exists id, r'. auto.
Qed.

Lemma unspent_open c id : unique_db c = true -> row_is false id c -> all_spent c = false.
Proof.
  intros Hu (r & Hr & Hm & Hs). destruct (all_spent c) eqn:Hd; [|done].
  apply all_spent_true in Hd as (id' & r' & Hr' & Hm' & Hs').
  rewrite (ct_unique _ _ _ _ _ Hu Hr Hm Hr' Hm') in Hr. congruence.
Qed.

Lemma row_there_moves id c c' : moves c c' -> row_there id c -> row_there id c'.
Proof. intros He (r & Hr & Hm). destruct (ct_moves _ _ _ _ He Hr) as (r' & Hr' & Hm' & _). exists r'. auto. Qed.
Lemma row_spent_moves id c c' : moves c c' -> row_is true id c -> row_is true id c'.
Proof.
  intros He (r & Hr & Hm & Hs). destruct (ct_moves _ _ _ _ He Hr) as (r' & Hr' & Hm' & Hs'). exists r'. auto.
Qed.

(** The transaction holds the row, which is unspent for the others, ... *)
Definition unspent_held (id : Uuid) (c : DB) (tx : list Level) : Prop :=
  ct_row id ∈ held tx /\ row_is false id c.
(** ... and which it has spent. *)
Definition spent_held (id : Uuid) (c : DB) (tx : list Level) : Prop :=
  unspent_held id c tx /\ row_is true id (tx_view c tx).

(** The committed row is unspent if the version seen is. *)
Lemma view_unspent id c tx r :
  tx_ok c tx -> row_there id c -> ct_table (tx_view c tx) !! id = Some r -> ct_spent r = false ->
  row_is false id c.
Proof.
  intros Htx (r0 & Hr0 & Hm0) Hr Hs. exists r0. split_and!; [done..|].
  destruct (ct_moves _ _ _ _ (tx_ok_moves _ _ Htx) Hr0) as (r' & Hr' & _ & Hs').
  destruct (ct_spent r0); [|done]. simplify_eq. by rewrite Hs' in Hs.
Qed.

(** ** Facts that a transaction keeps *)

Lemma framed_there id : framed (fun c _ => row_there id c).
Proof. split; [|done]. intros c c1 tx [[He _] _ _]. by apply row_there_moves. Qed.

Lemma row_is_same b id c c' : row_get (ct_row id) c' = row_get (ct_row id) c -> row_is b id c -> row_is b id c'.
Proof. intros Hr (r & Hid & ?). exists r. by rewrite (ct_same _ _ _ Hr). Qed.

Lemma framed_unspent id : framed (unspent_held id).
Proof.
  split.
  - intros c c1 tx [[_ Ha] _ _] [Hh Hr]. split; [done|]. eapply row_is_same; [by apply Ha|done].
  - intros R s clk c lv below r v' Hs He [Hh Hr]. split; [|done].
    rewrite held_cons in *. simpl. set_solver.
Qed.

Lemma framed_spent id : framed (spent_held id).
Proof.
  split.
  - intros c c1 tx He [Hu Hr]. split; [by eapply (fr_env _ (framed_unspent id))|].
    eapply row_is_same; [|exact Hr]. apply tx_view_rely; [by destruct He|by destruct Hu].
  - intros R s clk c lv below r v' Hs He [Hu Hr].
    split; [by eapply (fr_stmt _ (framed_unspent id))|].
    assert (Hfine : fine s (tx_view c (lv :: below))) by by apply quiet_sound.
    rewrite (stmt_view _ _ _ _ Hfine _ _ _ He). eapply row_spent_moves; [|exact Hr].
    by destruct (Hfine _ _ _ He).
Qed.

(** The ledger that notes who spent the row. *)
Definition spending : Ledger bool := marks all_spent.
#[export] Instance spending_permissive : Permissive spending := marks_permissive all_spent.

(** ** Rules *)

Section Rules.
Context {E : Type} `{!FromDb E}.
Notation cwp := (cwp spending).

(** The row is found: the first statement of the transaction. *)
Lemma cwp_find {A B} (s : stmt B) (f : B -> M E A) Q c lv g :
  sound_stmt _ s -> lv_held lv = [] ->
  (forall clk d r v', exec s clk d = Ok (r, v') ->
     (forall c1 lv1, cwp (f r) Q c1 [lv1] g) \/
     exists id, row_there id d /\ forall c1 lv1, row_there id c1 -> cwp (f r) Q c1 [lv1] g) ->
  cwp (bindE (sql s) f) Q c [lv] g.
Proof.
  intros Hs Hl Hf. apply cwp_bindE, cwp_sql_tx; [intros; apply Hs|].
  intros c1 clk r v' He Hx tx1 c2 He2. eapply cwp_env; [exact He2|].
  assert (Hv : tx_view c1 [lv] = c1).
  { apply db_ext. intros row. apply tx_view_free. rewrite held_cons, Hl. set_solver. }
  rewrite Hv in Hx. destruct (Hf _ _ _ _ Hx) as [Hn|(id & Ht & Hn)]; by apply Hn.
Qed.

(** The row is locked: if the version seen is unspent, it is. *)
Definition unspent_if (b : bool) (id : Uuid) (c : DB) (tx : list Level) : Prop :=
  row_there id c /\ (b = false -> unspent_held id c tx).
Lemma framed_unspent_if b id : framed (unspent_if b id).
Proof.
  split.
  - intros c c1 tx He [Ht Hu]. split; [by eapply (fr_env _ (framed_there id))|].
    intros Hb. by eapply (fr_env _ (framed_unspent id)), Hu.
  - intros R s clk c lv below r v' Hs Hx [Ht Hu]. split; [done|].
    intros Hb. by eapply (fr_stmt _ (framed_unspent id)), Hu.
Qed.

Lemma cwp_lock {A B} (s : stmt B) (f : B -> M E A) Q (spent : B -> bool) id c lv g :
  sound_stmt _ s ->
  (forall d, ct_row id ∈ locks s d) ->
  (forall clk d r v', exec s clk d = Ok (r, v') -> v' = d /\
     forall row, ct_table d !! id = Some row -> spent r = ct_spent row) ->
  row_there id c ->
  (forall clk d r v' c1 lv1, exec s clk d = Ok (r, v') -> unspent_if (spent r) id c1 [lv1] ->
     cwp (f r) Q c1 [lv1] g) ->
  cwp (bindE (sql s) f) Q c [lv] g.
Proof.
  intros Hsd Hl Hs Hc Hf. apply cwp_bindE, cwp_sql_tx; [intros; apply Hsd|].
  intros c1 clk r v' He Hx tx1 c2 He2. eapply cwp_env; [exact He2|]. eapply Hf; [exact Hx|].
  destruct (Hs _ _ _ _ Hx) as [_ Hrow]. pose proof (fr_env _ (framed_there id) _ _ _ He Hc) as Ht.
  split; [done|]. intros Hb. split; [rewrite held_cons; simpl; set_solver|].
  pose proof Ht as (r0 & Hr0 & _).
  destruct (ct_moves _ _ _ _ (tx_ok_moves _ _ (env_tx _ _ _ He)) Hr0) as (r1 & Hr1 & _).
  eapply view_unspent; [by destruct He|done|exact Hr1|]. by rewrite <- (Hrow _ Hr1).
Qed.

(** The row is spent. *)
Lemma cwp_spend {A} (s : stmt unit) (f : unit -> M E A) Q id c lv g :
  (forall c1, env [lv] c c1 -> fine s (tx_view c1 [lv])) ->
  (forall clk d r v' row, exec s clk d = Ok (r, v') -> ct_table d !! id = Some row ->
     exists row', ct_table v' !! id = Some row' /\ ct_spent row' = true) ->
  unspent_held id c [lv] ->
  (forall c1 lv1, spent_held id c1 [lv1] -> cwp (f tt) Q c1 [lv1] g) ->
  cwp (bindE (sql s) f) Q c [lv] g.
Proof.
  intros Hs Hx Hc Hf. apply cwp_bindE, cwp_sql_tx; [exact Hs|].
  intros c1 clk [] v' He He1 tx1 c2 He2. specialize (Hs _ He).
  eapply cwp_env; [exact He2|]. apply Hf. pose proof (fr_env _ (framed_unspent id) _ _ _ He Hc) as [Hh Hr].
  split; [split; [|exact Hr]; rewrite held_cons in *; simpl; set_solver|].
  unfold tx1. rewrite (stmt_view _ _ _ _ Hs _ _ _ He1). destruct Hr as (r0 & Hr0 & Hm0 & _).
  pose proof (tx_ok_moves _ _ (env_tx _ _ _ He)) as Hm1.
  assert (Hev : moves c1 v') by (etrans; [exact Hm1|by destruct (Hs _ _ _ He1)]).
  destruct (ct_moves _ _ _ _ Hm1 Hr0) as (r1 & Hr1 & _).
  destruct (Hx _ _ _ _ _ He1 Hr1) as (r2 & Hr2 & Hs2).
  destruct (ct_moves _ _ _ _ Hev Hr0) as (r3 & Hr3 & Hm3 & _).
  assert (r3 = r2) as -> by congruence. exists r2. auto.
Qed.

(** A row that is found and locked at once. *)
Lemma cwp_lock_new {A B} (s : stmt B) (f : B -> M E A) Q id c lv g :
  sound_stmt _ s ->
  ct_row id ∉ held [lv] ->
  (forall clk d r v', exec s clk d = Ok (r, v') ->
     (forall c1 lv1, cwp (f r) Q c1 [lv1] g) \/
     exists row, ct_row id ∈ locks s d /\ ct_table d !! id = Some row /\ ct_match id row = true /\
       forall c1 lv1, unspent_if (ct_spent row) id c1 [lv1] -> cwp (f r) Q c1 [lv1] g) ->
  cwp (bindE (sql s) f) Q c [lv] g.
Proof.
  intros Hs Hn Hf. apply cwp_bindE, cwp_sql_tx; [intros; apply Hs|].
  intros c1 clk r v' He Hx tx1 c2 He2. eapply cwp_env; [exact He2|].
  destruct (Hf _ _ _ _ Hx) as [Hq|(row & Hl & Hrow & Hm & Hq)]; [by apply Hq|apply Hq].
  rewrite (ct_same _ _ _ (tx_view_free _ c1 _ Hn)) in Hrow. split; [by exists row|].
  intros Hb. split; [rewrite held_cons; simpl; set_solver|by exists row].
Qed.

(** COMMIT of a transaction that has spent the row wins. *)
Lemma cwp_commit_spent {A} (a : A) (Q : A -> bool -> Prop) id c lv g :
  spent_held id c [lv] -> Q a true -> cwp (commit ;;; ret a) (fun a _ _ => Q a) c [lv] g.
Proof.
  intros Hs Hq. apply cwp_bindE, cwp_commit. intros c1 He c' _. split; [done|]. intros c2 He2.
  apply cwp_ret. intros c3 _.
  destruct (fr_env _ (framed_spent id) _ _ _ He Hs) as [[_ Hu] Hv].
  assert (Hmk : mark all_spent c1 c' = true); [|cbn [spending note marks]; by rewrite Hmk, orb_true_r].
  unfold mark. rewrite (unspent_open _ _ (env_unique _ _ _ He) Hu). simpl.
  apply all_spent_true. by exists id.
Qed.
End Rules.
End Contested.
Arguments spending {T} ct : rename.
