(* ===== verification/Contenders.v ===== *)
(** * Contenders: redemptions, rotations and logouts in a pool

    Each of these operations succeeds only by the effect that spends its
    row, whatever the others do meanwhile. *)

From Stdlib Require Import Ascii ZArith.
From S2P Require Import Prelude External Schema Effects Evolution Identity Cimd OAuth Jose Keys Google Credentials CredentialsSpec CredentialsTheory CredentialsInvariant Database Logout Browser StoresSpec DatabaseTheory LogoutTheory BrowserTheory StoresInvariant System Concurrency ConcurrencyTheory Pools Confinement Framing Contest.

(** ** The contests *)

#[local] Instance code_contest (h : string) : Contested code_rec.
Proof.
  refine {|
    ct_table := authorization_codes;
    ct_row := RowCode;
    ct_match := fun _ c => ac_code_hash c ==? h;
    ct_spent := fun c => is_some (ac_consumed_at c)
  |}.
  - intros c c' id Hr. exact Hr.
  - intros c c' id r He Hr. destruct (ev_codes _ _ (mv_evolves _ _ He) _ _ Hr) as (r' & Hr' & Hle).
    exists r'. split_and!; [done|..]; unfold code_le in Hle; destruct_and?.
    + intros Hm. bools_all. apply bool_decide_eq_true. congruence.
    + rewrite !is_some_true. tauto.
  - intros c id id' r r' Hu Hr Hm Hr' Hm'. bools_all. eapply (unique_codes _ Hu); [exact Hr|exact Hr'|congruence].
Defined.

#[local] Instance member_contest (h : string) : Contested member_rec.
Proof.
  refine {|
    ct_table := refresh_token_members;
    ct_row := RowMember;
    ct_match := fun _ m => rt_token_hash m ==? h;
    ct_spent := fun m => is_some (rt_consumed_at m)
  |}.
  - intros c c' id Hr. exact Hr.
  - intros c c' id r He Hr. destruct (ev_members _ _ (mv_evolves _ _ He) _ _ Hr) as (r' & Hr' & Hle).
    exists r'. split_and!; [done|..]; unfold member_le in Hle; destruct_and?.
    + intros Hm. bools_all. apply bool_decide_eq_true. congruence.
    + rewrite !is_some_true. tauto.
  - intros c id id' r r' Hu Hr Hm Hr' Hm'. bools_all. eapply (unique_members _ Hu); [exact Hr|exact Hr'|congruence].
Defined.

#[local] Instance logout_contest (k : Uuid) : Contested logout_rec.
Proof.
  refine {|
    ct_table := logout_challenges;
    ct_row := RowLogout;
    ct_match := fun id _ => id ==? k;
    ct_spent := fun l => is_some (lc_consumed_at l)
  |}.
  - intros c c' id Hr. exact Hr.
  - intros c c' id r He Hr. destruct (ev_logouts _ _ (mv_evolves _ _ He) _ _ Hr) as (r' & Hr' & Hle).
    exists r'. split_and!; [done|..]; unfold logout_le in Hle; destruct_and?; [done|].
    rewrite !is_some_true. tauto.
  - intros c id id' r r' _ _ Hm _ Hm'. bools_all. congruence.
Defined.

Section Contenders.
Context `{Crypto, UrlLib, JsonLib, JsonDb, UuidLib}.

Ltac sound := solve [eauto with stmts typeclass_instances].

Lemma framing_check_binding {G} (L : Ledger G) reg client b : framing L (check_binding_tx reg client b).
Proof. unfold check_binding_tx. solve_framing. Qed.
Lemma framing_check_policy {G} (L : Ledger G) reg client uri code res :
  framing L (check_policy_tx reg client uri code res).
Proof. unfold check_policy_tx. solve_framing. Qed.
Lemma framing_start_family {G} (L : Ledger G) code session now : framing L (start_family_tx code session now).
Proof. unfold start_family_tx, insert_refresh, random_credential. solve_framing. Qed.
Lemma framing_insert_refresh {G} (L : Ledger G) family now :
  framing L (E:=CredentialError) (insert_refresh family now).
Proof. unfold insert_refresh, random_credential. solve_framing. Qed.

#[local] Hint Resolve framing_check_binding framing_check_policy framing_start_family
  framing_insert_refresh : framing.

(** ** Redeeming a code *)

Lemma exchange_code_bound_cwp raw client uri res verifier reg c g :
  cwp (spending (code_contest (hash raw))) (exchange_code_bound raw client uri res verifier reg)
    (winning (fun _ => true)) c [] g.
Proof.
  pose (K := code_contest (hash raw)). pose (HF := framed_unspent_if (H:=K)).
  unfold exchange_code_bound. apply cwp_with_tx. intros c0 _.
  apply cwp_find; [sound|done|]. intros clk d r v' Hx. simpl in Hx. simplify_eq.
  destruct (find_row _ _) as [[id rc]|] eqn:Hf; simpl; [right|by left; intros; apply cwp_raise].
  apply find_row_Some in Hf as [Hrc Hh]. exists id. split; [by exists rc|]. intros c1 lv Ht.
  case_match; [apply cwp_raise|].
  carry session keeping (framed_there (H:=K) id) of Ht c1 lv.
  destruct session as [session|]; [|apply cwp_raise].
  eapply (cwp_lock _ _ _ (fun l => is_some (cs_consumed_at l)) id); [sound|simpl; set_solver| |exact Ht|].
  { intros clk' d' r' v'' Hx. simpl in Hx. destruct (authorization_codes d' !! id) as [rc'|] eqn:Hd';
      simplify_eq/=. split; [done|]. intros row Hrow. simpl in *. by simplify_eq. }
  clear c1 lv Ht. intros _ _ locked _ c1 lv _ Hu.
  eapply cwp_read; [apply HF|sound|exact Hu|].
  clear c1 lv Hu. intros clk' d' current v'' c1 lv Hx Hu.
  assert (Hid : cr_id current = id).
  { simpl in Hx. by destruct (authorization_codes d' !! id); simplify_eq/=. }
  rewrite Hid. clear clk' d' v'' Hx. case_match; [apply cwp_raise|].
  carry ? keeping HF of Hu c1 lv. carry ? keeping HF of Hu c1 lv.
  carry now keeping HF of Hu c1 lv. carry ? keeping HF of Hu c1 lv.
  destruct (is_some (cs_consumed_at locked)).
  { unfold replay_code_tx. repeat (apply cwp_then; [apply _|solve_stmts|intros]). apply cwp_raise. }
  apply proj2 in Hu. specialize (Hu eq_refl). case_match; [apply cwp_raise|].
  eapply (cwp_spend _ _ _ id); [intros; by apply quiet_sound; sound| |exact Hu|].
  { intros clk' d' r' v'' row Hx Hrow. simpl in *. simplify_eq. exists (consume_code now row). simpl.
    by rewrite lookup_alter_eq, Hrow. }
  clear c1 lv Hu. intros c1 lv Hs.
  carry ? keeping (framed_spent (H:=K)) of Hs c1 lv. carry ? keeping (framed_spent (H:=K)) of Hs c1 lv.
  by eapply cwp_commit_spent.
Qed.

Lemma exchange_code_request_cwp raw client uri res verifier scopes reg c g :
  cwp (spending (code_contest (hash raw)))
    (exchange_code_request raw client uri res verifier scopes reg) (winning (fun _ => true)) c [] g.
Proof.
  unfold exchange_code_request. apply cwp_bindE, cwp_sql_auto; [intros; by apply quiet_sound; sound|]. intros c1 clk r v' _ _ _. split; [done|]. intros c2 _.
  destruct r as [[[ss sr] ch]|]; [|apply cwp_raise]. case_match; [apply cwp_raise|].
  apply cwp_bindE, cwp_try_instant. intros t a c3 _ _. apply exchange_code_bound_cwp.
Qed.

(** ** Rotating a refresh token *)

Lemma rotate_refresh_bound_cwp raw client res reg c g :
  cwp (spending (member_contest (hash raw))) (rotate_refresh_bound raw client res reg)
    (winning (fun _ => true)) c [] g.
Proof.
  pose (K := member_contest (hash raw)). pose (HF := framed_unspent_if (H:=K)).
  unfold rotate_refresh_bound. apply cwp_with_tx. intros c0 _.
  apply cwp_find; [sound|done|]. intros clk d r v' Hx. simpl in Hx. simplify_eq. unfold member_join_family.
  destruct (find_row _ _) as [[id rm]|] eqn:Hf; simpl; [|by left; intros; apply cwp_raise].
  destruct (refresh_families v' !! rt_family_id rm) as [fam|]; simpl; [right|by left; intros; apply cwp_raise].
  apply find_row_Some in Hf as [Hrm Hh]. exists id. split; [by exists rm|]. intros c1 lv Ht.
  carry session keeping (framed_there (H:=K) id) of Ht c1 lv.
  carry family keeping (framed_there (H:=K) id) of Ht c1 lv.
  eapply (cwp_lock _ _ _ (fun consumed_at => is_some consumed_at) id); [sound|simpl; set_solver| |exact Ht|].
  { intros clk' d' r' v'' Hx. simpl in Hx. destruct (refresh_token_members d' !! id) as [rm'|] eqn:Hd';
      simplify_eq/=. split; [done|]. intros row Hrow. simpl in *. by simplify_eq. }
  clear c1 lv Ht. intros _ _ consumed_at _ c1 lv _ Hu.
  case_match; [apply cwp_raise|]. carry ? keeping HF of Hu c1 lv.
  case_match; [apply cwp_raise|]. carry now keeping HF of Hu c1 lv.
  carry ? keeping HF of Hu c1 lv. destruct (is_some consumed_at).
  { unfold replay_refresh_tx. repeat (apply cwp_then; [apply _|solve_stmts|intros]). apply cwp_raise. }
  case_match; [apply cwp_raise|].
  carry successor keeping HF of Hu c1 lv. carry successor_id keeping HF of Hu c1 lv.
  apply proj2 in Hu. specialize (Hu eq_refl).
  eapply (cwp_spend _ _ _ id); [intros; by apply quiet_sound; sound| |exact Hu|].
  { intros clk' d' r' v'' row Hx Hrow. simpl in *. do 2 (case_match; simplify_eq).
    exists (consume_member now successor_id row). simpl. by rewrite lookup_alter_eq, Hrow. }
  clear c1 lv Hu. intros c1 lv Hs. carry ? keeping (framed_spent (H:=K)) of Hs c1 lv.
  by eapply cwp_commit_spent.
Qed.

Lemma rotate_refresh_request_cwp raw client res scopes reg c g :
  cwp (spending (member_contest (hash raw)))
    (rotate_refresh_request raw client res scopes reg) (winning (fun _ => true)) c [] g.
Proof.
  unfold rotate_refresh_request. apply cwp_bindE, cwp_sql_auto; [intros; by apply quiet_sound; sound|]. intros c1 clk r v' _ _ _. split; [done|]. intros c2 _.
  destruct r as [[ss sr]|]; [|apply cwp_raise]. case_match; [apply cwp_raise|].
  apply rotate_refresh_bound_cwp.
Qed.

(** ** Finishing a logout *)

Lemma end_session_cwp id session row now c lv g :
  unspent_held (H:=logout_contest id) id c [lv] ->
  cwp (spending (logout_contest id)) (end_session_tx id session row now) (winning is_some) c [lv] g.
Proof.
  intros Hu. pose (K := logout_contest id). unfold end_session_tx.
  eapply (cwp_spend (H:=K) _ _ _ id); [intros; by apply quiet_sound; sound| |exact Hu|].
  { intros clk d r v' l Hx Hl. simpl in *. simplify_eq. exists (consume_logout now l). simpl.
    by rewrite lookup_alter_eq, Hl. }
  clear c lv Hu. intros c lv Hs.
  carry ? keeping (framed_spent (H:=K)) of Hs c lv. carry ? keeping (framed_spent (H:=K)) of Hs c lv.
  by eapply cwp_commit_spent.
Qed.

Lemma finish_inner_cwp session challenge reg hint c g :
  cwp (spending (logout_contest (lch_id challenge))) (finish_inner session challenge reg hint)
    (winning is_some) c [] g.
Proof.
  pose (K := logout_contest (lch_id challenge)). pose (HF := framed_unspent_if (H:=K)).
  unfold finish_inner. apply cwp_with_tx. intros c0 _.
  apply cwp_bindE, cwp_sql_tx; [intros; by apply quiet_sound; sound|]. intros c1 clk r v' _ _ tx1 c2 _.
  destruct r as [srow|]; [|apply cwp_raise].
  eapply (cwp_lock_new _ _ _ (lch_id challenge)); [sound| |].
  { unfold held; simpl. set_solver. }
  clear clk v' tx1. intros clk d r v' Hx. simpl in Hx. simplify_eq. simpl. unfold logout_where.
  destruct (find_row _ _) as [[id row]|] eqn:Hf; simpl; [right|by left; intros; apply cwp_raise].
  apply find_row_Some in Hf as [Hrow Hm]. unfold logout_matches in Hm. bools_all. simplify_eq.
  exists row. split_and!; [by left|done|by apply bool_decide_eq_true|]. intros c3 lv Hu.
  carry now keeping HF of Hu c3 lv. case_match eqn:Hg; [apply cwp_raise|].
  assert (Hs : is_some (lc_consumed_at row) = false) 
    by (destruct (is_some (lc_consumed_at row)); [by rewrite orb_true_r in Hg|done]).
  apply proj2 in Hu. specialize (Hu Hs).
  destruct (option_map _ hint) as [[| |]|]; [apply cwp_raise|by apply cwp_ret|..].
  all: by apply end_session_cwp.
Qed.

Lemma finish_cwp session challenge reg c g :
  cwp (spending (logout_contest (lch_id challenge))) (finish session challenge reg)
    (winning (fun _ => true)) c [] g.
Proof.
  unfold finish. apply cwp_bindE. eapply inter_mono; [apply finish_inner_cwp|].
  intros [[o|]|e] c1 tx g1 Hg; [by apply cwp_ret; intros ? ? _; apply Hg|apply cwp_raise|done].
Qed.
End Contenders.
