(* ===== verification/Deciders.v ===== *)
(** * Deciders: the operations that move a request, in a pool

    An operation that moves a request to its next stage locks the request's
    row, finds it at a stage, and updates it with no test of its own: the
    update is legal because the row cannot have moved since. *)

From Stdlib Require Import Ascii ZArith.
From S2P Require Import Prelude External Schema Effects Evolution Identity Cimd OAuth Jose Keys Google Credentials CredentialsSpec CredentialsTheory CredentialsInvariant Database Logout Browser StoresSpec DatabaseTheory LogoutTheory BrowserTheory StoresInvariant System Concurrency ConcurrencyTheory Pools Confinement Framing Contest Contenders.

(** ** Facts about requests *)

(** The transaction holds no request. *)
Definition no_request_held (_ : DB) (tx : list Level) : Prop := forall id, RowBrowser id ∉ held tx.
(** It holds this request and no other, and has not changed it. *)
Record request_at (id : Uuid) (b : browser_rec) (c : DB) (tx : list Level) : Prop := {
  ra_held : RowBrowser id ∈ held tx;
  ra_only : forall k, RowBrowser k ∈ held tx -> k = id;
  ra_row : browser_authorizations c !! id = Some b;
  ra_view : browser_authorizations (tx_view c tx) !! id = Some b;
}.

Lemma new_level_rows {R} (s : stmt R) v lv below v' row :
  row ∈ held ({| lv_held := locks s v ++ lv_held lv; lv_db := v' |} :: below)
  <-> row ∈ locks s v \/ row ∈ held (lv :: below).
Proof. rewrite !held_cons. simpl. rewrite !elem_of_app. tauto. Qed.

Lemma framed_no_request : framed no_request_held.
Proof.
  split; [done|]. intros R s clk c lv below r v' (_ & _ & Ho) _ Hn id Hin.
  apply new_level_rows in Hin as [Hin|Hin]; [by apply Ho in Hin|by apply Hn in Hin].
Qed.

Lemma framed_request id b : framed (request_at id b).
Proof.
  split.
  - intros c c1 tx [Hr _ _] [Hh Ho Hc Hv]. pose proof Hr as [_ Ha]. split; [done..| |].
    + rewrite <- Hc. exact (Ha (RowBrowser id) Hh).
    + rewrite <- Hv. exact (tx_view_rely _ _ _ (RowBrowser id) Hr Hh).
  - intros R st clk c lv below r v' Hs Hx [Hh Ho Hc Hv]. pose proof (quiet_sound _ Hs) as Hsd.
    destruct Hs as (_ & _ & Hoff). split; [apply new_level_rows; by right| |done|].
    + intros k [Hin|Hin]%new_level_rows; [by apply Hoff in Hin|by apply Ho].
    + rewrite (stmt_view _ _ _ _ (Hsd _) _ _ _ Hx), <- Hv.
      destruct (Hsd _ _ _ _ Hx) as [_ Ht]. exact (Ht (RowBrowser id) (Hoff _ _)).
Qed.

(** The requests it sees are the committed ones. *)
Lemma request_view id b c tx : request_at id b c tx ->
  browser_authorizations (tx_view c tx) = browser_authorizations c.
Proof.
  intros [Hh Ho Hc Hv]. apply map_eq. intros k. destruct (decide (RowBrowser k ∈ held tx)) as [Hk|Hk].
  - apply Ho in Hk as ->. by rewrite Hc, Hv.
  - exact (tx_view_free _ c (RowBrowser k) Hk).
Qed.

(** A savepoint opened and released in between. *)
Lemma request_at_push id b c tx : request_at id b c tx -> request_at id b c (push_level c tx).
Proof. intros [Hh Ho Hc Hv]. split; [by rewrite push_held..|done|by rewrite push_view]. Qed.
Lemma request_at_merge id b c lv lv' below :
  request_at id b c (lv :: lv' :: below) -> request_at id b c (merge_level lv lv' :: below).
Proof. intros [Hh Ho Hc Hv]. split; [by rewrite merge_held..|done|by rewrite merge_view]. Qed.

(** The update of a request that is held at a stage. *)
Lemma update_request_fine `{JsonDb} id b f c tx :
  request_at id b c tx -> browser_le b (f b) -> stage_step (ba_stage b) (ba_stage (f b)) ->
  fine (update_browser_stmt id f) (tx_view c tx).
Proof.
  intros [_ _ _ Hb] Hle Hst clk r v' Hx.
  pose proof (update_browser_stmt_confined _ _ _ _ _ _ Hx) as Ht. split; [|exact Ht].
  simpl in Hx. case_match eqn:Hu; simplify_eq. by eapply update_browser_moves.
Qed.

Lemma update_row_row `{JsonDb} id f v v' b :
  update_browser_row id f v = Ok v' -> browser_authorizations v !! id = Some b ->
  browser_authorizations v' !! id = Some (f b).
Proof.
  unfold update_browser_row. intros Hx Hb. rewrite Hb in Hx. case_match; simplify_eq. apply lookup_insert_eq.
Qed.
Lemma update_stmt_row `{JsonDb} id f clk v r v' b :
  exec (update_browser_stmt id f) clk v = Ok (r, v') -> browser_authorizations v !! id = Some b ->
  browser_authorizations v' !! id = Some (f b).
Proof.
  intros Hx Hb. simpl in Hx. case_match eqn:Hu; simplify_eq. by eapply update_row_row.
Qed.

(** Another locked read of the same request. *)
Lemma framed_relock {R} (s : stmt R) clk id b c lv below r :
  sound_stmt R s -> (forall d k, RowBrowser k ∈ locks s d -> k = id) ->
  exec s clk (tx_view c (lv :: below)) = Ok (r, tx_view c (lv :: below)) ->
  request_at id b c (lv :: below) ->
  request_at id b c ({| lv_held := locks s (tx_view c (lv :: below)) ++ lv_held lv;
                        lv_db := tx_view c (lv :: below) |} :: below).
Proof.
  intros Hs Hl Hx [Hh Ho Hc Hv]. split; [apply new_level_rows; by right| |done|].
  - intros k [Hin|Hin]%new_level_rows; [by eapply Hl|by apply Ho].
  - by rewrite (stmt_view _ _ _ _ (Hs _) _ _ _ Hx).
Qed.

Section Rules.
Context {G : Type} (L : Ledger G) {E : Type} `{!FromDb E}.
Notation cwp := (cwp L).

(** A locked read that finds a request at a stage. *)
Lemma cwp_lock_request {A} lk (h : (Uuid -> Z) -> DB -> A) (Q : A -> DB -> list Level -> G -> Prop) c lv below g :
  no_request_held c (lv :: below) ->
  (forall clk d,
     (forall c1 lv1, Q (h clk d) c1 (lv1 :: below) g) \/
     exists id b, browser_authorizations d !! id = Some b
       /\ (forall k, RowBrowser k ∈ lk d <-> k = id)
       /\ forall c1 lv1, request_at id b c1 (lv1 :: below) -> Q (h clk d) c1 (lv1 :: below) g) ->
  cwp (sql (E:=E) (select_for_update lk h)) Q c (lv :: below) g.
Proof.
  intros Hn Hf. apply cwp_sql_tx; [intros; apply sound_for_update|].
  intros c1 clk r v' He Hx tx1 c2 He2. pose proof Hx as Hx'. simpl in Hx'.
  destruct (Hf clk (tx_view c1 (lv :: below))) as [Hq|(id & b & Hb & Hl & Hq)]; simplify_eq; [by apply Hq|].
  apply Hq, (fr_env _ (framed_request id b) _ _ _ He2). split.
  - apply new_level_rows. left. by apply Hl.
  - intros k [Hk|Hk]%new_level_rows; [by apply Hl|by apply Hn in Hk].
  - rewrite <- Hb. symmetry. exact (tx_view_free _ c1 (RowBrowser id) (Hn id)).
  - unfold tx1. by rewrite (stmt_view (select_for_update lk h) _ _ _ (sound_for_update _ _ _) _ _ _ Hx).
Qed.
(** The same request, locked again. *)
Lemma cwp_relock {A B} (s : stmt B) (f : B -> M E A) Q id b c lv below g :
  sound_stmt B s -> (forall d k, RowBrowser k ∈ locks s d -> k = id) ->
  (forall clk d r d', exec s clk d = Ok (r, d') -> d' = d) -> request_at id b c (lv :: below) ->
  (forall r c1 lv1, request_at id b c1 (lv1 :: below) -> cwp (f r) Q c1 (lv1 :: below) g) ->
  cwp (bindE (sql s) f) Q c (lv :: below) g.
Proof.
  intros Hs Hl Hd Hr Hf. apply cwp_bindE, cwp_sql_tx; [intros; apply Hs|].
  intros c1 clk r v' He Hx tx1 c2 He2. pose proof (Hd _ _ _ _ Hx) as ->.
  apply Hf, (fr_env _ (framed_request id b) _ _ _ He2).
  eapply framed_relock; [done|done|exact Hx|]. by eapply (fr_env _ (framed_request id b)).
Qed.
(** An update of a request held at a stage, whatever follows. *)
Lemma cwp_last_update `{JsonDb} {A} id b f (k : unit -> M E A) Q c lv g :
  browser_le b (f b) -> stage_step (ba_stage b) (ba_stage (f b)) ->
  request_at id b c [lv] -> (forall u c1 tx1 g1, cwp (k u) Q c1 tx1 g1) ->
  cwp (bindE (sql (update_browser_stmt id f)) k) Q c [lv] g.
Proof.
  intros Hle Hst Hr Hk. apply cwp_bindE, cwp_sql_tx.
  - intros c1 He. apply (fr_env _ (framed_request id b) _ _ _ He) in Hr. by eapply update_request_fine.
  - intros. apply Hk.
Qed.
End Rules.

(** ** Contests over requests *)

(** Which requests are contended for, and at which stages they are taken. *)
Record RequestTest := {
  rq_match : Uuid -> browser_rec -> bool;
  rq_spent : Stage -> bool;
  rq_stable : forall id b b', browser_le b b' -> rq_match id b = true -> rq_match id b' = true;
  rq_step : forall s s', stage_step s s' -> rq_spent s = true -> rq_spent s' = true;
  rq_unique : forall d id id' b b', unique_db d = true ->
    browser_authorizations d !! id = Some b -> rq_match id b = true ->
    browser_authorizations d !! id' = Some b' -> rq_match id' b' = true -> id = id';
}.

Lemma rq_steps t s s' : rtc stage_step s s' -> rq_spent t s = true -> rq_spent t s' = true.
Proof. induction 1; eauto using rq_step. Qed.

Definition request_contest (t : RequestTest) : Contested browser_rec.
Proof.
  refine {|
    ct_table := browser_authorizations;
    ct_row := RowBrowser;
    ct_match := rq_match t;
    ct_spent := fun b => rq_spent t (ba_stage b)
  |}.
  - intros c c' id Hr. exact Hr.
  - intros c c' id b [He Hs] Hb. destruct (ev_browser _ _ He _ _ Hb) as (b' & Hb' & Hle).
    destruct (Hs _ _ Hb) as (b2 & Hb2 & Hst). assert (b2 = b') as -> by congruence. exists b'.
    split_and!; [done|by apply rq_stable|by apply rq_steps].
  - apply rq_unique.
Defined.

(** The decision on one request. *)
Definition decision_on (k : Uuid) : RequestTest.
Proof.
  refine {| rq_match := fun id _ => id ==? k; rq_spent := final_stage |}.
  - done.
  - by intros s s' [].
  - intros d id id' b b' _ _ H1 _ H2. bools_all. congruence.
Defined.

(** The callback of the request with an upstream state. *)
Definition callback_of (state_hash : string) : RequestTest.
Proof.
  refine {| rq_match := fun _ b => ba_upstream_state_hash b ==? Some state_hash;
            rq_spent := fun s => (2 <=? rank s)%nat |}.
  - intros id b b' Hle Hm. unfold browser_le in Hle. destruct_and?. bools_all.
    apply bool_decide_eq_true. congruence.
  - by intros s s' [].
  - intros d id id' b b' Hu Hb Hm Hb' Hm'. unfold unique_db in Hu. bools_all.
    by eapply (unique_column_eq ba_upstream_state_hash).
Defined.

(** The sign-in of one request. *)
Definition sign_in_of (k : Uuid) : RequestTest.
Proof.
  refine {| rq_match := fun id _ => id ==? k; rq_spent := fun s => (3 <=? rank s)%nat |}.
  - done.
  - by intros s s' [].
  - intros d id id' b b' _ _ H1 _ H2. bools_all. congruence.
Defined.

Section Deciding.
Context `{JsonDb} (t : RequestTest) {E : Type} `{!FromDb E}.
#[local] Existing Instance request_contest.
Notation cwp := (cwp (spending (request_contest t))).

(** The update that decides. *)
Lemma cwp_decide {A} id b f (k : unit -> M E A) Q c lv g :
  browser_le b (f b) -> stage_step (ba_stage b) (ba_stage (f b)) -> rq_match t id b = true ->
  rq_spent t (ba_stage b) = false -> rq_spent t (ba_stage (f b)) = true -> request_at id b c [lv] ->
  (forall c1 lv1, spent_held (H:=request_contest t) id c1 [lv1] -> cwp (k tt) Q c1 [lv1] g) ->
  cwp (bindE (sql (update_browser_stmt id f)) k) Q c [lv] g.
Proof.
  intros Hle Hst Hm Hs Hs' Hr Hk. apply cwp_bindE, cwp_sql_tx.
  { intros c1 He. apply (fr_env _ (framed_request id b) _ _ _ He) in Hr. by eapply update_request_fine. }
  intros c1 clk [] v' He Hx tx1 c2 He2. apply (fr_env _ (framed_request id b) _ _ _ He) in Hr.
  assert (Hfine : fine (update_browser_stmt id f) (tx_view c1 [lv])) by by eapply update_request_fine.
  eapply cwp_env; [exact He2|]. apply Hk. split.
  - split; [apply new_level_rows; right; apply Hr|]. exists b. split_and!; [apply Hr|exact Hm|exact Hs].
  - unfold tx1. rewrite (stmt_view _ _ _ _ Hfine _ _ _ Hx). exists (f b).
    split_and!; [exact (update_stmt_row _ _ _ _ _ _ _ Hx (ra_view _ _ _ _ Hr))|by eapply (rq_stable t)|exact Hs'].
Qed.
End Deciding.

(** ** The operations *)

Section Operations.
Context `{Crypto, UrlLib, JsonLib, JsonDb, UuidLib}.

Section Parts.
Context {G : Type} (L : Ledger G).
Lemma framing_or_invalid {A} (o : option A) : framing L (or_invalid o).
Proof. destruct o; [apply framing_ret|apply framing_raise]. Qed.
Lemma framing_decoded {A} (o : option A) : framing L (decoded o).
Proof. destruct o; [apply framing_ret|apply framing_raise]. Qed.
Lemma framing_revalidate reg row : framing L (checked_revalidate reg row).
Proof. unfold checked_revalidate, instant. solve_framing. Qed.
Lemma framing_registry reg row : framing L (checked_registry reg row).
Proof. unfold checked_registry, instant. solve_framing. Qed.
Lemma framing_approve p : framing L (checked_approve p).
Proof. unfold checked_approve, instant. solve_framing. Qed.
Lemma framing_ensure_fresh s e : framing L (Browser.ensure_fresh s e).
Proof. unfold Browser.ensure_fresh. solve_framing. Qed.
Lemma framing_insert_code {E} `{!FromDb E} sid g n u secs :
  framing L (E:=E) (insert_authorization_code_tx sid g n u secs).
Proof. unfold insert_authorization_code_tx, random_credential. solve_framing. Qed.
Lemma framing_lock_session id : framing L (lock_session id).
Proof. unfold lock_session. apply framing_bindE; [solve_framing|intros; apply framing_or_invalid]. Qed.
Lemma framing_random {E} : framing L (E:=E) random_credential.
Proof. unfold random_credential. solve_framing. Qed.
Lemma framing_staged reg row : framing L (staged_registry reg row).
Proof.
  unfold staged_registry, instant. apply framing_bindE; [solve_framing|intros now].
  apply framing_bindE; [solve_framing|intros now']. destruct (validate_optional_registry _ _ _ _).
  - apply framing_ret.
  - apply framing_fails. intros Q c tx g. do 2 (apply cwp_bindE, cwp_rollback; intros ? _). apply cwp_raise.
Qed.
Lemma framing_lock_identity identity :
  framing L (E:=BrowserError) (lock_verified_google_identity_tx identity).
Proof. unfold lock_verified_google_identity_tx. solve_framing. Qed.
Lemma framing_upsert_identity identity now :
  framing L (E:=BrowserError) (upsert_verified_google_identity_tx identity now).
Proof. unfold upsert_verified_google_identity_tx, find_or_insert_identity. solve_framing. Qed.
End Parts.
End Operations.

#[export] Hint Resolve framing_or_invalid framing_decoded framing_revalidate framing_registry
  framing_approve framing_ensure_fresh framing_insert_code framing_lock_session framing_random
  framing_staged framing_lock_identity framing_upsert_identity : framing.

Section Deciders.
Context `{Crypto, UrlLib, JsonLib, JsonDb, UuidLib}.

Lemma no_request_start c : no_request_held c (push_level c []).
Proof. intros id Hin. unfold held in Hin. simpl in Hin. set_solver. Qed.

(** The request of a consent page, found awaiting consent. *)
Lemma cwp_lock_consent id session csrf (Q : Browser.ConsentRow -> DB -> list Level -> bool -> Prop) c lv g :
  no_request_held c [lv] ->
  (forall row b c1 lv1, ba_stage b = awaiting_consent -> request_at id b c1 [lv1] -> Q row c1 [lv1] g) ->
  cwp (spending (request_contest (decision_on id))) (lock_consent id session csrf) Q c [lv] g.
Proof.
  intros Hn HQ. unfold lock_consent. apply cwp_bindE, cwp_lock_request; [exact Hn|]. intros clk d.
  destruct (find_row _ _) as [[k b]|] eqn:Hf; simpl; [right|left; intros; apply cwp_raise].
  pose proof Hf as Hf'. apply find_row_Some in Hf' as [Hb Hc]. unfold consentable in Hc. bools_all. subst k.
  exists id, b. split_and!; [done|intros k; unfold browser_where; rewrite Hf; set_solver|].
  intros c1 lv1 Hr. apply cwp_ret. intros c2 He. eapply HQ; [done|].
  by eapply (fr_env _ (framed_request _ _)).
Qed.

(** A code is stored and the request approved. *)
Lemma cwp_store_approval session handle srow row p b (Q : string -> DB -> list Level -> bool -> Prop) c lv g :
  let id := ch_transaction_id handle in
  ba_stage b = awaiting_consent -> request_at id b c [lv] ->
  (forall code c1 lv1, spent_held (H:=request_contest (decision_on id)) id c1 [lv1] -> Q code c1 [lv1] g) ->
  cwp (spending (request_contest (decision_on id))) (store_approval session handle srow row p) Q c [lv] g.
Proof.
  intros id Hb Hd HQ. unfold store_approval. pose (HF := framed_request id b).
  carry grant keeping HF of Hd c lv. carry code keeping HF of Hd c lv.
  eapply (cwp_decide (decision_on id) id b);
    [apply with_state_le|rewrite Hb; constructor|by apply bool_decide_eq_true|by rewrite Hb|done|exact Hd|].
  intros c1 lv1 Hs. apply cwp_ret. intros c2 He.
  apply HQ. by eapply (fr_env _ (framed_spent (H:=request_contest _) id)).
Qed.

(** The session and the request of a decision are locked. *)
Lemma cwp_open_decision {A} session handle (f : SessionRow -> ConsentRow -> M BrowserError A) Q c g :
  let id := ch_transaction_id handle in
  (forall srow row b c1 lv1, ba_stage b = awaiting_consent -> request_at id b c1 [lv1] ->
     cwp (spending (request_contest (decision_on id))) (f srow row) Q c1 [lv1] g) ->
  cwp (spending (request_contest (decision_on id)))
    (session_row <- lock_session (se_id session) ;;
     row <- lock_consent (ch_transaction_id handle) (se_id session) (ch_csrf handle) ;;
     f session_row row) Q c (push_level c []) g.
Proof.
  intros id Hf. eapply cwp_frame; [apply framing_lock_session|apply framed_no_request|apply no_request_start|].
  intros srow c1 lv Hn. apply cwp_bindE, cwp_lock_consent; [exact Hn|]. eauto.
Qed.

Lemma approve_cwp session handle reg c g :
  cwp (spending (request_contest (decision_on (ch_transaction_id handle)))) (approve session handle reg)
    (winning (fun _ => true)) c [] g.
Proof.
  set (id := ch_transaction_id handle).
  unfold approve. apply cwp_with_tx. intros c0 _. apply cwp_open_decision.
  intros srow row b c1 lv Hb Hd. pose (HF := framed_request id b).
  carry ? keeping HF of Hd c1 lv. carry pending keeping HF of Hd c1 lv.
  eapply cwp_bindE, cwp_store_approval; [exact Hb|exact Hd|]. clear c1 lv Hd. intros code c1 lv Hs.
  carry ? keeping (framed_spent (H:=request_contest (decision_on id)) id) of Hs c1 lv.
  by eapply cwp_commit_spent.
Qed.

Lemma approve_pre_authorized_cwp session handle reg c g :
  cwp (spending (request_contest (decision_on (ch_transaction_id handle))))
    (approve_pre_authorized session handle reg) (winning is_some) c [] g.
Proof.
  set (id := ch_transaction_id handle).
  pose (HS := framed_spent (H:=request_contest (decision_on id)) id).
  unfold approve_pre_authorized. apply cwp_with_tx. intros c0 _. apply cwp_open_decision.
  intros srow row b c1 lv Hb Hd. pose (HF := framed_request id b).
  carry ? keeping HF of Hd c1 lv. carry pending keeping HF of Hd c1 lv.
  case_match; [by apply cwp_ret|].
  eapply cwp_bindE, cwp_store_approval; [exact Hb|exact Hd|]. clear c1 lv Hd. intros code c1 lv Hs.
  carry current keeping HS of Hs c1 lv.
  case_match; [apply cwp_then; [apply _|done|intros; apply cwp_raise]|].
  carry ? keeping HS of Hs c1 lv. by eapply cwp_commit_spent.
Qed.

Lemma deny_bound_cwp session handle reg c g :
  cwp (spending (request_contest (decision_on (ch_transaction_id handle))))
    (deny_bound session handle reg) (winning (fun _ => true)) c [] g.
Proof.
  set (id := ch_transaction_id handle).
  unfold deny_bound. apply cwp_with_tx. intros c0 _. apply cwp_open_decision.
  intros srow row b c1 lv Hb Hd. pose (HF := framed_request id b).
  carry ? keeping HF of Hd c1 lv. carry ? keeping HF of Hd c1 lv.
  eapply (cwp_decide (decision_on id) id b);
    [apply with_state_le|rewrite Hb; constructor|by apply bool_decide_eq_true|by rewrite Hb|done|exact Hd|].
  clear c1 lv Hd. intros c1 lv Hs.
  carry ? keeping (framed_spent (H:=request_contest (decision_on id)) id) of Hs c1 lv.
  by eapply cwp_commit_spent.
Qed.

(** ** Claiming a callback *)

Lemma claim_callback_cwp state binding c g :
  cwp (spending (request_contest (callback_of (hash state)))) (claim_callback state binding)
    (winning (fun _ => true)) c [] g.
Proof.
  set (t := callback_of (hash state)).
  unfold claim_callback. apply cwp_bindE. unfold random_credential. apply cwp_bindE, cwp_random_bytes.
  intros bytes c' _. apply cwp_ret. intros c'' _. apply cwp_with_tx. intros c0 _.
  apply cwp_bindE, cwp_lock_request; [apply no_request_start|]. intros clk d.
  destruct (find_row _ _) as [[k b]|] eqn:Hf; simpl; [right|left; intros; apply cwp_raise].
  pose proof Hf as Hf'. apply find_row_Some in Hf' as [Hb Ha]. unfold awaiting in Ha. bools_all.
  exists k, b. split_and!; [done|intros j; unfold browser_where; rewrite Hf; set_solver|].
  intros c1 lv Hd. pose (HF := framed_request k b).
  assert (Hst : ba_stage b = awaiting_google) by done.
  assert (Hm : rq_match t k b = true) by by apply bool_decide_eq_true.
  carry verifier keeping HF of Hd c1 lv. carry nonce keeping HF of Hd c1 lv.
  carry now keeping HF of Hd c1 lv. case_match;
    (eapply (cwp_decide t k b);
       [apply with_state_le|rewrite Hst; constructor|exact Hm|by rewrite Hst|done|exact Hd|]);
    intros c2 lv2 Hs.
  - apply cwp_then; [apply _|done|intros; apply cwp_raise].
  - by eapply cwp_commit_spent.
Qed.

(** ** Signing in *)

(** The update of a sign-in counts the rows it moved: the one that is held,
    or none. *)
Lemma cwp_sign_in {A} k b session csrf (f : nat -> M BrowserError A) Q c lv g :
  let ct := request_contest (sign_in_of k) in
  ba_stage b = callback_claimed -> request_at k b c [lv] ->
  (forall n c1 lv1, (n = 1%nat -> spent_held (H:=ct) k c1 [lv1]) -> cwp (spending ct) (f n) Q c1 [lv1] g) ->
  cwp (spending ct) (bindE (sql (sign_in_stmt k session csrf)) f) Q c [lv] g.
Proof.
  intros ct Hb Hr Hf. apply cwp_bindE, cwp_sql_tx; [intros; apply sign_in_stmt_sound|].
  intros c1 clk n v' He Hx tx1 c2 He2. eapply cwp_env; [exact He2|]. apply Hf. intros ->.
  apply (fr_env _ (framed_request k b) _ _ _ He) in Hr. split.
  - split; [apply new_level_rows; right; apply Hr|]. exists b. split_and!; [apply Hr|by apply bool_decide_eq_true|].
    simpl. by rewrite Hb.
  - unfold tx1. rewrite (stmt_view _ _ _ _ (sign_in_stmt_sound _ _ _ _) _ _ _ Hx).
    simpl in Hx. unfold update_browser_where in Hx. destruct (find_row _ _) as [[k' b']|] eqn:Hk; [|done].
    apply find_row_Some in Hk as [Hb' Hm]. bools_all. subst k'.
    destruct (update_browser_row _ _ _) as [d1|] eqn:Hu; simplify_eq/=.
    exists (signed_in session (hash csrf) b). split_and!; [|by apply bool_decide_eq_true|done].
    eapply update_row_row; [exact Hu|apply Hr].
Qed.

(** The answer of a sign-in names the request it locked. *)
Lemma complete_callback_bound_cwp id claim identity l reg c g :
  cwp (spending (request_contest (sign_in_of id))) (complete_callback_bound claim identity l reg)
    (winning (fun done => ch_transaction_id (lg_consent done) ==? id)) c [] g.
Proof.
  set (ct := request_contest (sign_in_of id)). unfold complete_callback_bound.
  apply cwp_bindE, cwp_lift. destruct (Browser.bounded_seconds _ _) as [secs|]; [|done]. intros c' _.
  apply cwp_with_tx. intros c0 _.
  apply cwp_bindE, cwp_lock_request; [apply no_request_start|]. intros clk d.
  destruct (find_row _ _) as [[k b]|] eqn:Hf; simpl; [right|left; intros; apply cwp_raise].
  pose proof Hf as Hf'. apply find_row_Some in Hf' as [Hb Hs]. apply claimed_by_stage in Hs.
  exists k, b. split_and!; [done|intros j; unfold browser_where; rewrite Hf; set_solver|].
  intros c1 lv Hr. pose (HF := framed_request k b).
  eapply (cwp_relock _ _ _ _ k b); [eauto with stmts|simpl; set_solver| |exact Hr|].
  { intros clk' d' r d'' Hx. simpl in Hx. by destruct (browser_authorizations d' !! k); simplify_eq/=. }
  clear c1 lv Hr. intros prow c1 lv Hr.
  carry ? keeping HF of Hr c1 lv. carry raw keeping HF of Hr c1 lv. carry sid keeping HF of Hr c1 lv.
  apply cwp_bindE, cwp_begin. intros c2 He2 c3 He3.
  assert (Hk : below_keeps (request_at k b) [lv] c3 (push_level c2 [lv]) /\ request_at k b c3 (push_level c2 [lv])).
  { apply (fr_env _ HF _ _ _ He2) in Hr. split.
    - split_and!; [done..|]. eapply (fr_env _ HF), Hr. by eapply env_below.
    - by eapply (fr_env _ HF), request_at_push. }
  unfold push_level in *. revert Hk. generalize {| lv_held := []; lv_db := tx_view c2 [lv] |} as sp.
  clear c2 He2 He3 Hr. intros sp Hr. pose (HB := framed_and _ _ (framed_below _ [lv] HF) HF).
  carry ? keeping HB of Hr c3 sp. carry ? keeping HB of Hr c3 sp. carry profile_time keeping HB of Hr c3 sp.
  carry user keeping HB of Hr c3 sp. carry expiry keeping HB of Hr c3 sp. carry now keeping HB of Hr c3 sp.
  case_match.
  - apply cwp_bindE, cwp_rollback. intros c4 He. simpl in *.
    assert (Hr4 : request_at k b c4 [lv]) by by apply (fr_env _ HF _ _ _ He), Hr.
    eapply (cwp_last_update _ k b); [apply with_state_le|rewrite Hs; constructor|exact Hr4|].
    intros u c5 tx5 g5. apply cwp_then; [apply _|done|intros; apply cwp_raise].
  - carry ? keeping HB of Hr c3 sp. apply cwp_bindE, cwp_commit_savepoint. intros c4 He4.
    destruct Hr as [_ Hr]. apply request_at_merge in Hr.
    apply (fr_env _ HF _ _ _ He4) in Hr. revert Hr. generalize (merge_level sp lv). clear c3 sp He4.
    intros sp Hr. carry csrf keeping HF of Hr c4 sp.
    destruct (decide (k = id)) as [->|Hne].
    + apply (cwp_sign_in id b); [done|exact Hr|]. clear c4 sp Hr. intros n c4 sp Hsp. case_match eqn:Hn; [apply cwp_raise|].
      assert (n = 1%nat) as -> by (apply Nat.eqb_eq; by destruct (n =? 1)%nat). specialize (Hsp eq_refl).
      carry ? keeping (framed_spent (H:=ct) id) of Hsp c4 sp. by eapply cwp_commit_spent.
    + apply cwp_then; [apply _|solve_stmts|]. intros n c5 tx5 g5. case_match; [apply cwp_raise|].
      apply cwp_then; [apply _|unfold checked_registry, instant; solve_stmts|]. intros u c6 tx6 g6.
      apply cwp_then; [apply _|done|]. intros u' c7 tx7 g7. apply cwp_ret. intros c8 _ Hw. simpl in Hw. by bools_all.
Qed.
End Deciders.
