(* ===== verification/Promises.v ===== *)
(** * Promises: what the credential store's operations publish

    The rest of the operations of the store, and the pools in which they
    run: an operation that answered took effect once. *)

From Stdlib Require Import Ascii ZArith.
From S2P Require Import Prelude External Schema Effects Evolution Identity Cimd OAuth Jose Keys Google Credentials CredentialsSpec CredentialsTheory CredentialsInvariant Database Logout Browser StoresSpec DatabaseTheory LogoutTheory BrowserTheory StoresInvariant Transitions System Concurrency ConcurrencyTheory Pools Confinement Framing Drafts Atomicity Contest Contenders Deciders.

Section Operations.
Context `{Crypto, UrlLib, JsonLib, JsonDb, UuidLib}.
Notation cwp := (cwp stepping).

(** ** Requests that name their scopes and resource *)

(** The scopes and the resource asked for are those of the grant. *)
Definition asked_for (scopes : option (list string)) (resource : option string) (a : ExchangeResult) : Prop :=
  (forall s, scopes = Some s -> same_scopes s (er_scopes a) = true)
  /\ (forall r, resource = Some r -> r = er_resource a).

Inductive exchange_requested (raw client uri : string) (resource : option string) (verifier : string)
    (scopes : option (list string)) (reg : ClientRegistry) (c : DB) (a : ExchangeResult) (c' : DB) : Prop :=
| ExchangeRequested :
    asked_for scopes resource a ->
    exchange_success raw client uri (er_resource a) verifier (Some reg) c a c' ->
    exchange_requested raw client uri resource verifier scopes reg c a c'.

Inductive rotate_requested (raw client : string) (resource : option string)
    (scopes : option (list string)) (reg : ClientRegistry) (c : DB) (a : ExchangeResult) (c' : DB) : Prop :=
| RotateRequested :
    asked_for scopes resource a ->
    rotate_success raw client (er_resource a) (Some reg) c a c' ->
    rotate_requested raw client resource scopes reg c a c'.

(** What the first read of a request saw of the code, or of the token. *)
Definition code_grants (raw : string) (scopes : list string) (c : DB) : Prop :=
  exists id x, authorization_codes c !! id = Some x /\ ac_code_hash x = hash raw /\ ac_scopes x = scopes.
Definition token_grants (raw : string) (scopes : list string) (c : DB) : Prop :=
  exists id m f, refresh_token_members c !! id = Some m /\ rt_token_hash m = hash raw
    /\ refresh_families c !! rt_family_id m = Some f /\ rf_scopes f = scopes.

Lemma always_code_grants raw id x c c' : authorization_codes c !! id = Some x -> ac_code_hash x = hash raw ->
  moves c c' -> always (code_grants raw (ac_scopes x)) c'.
Proof.
  intros Hx Hh Hm c2 Hm2. destruct (ev_codes _ _ (mv_evolves _ _ (transitivity Hm Hm2)) _ _ Hx) as (x' & Hx' & Hle).
  exists id, x'. unfold code_le in Hle. destruct_and?. split_and!; congruence.
Qed.
Lemma always_token_grants raw id m f c c' : member_join_family (hash raw) c = Some (id, m, f) ->
  moves c c' -> always (token_grants raw (rf_scopes f)) c'.
Proof.
  intros (Hm & Hf & Hh)%member_join_family_Some Hmv c2 Hmv2. pose proof (transitivity Hmv Hmv2) as Hmc.
  destruct (ev_members _ _ (mv_evolves _ _ Hmc) _ _ Hm) as (m' & Hm' & Hle).
  destruct (ev_families _ _ (mv_evolves _ _ Hmc) _ _ Hf) as (f' & Hf' & Hlf).
  exists id, m', f'. unfold member_le, family_le in *. destruct_and?. split_and!; congruence.
Qed.

Lemma exchange_grants raw client uri res v reg scopes c a c' :
  unique_db c = true -> code_grants raw scopes c -> exchange_success raw client uri res v reg c a c' ->
  er_scopes a = scopes /\ er_resource a = res.
Proof.
  intros Hu (id & x & Hx & Hh & <-) [id' x' s now token d' Hf _ (_ & _ & Hr & _) _ _ _ _ _ _].
  apply find_row_Some in Hf as [Hx' Hh']. bools_all.
  assert (id' = id) as -> by (eapply (unique_codes _ Hu); [exact Hx'|exact Hx|congruence]).
  assert (x' = x) as -> by congruence. done.
Qed.
Lemma rotate_grants raw client res reg scopes c a c' :
  unique_db c = true -> token_grants raw scopes c -> rotate_success raw client res reg c a c' ->
  er_scopes a = scopes /\ er_resource a = res.
Proof.
  intros Hu (id & m & f & Hm & Hh & Hf & <-) [id' m' f' s now token new d1 Hj _ [_ Hr] _ _ _ _ _ _ _].
  apply member_join_family_Some in Hj as (Hm' & Hf' & Hh').
  assert (id' = id) as -> by (eapply (unique_members _ Hu); [exact Hm'|exact Hm|congruence]).
  assert (m' = m) as -> by congruence. assert (f' = f) as -> by congruence. done.
Qed.

(** A read outside a transaction. *)
Lemma cwp_read_outside {A B} (s : stmt B) (f : B -> M CredentialError A) Q c g :
  quiet _ s -> reads _ s ->
  (forall clk c0 r c1, exec s clk c0 = Ok (r, c0) -> moves c0 c1 -> cwp (f r) Q c1 [] g) ->
  cwp (r <- sql s ;; f r) Q c [] g.
Proof.
  intros Hq Hr Hf. apply cwp_bindE, cwp_sql_auto; [intros; by apply quiet_sound|].
  intros c1 clk r v' He Hx _. pose proof (Hr _ _ _ _ Hx) as ->.
  split; [apply allows_same|]. intros c2 He2. rewrite note_same.
  eapply Hf; [exact Hx|apply He2].
Qed.

Lemma asked resource scopes stored (sr : string) a :
  is_some_and resource (fun value => value <>? sr)
  || is_some_and scopes (fun value => negb (same_scopes value stored)) = false ->
  er_scopes a = stored -> er_resource a = sr -> asked_for scopes resource a.
Proof.
  intros [Hr Hs]%orb_false_iff <- <-. split.
  - intros s ->. simpl in Hs. by apply negb_false_iff in Hs.
  - intros r ->. simpl in Hr. apply negb_false_iff in Hr. by apply bool_decide_eq_true in Hr.
Qed.

Lemma exchange_code_request_takes raw client uri resource v scopes reg c :
  cwp (exchange_code_request raw client uri resource v scopes reg)
    (fun a _ _ => takes_effect (exchange_requested raw client uri resource v scopes reg) a) c [] [].
Proof.
  unfold exchange_code_request. apply cwp_read_outside; [eauto with stmts typeclass_instances|reads|].
  intros clk c0 r c1 Hx Hm. simpl in Hx. injection Hx as <-.
  destruct (find_row _ _) as [[id x]|] eqn:Hf; simpl; [|apply cwp_raise].
  apply find_row_Some in Hf as [Hx Hh]. bools_all. case_match eqn:Hg; [apply cwp_raise|].
  apply cwp_bindE, cwp_try_instant. intros t p c2 _ He.
  assert (Hp : always (code_grants raw (ac_scopes x)) c2).
  { eapply always_moves; [apply He|]. by eapply always_code_grants. }
  eapply inter_mono; [by apply exchange_code_bound_takes|].
  intros [a|e] c' tx' l; [|done]. apply takes_effect_mono. intros c3 c4 (HP & Hu & Hs).
  destruct (exchange_grants _ _ _ _ _ _ _ _ _ _ Hu HP Hs) as [E1 E2]. split; [by eapply asked|by rewrite E2].
Qed.

Lemma rotate_refresh_request_takes raw client resource scopes reg c :
  cwp (rotate_refresh_request raw client resource scopes reg)
    (fun a _ _ => takes_effect (rotate_requested raw client resource scopes reg) a) c [] [].
Proof.
  unfold rotate_refresh_request. apply cwp_read_outside; [eauto with stmts typeclass_instances|reads|].
  intros clk c0 r c1 Hx Hm. simpl in Hx. injection Hx as <-.
  destruct (member_join_family _ _) as [[[id m] f]|] eqn:Hj; simpl; [|apply cwp_raise].
  destruct (rf_client_id f ==? client); [|apply cwp_raise].
  case_match eqn:Hg; [apply cwp_raise|]. apply orb_false_iff in Hg as [Hg _].
  pose proof (always_token_grants _ _ _ _ _ _ Hj Hm) as Hp.
  eapply inter_mono; [by apply rotate_refresh_bound_takes|].
  intros [a|e] c' tx' l; [|done]. apply takes_effect_mono. intros c3 c4 (HP & Hu & Hs).
  destruct (rotate_grants _ _ _ _ _ _ _ _ Hu HP Hs) as [E1 E2]. split; [by eapply asked|by rewrite E2].
Qed.

(** ** Sessions and codes *)

Lemma create_provider_session_takes user lifetime c :
  cwp (create_provider_session user lifetime)
    (fun a _ _ => takes_effect (session_created user lifetime) a) c [] [].
Proof.
  unfold create_provider_session, random_credential. apply cwp_bindE, cwp_lift.
  destruct (Credentials.bounded_seconds lifetime _) as [secs|] eqn:Hb; [|done]. intros c1 _.
  apply cwp_bindE, cwp_bindE, cwp_random_bytes. intros raw c2 _. apply cwp_ret. intros c3 _.
  apply cwp_bindE, cwp_new_uuid. intros id c4 _. apply cwp_auto; [sound|].
  intros clk c5 r v' _ Hx _. simpl in Hx. case_match eqn:Hi; simplify_eq.
  pose proof (SessionCreated user lifetime _ _ _ _ (clk 0%N) _ Hb Hi) as Hs.
  split; [right; left; by eapply StepSession|]. intros c6 _. apply cwp_ret. intros c7 _.
  exists c5, v'. split; [apply change_ne; intros <-|by left].
  unfold insert_session_row in Hi. case_match eqn:Hg; simplify_eq. bools_all.
  match goal with Hn : provider_sessions _ !! id = None |- _ => rename Hn into Hnone end.
  apply (f_equal provider_sessions) in Hi. simpl in Hi. rewrite <- Hi, lookup_insert_eq in Hnone. done.
Qed.

Lemma cwp_grant_fresh grant (Q : unit -> DB -> list Level -> list (DB * DB) -> Prop) c tx g :
  (forall c1, (exists i, OAuth.ensure_fresh i (vg_dynamic grant) = Ok tt) -> env tx c c1 -> Q tt c1 tx g) ->
  cwp (grant_fresh_tx grant) Q c tx g.
Proof.
  intros HQ. unfold grant_fresh_tx. apply cwp_bindE, cwp_at_instant. intros t c1 He.
  apply cwp_or_rollback. intros [] Hf c2 He2. apply HQ; [|eapply env_rely_l; [apply He|done]].
  exists t. by destruct (OAuth.ensure_fresh _ _) as [[]|].
Qed.

Lemma shows_code ws c d id x : shows ws c d -> RowCode id ∉ map vn_row ws ->
  shows (Version (RowCode id) (Some x) :: ws) c (set_codes (<[id := x]> (authorization_codes d)) d).
Proof. shows_insert. Qed.

Lemma code_issued_changes session grant l c a c' : code_issued session grant l c a c' -> c <> c'.
Proof.
  intros [raw id s secs now t binding d' _ _ _ _ _ _ Hi] Hc. apply insert_code_inv in Hi as (Hn & ->).
  apply (f_equal authorization_codes) in Hc. simpl in Hc. by rewrite Hc, lookup_insert_eq in Hn.
Qed.

(** A code stored in a transaction that holds its session. *)
Lemma cwp_insert_code {A E} `{!FromDb E} sid s grant nonce up secs (f : string -> M E A) Q P ks c lv g :
  draft P ks [] c [lv] -> Version (RowSession sid) (Some s) ∈ ks ->
  (forall raw id t binding d d' c1 lv1,
     let x := issued_code raw sid s grant nonce up secs t binding in
     cast_jsonb (cimd_binding_json (vg_dynamic grant)) = Ok binding -> insert_code_row id x d = Ok d' ->
     draft P (Version (RowCode id) None :: ks) [Version (RowCode id) (Some x)] c1 [lv1] ->
     ConcurrencyTheory.cwp stepping (f raw) Q c1 [lv1] g) ->
  ConcurrencyTheory.cwp stepping (raw <- insert_authorization_code_tx sid grant nonce up secs ;; f raw) Q c [lv] g.
Proof.
  intros Hd Hs Hf. apply cwp_bindE. unfold insert_authorization_code_tx, random_credential.
  apply cwp_bindE, cwp_bindE, cwp_random_bytes. intros bytes c1 He1.
  apply cwp_ret. intros c2 He2. apply cwp_bindE, cwp_new_uuid. intros id c3 He3.
  apply (draft_env _ _ _ _ _ _ He1), (draft_env _ _ _ _ _ _ He2), (draft_env _ _ _ _ _ _ He3) in Hd.
  clear c He1 c1 He2 c2 He3. rename c3 into c.
  eapply (cwp_draft_write _ (RowCode id)); [sound|done|exact Hd|apply not_elem_of_nil|].
  clear c lv Hd. intros clk c0 d [] d' c lv _ _ ->%shows_nothing Hk Hx Hd. simpl in Hx. case_match eqn:Hi; simplify_eq.
  apply rbind_Ok in Hi as (binding & Hb & Hi).
  pose proof (in_known _ _ _ (RowSession _) _ Hk Hs) as Hs'. simpl in Hs'. rewrite Hs' in Hi. simpl in Hi.
  fold (issued_code (b64_encode bytes) sid s grant nonce up secs (clk 0%N) binding) in Hi.
  destruct (insert_code_inv _ _ _ _ Hi) as (Hn & Heq). rewrite Heq in Hd.
  unfold version_in in Hd. simpl in Hd. rewrite lookup_insert_eq, Hn in Hd.
  apply cwp_ret. intros c1 He. eapply Hf; [exact Hb|exact Hi|by eapply draft_env].
Qed.

(** The code as it is published. *)
Lemma code_published P ks raw id sid s grant nonce up secs t binding d d' c0 :
  let x := issued_code raw sid s grant nonce up secs t binding in
  let d1 := set_codes (<[id := x]> (authorization_codes c0)) c0 in
  insert_code_row id x d = Ok d' -> known P ks c0 -> Version (RowCode id) None ∈ ks ->
  Version (RowSession sid) (Some s) ∈ ks -> key_unique ac_code_hash (authorization_codes d1) ->
  insert_code_row id x c0 = Ok d1 /\ shows [Version (RowCode id) (Some x)] c0 d1.
Proof.
  intros x d1 Hi Hk Hn Hs Hu. split; [|apply shows_code; [apply shows_same|apply not_elem_of_nil]].
  eapply insert_code_again; [exact Hi|exact (in_known _ _ _ (RowCode id) _ Hk Hn)| |exact Hu].
  exists s. exact (in_known _ _ _ (RowSession sid) _ Hk Hs).
Qed.

Lemma issue_authorization_code_takes session grant l c :
  cwp (issue_authorization_code session grant l)
    (fun a _ _ => takes_effect (code_issued session grant l) a) c [] [].
Proof.
  unfold issue_authorization_code. apply cwp_bindE, cwp_lift.
  destruct (Credentials.bounded_seconds l 60) as [secs|] eqn:Hb; [|done]. intros c1 _.
  apply cwp_with_tx. intros c2 _. clear c c1. assert (HP : always (fun _ => True) c2) by done. rename c2 into c.
  drafting. reading [RowSession (se_id session)] locked. injection Hx as <-.
  destruct (provider_sessions c0 !! se_id session) as [s|]; simpl; [|apply cwp_raise]. forget.
  reading (@nil RowId) active. pose proof (in_known _ _ _ (RowSession _) _ Hk ltac:(listed)) as Hs. simpl in Hs.
  rewrite Hs in Hx. injection Hx as <-. case_match eqn:Hact; [apply cwp_raise|]. bools_all.
  set (now := clk (se_id session)) in *. clearbody now. clear Hs. forget.
  reading (@nil RowId) up. pose proof (in_known _ _ _ (RowSession _) _ Hk ltac:(listed)) as Hs. simpl in Hs.
  rewrite Hs in Hx. injection Hx as <-. clear Hs. forget.
  checking cwp_grant_fresh Hfresh.
  eapply cwp_insert_code; [exact Hd|listed|]. clear c lv Hd. intros raw id t binding d d' c lv x Hcast Hi Hd.
  checking cwp_grant_fresh Hfresh'.
  apply cwp_commit_ready; [intros ? ?; apply code_issued_changes|intros ? ?; by eapply StepIssue|]. eexists _, _, _. split; [exact Hd|].
  clear c lv Hd. intros c0 c' _ Hu Hk Hsh.
  pose proof (shows_code [] c0 c0 id x (shows_same _) ltac:(apply not_elem_of_nil)) as S1.
  rewrite (shows_eq _ _ _ _ Hsh S1) in *. apply unique_codes in Hu.
  destruct (code_published _ _ _ _ _ _ _ _ _ _ _ _ _ _ _ Hi Hk ltac:(listed) ltac:(listed) Hu) as [Hi' _].
  apply (CodeIssued _ _ _ _ _ id s secs now t binding); try done.
  apply (in_known _ _ _ (RowSession _) _ Hk). listed.
Qed.
End Operations.
