(* ===== verification/Requests.v ===== *)
(** * Requests: browser authorizations in a draft

    What the operations on requests share: a row stored or taken to its next
    stage in a transaction, and what the COMMIT publishes of it. *)

From Stdlib Require Import Ascii ZArith.
From S2P Require Import Prelude External Schema Effects Evolution Identity Cimd OAuth Jose Keys Google Credentials CredentialsSpec CredentialsTheory CredentialsInvariant Database Logout Browser StoresSpec DatabaseTheory LogoutTheory BrowserTheory StoresInvariant Transitions System Concurrency ConcurrencyTheory Pools Confinement Framing Drafts Atomicity Promises Contest Contenders Deciders.

(** ** Requests updated again *)

Section Again.
Context `{JsonDb}.

Lemma not_taken_others {V} (col : V -> option string) id r (m : gmap Uuid V) :
  unique_column col (<[id := r]> m) = true -> taken col (col r) (delete id m) = false.
Proof.
  intros Hu. destruct (col r) as [x|] eqn:Hx; [|done]. simpl. apply exists_row_false. intros k v Hv.
  apply lookup_delete_Some in Hv as [Hne Hv]. apply bool_decide_eq_false. intros Hc. apply Hne.
  eapply (unique_column_eq col); [exact Hu|apply lookup_insert_eq|exact Hx|by rewrite lookup_insert_ne|exact Hc].
Qed.

(** The constraints on a row, again: its session is still there, and no other
    transaction published its secrets. *)
Lemma browser_row_ok_again id r d d1 :
  browser_row_ok id r d = true ->
  (forall s, ba_session_id r = Some s -> is_Some (provider_sessions d1 !! s)) ->
  unique_db (set_browser (<[id := r]> (browser_authorizations d1)) d1) = true -> browser_row_ok id r d1 = true.
Proof.
  intros Hok Hs Hu. unfold unique_db in Hu. simpl in Hu. rewrite !andb_true_iff in Hu. destruct_and!.
  unfold browser_row_ok in *. rewrite !andb_true_iff in *. destruct_and!. split_and!; try done.
  - by rewrite not_taken_others.
  - by rewrite not_taken_others.
  - destruct (ba_session_id r) as [s|]; [|done]. simpl. by apply is_some_true, Hs.
Qed.
Lemma browser_row_session id r d s :
  browser_row_ok id r d = true -> ba_session_id r = Some s -> is_Some (provider_sessions d !! s).
Proof.
  unfold browser_row_ok. rewrite !andb_true_iff. intros Hok Hs. destruct_and!. rewrite Hs in *. by apply is_some_true.
Qed.

Lemma update_browser_inv id f b d d' :
  update_browser_row id f d = Ok d' -> browser_authorizations d !! id = Some b ->
  browser_row_ok id (f b) d = true /\ d' = set_browser (<[id := f b]> (browser_authorizations d)) d.
Proof. unfold update_browser_row. intros Hx Hb. rewrite Hb in Hx. by case_match; simplify_eq. Qed.
Lemma update_browser_again id f b d d' d1 :
  update_browser_row id f d = Ok d' -> browser_authorizations d !! id = Some b ->
  browser_authorizations d1 !! id = Some b ->
  (forall s, ba_session_id (f b) = Some s -> is_Some (provider_sessions d1 !! s)) ->
  unique_db (set_browser (<[id := f b]> (browser_authorizations d1)) d1) = true ->
  update_browser_row id f d1 = Ok (set_browser (<[id := f b]> (browser_authorizations d1)) d1).
Proof.
  intros Hx Hb Hb1 Hs Hu. destruct (update_browser_inv _ _ _ _ _ Hx Hb) as [Hok _].
  unfold update_browser_row. by rewrite Hb1, (browser_row_ok_again _ _ _ _ Hok Hs Hu).
Qed.
Lemma insert_browser_again id r d d' d1 :
  insert_browser_row id r d = Ok d' -> browser_authorizations d1 !! id = None ->
  (forall s, ba_session_id r = Some s -> is_Some (provider_sessions d1 !! s)) ->
  unique_db (set_browser (<[id := r]> (browser_authorizations d1)) d1) = true ->
  insert_browser_row id r d1 = Ok (set_browser (<[id := r]> (browser_authorizations d1)) d1).
Proof.
  unfold insert_browser_row. intros Hi Hn Hs Hu. case_match eqn:Hg; [|done]. apply andb_true_iff in Hg as [_ Hok].
  by rewrite Hn, (browser_row_ok_again _ _ _ _ Hok Hs Hu).
Qed.
Lemma insert_browser_inv id r d d' : insert_browser_row id r d = Ok d' ->
  browser_authorizations d !! id = None /\ d' = set_browser (<[id := r]> (browser_authorizations d)) d.
Proof. unfold insert_browser_row. intros. case_match eqn:Hg; simplify_eq. bools_all. by split_and!. Qed.

(** A step of the request changes the database. *)
Lemma update_browser_changes id f b d d' :
  update_browser_row id f d = Ok d' -> browser_authorizations d !! id = Some b ->
  ba_stage (f b) <> ba_stage b -> d <> d'.
Proof.
  unfold update_browser_row. intros Hu Hb Hs ->. rewrite Hb in Hu. case_match; simplify_eq.
  apply (f_equal browser_authorizations) in Hu. simpl in Hu. rewrite <- Hu, lookup_insert_eq in Hb.
  injection Hb as Hb. congruence.
Qed.
End Again.

Section Requests.
Context `{Crypto, UrlLib, JsonLib, JsonDb, UuidLib}.
Notation cwp := (cwp stepping).
Notation post A := (A -> DB -> list Level -> list (DB * DB) -> Prop).

(** ** Checks *)

Lemma cwp_or_invalid {A} (o : option A) (Q : post A) c tx g :
  (forall a c1, o = Some a -> env tx c c1 -> Q a c1 tx g) -> cwp (or_invalid o) Q c tx g.
Proof. intros HQ. destruct o; [apply cwp_ret; auto|apply cwp_raise]. Qed.

Lemma cwp_instants {A} (f : Z -> Z -> result A BrowserError) (Q : post A) c tx g :
  (forall t t' a c1, f t t' = Ok a -> env tx c c1 -> Q a c1 tx g) ->
  cwp (now <- instant ;; now' <- instant ;; or_rollback (f now now')) Q c tx g.
Proof.
  intros HQ. unfold instant. apply cwp_bindE, cwp_at_instant. intros t c1 He1.
  apply cwp_bindE, cwp_at_instant. intros t' c2 He2. apply cwp_or_rollback. intros a Ha c3 He3.
  eapply HQ; [exact Ha|]. eapply env_rely_l; [apply He1|]. eapply env_rely_l; [apply He2|done].
Qed.
Lemma cwp_revalidate reg b (Q : post PendingAuthorizationGrant) c tx g :
  (forall p c1, policy_accepts reg b p -> env tx c c1 -> Q p c1 tx g) ->
  cwp (checked_revalidate reg (consent_row b)) Q c tx g.
Proof. intros HQ. apply cwp_instants. intros t t' p c1 Hp. apply HQ. by exists t, t'. Qed.
Lemma cwp_registry reg b (Q : post unit) c tx g :
  (forall c1, registry_accepts reg b -> env tx c c1 -> Q tt c1 tx g) ->
  cwp (checked_registry reg (consent_row b)) Q c tx g.
Proof. intros HQ. apply cwp_instants. intros t t' [] c1 Hp. apply HQ. by exists t, t'. Qed.
(** ** Rows *)

Lemma shows_browser ws c d id b : shows ws c d -> RowBrowser id ∉ map vn_row ws ->
  shows (Version (RowBrowser id) (Some b) :: ws) c (set_browser (<[id := b]> (browser_authorizations d)) d).
Proof. shows_insert. Qed.

(** The session that a row names is there, or is one the transaction wrote. *)
Definition session_there (ws : list version) (b : browser_rec) (c : DB) : Prop :=
  forall s, ba_session_id b = Some s -> RowSession s ∈ map vn_row ws \/ is_Some (provider_sessions c !! s).
Lemma always_session_there ws b c c' d id :
  shows ws c d -> browser_row_ok id b d = true -> moves c c' -> always (session_there ws b) c'.
Proof.
  intros Hsh Hok Hm c2 Hm2 s Hs. destruct (decide (RowSession s ∈ map vn_row ws)) as [?|Hn]; [by left|right].
  destruct (browser_row_session _ _ _ _ Hok Hs) as [r Hr].
  pose proof (shows_row _ _ _ (RowSession s) Hsh Hn) as Hrow. simpl in Hrow. rewrite Hrow in Hr.
  destruct (ev_sessions _ _ (mv_evolves _ _ (transitivity Hm Hm2)) _ _ Hr) as (r' & Hr' & _). by exists r'.
Qed.

(** A statement takes a request in the draft to a later stage. *)
Lemma cwp_draft_request_by {A B} id b f (s : stmt B) x (k : B -> M BrowserError A) Q P ks ws c lv g :
  (forall c0 d clk, unique_db c0 = true -> shows ws c0 d -> browser_authorizations d !! id = Some b ->
     locks s d = [RowBrowser id] /\ exec s clk d = map_ok (fun d' => (x, d')) (update_browser_row id f d)) ->
  draft P ks ws c [lv] -> Version (RowBrowser id) (Some b) ∈ ks -> RowBrowser id ∉ map vn_row ws ->
  browser_le b (f b) -> stage_step (ba_stage b) (ba_stage (f b)) ->
  (forall d d' c1 lv1, update_browser_row id f d = Ok d' -> browser_authorizations d !! id = Some b ->
     draft (fun c => session_there ws (f b) c /\ P c) (Version (RowBrowser id) (Some b) :: ks)
       (Version (RowBrowser id) (Some (f b)) :: ws) c1 [lv1] ->
     cwp (k x) Q c1 [lv1] g) ->
  cwp (bindE (sql s) k) Q c [lv] g.
Proof.
  intros Hx Hd Hb Hn Hle Hst Hk.
  assert (Hrow : forall c0 d, known P ks c0 -> shows ws c0 d -> browser_authorizations d !! id = Some b).
  { intros c0 d Hk0 Hs. rewrite <- (in_known _ _ _ (RowBrowser id) _ Hk0 Hb).
    exact (shows_row _ _ _ (RowBrowser id) Hs Hn). }
  eapply (cwp_draft_write_at _ (RowBrowser id)); [|exact Hd|exact Hn|].
  - intros c0 d Hu0 Hk0 Hs. pose proof (Hrow _ _ Hk0 Hs) as Hb0.
    split; [|by apply (Hx c0 d (fun _ => 0%Z))]. intros clk r d' He.
    destruct (Hx c0 d clk Hu0 Hs Hb0) as [Hl Hx']. rewrite Hx' in He.
    destruct (update_browser_row id f d) eqn:Hu; simplify_eq/=. rewrite Hl.
    split; [by eapply update_browser_moves|by eapply update_browser_touches].
  - clear c lv Hd. intros clk c0 d r d' c lv Hm Hu0 Hs Hk0 He Hd. pose proof (Hrow _ _ Hk0 Hs) as Hb0.
    destruct (Hx c0 d clk Hu0 Hs Hb0) as [_ Hx']. rewrite Hx' in He.
    destruct (update_browser_row id f d) eqn:Hu; simplify_eq/=.
    destruct (update_browser_inv _ _ _ _ _ Hu Hb0) as [Hok _].
    pose proof (in_known _ _ _ (RowBrowser id) _ Hk0 Hb) as Hc. simpl in Hc.
    unfold version_in in Hd. simpl in Hd. rewrite Hc, (update_row_row _ _ _ _ _ Hu Hb0) in Hd.
    eapply Hk; [exact Hu|exact Hb0|]. apply draft_learn; [|exact Hd]. by eapply always_session_there.
Qed.
Lemma cwp_draft_request {A} id b f (k : unit -> M BrowserError A) Q P ks ws c lv g :
  draft P ks ws c [lv] -> Version (RowBrowser id) (Some b) ∈ ks -> RowBrowser id ∉ map vn_row ws ->
  browser_le b (f b) -> stage_step (ba_stage b) (ba_stage (f b)) ->
  (forall d d' c1 lv1, update_browser_row id f d = Ok d' -> browser_authorizations d !! id = Some b ->
     draft (fun c => session_there ws (f b) c /\ P c) (Version (RowBrowser id) (Some b) :: ks)
       (Version (RowBrowser id) (Some (f b)) :: ws) c1 [lv1] ->
     cwp (k tt) Q c1 [lv1] g) ->
  cwp (bindE (sql (update_browser_stmt id f)) k) Q c [lv] g.
Proof.
  apply cwp_draft_request_by. intros c0 d clk _ _ _. split; [done|]. simpl. by destruct (update_browser_row _ _ _).
Qed.

(** What is published of a transaction that wrote the request only. *)
Lemma request_published P ks id f b d d' c0 c' :
  update_browser_row id f d = Ok d' -> browser_authorizations d !! id = Some b ->
  known (fun c => session_there [] (f b) c /\ P c) ks c0 -> Version (RowBrowser id) (Some b) ∈ ks ->
  shows [Version (RowBrowser id) (Some (f b))] c0 c' -> unique_db c' = true ->
  browser_authorizations c0 !! id = Some b /\ update_browser_row id f c0 = Ok c'.
Proof.
  intros Hx Hb Hk Hin Hsh Hu. pose proof (in_known _ _ _ (RowBrowser id) _ Hk Hin) as Hb0. split; [exact Hb0|].
  pose proof (shows_browser [] c0 c0 id (f b) (shows_same _) ltac:(apply not_elem_of_nil)) as S1.
  rewrite (shows_eq _ _ _ _ Hsh S1) in *. eapply update_browser_again; [exact Hx|done..| |exact Hu].
  intros s Hs. destruct (always_now _ _ (proj1 Hk)) as [Hses _].
  destruct (Hses s Hs) as [Hin'|]; [by apply not_elem_of_nil in Hin'|done].
Qed.

(** ** Held requests *)

Lemma cwp_decoded {A} (o : option A) (Q : post A) c tx g :
  (forall a c1, o = Some a -> env tx c c1 -> Q a c1 tx g) -> cwp (decoded o) Q c tx g.
Proof. intros HQ. destruct o; [apply cwp_ret; auto|apply cwp_raise]. Qed.

(** A [SELECT .. FOR UPDATE] of the one request of [p]: it is not there, or
    it is held. *)
Lemma cwp_hold_request {A B} (p : (Uuid -> Z) -> Uuid -> browser_rec -> bool) (answer : option (Uuid * browser_rec) -> B)
    (lock : DB -> list RowId) (f : B -> M BrowserError A) Q P ks c lv g :
  (forall clk d id b, find_row (p clk) (browser_authorizations d) = Some (id, b) -> RowBrowser id ∈ lock d) ->
  draft P ks [] c [lv] ->
  (forall c1 lv1, cwp (f (answer None)) Q c1 [lv1] g) ->
  (forall clk id b c1 lv1, p clk id b = true ->
     draft P (Version (RowBrowser id) (Some b) :: ks) [] c1 [lv1] -> cwp (f (answer (Some (id, b)))) Q c1 [lv1] g) ->
  cwp (bindE (sql (select_for_update lock (fun clk d => answer (find_row (p clk) (browser_authorizations d))))) f)
    Q c [lv] g.
Proof.
  intros Hl Hd Hnone Hsome.
  eapply (cwp_draft_read_at _ (fun d _ => lock d)); [sound|reads|by intros; simpl|exact Hd|].
  clear c lv Hd. intros clk c0 d r c lv _ _ ->%shows_nothing _ Hx Hd. simpl in Hx. simplify_eq.
  destruct (find_row _ _) as [[id b]|] eqn:Hf; [|apply Hnone]. apply (Hsome clk); [by apply find_row_Some in Hf as []|].
  destruct Hd as [Hp Hk Hh Hs Hb]. split; [done| |done..]. rewrite list.Forall_forall in *. intros v.
  intros [->|Hv]%elem_of_cons; [|apply Hk; set_solver]. specialize (Hl _ _ _ _ Hf).
  destruct (Hk (version_in c0 (RowBrowser id))) as [Hin Hv].
  { apply elem_of_app. left. apply list_elem_of_fmap. eauto. }
  split; [exact Hin|]. unfold is_in, version_in in *. simpl in *. rewrite Hv.
  by apply find_row_Some in Hf as [-> _].
Qed.

Lemma browser_where_locks p d id b :
  find_row p (browser_authorizations d) = Some (id, b) -> RowBrowser id ∈ browser_where p d.
Proof. intros Hf. unfold browser_where. rewrite Hf. set_solver. Qed.

(** A request goes to its next stage, and the change is published. *)
Lemma cwp_publish_request {A} (spec : DB -> A -> DB -> Prop) (a : A) P ks id f b d d' c lv :
  update_browser_row id f d = Ok d' -> browser_authorizations d !! id = Some b ->
  draft (fun c => session_there [] (f b) c /\ P c) ks [Version (RowBrowser id) (Some (f b))] c [lv] ->
  Version (RowBrowser id) (Some b) ∈ ks -> ba_stage (f b) <> ba_stage b ->
  (forall c0 c', unique_db c0 = true -> Forall (is_in c0) ks -> browser_authorizations c0 !! id = Some b ->
     update_browser_row id f c0 = Ok c' -> spec c0 a c') ->
  (forall c0 c', spec c0 a c' -> transition c0 c') ->
  cwp (commit ;;; ret a) (fun a _ _ => takes_effect spec a) c [lv] [].
Proof.
  intros Hu Hb Hd Hin Hne Hspec Ht.
  apply (cwp_commit_as (fun c0 c' => spec c0 a c' /\ c0 <> c')); [intros c0 c' [? ?]; split; [done|by left]|done|].
  eexists _, _, _. split; [exact Hd|]. intros c0 c' Hu0 Hu' Hk Hsh.
  destruct (request_published _ _ _ _ _ _ _ _ _ Hu Hb Hk Hin Hsh Hu') as [Hb0 Hu1].
  split; [by apply Hspec; [|apply Hk|..]|]. by eapply update_browser_changes.
Qed.
Lemma cwp_publish_failure {A} (e : BrowserError) (Q : post A) P ks id f b d d' c lv g :
  update_browser_row id f d = Ok d' -> browser_authorizations d !! id = Some b ->
  draft (fun c => session_there [] (f b) c /\ P c) ks [Version (RowBrowser id) (Some (f b))] c [lv] ->
  Version (RowBrowser id) (Some b) ∈ ks ->
  (forall c0 c', unique_db c0 = true -> browser_authorizations c0 !! id = Some b ->
     update_browser_row id f c0 = Ok c' -> transition c0 c') ->
  cwp (commit ;;; raise e) Q c [lv] g.
Proof.
  intros Hu Hb Hd Hin Ht. apply cwp_commit_step; [|intros; apply cwp_raise].
  eexists _, _, _. split; [exact Hd|]. intros c0 c' Hu0 Hu' Hk Hsh.
  destruct (request_published _ _ _ _ _ _ _ _ _ Hu Hb Hk Hin Hsh Hu') as [Hb0 Hu1]. right; left. by apply Ht.
Qed.
End Requests.

(** A request is taken to its next stage. *)
Ltac next_stage Hst f :=
  lazymatch goal with Hd : draft _ _ _ ?now [?top] |- _ =>
    eapply (cwp_draft_request _ _ f);
      [exact Hd|listed|apply not_elem_of_nil|apply with_state_le|rewrite Hst; constructor|];
    clear now top Hd
  end.
