(* ===== verification/AtomicConsent.v ===== *)
(** * AtomicConsent: decisions on a consent page, in a pool

    An approval or a refusal that succeeds published the decision, with the
    code of an approval, as one change that its specification allows. *)

From Stdlib Require Import Ascii ZArith.
From S2P Require Import Prelude External Schema Effects Evolution Identity Cimd OAuth Jose Keys Google Credentials CredentialsSpec CredentialsTheory CredentialsInvariant Database Logout Browser StoresSpec DatabaseTheory LogoutTheory BrowserTheory StoresInvariant Transitions System Concurrency ConcurrencyTheory Pools Confinement Framing Drafts Atomicity Promises Requests Contest Contenders Deciders.

Section Consent.
Context `{Crypto, UrlLib, JsonLib, JsonDb, UuidLib}.
Notation cwp := (cwp stepping).
Notation post A := (A -> DB -> list Level -> list (DB * DB) -> Prop).

(** ** Checks *)

Lemma cwp_approve_grant p (Q : post ValidatedAuthorizationGrant) c tx g :
  (forall t a c1, approve_grant t p true = Ok a -> env tx c c1 -> Q a c1 tx g) ->
  cwp (checked_approve p) Q c tx g.
Proof.
  intros HQ. unfold checked_approve, instant. apply cwp_bindE, cwp_at_instant. intros t c1 He1.
  apply cwp_or_rollback. intros a Ha c2 He2. apply (HQ t); [by destruct (approve_grant _ _ _); simplify_eq/=|].
  eapply env_rely_l; [apply He1|done].
Qed.

(** ** The session and the request, locked *)

Lemma cwp_fresh {A} s expiry (f : unit -> M BrowserError A) Q P ks ws c lv g :
  draft P ks ws c [lv] ->
  (forall now c1 lv1, ps_revoked_at s = None -> (now < ps_expires_at s)%Z ->
     (forall x, expiry = Some x -> (now < x)%Z) -> draft P ks ws c1 [lv1] -> cwp (f tt) Q c1 [lv1] g) ->
  cwp (Browser.ensure_fresh (session_row_of s) expiry ;;; f tt) Q c [lv] g.
Proof.
  intros Hd Hf. apply cwp_bindE. unfold Browser.ensure_fresh.
  eapply (cwp_draft_read _ (fun _ => [])); [sound|reads|set_solver|exact Hd|].
  clear c lv Hd. intros clk c0 d now c lv _ _ _ _ Hx Hd. case_match eqn:Hg; [apply cwp_raise|]. bools_all.
  apply cwp_ret. intros c1 He. apply (Hf now); [done..| |by eapply draft_env].
  intros x ->. simpl in *. by bools_all.
Qed.

(** What the locked rows are, for a decision at [now]. *)
Definition decidable_at (session : ProviderSession) (handle : ConsentHandle) (s : session_rec) (b : browser_rec)
    (now : Z) : Prop :=
  forall d, provider_sessions d !! se_id session = Some s ->
    browser_authorizations d !! ch_transaction_id handle = Some b -> consent_open session handle d s b now.

Lemma cwp_open_consent {A} session handle (f : Browser.SessionRow -> Browser.ConsentRow -> M BrowserError A) Q c g :
  (forall s b now c1 lv1, decidable_at session handle s b now ->
     draft (fun _ => True) [Version (RowBrowser (ch_transaction_id handle)) (Some b);
                            Version (RowSession (se_id session)) (Some s)] [] c1 [lv1] ->
     cwp (f (session_row_of s) (consent_row b)) Q c1 [lv1] g) ->
  cwp (session_row <- lock_session (se_id session) ;;
       row <- lock_consent (ch_transaction_id handle) (se_id session) (ch_csrf handle) ;;
       Browser.ensure_fresh session_row (Some (cw_expires_at row)) ;;;
       f session_row row) Q c (push_level c []) g.
Proof.
  intros Hf. assert (HP : always (fun _ => True) c) by done. drafting. apply cwp_bindE. unfold lock_session.
  reading [RowSession (se_id session)] row. injection Hx as <-.
  destruct (provider_sessions c0 !! _) as [s|]; simpl; [|apply cwp_raise].
  apply cwp_ret. intros c1 He. apply (draft_env _ _ _ _ _ _ He) in Hd. clear He. forget. clear c. rename c1 into c.
  apply cwp_bindE. unfold lock_consent.
  reading_found (fun row : option Browser.ConsentRow =>
    match row with Some _ => [RowBrowser (ch_transaction_id handle)] | None => [] end) row.
  { intros clk d [row|] Hx; [|set_solver]. simpl in Hx. unfold lock_consent_stmt. simpl. unfold browser_where.
    destruct (find_row _ _) as [[k b]|] eqn:Hfr; [|done].
    apply find_row_Some in Hfr as [_ Hc]. unfold consentable in Hc. bools_all. subst k. set_solver. }
  injection Hx as <-. destruct (find_row _ _) as [[k b]|] eqn:Hfr; simpl in *; [|apply cwp_raise].
  apply find_row_Some in Hfr as [Hb Hc]. unfold consentable in Hc. bools_all. subst k. rewrite Hb in Hd. clear Hb.
  apply cwp_ret. intros c1 He. apply (draft_env _ _ _ _ _ _ He) in Hd. clear He. forget. clear c. rename c1 into c.
  eapply (cwp_fresh s _ (fun _ => f (session_row_of s) (consent_row b))); [exact Hd|]. intros now c1 lv1 Hrev Hlive Hex Hd1. eapply Hf; [|exact Hd1].
  intros d Hs Hb. apply consent_is_open; try done.
Qed.

(** ** Approving *)

(** What an approval publishes, from a session and a request locked at [now]. *)
Definition approval_of (session : ProviderSession) (handle : ConsentHandle) (s : session_rec)
    (b : browser_rec) (pending : PendingAuthorizationGrant) (c0 : DB) (code : string) (c' : DB) : Prop :=
  exists ti grant id t binding d1,
    approve_grant ti pending true = Ok grant
    /\ cast_jsonb (cimd_binding_json (vg_dynamic grant)) = Ok binding
    /\ insert_code_row id (issued_code code (se_id session) s grant (ba_oidc_nonce b)
                             (ps_upstream_auth_time s) 60 t binding) c0 = Ok d1
    /\ update_browser_row (ch_transaction_id handle) consented d1 = Ok c'.

Lemma cwp_draft_approval {A} session handle s b pending (f : string -> M BrowserError A) Q c lv g :
  ba_stage b = awaiting_consent -> ba_session_id b = Some (se_id session) ->
  draft (fun _ => True) [Version (RowBrowser (ch_transaction_id handle)) (Some b);
                         Version (RowSession (se_id session)) (Some s)] [] c [lv] ->
  (forall code c1 lv1,
     ready (fun c0 c' => provider_sessions c0 !! se_id session = Some s
       /\ browser_authorizations c0 !! ch_transaction_id handle = Some b
       /\ approval_of session handle s b pending c0 code c') c1 [lv1] ->
     cwp (f code) Q c1 [lv1] g) ->
  cwp (code <- store_approval session handle (session_row_of s) (consent_row b) pending ;; f code) Q c [lv] g.
Proof.
  intros Hst Hses Hd Hf. apply cwp_bindE. unfold store_approval.
  apply cwp_bindE, cwp_approve_grant. intros ti grant c1 Hg He. apply (draft_env _ _ _ _ _ _ He) in Hd. clear c He.
  eapply cwp_insert_code; [exact Hd|listed|]. clear c1 lv Hd. intros raw id t binding d d' c lv x Hcast Hi Hd.
  eapply (cwp_draft_request _ b); [exact Hd|listed|simpl; set_solver|apply with_state_le|rewrite Hst; constructor|].
  clear c lv Hd. intros d1 d2 c lv Hu Hb1 Hd. apply cwp_ret. intros c1 He. apply Hf.
  eexists _, _, _. split; [by eapply draft_env|]. clear c lv Hd He c1. intros c0 c' _ Hu' Hk Hsh.
  assert (Hs : provider_sessions c0 !! se_id session = Some s) by (apply (in_known _ _ _ (RowSession _) _ Hk); listed).
  assert (Hb : browser_authorizations c0 !! ch_transaction_id handle = Some b)
    by (apply (in_known _ _ _ (RowBrowser _) _ Hk); listed).
  split_and!; [done..|].
  pose proof (shows_code [] c0 c0 id x (shows_same _) ltac:(apply not_elem_of_nil)) as S1.
  pose proof (shows_browser _ _ _ (ch_transaction_id handle) (consented b) S1 ltac:(simpl; set_solver)) as S2.
  rewrite (shows_eq _ _ _ _ Hsh S2) in *. pose proof (unique_codes _ Hu') as Huc.
  destruct (code_published _ _ _ _ _ _ _ _ _ _ _ _ _ _ _ Hi Hk ltac:(listed) ltac:(listed) Huc) as [Hi' _].
  exists ti, grant, id, t, binding, (set_codes (<[id := x]> (authorization_codes c0)) c0). split_and!; [done..|].
  eapply update_browser_again; [exact Hu|done..| |exact Hu'].
  simpl. rewrite Hses. intros sid [= <-]. by exists s.
Qed.

(** An approval, from the locked rows to its specification. *)
Lemma approval_given (R : browser_rec -> PendingAuthorizationGrant -> Prop) session handle reg s b now pending c0 code c' :
  decidable_at session handle s b now -> policy_accepts reg b pending -> R b pending ->
  provider_sessions c0 !! se_id session = Some s -> browser_authorizations c0 !! ch_transaction_id handle = Some b ->
  approval_of session handle s b pending c0 code c' ->
  consent_given R session handle reg c0 (approval_outcome code (consent_row b)) c'.
Proof.
  intros Ho Hp HR Hs Hb (ti & grant & id & t & binding & d1 & Hg & Hc & Hi & Hu).
  by apply (ConsentGiven _ _ _ _ _ s b now pending grant ti code id t binding d1); [apply Ho|..].
Qed.
Lemma given_changes R session handle reg c a c' : consent_given R session handle reg c a c' -> c <> c'.
Proof.
  intros [s b now p grant ti raw id t binding d1 d' Ho _ _ _ _ Hi Hu] Hc.
  apply insert_code_inv in Hi as (Hn & ->). unfold update_browser_row in Hu.
  destruct Ho as (_ & Hb & _). simpl in Hu. rewrite Hb in Hu. case_match; simplify_eq.
  apply (f_equal authorization_codes) in Hu. simpl in Hu. by rewrite <- Hu, lookup_insert_eq in Hn.
Qed.

(** What the locks show at once. *)
Lemma draft_open session handle s b now c lv :
  decidable_at session handle s b now ->
  draft (fun _ => True) [Version (RowBrowser (ch_transaction_id handle)) (Some b);
                         Version (RowSession (se_id session)) (Some s)] [] c [lv] ->
  ba_stage b = awaiting_consent /\ ba_session_id b = Some (se_id session).
Proof.
  intros Ho Hk%draft_known. destruct (Ho c) as (_ & _ & ? & _ & ? & _); [| |done].
  - apply (in_known _ _ _ (RowSession _) _ Hk). listed.
  - apply (in_known _ _ _ (RowBrowser _) _ Hk). listed.
Qed.

Lemma approve_takes session handle reg c :
  cwp (approve session handle reg)
    (fun a _ _ => takes_effect (consent_given by_user session handle reg) a) c [] [].
Proof.
  unfold approve. apply cwp_with_tx. intros c1 _. clear c. apply cwp_open_consent. clear c1.
  intros s b now c lv Ho Hd. destruct (draft_open _ _ _ _ _ _ _ Ho Hd) as [Hst Hses].
  checking_as cwp_revalidate p Hp. eapply cwp_draft_approval; [done|done|exact Hd|].
  clear c lv Hd. intros code c lv Hr. apply cwp_bindE, cwp_revalidate. intros p' c1 _ He.
  apply (ready_env _ _ _ _ He) in Hr. clear c He.
  apply cwp_commit_ready; [intros ? ?; apply given_changes|intros ? ?; apply StepApprove|].
  eapply ready_mono; [|exact Hr].
  intros c0 c' _ (Hs & Hb & Ha). by eapply approval_given.
Qed.

Lemma cwp_ready_fresh {A} s expiry (f : unit -> M BrowserError A) Q T c lv g :
  ready T c [lv] -> (forall c1 lv1, ready T c1 [lv1] -> cwp (f tt) Q c1 [lv1] g) ->
  cwp (Browser.ensure_fresh s expiry ;;; f tt) Q c [lv] g.
Proof.
  intros Hr Hf. apply cwp_bindE. unfold Browser.ensure_fresh.
  eapply cwp_ready_read; [sound|reads|exact Hr|]. intros now c1 lv1 Hr1. case_match; [apply cwp_raise|].
  apply cwp_ret. intros c2 He. apply Hf. by eapply ready_env.
Qed.

Lemma approve_pre_authorized_takes session handle reg c :
  cwp (approve_pre_authorized session handle reg)
    (fun a _ _ l => is_Some a -> takes_effect (consent_decided session handle reg) a l) c [] [].
Proof.
  unfold approve_pre_authorized.
  apply (cwp_with_tx stepping _ (fun a l => is_Some a -> takes_effect (consent_decided session handle reg) a l)).
  intros c1 _. clear c. apply cwp_open_consent. clear c1.
  intros s b now c lv Ho Hd. destruct (draft_open _ _ _ _ _ _ _ Ho Hd) as [Hst Hses].
  checking_as cwp_revalidate p Hp. case_match eqn:Hg; [apply cwp_ret; intros ? _ []; done|]. bools_all.
  eapply cwp_draft_approval; [done|done|exact Hd|].
  clear c lv Hd. intros code c lv Hr. apply cwp_bindE, cwp_revalidate. intros p' c1 _ He.
  apply (ready_env _ _ _ _ He) in Hr. clear c He. 
  case_match; [apply cwp_bindE, cwp_rollback; intros; apply cwp_raise|].
  apply (cwp_ready_fresh _ _ (fun _ => commit ;;; ret _) _ _ _ _ _ Hr). clear c1 lv Hr. intros c lv Hr.
  eapply inter_mono; [apply (cwp_commit_ready (consent_decided session handle reg))|by intros [] ? ? ?].
  - intros ? ? Hc. inversion Hc. by eapply given_changes.
  - intros ? ? Hc. inversion Hc. by eapply StepApprove.
  - eapply ready_mono; [|exact Hr]. intros c0 c' _ (Hs & Hb & Ha). apply ConsentPassed.
    by eapply (approval_given (pre_authorized reg)).
Qed.

Lemma deny_bound_takes session handle reg c :
  cwp (deny_bound session handle reg)
    (fun a _ _ => takes_effect (consent_refused session handle reg) a) c [] [].
Proof.
  unfold deny_bound. apply cwp_with_tx. intros c1 _. clear c. apply cwp_open_consent. clear c1.
  intros s b now c lv Ho Hd. destruct (draft_open _ _ _ _ _ _ _ Ho Hd) as [Hst Hses].
  checking cwp_registry Hp.
  next_stage Hst consent_denied. intros d d' c lv Hu Hb Hd. checking cwp_registry Hp'. clear Hp'.
  apply (cwp_publish_request _ _ _ _ _ _ _ _ _ _ _ Hu Hb Hd); [listed|by rewrite Hst| |intros ? ?; apply StepDeny].
  intros c0 c' _ Hk Hb0 Hup. apply (ConsentRefused _ _ _ _ s b now); [|done|exact Hup]. apply Ho; [|exact Hb0].
  rewrite list.Forall_forall in Hk. apply (Hk (Version (RowSession _) (Some s))). listed.
Qed.
End Consent.
