(* ===== verification/AtomicBrowser.v ===== *)
(** * AtomicBrowser: requests begun, started, claimed and refused, in a pool

    The operations that take a request to Google and back publish one change
    each, that their specification allows: a success what it answers, a
    callback that comes too late the request's expiry. *)

From Stdlib Require Import Ascii ZArith.
From S2P Require Import Prelude External Schema Effects Evolution Identity Cimd OAuth Jose Keys Google Credentials CredentialsSpec CredentialsTheory CredentialsInvariant Database Logout Browser StoresSpec DatabaseTheory LogoutTheory BrowserTheory StoresInvariant Transitions System Concurrency ConcurrencyTheory Pools Confinement Framing Drafts Atomicity Promises Requests AtomicConsent.

(** ** Rows found by their secrets *)

Section Found.
Context `{Crypto, UrlLib, JsonLib, JsonDb, UuidLib}.

Lemma find_awaiting_known state binding c id b :
  unique_db c = true -> browser_authorizations c !! id = Some b -> awaiting state binding id b = true ->
  find_awaiting state binding c = Some (id, b).
Proof.
  intros Hu Hb Ha. apply find_row_unique; [done|exact Ha|]. intros k v Hk Hv. unfold awaiting in *. bools_all.
  unfold unique_db in Hu. bools_all. by eapply (unique_column_eq ba_upstream_state_hash).
Qed.
Lemma claim_hash_unique h c id b : unique_db c = true -> browser_authorizations c !! id = Some b ->
  ba_claim_hash b = Some h -> find_row (fun _ r => ba_claim_hash r ==? Some h) (browser_authorizations c) = Some (id, b).
Proof.
  intros Hu Hb Hh. apply find_row_unique; [done|by apply bool_decide_eq_true|]. intros k v Hk Hv. bools_all.
  unfold unique_db in Hu. bools_all. by eapply (unique_column_eq ba_claim_hash).
Qed.
Lemma find_claimed_known claim c id b :
  unique_db c = true -> browser_authorizations c !! id = Some b -> claimed_by claim id b = true ->
  find_claimed claim c = Some (id, b).
Proof.
  intros Hu Hb Ha. apply find_row_unique; [done|exact Ha|]. intros k v Hk Hv. unfold claimed_by in *. bools_all.
  unfold unique_db in Hu. bools_all. by eapply (unique_column_eq ba_claim_hash).
Qed.
End Found.

Section Operations.
Context `{Crypto, UrlLib, JsonLib, JsonDb, UuidLib}.
Notation cwp := (cwp stepping).
Notation post A := (A -> DB -> list Level -> list (DB * DB) -> Prop).

(** ** Beginning *)

Lemma cwp_pending_fresh p (Q : post unit) c tx g :
  (forall c1, pending_fresh p -> env tx c c1 -> Q tt c1 tx g) -> cwp (checked_fresh p) Q c tx g.
Proof.
  intros HQ. unfold checked_fresh, instant. apply cwp_bindE, cwp_at_instant. intros t c1 He1.
  apply cwp_or_rollback. intros [] Ha c2 He2. apply HQ; [|eapply env_rely_l; [apply He1|done]].
  exists t. by destruct (OAuth.ensure_fresh _ _) as [[]|].
Qed.

(** A request stored in a transaction. *)
Lemma cwp_insert_request {A} id json (row : Z -> option string -> browser_rec) (s : stmt unit)
    (f : unit -> M BrowserError A) Q P ks c lv g :
  sound_stmt _ s -> (forall d, locks s d = [RowBrowser id]) ->
  (forall clk d d', exec s clk d = Ok (tt, d') -> exists binding,
     cast_jsonb json = Ok binding /\ insert_browser_row id (row (clk 0%N) binding) d = Ok d') ->
  draft P ks [] c [lv] ->
  (forall t binding d d' c1 lv1, cast_jsonb json = Ok binding ->
     insert_browser_row id (row t binding) d = Ok d' ->
     draft P (Version (RowBrowser id) None :: ks) [Version (RowBrowser id) (Some (row t binding))] c1 [lv1] ->
     cwp (f tt) Q c1 [lv1] g) ->
  cwp (bindE (sql s) f) Q c [lv] g.
Proof.
  intros Hs Hl Hx Hd Hf.
  eapply (cwp_draft_write _ (RowBrowser id)); [by intros; apply Hs|exact Hl|exact Hd|apply not_elem_of_nil|].
  clear c lv Hd. intros clk c0 d [] d' c lv _ _ ->%shows_nothing Hk He Hd.
  apply Hx in He as (binding & Hb & Hi). destruct (insert_browser_inv _ _ _ _ Hi) as (Hn & Heq).
  rewrite Heq in Hd. unfold version_in in Hd. simpl in Hd. rewrite lookup_insert_eq, Hn in Hd. by eapply Hf.
Qed.
(** As it is published. *)
Lemma request_stored P ks id r d d' c0 c' :
  insert_browser_row id r d = Ok d' -> known P ks c0 -> Version (RowBrowser id) None ∈ ks ->
  (forall s, ba_session_id r = Some s -> is_Some (provider_sessions c0 !! s)) ->
  shows [Version (RowBrowser id) (Some r)] c0 c' -> unique_db c' = true -> insert_browser_row id r c0 = Ok c'.
Proof.
  intros Hi Hk Hn Hs Hsh Hu.
  pose proof (shows_browser [] c0 c0 id r (shows_same _) ltac:(apply not_elem_of_nil)) as S1.
  rewrite (shows_eq _ _ _ _ Hsh S1) in *.
  eapply insert_browser_again; [exact Hi|exact (in_known _ _ _ (RowBrowser id) _ Hk Hn)|exact Hs|exact Hu].
Qed.
Lemma insert_browser_changes id r d d' : insert_browser_row id r d = Ok d' -> d <> d'.
Proof.
  intros (Hn & ->)%insert_browser_inv Hc. apply (f_equal browser_authorizations) in Hc. simpl in Hc.
  by rewrite Hc, lookup_insert_eq in Hn.
Qed.

Lemma insert_start_inv start p st n a clk d d' :
  exec (insert_start_stmt start p st n a) clk d = Ok (tt, d') -> exists binding,
    cast_jsonb (cimd_binding_json (pg_dynamic p)) = Ok binding
    /\ insert_browser_row (bs_transaction_id start) (start_row start p st n a (clk 0%N) binding) d = Ok d'.
Proof.
  simpl. intros Hx. case_match eqn:Hi; simplify_eq. apply rbind_Ok in Hi as (binding & Hb & Hi). by exists binding.
Qed.
Lemma insert_consent_inv id csrf sid p st n a clk d d' :
  exec (insert_consent_stmt id csrf sid p st n a) clk d = Ok (tt, d') -> exists binding,
    cast_jsonb (cimd_binding_json (pg_dynamic p)) = Ok binding
    /\ insert_browser_row id (consent_start_row csrf sid p st n a (clk 0%N) binding) d = Ok d'.
Proof.
  simpl. intros Hx. case_match eqn:Hi; simplify_eq. apply rbind_Ok in Hi as (binding & Hb & Hi). by exists binding.
Qed.

Lemma begin_google_takes p st n a c :
  cwp (begin_google_with_pre_authorization p st n a) (fun r _ _ => takes_effect (google_begun p st n a) r) c [] [].
Proof.
  unfold begin_google_with_pre_authorization, random_credential.
  apply cwp_bindE, cwp_new_uuid. intros id ? _.
  do 4 (apply cwp_bindE, cwp_bindE, cwp_random_bytes; intros ? ? _; apply cwp_ret; intros ? _).
  set (start := {| bs_transaction_id := id |}). change id with (bs_transaction_id start). clearbody start.
  apply cwp_with_tx. intros now _. assert (HP : always (fun _ => True) now) by done. clear c.
  rename now into c. drafting. checking cwp_pending_fresh Hf.
  eapply (cwp_insert_request _ _ (start_row start p st n a));
    [eauto with stmts|done|intros ? ? ?; apply insert_start_inv|exact Hd|].
  clear c lv Hd. intros t binding d d' c lv Hb Hi Hd. checking cwp_pending_fresh Hf'.
  apply cwp_commit_ready; [|intros ? ?; apply StepBegin|].
  - intros ? ? [start' ? ? ? _ _ Hi']. by eapply insert_browser_changes.
  - eexists _, _, _. split; [exact Hd|]. clear c lv Hd. intros d0 d1 _ Hu Hk Hsh.
    eapply GoogleBegun; [done|exact Hb|]. by eapply request_stored; [exact Hi|exact Hk|listed| | |].
Qed.

Lemma begin_authenticated_takes session p st n a c :
  cwp (begin_authenticated_with_pre_authorization session p st n a)
    (fun r _ _ => takes_effect (consent_begun session p st n a) r) c [] [].
Proof.
  unfold begin_authenticated_with_pre_authorization, random_credential.
  apply cwp_bindE, cwp_new_uuid. intros id c0 _.
  apply cwp_bindE, cwp_bindE, cwp_random_bytes. intros bytes c1 _. apply cwp_ret. intros c2 _.
  set (csrf := b64_encode bytes). clearbody csrf.
  apply cwp_with_tx. intros c3 _. assert (HP : always (fun _ => True) c3) by done. clear c c0 c1 c2. rename c3 into c.
  drafting. apply cwp_bindE. unfold lock_session.
  reading [RowSession (se_id session)] row. injection Hx as <-.
  destruct (provider_sessions c0 !! _) as [s|]; simpl; [|apply cwp_raise].
  apply cwp_ret. intros c1 He. apply (draft_env _ _ _ _ _ _ He) in Hd. clear He. forget. clear c. rename c1 into c.
  eapply (cwp_fresh s _ (fun _ => _)); [exact Hd|]. clear c lv Hd. intros now c lv Hrev Hlive _ Hd.
  checking cwp_pending_fresh Hf.
  eapply (cwp_insert_request _ _ (consent_start_row csrf (se_id session) p st n a));
    [eauto with stmts|done|intros ? ? ?; apply insert_consent_inv|exact Hd|].
  clear c lv Hd. intros t binding d d' c lv Hb Hi Hd. checking cwp_pending_fresh Hf'.
  apply cwp_commit_ready; [|intros ? ?; apply StepBeginConsent|].
  - intros ? ? [? ? ? ? ? ? ? _ _ _ Hi']. by eapply insert_browser_changes.
  - eexists _, _, _. split; [exact Hd|]. clear c lv Hd. intros d0 d1 _ Hu Hk Hsh.
    assert (Hs : provider_sessions d0 !! se_id session = Some s) by (apply (in_known _ _ _ (RowSession _) _ Hk); listed).
    eapply (ConsentBegun _ _ _ _ _ _ id csrf s now t binding); [by split_and!|done|exact Hb|].
    eapply request_stored; [exact Hi|exact Hk|listed| |exact Hsh|exact Hu]. intros sid [= <-]. by exists s.
Qed.

(** ** Starting *)

Lemma started_changes id state binding b c c' :
  start_open id state binding c b -> update_browser_row id started c = Ok c' -> c <> c'.
Proof. intros (Hb & _ & _ & Hs & _) Hu. eapply update_browser_changes; [exact Hu|exact Hb|]. by rewrite Hs. Qed.

Lemma start_google_takes id state binding c :
  cwp (start_google id state binding) (fun r _ _ => takes_effect (google_started id state binding) r) c [] [].
Proof.
  unfold start_google. apply cwp_auto; [apply start_google_stmt_sound|]. intros clk c0 r c' _ Hx _. simpl in Hx.
  destruct (find_row _ _) as [[k b]|] eqn:Hf; simplify_eq; [|split; [by left|intros; apply cwp_bindE, cwp_raise]].
  apply startable_open in Hf as [-> Ho]. apply rbind_Ok in Hx as (d & Hu & [= <- <-]).
  pose proof (started_changes _ _ _ _ _ _ Ho Hu) as Hne. rewrite (change_ne _ _ Hne).
  assert (Hbad : ba_upstream_nonce b = None \/ ba_upstream_verifier b = None -> transition c0 d).
  { intros Hb. eapply StepUnreadable, GoogleUnreadable; [exact Ho|exact Hb|exact Hu]. }
  assert (Hgood : forall n v, ba_upstream_nonce b = Some n -> ba_upstream_verifier b = Some v ->
    google_started id state binding c0 (n, v) d) by (intros; by eapply GoogleStarted).
  split.
  - right; left. destruct (ba_upstream_nonce b), (ba_upstream_verifier b); try by (apply Hbad; auto).
    by eapply StepStart, Hgood.
  - intros c1 _. apply cwp_bindE, cwp_ret. intros c2 _. apply cwp_bindE, cwp_decoded. intros n c3 Hn _.
    apply cwp_bindE, cwp_decoded. intros v c4 Hv _. apply cwp_ret. intros c5 _.
    exists c0, d. split; [done|left]. by apply Hgood.
Qed.

Lemma cancel_google_bound_takes id state binding reg c :
  cwp (cancel_google_bound id state binding reg)
    (fun r _ _ => takes_effect (google_cancelled id state binding reg) r) c [] [].
Proof.
  unfold cancel_google_bound. apply cwp_with_tx. intros c1 _. assert (HP : always (fun _ => True) c1) by done.
  clear c. rename c1 into c. drafting. unfold lock_startable.
  eapply (cwp_hold_request (startable id state binding) (option_map (fun kv => consent_row kv.2)));
    [|exact Hd|intros; apply cwp_bindE, cwp_raise|].
  { intros clk d k b [_ Hs]%find_row_Some. unfold startable in Hs. bools_all. set_solver. }
  clear c lv Hd. intros clk k b c lv Hs Hd. unfold startable in Hs. bools_all. subst k.
  apply cwp_bindE, cwp_ret. intros c1 He. apply (draft_env _ _ _ _ _ _ He) in Hd. clear c He. rename c1 into c.
  assert (Hst : ba_stage b = awaiting_start) by done. simpl. checking cwp_registry Hr.
  next_stage Hst cancelled. intros d d' c lv Hu Hb Hd. checking cwp_registry Hr'.
  eapply cwp_publish_request; [exact Hu|exact Hb|exact Hd|listed|by rewrite Hst| |intros ? ?; apply StepCancel].
  intros c0 c' _ _ Hb0 Hu0. apply (GoogleCancelled _ _ _ _ _ b); [|done|exact Hu0].
  split_and!; try done. by eexists.
Qed.

(** ** Claiming *)

Lemma claim_callback_takes state binding c :
  cwp (claim_callback state binding) (fun r _ _ => takes_effect (callback_taken state binding) r) c [] [].
Proof.
  unfold claim_callback, random_credential. apply cwp_bindE, cwp_bindE, cwp_random_bytes. intros bytes x1 _.
  apply cwp_ret. intros x2 _. set (claim := b64_encode bytes). clearbody claim.
  apply cwp_with_tx. intros c' _. assert (HP : always (fun _ => True) c') by done. clear c. rename c' into c.
  drafting. unfold lock_awaiting.
  eapply (cwp_hold_request (fun _ => awaiting state binding)
    (option_map (fun kv => (kv.1, ba_upstream_verifier kv.2, ba_upstream_nonce kv.2, ba_expires_at kv.2))));
    [intros _ d k b; apply browser_where_locks|exact Hd|intros; apply cwp_raise|].
  clear c lv Hd. intros _ id b c lv Ha Hd. simpl.
  assert (Hst : ba_stage b = awaiting_google) by (unfold awaiting in Ha; by bools_all).
  checking_as (cwp_decoded (ba_upstream_verifier b)) v Hv.
  checking_as (cwp_decoded (ba_upstream_nonce b)) n Hn.
  reading (@nil RowId) now. forget. case_match eqn:Hg; bools_all.
  - next_stage Hst expired_before_claim. intros d d' c lv Hu Hb Hd.
    eapply cwp_publish_failure; [exact Hu|exact Hb|exact Hd|listed|]. intros c0 c' Hu0 Hb0 Hup.
    eapply StepLate, CallbackLate; [by apply find_awaiting_known|exact Hg|exact Hup].
  - next_stage Hst (claimed (hash claim)). intros d d' c lv Hu Hb Hd.
    eapply cwp_publish_request; [exact Hu|exact Hb|exact Hd|listed|by rewrite Hst| |intros ? ?; apply StepClaim].
    intros c0 c' Hu0 _ Hb0 Hup. by apply (CallbackTaken _ _ _ id b claim n v now); [apply find_awaiting_known|..].
Qed.

Lemma fail_callback_takes claim c :
  cwp (fail_callback claim) (fun r _ _ => takes_effect (callback_marked_failed claim) r) c [] [].
Proof.
  unfold fail_callback. apply cwp_auto; [apply fail_callback_stmt_sound|]. intros clk c0 r c' _ Hx _. simpl in Hx.
  unfold update_browser_where in Hx. destruct (find_row _ _) as [[id b]|] eqn:Hf; simplify_eq;
    [|split; [by left|intros; apply cwp_raise]].
  destruct (update_browser_row _ _ _) as [d|] eqn:Hu; simplify_eq/=.
  destruct (find_claimed_Some _ _ _ _ Hf) as (Hb & _ & Hs).
  assert (Hne : c0 <> c') by (eapply update_browser_changes; [exact Hu|exact Hb|by rewrite Hs]).
  assert (Hok : callback_marked_failed claim c0 tt c') by by eapply CallbackMarkedFailed.
  split; [right; left; by eapply StepFail|]. intros c1 _. rewrite (change_ne _ _ Hne). apply cwp_ret. intros c2 _.
  exists c0, c'. split; [done|by left].
Qed.

Lemma deny_callback_takes claim reg c :
  cwp (deny_callback claim reg) (fun r _ _ => takes_effect (callback_refused claim reg) r) c [] [].
Proof.
  unfold deny_callback. apply cwp_with_tx. intros c' _. assert (HP : always (fun _ => True) c') by done. clear c.
  rename c' into c. drafting. unfold lock_claimed_row.
  eapply (cwp_hold_request (fun _ => claimed_by claim) (option_map (fun kv => consent_row kv.2)));
    [intros _ d k b; apply browser_where_locks|exact Hd|intros; apply cwp_raise|].
  clear c lv Hd. intros _ id b c lv Hcl Hd. simpl.
  pose proof Hcl as Hcl'. unfold claimed_by in Hcl'. bools_all.
  assert (Hst : ba_stage b = callback_claimed) by done. assert (Hh : ba_claim_hash b = Some (hash claim)) by done.
  reading (@nil RowId) now. forget. case_match eqn:Hg; [apply cwp_raise|]. bools_all.
  checking_as cwp_revalidate p Hp.
  assert (Hfind : forall d, unique_db d = true -> browser_authorizations d !! id = Some b ->
    find_row (fun _ r => ba_claim_hash r ==? Some (hash claim)) (browser_authorizations d) = Some (id, b)).
  { intros d Hud Hbd. by apply claim_hash_unique. }
  eapply (cwp_draft_request_by id b callback_denied _ 1%nat);
    [|exact Hd|listed|apply not_elem_of_nil|apply with_state_le|rewrite Hst; constructor|].
  { intros c0 d clk Hud ->%shows_nothing Hbd. simpl. unfold browser_where, update_browser_where.
    by rewrite (Hfind _ Hud Hbd). }
  clear c lv Hd. intros d d' c lv Hu Hb Hd. checking_as cwp_revalidate p' Hp'.
  eapply cwp_publish_request; [exact Hu|exact Hb|exact Hd|listed|by rewrite Hst| |intros ? ?; apply StepRefuse].
  intros c0 c' Hu0 _ Hb0 Hup. apply (CallbackRefused _ _ _ id b now p 1%nat); [by apply find_claimed_known|done..|].
  unfold update_browser_where. by rewrite (Hfind _ Hu0 Hb0), Hup.
Qed.
End Operations.
