(* ===== verification/AtomicSignIn.v ===== *)
(** * AtomicSignIn: users and sign-ins, in a pool

    A sign-in finds or creates its user, replaces the profile and stores the
    session behind a savepoint, and binds the request to it: one change, all
    of it or none. A sign-in that comes too late rolls back to the savepoint
    and publishes the expiry of the request alone. *)

From Stdlib Require Import Ascii ZArith.
From S2P Require Import Prelude External Schema Effects Evolution Identity Cimd OAuth Jose Keys Google Credentials CredentialsSpec CredentialsTheory CredentialsInvariant Database Logout Browser StoresSpec DatabaseTheory LogoutTheory BrowserTheory StoresInvariant Transitions System Concurrency ConcurrencyTheory Pools Confinement Framing Drafts Atomicity Promises Contest Contenders Deciders Requests AtomicConsent AtomicBrowser.

(** ** Users *)

(** The rows of a user found or created: the locks and the writes. *)
Inductive identity_rows (issuer subject : string) : option Uuid -> Uuid -> list version -> list version -> Prop :=
| RowsKnown u : identity_rows issuer subject (Some u) u [] []
| RowsNew u : issuer = google_issuer_text -> str_empty subject = false ->
    identity_rows issuer subject None u
      [Version (RowIdentity issuer subject) None; Version (RowUser u) None]
      [Version (RowIdentity issuer subject) (Some u); Version (RowUser u) (Some tt)].

Definition with_identity (issuer subject : string) (o : option Uuid) (u : Uuid) (c : DB) : DB :=
  match o with
  | Some _ => c
  | None => let c1 := set_users (<[u := tt]> (users c)) c in
      set_identities (<[(issuer, subject) := u]> (external_identities c1)) c1
  end.

Lemma shows_user ws c d u : shows ws c d -> RowUser u ∉ map vn_row ws ->
  shows (Version (RowUser u) (Some tt) :: ws) c (set_users (<[u := tt]> (users d)) d).
Proof. shows_insert. Qed.
Lemma shows_identity ws c d (i s : string) (u : Uuid) : shows ws c d -> RowIdentity i s ∉ map vn_row ws ->
  shows (Version (RowIdentity i s) (Some u) :: ws) c (set_identities (<[(i, s) := u]> (external_identities d)) d).
Proof. shows_insert. Qed.
Lemma shows_profile ws c d u p : shows ws c d -> RowProfile u ∉ map vn_row ws ->
  shows (Version (RowProfile u) (Some p) :: ws) c (set_profiles (<[u := p]> (user_profiles d)) d).
Proof. shows_insert. Qed.
Lemma shows_session ws c d id r : shows ws c d -> RowSession id ∉ map vn_row ws ->
  shows (Version (RowSession id) (Some r) :: ws) c (set_sessions (<[id := r]> (provider_sessions d)) d).
Proof. shows_insert. Qed.

Lemma shows_with_identity i s o u ks ws c :
  identity_rows i s o u ks ws -> shows ws c (with_identity i s o u c).
Proof.
  intros []; [apply shows_same|]. apply shows_identity; [|simpl; set_solver].
  apply shows_user; [apply shows_same|apply not_elem_of_nil].
Qed.

Lemma unique_identities_new (i s : string) (u : Uuid) (m : gmap (string * string) Uuid) (k : string * string) (v : Uuid) :
  unique_identities (<[(i, s) := u]> m) = true -> m !! (i, s) = None -> m !! k = Some v -> k.1 = i -> v <> u.
Proof.
  unfold unique_identities. intros Hu%bool_decide_eq_true Hn Hk Hi Hv. subst v.
  assert (Hp : map_to_list (<[(i, s) := u]> m) ≡ₚ ((i, s), u) :: map_to_list m) by by apply map_to_list_insert.
  apply (Permutation.Permutation_map (fun kv => (kv.2, kv.1.1))) in Hp. rewrite Hp in Hu. simpl in Hu.
  apply list.NoDup_cons in Hu as [Hnin _]. apply Hnin. apply list_elem_of_fmap. exists (k, u).
  split; [simpl; by rewrite Hi|by apply elem_of_map_to_list].
Qed.

(** Created at the COMMIT: no other transaction published the identity. *)
Lemma user_of_published i s o u ks ws c :
  identity_rows i s o u ks ws -> external_identities c !! (i, s) = o -> (o = None -> users c !! u = None) ->
  unique_identities (external_identities (with_identity i s o u c)) = true ->
  user_of i s c u (with_identity i s o u c).
Proof.
  intros [|v Hi Hs] Ho Hn Hu; [by apply KnownUser|]. eapply NewUser; [done|..]; [unfold insert_user_row; by rewrite Hn|].
  unfold insert_identity_row. simpl in *.
  assert (Hall : forallb (fun kv => negb ((kv.2 ==? v) && (kv.1.1 ==? i))) (map_to_list (external_identities c)) = true).
  { apply forallb_forall. intros [k w] Hk%list_elem_of_In%elem_of_map_to_list. simpl.
    apply negb_true_iff, andb_false_iff. destruct (decide (k.1 = i)) as [Hki|Hki]; [left|right];
      apply bool_decide_eq_false; [|done]. by eapply unique_identities_new. }
  rewrite Hall, Hs, Ho, lookup_insert_eq, (bool_decide_true _ Hi). done.
Qed.

(** The user of the session is there, or is created. *)
Definition user_there (o : option Uuid) (u : Uuid) (c : DB) : Prop := o = None \/ is_Some (users c !! u).

Section Users.
Context {G : Type} (L : Ledger G) {E : Type} `{!FromDb E}.
Notation cwp := (cwp L).
Implicit Types (ks ws : list version).

Lemma cwp_find_identity {A} i s o (f : Uuid -> M E A) Q P ks c lv below g :
  draft P ks [] c (lv :: below) -> Version (RowIdentity i s) o ∈ ks ->
  (forall u ks' ws c1 lv1, identity_rows i s o u ks' ws -> draft P (ks' ++ ks) ws c1 (lv1 :: below) ->
     cwp (f u) Q c1 (lv1 :: below) g) ->
  cwp (bindE (find_or_insert_identity i s) f) Q c (lv :: below) g.
Proof.
  intros Hd Ho Hf. apply cwp_bindE. unfold find_or_insert_identity.
  eapply (cwp_draft_lock _ (fun _ => [])); [sound|reads|set_solver|exact Hd|].
  clear c lv Hd. intros clk c0 r c lv _ _ Hk Hx Hd. simpl in Hx, Hd. injection Hx as <-.
  pose proof (in_known _ _ _ (RowIdentity i s) _ Hk Ho) as Hi. simpl in Hi. rewrite Hi. clear clk c0 Hk Hi.
  destruct o as [u|].
  { apply cwp_ret. intros c1 He. eapply Hf; [apply RowsKnown|]. by eapply draft_env. }
  apply cwp_bindE, cwp_new_uuid. intros u c1 He. apply (draft_env _ _ _ _ _ _ He) in Hd.
  eapply (cwp_draft_write _ (RowUser u)); [sound|done|exact Hd|apply not_elem_of_nil|].
  clear c lv c1 He Hd. intros clk c0 d [] d1 c lv _ _ ->%shows_nothing _ Hx Hd. simpl in Hx.
  case_match eqn:Hu; simplify_eq. unfold insert_user_row in Hu. case_match eqn:Hn; simplify_eq. bools_all.
  unfold version_in in Hd. simpl in Hd. rewrite lookup_insert_eq in Hd.
  match goal with Hn : users c0 !! u = None |- _ => rewrite Hn in Hd; clear clk Hn end. clear c0.
  eapply (cwp_draft_write _ (RowIdentity i s)); [sound|done|exact Hd|simpl; set_solver|].
  clear c lv Hd. intros clk c0 d [] d1 c lv _ _ Hsh Hk Hx Hd. simpl in Hx. case_match eqn:Hi; simplify_eq.
  unfold insert_identity_row in Hi. case_match eqn:Hg; simplify_eq. bools_all.
  pose proof (in_known _ _ _ (RowIdentity i s) None Hk ltac:(set_solver)) as Hc0. simpl in Hc0.
  unfold version_in in Hd. simpl in Hd. rewrite lookup_insert_eq, Hc0 in Hd.
  apply cwp_ret. intros c1 He. eapply (Hf u [_; _]); [by apply RowsNew|]. by eapply draft_env.
Qed.

(** The user, and the profile replaced. *)
Lemma cwp_upsert_identity {A} identity o now (f : Uuid -> M E A) Q P ks c lv below g :
  draft P ks [] c (lv :: below) -> Version (RowIdentity google_issuer_text (vi_subject identity)) o ∈ ks ->
  (forall u ks' ws v c1 lv1, identity_rows google_issuer_text (vi_subject identity) o u ks' ws ->
     draft (fun c => user_there o u c /\ P c) (v :: ks' ++ ks)
       (Version (RowProfile u) (Some (profile_of identity now)) :: ws) c1 (lv1 :: below) ->
     cwp (f u) Q c1 (lv1 :: below) g) ->
  cwp (bindE (upsert_verified_google_identity_tx identity now) f) Q c (lv :: below) g.
Proof.
  intros Hd Ho Hf. apply cwp_bindE. unfold upsert_verified_google_identity_tx.
  eapply cwp_find_identity; [exact Hd|exact Ho|]. clear c lv Hd. intros u ks' ws c lv Hr Hd.
  eapply (cwp_draft_write _ (RowProfile u)); [sound|done|exact Hd|destruct Hr; simpl; set_solver|].
  clear c lv Hd. intros clk c0 d [] d1 c lv Hm _ Hsh Hk Hx Hd. simpl in Hx. case_match eqn:Hu; simplify_eq.
  case_match eqn:Hthere; simplify_eq. unfold version_in in Hd. simpl in Hd. rewrite lookup_insert_eq in Hd.
  apply cwp_ret. intros c1 He. eapply Hf; [exact Hr|]. eapply draft_env; [exact He|]. apply draft_learn; [|exact Hd].
  apply is_some_true in Hthere. intros c2 Hm2. destruct Hr as [v|v]; [right|by left].
  apply (always_user v d c0); [done|exact (shows_row _ _ _ (RowUser v) Hsh ltac:(apply not_elem_of_nil))|by etrans].
Qed.
End Users.

(** ** Sign-ins *)

Section SignIn.
Context `{Crypto, UrlLib, JsonLib, JsonDb, UuidLib}.
Notation cwp := (cwp stepping).
Notation post A := (A -> DB -> list Level -> list (DB * DB) -> Prop).

Lemma insert_session_again id r d d' d1 :
  insert_session_row id r d = Ok d' -> provider_sessions d1 !! id = None -> is_Some (users d1 !! ps_user_id r) ->
  key_unique ps_token_hash (<[id := r]> (provider_sessions d1)) ->
  insert_session_row id r d1 = Ok (set_sessions (<[id := r]> (provider_sessions d1)) d1).
Proof.
  unfold insert_session_row. intros Hi Hn Hu Hk. case_match; [|done]. apply is_some_true in Hu.
  constraints; [by rewrite Hn|]. by rewrite (not_taken_again _ _ _ _ Hn Hk).
Qed.

Lemma cwp_staged reg row (Q : post unit) c tx g :
  (forall c1, env tx c c1 -> Q tt c1 tx g) -> cwp (staged_registry reg row) Q c tx g.
Proof.
  intros HQ. unfold staged_registry, instant. apply cwp_bindE, cwp_at_instant. intros t c1 He1.
  apply cwp_bindE, cwp_at_instant. intros t' c2 He2. destruct (validate_optional_registry _ _ _ _).
  - apply cwp_ret. intros c3 He3. apply HQ.
    eapply env_rely_l; [apply He1|]. eapply env_rely_l; [apply He2|done].
  - do 2 (apply cwp_bindE, cwp_rollback; intros ? _). apply cwp_raise.
Qed.

(** A savepoint of a draft. *)
Lemma cwp_draft_begin {A} (f : unit -> M BrowserError A) Q P ks c lv g :
  draft P ks [] c [lv] -> (forall c1 sp, draft P ks [] c1 [sp; lv] -> cwp (f tt) Q c1 [sp; lv] g) ->
  cwp (bindE begin_tx f) Q c [lv] g.
Proof.
  intros Hd Hf. apply cwp_bindE, cwp_begin. intros c1 He c2 He2. apply (draft_env _ _ _ _ _ _ He) in Hd.
  apply draft_push in Hd. by apply Hf, (draft_env _ _ _ _ _ _ He2).
Qed.

(** What a sign-in publishes, as the specification has it. *)
Lemma google_user_published P ks identity t o u ks' ws c :
  let c1 := with_identity google_issuer_text (vi_subject identity) o u c in
  let c2 := set_profiles (<[u := profile_of identity t]> (user_profiles c1)) c1 in
  identity_rows google_issuer_text (vi_subject identity) o u ks' ws -> ks' ⊆ ks ->
  known P ks c -> Version (RowIdentity google_issuer_text (vi_subject identity)) o ∈ ks -> user_there o u c ->
  unique_identities (external_identities c1) = true ->
  google_user identity t c u c2
  /\ shows (Version (RowProfile u) (Some (profile_of identity t)) :: ws) c c2.
Proof.
  intros c1 c2 Hr Hsub Hk Ho Hth Hu. split; [|apply shows_profile].
  - apply GoogleUser.
    + eapply user_of_published; [exact Hr|exact (in_known _ _ _ (RowIdentity _ _) _ Hk Ho)| |exact Hu].
      intros ->. inversion Hr; subst. exact (in_known _ _ _ (RowUser u) None Hk ltac:(set_solver)).
    + unfold c1. destruct Hr; simpl; [by destruct Hth|]. rewrite lookup_insert_eq. by eexists.
  - by eapply shows_with_identity.
  - destruct Hr; simpl; set_solver.
Qed.

Lemma with_identity_others i s o u (c : DB) :
  provider_sessions (with_identity i s o u c) = provider_sessions c
  /\ browser_authorizations (with_identity i s o u c) = browser_authorizations c.
Proof. by destruct o. Qed.

Lemma signed_in_changes claim identity l reg c a c' : signed_in_by claim identity l reg c a c' -> c <> c'.
Proof.
  intros [id b user raw session csrf secs t now d1 d2 d' _ Hf _ Hg Hs _ Hu] ->.
  destruct (find_claimed_Some _ _ _ _ Hf) as (Hb & _ & Hst).
  assert (Hb2 : browser_authorizations d2 !! id = Some b)
    by by rewrite (insert_session_browser _ _ _ _ Hs), (google_user_browser _ _ _ _ _ Hg).
  rewrite (update_row_row _ _ _ _ _ Hu Hb2) in Hb. injection Hb as Hb.
  apply (f_equal ba_stage) in Hb. by rewrite Hst in Hb.
Qed.

(** The rows of a sign-in: the user and its profile, the session, the request. *)
Definition sign_in_rows (u : Uuid) (p : profile_rec) (sid : Uuid) (r : session_rec) (id : Uuid) (b : browser_rec)
    (ws : list version) : list version :=
  Version (RowBrowser id) (Some b) :: Version (RowSession sid) (Some r) :: Version (RowProfile u) (Some p) :: ws.

Lemma sign_in_published P ks claim identity lifetime reg secs t now o u ks' ws id b sid raw csrf ds ds' d d' c0 c' :
  let r := login_session raw u identity t secs in
  known P ks c0 -> user_there o u c0 -> unique_db c0 = true -> unique_db c' = true ->
  Browser.bounded_seconds lifetime (30 * 24 * 60 * 60) = Ok secs ->
  claimed_by claim id b = true -> registry_accepts reg b -> (now < ba_expires_at b)%Z ->
  identity_rows google_issuer_text (vi_subject identity) o u ks' ws -> ks' ⊆ ks ->
  Version (RowIdentity google_issuer_text (vi_subject identity)) o ∈ ks ->
  Version (RowBrowser id) (Some b) ∈ ks -> Version (RowSession sid) None ∈ ks ->
  insert_session_row sid r ds = Ok ds' ->
  update_browser_row id (signed_in sid (hash csrf)) d = Ok d' -> browser_authorizations d !! id = Some b ->
  shows (sign_in_rows u (profile_of identity t) sid r id (signed_in sid (hash csrf) b) ws) c0 c' ->
  signed_in_by claim identity lifetime reg c0
    {| lg_session := {| se_raw := raw; se_id := sid; se_expires_at := (t + seconds secs)%Z |};
       lg_consent := {| ch_transaction_id := id; ch_csrf := csrf |} |} c'.
Proof.
  intros r Hk Hth Hu0 Hu' Hsecs Hcl Hreg Hnow Hr Hsub Ho Hb Hsn Hs Hu Hbd Hsh.
  set (c1 := with_identity google_issuer_text (vi_subject identity) o u c0).
  set (c2 := set_profiles (<[u := profile_of identity t]> (user_profiles c1)) c1).
  set (c3 := set_sessions (<[sid := r]> (provider_sessions c2)) c2).
  set (b' := signed_in sid (hash csrf) b) in *.
  destruct (with_identity_others google_issuer_text (vi_subject identity) o u c0) as [Hses Hbr].
  pose proof (in_known _ _ _ (RowSession sid) None Hk Hsn) as Hsn0.
  pose proof (in_known _ _ _ (RowBrowser id) _ Hk Hb) as Hb0.
  assert (Hrows : forall x, (forall i s, x <> RowIdentity i s) -> (forall v, x <> RowUser v) -> x ∉ map vn_row ws)
    by (intros x Hi Hx; destruct Hr; simpl; set_solver).
  assert (S2 : shows (Version (RowProfile u) (Some (profile_of identity t)) :: ws) c0 c2).
  { apply shows_profile; [by eapply shows_with_identity|by apply Hrows]. }
  assert (S3 : shows (sign_in_rows u (profile_of identity t) sid r id b' ws) c0
    (set_browser (<[id := b']> (browser_authorizations c3)) c3)).
  { assert (Hn1 : RowSession sid ∉ map vn_row ws) by by apply Hrows.
    assert (Hn2 : RowBrowser id ∉ map vn_row ws) by by apply Hrows.
    apply shows_browser; [apply shows_session; [exact S2|]|]; simpl; set_solver. }
  pose proof (shows_eq _ _ _ _ Hsh S3) as ->.
  pose proof Hu' as Hun. unfold unique_db in Hun. rewrite !andb_true_iff in Hun. destruct_and!.
  destruct (google_user_published P ks identity t o u ks' ws c0 Hr Hsub Hk Ho Hth) as [Hg _]; [done|].
  assert (Hr2 : insert_session_row sid r c2 = Ok c3).
  { eapply insert_session_again; [exact Hs| | |by apply unique_column_key].
    - simpl. unfold c1. by rewrite Hses.
    - unfold c1. simpl. destruct Hr; simpl; [by destruct Hth|]. rewrite lookup_insert_eq. by eexists. }
  apply (SignedInBy claim identity lifetime reg c0 id b u raw sid csrf secs t now c2 c3); try done.
  - by apply find_claimed_known.
  - eapply update_browser_again; [exact Hu|exact Hbd| | |exact Hu'].
    + simpl. unfold c1. by rewrite Hbr.
    + intros s [= <-]. simpl. rewrite lookup_insert_eq. by eexists.
Qed.

(** The session of a sign-in, stored. *)
Lemma cwp_login_session {A} sid raw u identity t secs (f : Z -> M BrowserError A) Q P ks ws c lv below g :
  draft P ks ws c (lv :: below) -> RowSession sid ∉ map vn_row ws ->
  (forall d d' c1 lv1, let r := login_session raw u identity t secs in insert_session_row sid r d = Ok d' ->
     draft P (Version (RowSession sid) None :: ks) (Version (RowSession sid) (Some r) :: ws) c1 (lv1 :: below) ->
     cwp (f (t + seconds secs)%Z) Q c1 (lv1 :: below) g) ->
  cwp (bindE (sql (insert_login_session_stmt sid (hash raw) u t secs (identity_auth_time identity))) f)
    Q c (lv :: below) g.
Proof.
  intros Hd Hn Hf. eapply (cwp_draft_write _ (RowSession sid)); [sound|done|exact Hd|exact Hn|].
  clear c lv Hd. intros clk c0 d x d' c lv _ _ Hsh _ Hx Hd. simpl in Hx. case_match eqn:Hi; simplify_eq.
  eapply (Hf d d'); [exact Hi|]. unfold insert_session_row in Hi. case_match eqn:Hg; simplify_eq. bools_all.
  pose proof (shows_row _ _ _ (RowSession sid) Hsh Hn) as Hrow. simpl in Hrow.
  unfold version_in in Hd. simpl in Hd. rewrite lookup_insert_eq in Hd.
  by replace (provider_sessions c0 !! sid) with (@None session_rec) in Hd by congruence.
Qed.

Lemma complete_callback_bound_takes claim identity lifetime reg c :
  cwp (complete_callback_bound claim identity lifetime reg)
    (fun r _ _ => takes_effect (signed_in_by claim identity lifetime reg) r) c [] [].
Proof.
  unfold complete_callback_bound. apply cwp_bindE, cwp_lift.
  destruct (Browser.bounded_seconds _ _) as [secs|] eqn:Hsecs; [|done]. intros c' _.
  apply cwp_with_tx. intros c1 _. assert (HP : always (fun _ => True) c1) by done. clear c c'.
  rename c1 into c. drafting.
  eapply (cwp_hold_request (fun _ => claimed_by claim) (option_map (fun kv => (kv.1, ba_expires_at kv.2))));
    [intros _ d k b; apply browser_where_locks|exact Hd|intros; apply cwp_raise|].
  clear c lv Hd. intros _ id b c lv Hcl Hd. simpl.
  assert (Hst : ba_stage b = callback_claimed) by (unfold claimed_by in Hcl; by bools_all).
  unfold lock_policy_row. reading [RowBrowser id] prow.
  pose proof (in_known _ _ _ (RowBrowser id) _ Hk ltac:(listed)) as Hb. simpl in Hb. rewrite Hb in Hx, Hd.
  simpl in Hx. simplify_eq. forget.
  checking cwp_registry Hreg.
  unfold random_credential at 1. apply cwp_bindE, cwp_bindE, cwp_random_bytes. intros bytes c1 He1.
  apply cwp_ret. intros c2 He2. apply cwp_bindE, cwp_new_uuid. intros sid c3 He3.
  apply (draft_env _ _ _ _ _ _ He1), (draft_env _ _ _ _ _ _ He2), (draft_env _ _ _ _ _ _ He3) in Hd.
  clear c He1 c1 He2 c2 He3. rename c3 into c. set (raw := b64_encode bytes). clearbody raw. clear bytes.
  assert (Hheld : RowBrowser id ∈ held [lv]).
  { pose proof (dr_kept _ _ _ _ _ Hd) as Hkept. by apply List.Forall_inv in Hkept as []. }
  eapply cwp_draft_begin; [exact Hd|]. clear c Hd. rename lv into lv0. intros c lv Hd.
  unfold lock_verified_google_identity_tx, lock_identity_stmt. fold google_issuer_text.
  reading [RowIdentity google_issuer_text (vi_subject identity)] u. clear u Hx.
  set (o := external_identities c0 !! _) in Hd. clearbody o. forget.
  apply cwp_bindE, cwp_staged. intros c1 He. apply (draft_env _ _ _ _ _ _ He) in Hd. clear c He. rename c1 into c.
  reading (@nil RowId) t. forget.
  eapply cwp_upsert_identity; [exact Hd|listed|]. clear c lv Hd. intros u ks' ws v c lv Hr Hd.
  eapply cwp_login_session; [exact Hd|destruct Hr; simpl; set_solver|]. clear c lv Hd. intros ds ds' c lv r Hs Hd.
  eapply (cwp_draft_read _ (fun _ => [])); [sound|reads|set_solver|exact Hd|].
  clear c lv Hd. intros clk c0 d now c lv _ _ _ _ _ Hd. simpl in Hd. clear clk c0 d.
  case_match eqn:Hg; bools_all.
  - apply (draft_drop _ _ [Version (RowBrowser id) (Some b)]) in Hd; [|set_solver|by repeat constructor].
    apply cwp_bindE, cwp_rollback. cbn [tail]. intros c1 He. apply (draft_env _ _ _ _ _ _ He) in Hd.
    clear c He Hheld. rename c1 into c. next_stage Hst expired_after_claim. intros d d' c lv1 Hu Hb Hd.
    eapply cwp_publish_failure; [exact Hu|exact Hb|exact Hd|listed|]. intros c0 c' Hu0 Hb0 Hup.
    eapply StepSignInLate, SignInLate; [by apply find_claimed_known|exact Hg|exact Hup].
  - apply cwp_bindE, cwp_staged. intros c1 He. apply (draft_env _ _ _ _ _ _ He) in Hd. clear c He. rename c1 into c.
    apply cwp_bindE, cwp_commit_savepoint. intros c1 He. apply draft_merge, (draft_env _ _ _ _ _ _ He) in Hd.
    clear c He. rename c1 into c. generalize dependent (merge_level lv lv0). clear lv. intros lv Hd.
    unfold random_credential. apply cwp_bindE, cwp_bindE, cwp_random_bytes. intros bytes c1 He1.
    apply cwp_ret. intros c2 He2. apply (draft_env _ _ _ _ _ _ He1), (draft_env _ _ _ _ _ _ He2) in Hd.
    clear c He1 c1 He2. rename c2 into c. set (csrf := b64_encode bytes). clearbody csrf.
    eapply (cwp_draft_request_by id b (signed_in sid (hash csrf)) _ 1%nat);
      [|exact Hd|set_solver|destruct Hr; simpl; set_solver|apply with_state_le|rewrite Hst; constructor|].
    { intros c0 d clk _ _ Hbd. simpl. unfold browser_where, update_browser_where.
      by rewrite (sign_in_row _ _ _ Hbd Hst). }
    clear c lv Hd. intros d d' c lv Hu Hb Hd. simpl. checking cwp_registry Hreg'.
    apply cwp_commit_ready; [intros ? ?; apply signed_in_changes|intros ? ?; apply StepSignIn|].
    eexists _, _, _. split; [exact Hd|]. clear c lv Hd. intros c0 c' Hu0 Hu' Hk Hsh.
    pose proof (always_now _ _ (proj1 Hk)) as (_ & Hth & _).
    eapply sign_in_published; [exact Hk|exact Hth|done..|exact Hr|set_solver|set_solver|set_solver|set_solver
      |exact Hs|exact Hu|exact Hb|exact Hsh].
Qed.

(** ** Users alone *)

Lemma user_published P ks i s o u ks' ws c c' :
  identity_rows i s o u ks' ws -> ks' ⊆ ks -> known P ks c -> Version (RowIdentity i s) o ∈ ks ->
  unique_db c' = true -> shows ws c c' -> user_of i s c u c'.
Proof.
  intros Hr Hsub Hk Ho Hu Hsh. pose proof (shows_with_identity _ _ _ _ _ _ c Hr) as S1.
  rewrite (shows_eq _ _ _ _ Hsh S1) in *. unfold unique_db in Hu. rewrite !andb_true_iff in Hu. destruct_and!.
  eapply user_of_published; [exact Hr|exact (in_known _ _ _ (RowIdentity _ _) _ Hk Ho)| |done].
  intros ->. inversion Hr; subst. exact (in_known _ _ _ (RowUser u) None Hk ltac:(set_solver)).
Qed.

Lemma find_or_create_external_identity_steps identity c :
  cwp (find_or_create_external_identity identity) (fun _ _ _ _ => True) c [] [].
Proof.
  unfold find_or_create_external_identity, lock_identity_stmt. apply cwp_with_tx. intros c1 _.
  assert (HP : always (fun _ => True) c1) by done. clear c. rename c1 into c. drafting.
  reading [RowIdentity (ei_issuer identity) (ei_subject identity)] u. clear u Hx.
  set (o := external_identities c0 !! _) in Hd. clearbody o. forget.
  eapply cwp_find_identity; [exact Hd|listed|]. clear c lv Hd. intros u ks' ws c lv Hr Hd.
  apply cwp_commit_step; [|intros; by apply cwp_ret]. eexists _, _, _. split; [exact Hd|].
  intros c0 c' _ Hu Hk Hsh. right; left. eapply StepUser, user_published; [exact Hr| |exact Hk| |exact Hu|exact Hsh];
    set_solver.
Qed.

Lemma find_or_create_verified_google_identity_steps identity c :
  cwp (find_or_create_verified_google_identity identity) (fun _ _ _ _ => True) c [] [].
Proof.
  unfold find_or_create_verified_google_identity, lock_verified_google_identity_tx, lock_identity_stmt.
  fold google_issuer_text. apply cwp_with_tx. intros c1 _.
  assert (HP : always (fun _ => True) c1) by done. clear c. rename c1 into c. drafting.
  reading [RowIdentity google_issuer_text (vi_subject identity)] u. clear u Hx.
  set (o := external_identities c0 !! _) in Hd. clearbody o. forget.
  reading (@nil RowId) t. forget.
  eapply cwp_upsert_identity; [exact Hd|listed|]. clear c lv Hd. intros u ks' ws v c lv Hr Hd.
  apply cwp_commit_step; [|intros; by apply cwp_ret]. eexists _, _, _. split; [exact Hd|].
  intros c0 c' _ Hu Hk Hsh. right; left. pose proof (always_now _ _ (proj1 Hk)) as [Hth _].
  set (c1 := with_identity google_issuer_text (vi_subject identity) o u c0).
  assert (S2 : shows (Version (RowProfile u) (Some (profile_of identity t)) :: ws) c0
    (set_profiles (<[u := profile_of identity t]> (user_profiles c1)) c1)).
  { apply shows_profile; [by eapply shows_with_identity|destruct Hr; simpl; set_solver]. }
  rewrite (shows_eq _ _ _ _ Hsh S2) in *. unfold unique_db in Hu. rewrite !andb_true_iff in Hu. destruct_and!.
  eapply StepGoogleUser, google_user_published; [exact Hr| |exact Hk| |exact Hth|done]; set_solver.
Qed.
End SignIn.
