(* ===== verification/AtomicLogout.v ===== *)
(** * AtomicLogout: revocations and logouts, in a pool

    A revocation and a logout hold the session's row; the end of a session
    revokes it and the families found, in one change. That those are all its
    families is the doing of the exchanges, which hold the session's row too
    (Settling.v), hence [but_families] (Transitions.v). *)

From Stdlib Require Import Ascii ZArith.
From S2P Require Import Prelude External Schema Effects Evolution Identity Cimd OAuth Jose Keys Google Credentials CredentialsSpec CredentialsTheory CredentialsInvariant Database Logout Browser StoresSpec DatabaseTheory LogoutTheory BrowserTheory StoresInvariant Transitions System Concurrency ConcurrencyTheory Pools Confinement Framing Drafts Revoking Atomicity.

Implicit Types (ks ws : list version) (fs : list (Uuid * family_rec)).

(** ** Rows *)

Lemma alter_found {V} (f : V -> V) (m : gmap Uuid V) i x : m !! i = Some x -> alter f i m = <[i := f x]> m.
Proof. intros Hx. apply map_eq. intros j. destruct (decide (i = j)) as [->|Hne]; by simplify_map_eq. Qed.

Lemma shows_logout ws (c d : DB) id r : shows ws c d -> RowLogout id ∉ map vn_row ws ->
  shows (Version (RowLogout id) (Some r) :: ws) c (set_logouts (<[id := r]> (logout_challenges d)) d).
Proof. shows_insert. Qed.
Lemma shows_logout_consumed ws (c d : DB) id l t : shows ws c d -> RowLogout id ∉ map vn_row ws ->
  logout_challenges d !! id = Some l ->
  shows (Version (RowLogout id) (Some (consume_logout t l)) :: ws) c
    (set_logouts (alter (consume_logout t) id (logout_challenges d)) d).
Proof. intros Hs Hn Hl. rewrite (alter_found _ _ _ _ Hl). by apply shows_logout. Qed.
Lemma shows_session_revoked ws (c d : DB) id s t : shows ws c d -> RowSession id ∉ map vn_row ws ->
  provider_sessions d !! id = Some s ->
  shows (Version (RowSession id) (Some (revoke_session t s)) :: ws) c (revoke_session_at id t d).
Proof.
  intros Hsh Hn Hs. unfold revoke_session_at. rewrite (alter_found _ _ _ _ Hs). revert Hsh Hn. clear Hs.
  generalize (revoke_session t s). clear. intros s. shows_insert.
Qed.

Section Logout.
Context `{Crypto, UrlLib, JsonLib, JsonDb, UuidLib}.
Notation cwp := (cwp stepping).
Notation post A := (A -> DB -> list Level -> list (DB * DB) -> Prop).

(** ** Revoking a token *)

Definition client_token (h : string) (fam : Uuid) (client : string) (c : DB) : Prop :=
  exists id m f, refresh_token_members c !! id = Some m /\ rt_token_hash m = h /\ rt_family_id m = fam
    /\ refresh_families c !! fam = Some f /\ rf_client_id f = client.
Lemma always_client_token h id m f c c' :
  member_join_family h c = Some (id, m, f) -> moves c c' ->
  always (client_token h (rt_family_id m) (rf_client_id f)) c'.
Proof.
  intros (Hm & Hf & Hh)%member_join_family_Some Hmv c2 Hmv2. pose proof (transitivity Hmv Hmv2) as Hmc.
  destruct (ev_members _ _ (mv_evolves _ _ Hmc) _ _ Hm) as (m' & Hm' & Hle).
  destruct (ev_families _ _ (mv_evolves _ _ Hmc) _ _ Hf) as (f' & Hf' & Hlf).
  exists id, m', f'. unfold member_le, family_le in *. destruct_and?. split_and!; try done; congruence.
Qed.
Lemma client_token_join h fam client c : unique_db c = true -> client_token h fam client c ->
  exists id m f, member_join_family h c = Some (id, m, f) /\ rt_family_id m = fam /\ rf_client_id f = client.
Proof.
  intros Hu (id & m & f & Hm & <- & <- & Hf & <-). exists id, m, f. split_and!; [|done..].
  eapply (join_known _ id (rt_family_id m) (rf_session_id f)); [done| |done|done].
  by exists m, f.
Qed.

Lemma revoke_refresh_steps raw client c : cwp (revoke_refresh raw client) (fun _ _ _ _ => True) c [] [].
Proof.
  unfold revoke_refresh, lock_session_id, lock_family_id. apply cwp_with_tx. intros c1 _.
  assert (HP : always (fun _ => True) c1) by done. clear c. rename c1 into c. drafting.
  reading (@nil RowId) found. injection Hx as <-.
  assert (Hnone : ConcurrencyTheory.cwp stepping (E:=CredentialError) (commit ;;; ret tt) (fun _ _ _ _ => True) c [lv] []).
  { apply cwp_commit_step; [|intros; by apply cwp_ret]. eexists _, _, _. split; [exact Hd|].
    intros d0 d' _ _ _ Hsh. left. by apply shows_nothing. }
  destruct (member_join_family _ _) as [[[id m] f]|] eqn:Hf; simpl; [|exact Hnone].
  unfold opt_filter. simpl. destruct (rf_client_id f ==? client) eqn:Hcl; [|exact Hnone]. bools_all. clear Hnone.
  apply (draft_learn _ _ _ _ _ _ (always_client_token _ _ _ _ _ _ Hf Hm)) in Hd. clear Hf. forget. simpl.
  reading [RowSession (rf_session_id f)] sid.
  destruct (provider_sessions c0 !! _) as [s|]; [|discriminate]. clear sid Hx. forget.
  reading [RowFamily (rt_family_id m)] u.
  destruct (refresh_families c0 !! _) as [f1|]; [|discriminate]. clear u Hx. forget.
  set (fam := rt_family_id m) in *. clearbody fam.
  eapply (cwp_draft_write _ (RowFamily fam)); [sound|done|exact Hd|apply not_elem_of_nil|].
  clear c lv Hd. intros clk c0 d [] d1 c lv _ _ ->%shows_nothing Hk Hx Hd. simpl in Hx. injection Hx as <-.
  pose proof (in_known _ _ _ (RowFamily fam) _ Hk ltac:(listed)) as Hf1. simpl in Hf1.
  unfold version_in in Hd. simpl in Hd. rewrite lookup_update_rows, Hf1, bool_decide_true in Hd by done. simpl in Hd.
  clear c0 Hk Hf1. set (t := clk) in Hd. clearbody t.
  apply cwp_commit_step; [|intros; by apply cwp_ret]. eexists _, _, _. split; [exact Hd|].
  clear c lv Hd. intros c0 c' Hu _ Hk Hsh. right; left.
  pose proof (in_known _ _ _ (RowFamily fam) _ Hk ltac:(listed)) as Hf1. simpl in Hf1.
  assert (Hp : present [(fam, f1)] c0) by (intros i x [= -> ->]%list_elem_of_singleton; exact Hf1).
  rewrite (shows_eq _ _ _ _ Hsh (shows_revoked [] _ _ [(fam, f1)] t (shows_same _) ltac:(set_solver) Hp)).
  rewrite (revoke_listed_all (fun k _ => k ==? fam)).
  - destruct (always_now _ _ (proj1 Hk)) as [Htok _].
    destruct (client_token_join _ _ _ _ Hu Htok) as (i & m' & f' & Hj & <- & Hc).
    by eapply (StepRevoke _ _ raw client), RevokeFamily; [exact Hj|congruence].
  - intros i x _. rewrite bool_decide_eq_true, rows_of_elem. split.
    + by intros (y & [= -> ->]%list_elem_of_singleton).
    + intros ->. exists f1. listed.
Qed.

(** ** Logout *)

(** The families found are of the session. *)
Lemma revoke_listed_rows s fs t d :
  (forall i f, (i, f) ∈ fs -> refresh_families d !! i = Some f /\ rf_session_id f = s) ->
  revoke_listed fs t d = revoke_rows s (rows_of fs) t d.
Proof.
  intros Hfs. apply revoke_where_ext. intros i f Hf. destruct (bool_decide _) eqn:Hi; [|done].
  apply bool_decide_eq_true, rows_of_elem in Hi as (f' & Hi). destruct (Hfs _ _ Hi) as [Hf' <-].
  rewrite Hf in Hf'. injection Hf' as <-. symmetry. by apply bool_decide_eq_true.
Qed.

Lemma revoked_at s t r (d : DB) :
  provider_sessions d !! s = Some r -> session_revoked (revoke_session_at s t d) s.
Proof.
  intros Hr. eexists _, _. split; [simpl; by rewrite lookup_alter_eq, Hr|]. simpl.
  done.
Qed.

(** What is published of a session that ends. *)
Lemma session_end_published P ks ws fs s t d c0 c' :
  known P ks c0 -> as_found fs ⊆ ks -> (forall i, RowFamily i ∉ map vn_row ws) ->
  (forall i f, (i, f) ∈ fs -> rf_session_id f = s) ->
  shows ws c0 d -> refresh_families d = refresh_families c0 -> shows (as_revoked t fs ++ ws) c0 c' ->
  c' = revoke_rows s (rows_of fs) t d.
Proof.
  intros Hk Hsub Hn Hfs Hd Heq Hsh. pose proof (known_present _ _ _ _ Hk Hsub) as Hp.
  rewrite (shows_eq _ _ _ _ Hsh (shows_revoked _ _ _ _ t Hd Hn Hp)).
  apply revoke_listed_rows. intros i f Hi. rewrite Heq. split; [by apply Hp|by eapply Hfs].
Qed.

Lemma logout_steps session c : cwp (logout session) (fun _ _ _ _ => True) c [] [].
Proof.
  unfold logout, lock_session_id. apply cwp_with_tx. intros c1 _.
  assert (HP : always (fun _ => True) c1) by done. clear c. rename c1 into c. drafting.
  set (sid := se_id session). reading [RowSession sid] x.
  destruct (provider_sessions c0 !! _) as [s|]; [|discriminate]. clear x Hx. forget.
  eapply (cwp_draft_write _ (RowSession sid)); [sound|done|exact Hd|apply not_elem_of_nil|].
  clear c lv Hd. intros clk c0 d [] d1 c lv _ _ ->%shows_nothing Hk Hx Hd. simpl in Hx. injection Hx as <-.
  pose proof (in_known _ _ _ (RowSession sid) _ Hk ltac:(listed)) as Hs. simpl in Hs.
  unfold version_in in Hd. simpl in Hd. rewrite lookup_alter_eq, Hs in Hd. simpl in Hd.
  set (t' := clk sid) in Hd. clearbody t'. clear clk c0 Hk Hs.
  eapply (cwp_draft_revoke _ (fun _ f => rf_session_id f ==? sid) (fun clk => clk));
    [sound|done|by intros; simplify_eq/=|exact Hd|by intros i Hi; simpl in Hi; set_solver|].
  clear c lv Hd. intros clk c0 d [] c lv _ _ _ _ fs t Hd.
  assert (Hfs : forall i f, (i, f) ∈ fs -> rf_session_id f = sid) by (intros i f [_ Hi]%found_families_elem; by bools_all).
  clearbody fs t. clear clk c0 d.
  apply cwp_commit_step; [|intros; by apply cwp_ret]. eexists _, _, _. split; [exact Hd|].
  clear c lv Hd. intros c0 c' _ _ Hk Hsh.
  assert (Hs : provider_sessions c0 !! sid = Some s) by (apply (in_known _ _ _ (RowSession sid) _ Hk); set_solver).
  right; right. exists sid, t, (rows_of fs), (revoke_session_at sid t' c0). split_and!; [by eapply revoked_at| |].
  - by eapply StepLogout, LoggedOut.
  - eapply session_end_published; [exact Hk|set_solver| |exact Hfs| |done|exact Hsh];
      [intros i Hi; simpl in Hi; set_solver|]. apply shows_session_revoked; [apply shows_same|apply not_elem_of_nil|done].
Qed.

(** ** Asking to log out *)

Lemma insert_logout_inv id r d d' : insert_logout_row id r d = Ok d' ->
  logout_challenges d !! id = None /\ d' = set_logouts (<[id := r]> (logout_challenges d)) d.
Proof. unfold insert_logout_row. intros. case_match eqn:Hg; simplify_eq. bools_all. by split_and!. Qed.
Lemma insert_logout_again id r d d' d1 :
  insert_logout_row id r d = Ok d' -> logout_challenges d1 !! id = None ->
  is_Some (provider_sessions d1 !! lc_session_id r) ->
  insert_logout_row id r d1 = Ok (set_logouts (<[id := r]> (logout_challenges d1)) d1).
Proof.
  unfold insert_logout_row. intros Hi Hn Hs. case_match; [|done]. apply is_some_true in Hs.
  constraints. by rewrite Hn.
Qed.

Lemma logout_insert_takes session client uri st c :
  cwp (Logout.insert session client uri st)
    (fun a _ _ => takes_effect (logout_asked session client uri st) a) c [] [].
Proof.
  unfold Logout.insert, random_credential, lock_session_state. apply cwp_bindE, cwp_new_uuid. intros id x1 _.
  apply cwp_bindE, cwp_bindE, cwp_random_bytes. intros bytes x2 _. apply cwp_ret. intros x3 _.
  set (csrf := b64_encode bytes). clearbody csrf.
  apply cwp_with_tx. intros c' _. assert (HP : always (fun _ => True) c') by done. clear c. rename c' into c.
  drafting. set (sid := se_id session). reading [RowSession sid] active.
  destruct (provider_sessions c0 !! sid) as [s|]; simplify_eq/=; forget; [|reading (@nil RowId) now; apply cwp_raise].
  reading (@nil RowId) now. forget. case_match eqn:Hg; [apply cwp_raise|]. bools_all.
  eapply (cwp_draft_write _ (RowLogout id)); [sound|done|exact Hd|apply not_elem_of_nil|].
  clear c lv Hd. intros clk c0 d [] d1 c lv _ _ ->%shows_nothing Hk Hx Hd. simpl in Hx. case_match eqn:Hi; simplify_eq.
  fold (asked_row csrf sid client uri st (clk 0%N)) in Hi. set (r := asked_row _ _ _ _ _ _) in Hi.
  destruct (insert_logout_inv _ _ _ _ Hi) as [Hn Heq].
  assert (Hv : version_in d1 (RowLogout id) = Version (RowLogout id) (Some r))
    by (rewrite Heq; unfold version_in; simpl; by rewrite lookup_insert_eq).
  rewrite Hv in Hd. unfold version_in in Hd. simpl in Hd. rewrite Hn in Hd. clear Hn Hk Hv Heq.
  apply cwp_commit_ready; [|intros ? ?; apply StepAsk|].
  - intros ? ? [? ? ? ? ? ? _ Hi'] ->. destruct (insert_logout_inv _ _ _ _ Hi') as [Hn Heq].
    apply (f_equal logout_challenges) in Heq. simpl in Heq. by rewrite Heq, lookup_insert_eq in Hn.
  - eexists _, _, _. split; [exact Hd|]. clear c lv Hd. intros d2 d3 _ _ Hk Hsh.
    assert (Hs : provider_sessions d2 !! sid = Some s) by (apply (in_known _ _ _ (RowSession sid) _ Hk); set_solver).
    eapply (LogoutAsked _ _ _ _ _ id csrf s now (clk 0%N)); [by split_and!|].
    rewrite (shows_eq _ _ _ _ Hsh (shows_logout [] _ _ id r (shows_same _) ltac:(apply not_elem_of_nil))).
    eapply insert_logout_again; [exact Hi|exact (in_known _ _ _ (RowLogout id) None Hk ltac:(set_solver))|by exists s].
Qed.

Lemma begin_takes session client uri st reg c :
  cwp (Logout.begin session client uri st reg)
    (fun a _ _ => takes_effect (logout_asked session client uri st) a) c [] [].
Proof. unfold Logout.begin. case_match; [apply cwp_raise|apply logout_insert_takes]. Qed.

Lemma begin_local_takes session uri c :
  cwp (begin_local session uri)
    (fun a _ _ => takes_effect (logout_asked session EmptyString uri None) a) c [] [].
Proof. unfold begin_local. apply logout_insert_takes. Qed.

(** ** Finishing a logout *)

Definition challenge_open (session : ProviderSession) (ch : LogoutChallenge) (reg : ClientRegistry)
    (s : session_rec) (l : logout_rec) (now : Z) : Prop :=
  forall d, provider_sessions d !! se_id session = Some s -> logout_challenges d !! lch_id ch = Some l ->
    logout_open session ch reg d s l now.

Lemma session_ended_changes id sid now (c : DB) l s rows t t' :
  logout_challenges c !! id = Some l -> lc_consumed_at l = None ->
  c <> revoke_rows s rows t (revoke_session_at sid t' (set_logouts (alter (consume_logout now) id (logout_challenges c)) c)).
Proof.
  intros Hl Hn Hc. apply (f_equal (fun d => logout_challenges d !! id)) in Hc. simpl in Hc.
  rewrite lookup_alter_eq, Hl in Hc. injection Hc as Hc. apply (f_equal lc_consumed_at) in Hc. by rewrite Hn in Hc.
Qed.

Lemma cwp_end_session session ch reg hint s l now P ks c lv :
  draft P ks [] c [lv] -> Version (RowSession (se_id session)) (Some s) ∈ ks ->
  Version (RowLogout (lch_id ch)) (Some l) ∈ ks -> challenge_open session ch reg s l now ->
  (hint = None \/ hint_verdict reg session s l now hint = Some HintAccepted) ->
  cwp (end_session_tx (lch_id ch) (se_id session) (logout_row_of l) now)
    (fun a _ _ => takes_effect (logout_finished session ch reg hint) a) c [lv] [].
Proof.
  intros Hd Hs Hl Ho Hh. unfold end_session_tx. set (sid := se_id session) in *. set (id := lch_id ch) in *.
  eapply (cwp_draft_write _ (RowLogout id)); [sound|done|exact Hd|apply not_elem_of_nil|].
  clear c lv Hd. intros clk c0 d [] d1 c lv _ _ ->%shows_nothing Hk Hx Hd. simpl in Hx. injection Hx as <-.
  pose proof (in_known _ _ _ (RowLogout id) _ Hk Hl) as Hl0. simpl in Hl0.
  unfold version_in in Hd. simpl in Hd. rewrite lookup_alter_eq, Hl0 in Hd. simpl in Hd. clear clk c0 Hk Hl0.
  eapply (cwp_draft_write _ (RowSession sid)); [sound|done|exact Hd|simpl; set_solver|].
  clear c lv Hd. intros clk c0 d [] d1 c lv _ _ Hsh Hk Hx Hd. simpl in Hx. injection Hx as <-.
  pose proof (in_known _ _ _ (RowSession sid) (Some s) Hk ltac:(set_solver)) as Hs0. simpl in Hs0.
  pose proof (shows_row _ _ _ (RowSession sid) Hsh ltac:(simpl; set_solver)) as Hrow. simpl in Hrow.
  unfold version_in in Hd. simpl in Hd. rewrite lookup_alter_eq, Hrow, Hs0 in Hd. simpl in Hd.
  clear clk c0 d Hsh Hk Hs0 Hrow.
  eapply (cwp_draft_revoke _ (fun _ f => rf_session_id f ==? sid) (fun _ _ => now));
    [sound|done|by intros; simplify_eq/=|exact Hd|by intros i Hi; simpl in Hi; set_solver|].
  clear c lv Hd. intros clk c0 d [] c lv _ _ _ _ fs t Hd.
  assert (Hfs : forall i f, (i, f) ∈ fs -> rf_session_id f = sid) by (intros i f [_ Hi]%found_families_elem; by bools_all).
  clearbody fs. change t with (fun _ : Uuid => now) in Hd. clear clk t c0 d.
  eapply (cwp_commit_as (fun c0 c' => c0 <> c' /\ _ c0 c')); [intros c0 c' Hc; exact Hc|intros ? ?; apply StepFinish|].
  eexists _, _, _. split; [exact Hd|]. clear c lv Hd. intros c0 c' _ _ Hk Hsh.
  assert (Hs0 : provider_sessions c0 !! sid = Some s) by (apply (in_known _ _ _ (RowSession sid) _ Hk); set_solver).
  assert (Hl0 : logout_challenges c0 !! id = Some l) by (apply (in_known _ _ _ (RowLogout id) _ Hk); set_solver).
  pose proof (Ho _ Hs0 Hl0) as Hopen. pose proof Hopen as (_ & _ & _ & _ & Hcons & _).
  set (d := revoke_session_at sid now (set_logouts (alter (consume_logout now) id (logout_challenges c0)) c0)).
  assert (c' = revoke_rows sid (rows_of fs) (fun _ => now) d) as ->.
  { eapply session_end_published; [exact Hk|set_solver| |exact Hfs| |done|exact Hsh];
      [intros i Hi; simpl in Hi; set_solver|].
    apply shows_session_revoked; [|simpl; set_solver|exact Hs0].
    apply shows_logout_consumed; [apply shows_same|apply not_elem_of_nil|exact Hl0]. }
  split; [by eapply session_ended_changes|]. right. exists sid, (fun _ => now), (rows_of fs), d.
  split_and!; [by eapply revoked_at| |done]. by eapply (LogoutDone session ch reg hint).
Qed.

(** The rows of the challenge that its look-up locks, when it answers one. *)
Definition logout_found (ch : LogoutChallenge) (row : option LogoutRow) : list RowId :=
  match row with Some _ => [RowLogout (lch_id ch)] | None => [] end.
Lemma logout_where_found session ch clk d row d' :
  exec (lock_logout_row (lch_id ch) (se_id session) (lch_csrf ch)) clk d = Ok (row, d') ->
  logout_found ch row ⊆ logout_where (lch_id ch) (se_id session) (lch_csrf ch) d.
Proof.
  intros [= <- _]. unfold logout_where. destruct (find_row _ _) as [[k l]|] eqn:Hf; [|done].
  apply find_row_Some in Hf as [_ Hm]. unfold logout_matches in Hm. bools_all. by subst k.
Qed.

Lemma finish_inner_takes session ch reg hint c :
  cwp (finish_inner session ch reg hint)
    (fun a _ _ l => is_Some a -> takes_effect (logout_finished session ch reg hint) a l) c [] [].
Proof.
  unfold finish_inner, lock_logout_session, lock_logout_row.
  apply (cwp_with_tx stepping _ (fun a l => is_Some a -> takes_effect (logout_finished session ch reg hint) a l)).
  intros c1 _. assert (HP : always (fun _ => True) c1) by done. clear c. rename c1 into c. drafting.
  reading [RowSession (se_id session)] srow.
  destruct (provider_sessions c0 !! _) as [s|]; simplify_eq/=; [|apply cwp_raise]. forget.
  reading_found (logout_found ch) row; [exact (fun clk d r => logout_where_found session ch clk d r d)|].
  destruct (find_row _ _) as [[k l]|] eqn:Hf; simplify_eq/=; [|apply cwp_raise].
  apply find_row_Some in Hf as [Hl Hm']. unfold logout_matches in Hm'. bools_all. subst k. rewrite Hl in Hd. forget.
  reading (@nil RowId) now. forget. case_match eqn:Hg; [apply cwp_raise|]. bools_all.
  assert (Ho : challenge_open session ch reg s l now).
  { intros d Hs Hld. split_and!; try done. rewrite andb_false_iff, !negb_false_iff, str_empty_true in *. done. }
  change (option_map _ hint) with (hint_verdict reg session s l now hint).
  assert (Hend : hint = None \/ hint_verdict reg session s l now hint = Some HintAccepted ->
    cwp (end_session_tx (lch_id ch) (se_id session) (logout_row_of l) now)
      (fun a _ _ l => is_Some a -> takes_effect (logout_finished session ch reg hint) a l) c [lv] []).
  { intros Hh. eapply inter_mono; [eapply cwp_end_session; [exact Hd|listed|listed|exact Ho|exact Hh]|].
    by intros []. }
  destruct hint as [h|]; [|apply Hend; by left]. simpl in *. destruct (judge_hint _ _ _ _ _ h) eqn:Hj.
  - apply cwp_raise.
  - apply cwp_ret. intros ? _ []. done.
  - apply Hend. by right.
Qed.

Lemma finish_takes session ch reg c :
  cwp (finish session ch reg)
    (fun a _ _ => takes_effect (fun c a c' => logout_finished session ch reg None c (Some a) c') a) c [] [].
Proof.
  unfold finish. apply cwp_bindE. eapply inter_mono; [apply finish_inner_takes|].
  intros [[a|]|e] c' tx g Hg; [|apply cwp_raise|done]. apply cwp_ret. intros c1 _.
  destruct (Hg ltac:(by eexists)) as (c2 & c3 & -> & Hc). by exists c2, c3.
Qed.
End Logout.
