(* ===== verification/Readers.v ===== *)
(** * Readers: operations that change nothing

    Programs whose statements only read, in transactions that they commit all
    the same: what they publish is the database as it was. *)

From Stdlib Require Import Ascii ZArith.
From S2P Require Import Prelude External Schema Effects Evolution Identity Cimd OAuth Jose Keys Google Credentials CredentialsTheory Database Logout Browser StoresSpec DatabaseTheory LogoutTheory BrowserTheory StoresInvariant Concurrency ConcurrencyTheory Confinement Drafts.

(** ** Parts, whatever is asked of the statements *)

Section Parts.
Context `{Crypto, UrlLib, JsonLib, JsonDb, UuidLib}.
Lemma or_invalid_stmts P {A} (o : option A) : stmts_ok P (or_invalid o).
Proof. by destruct o. Qed.
Lemma decoded_stmts P {A} (o : option A) : stmts_ok P (decoded o).
Proof. by destruct o. Qed.
Lemma check_binding_tx_stmts P reg client b : stmts_ok P (check_binding_tx reg client b).
Proof. unfold check_binding_tx. solve_stmts. Qed.
Lemma check_policy_tx_stmts P reg client uri code res : stmts_ok P (check_policy_tx reg client uri code res).
Proof. unfold check_policy_tx. solve_stmts. Qed.
Lemma grant_fresh_tx_stmts P g : stmts_ok P (grant_fresh_tx g).
Proof. unfold grant_fresh_tx. solve_stmts. Qed.
Lemma checked_registry_stmts P reg row : stmts_ok P (checked_registry reg row).
Proof. unfold checked_registry, instant. solve_stmts. Qed.
Lemma checked_revalidate_stmts P reg row : stmts_ok P (checked_revalidate reg row).
Proof. unfold checked_revalidate, instant. solve_stmts. Qed.
Lemma staged_registry_stmts P reg row : stmts_ok P (staged_registry reg row).
Proof. unfold staged_registry, instant. solve_stmts. Qed.
Lemma checked_approve_stmts P p : stmts_ok P (checked_approve p).
Proof. unfold checked_approve, instant. solve_stmts. Qed.
Lemma checked_fresh_stmts P p : stmts_ok P (checked_fresh p).
Proof. unfold checked_fresh, instant. solve_stmts. Qed.
End Parts.
#[export] Hint Resolve or_invalid_stmts decoded_stmts check_binding_tx_stmts check_policy_tx_stmts
  grant_fresh_tx_stmts checked_registry_stmts checked_fresh_stmts checked_revalidate_stmts
  staged_registry_stmts checked_approve_stmts : stmts.

(** Down to the statements and the parts above. *)
Ltac unfold_operation :=
  unfold create_provider_session, find_provider_session, issue_authorization_code,
    exchange_code_request, exchange_code_bound, rotate_refresh_request, rotate_refresh_bound,
    revoke_refresh, logout, transaction_client_id, callback_client_id,
    begin_google_with_pre_authorization, start_google, cancel_google_bound,
    begin_authenticated_with_pre_authorization, session_upstream_auth_time, claim_callback,
    fail_callback, deny_callback, complete_callback_bound, approve, approve_pre_authorized,
    consent_view, deny_bound, begin, begin_local, Logout.insert, finish, finish_inner,
    find_or_create_external_identity, find_or_create_verified_google_identity, user_profile;
  unfold random_credential, insert_refresh, insert_authorization_code_tx, replay_code_tx,
    start_family_tx, replay_refresh_tx, lock_session, lock_consent, Browser.ensure_fresh,
    store_approval, deny_callback_stmt, end_session_tx, find_or_insert_identity,
    lock_verified_google_identity_tx, upsert_verified_google_identity_tx.

(** ** Readers *)

(** A statement that reads, and may lock what it reads. *)
Definition read_only (R : Type) (s : stmt R) : Prop := Drafts.reads R s /\ sound_stmt R s.

Lemma read_only_select {R} (f : (Uuid -> Z) -> DB -> R) : read_only R (select f).
Proof. split; [apply reads_select|]. intros v. apply quiet_sound, quiet_select. Qed.
Lemma read_only_for_update {R} lk (f : (Uuid -> Z) -> DB -> R) : read_only R (select_for_update lk f).
Proof. split; [apply reads_for_update|apply sound_for_update]. Qed.
Lemma read_only_fetch_one {R} (s : stmt (option R)) : read_only _ s -> read_only R (fetch_one s).
Proof. intros []. split; [by apply reads_fetch_one|by apply sound_fetch_one]. Qed.
#[export] Hint Resolve read_only_select read_only_for_update read_only_fetch_one : stmts.

(** Every level shows the committed database. *)
Fixpoint clean (c : DB) (tx : list Level) : Prop :=
  tx_view c tx = c /\ match tx with [] => True | _ :: below => clean c below end.

Lemma clean_view c tx : clean c tx -> tx_view c tx = c.
Proof. by destruct tx; intros []. Qed.
Lemma clean_tail c tx : clean c tx -> clean c (tail tx).
Proof. by destruct tx; intros []. Qed.
Lemma clean_push c tx : clean c tx -> clean c (push_level c tx).
Proof. intros Hc. pose proof (push_view c tx) as Hv. rewrite (clean_view _ _ Hc) in Hv. by split. Qed.
Lemma clean_merge c lv lv' below : clean c (lv :: lv' :: below) -> clean c (merge_level lv lv' :: below).
Proof. intros (Hv & _ & Hb). rewrite <- merge_view in Hv. by split. Qed.
Lemma clean_rely tx c c1 : rely tx c c1 -> clean c tx -> clean c1 tx.
Proof.
  induction tx as [|lv below IH]; intros Hr [Hv Hb]; [done|]. split; [|by eapply IH; [apply (rely_below _ _ _ _ Hr)|]].
  apply (unwritten_rely (lv :: lv :: below) c); [|exact Hv]. destruct Hr as [Hm Ha].
  split; [done|]. intros r Hin. apply Ha. rewrite !held_cons in *. set_solver.
Qed.

(** Whatever its ledger allows, a reader is allowed. *)
Lemma inter_reads {A G} (L : Ledger G) (p : prog A) c tx g :
  stmts_ok read_only p -> clean c tx -> inter L (fun _ _ _ _ => True) p c tx g.
Proof.
  revert c tx g. induction p as [a|R s k IH|k IH|k IH|k IH|k IH|k IH|k IH|k IH|k IH]; intros c tx g Hp Hc;
    simpl in Hp; try destruct Hp as [[Hr Hs] Hp];
    [by apply inter_pure|apply inter_quiet; [done|by intros; try apply Hs|]; intros c1 busy ch p' tx' c' [He _ _] Ha;
     apply (clean_rely _ _ _ He) in Hc; pose proof (clean_view _ _ Hc) as Hv..]; cbn [advance] in Ha.
  - rewrite Hv in Ha. destruct (ch_fault ch); simplify_eq/=; [|by auto|];
      (destruct (waits _ _); [done|]; destruct (exec s _ c1) as [[r v']|e] eqn:Hx; [|by simplify_eq; auto];
       apply Hr in Hx as ->; destruct tx as [|lv below]; [by case_match; simplify_eq; auto|]; simplify_eq;
       split; [done|]; apply IH; [done|]; split; [|apply Hc]; by apply db_ext; intros r'; rewrite tx_view_get; case_match).
  - destruct (ch_fault ch); simplify_eq; auto using clean_push.
  - destruct tx as [|lv [|lv' below]]; [by simplify_eq; auto|..].
    + destruct (ch_fault ch); simplify_eq; rewrite ?Hv in *; try case_match; simplify_eq;
        (split; [done|]; apply IH; [done|by split]).
    + destruct (ch_fault ch); simplify_eq; (split; [done|]); apply IH; auto using clean_merge; apply (clean_tail _ _ Hc).
  - simplify_eq. auto using clean_tail.
  - simplify_eq. split; [done|]. by apply IH.
  - simplify_eq; auto.
  - simplify_eq; auto.
  - simplify_eq; auto.
  - simplify_eq; auto.
Qed.

Section Operations.
Context `{Crypto, UrlLib, JsonLib, JsonDb, UuidLib}.

Ltac reader := unfold_operation; intros; apply inter_reads; [solve_stmts|done].

Section Ledger.
Context {G : Type} (L : Ledger G).
Notation unchanging p := (forall c g, inter L (fun _ _ _ _ => True) p c [] g).

Lemma find_provider_session_reads raw : unchanging (find_provider_session raw).
Proof. reader. Qed.
Lemma transaction_client_id_reads id : unchanging (transaction_client_id id).
Proof. reader. Qed.
Lemma callback_client_id_reads claim : unchanging (callback_client_id claim).
Proof. reader. Qed.
Lemma session_upstream_auth_time_reads session : unchanging (session_upstream_auth_time session).
Proof. reader. Qed.
Lemma consent_view_reads session handle reg : unchanging (consent_view session handle reg).
Proof. reader. Qed.
Lemma user_profile_reads user : unchanging (user_profile user).
Proof. reader. Qed.
End Ledger.
End Operations.
