(* ===== verification/Politeness.v ===== *)
(** * Politeness: what each operation does, however the others move

    It publishes transitions of the stores and nothing else; so it keeps what
    the others count on: no operation removes a row, rebinds a grant, undoes
    a consumption or a revocation, or takes a request back to a stage it
    left. *)

From Stdlib Require Import Ascii ZArith.
From S2P Require Import Prelude External Schema Effects Evolution Identity Cimd OAuth Jose Keys Google Credentials CredentialsSpec CredentialsTheory CredentialsInvariant Database Logout Browser StoresSpec DatabaseTheory LogoutTheory BrowserTheory StoresInvariant Transitions System Concurrency ConcurrencyTheory Pools Confinement Drafts Atomicity Promises AtomicConsent AtomicBrowser AtomicSignIn AtomicLogout Readers.

Section Polite.
Context `{Crypto, UrlLib, JsonLib, JsonDb, UuidLib}.

(** However the others move, it publishes transitions only. *)
Definition stepwise {A} (p : prog A) : Prop := forall c, inter stepping (fun _ _ _ _ => True) p c [] [].

Lemma takes_stepwise {E A} (m : M E A) (Q : A -> DB -> list Level -> list (DB * DB) -> Prop) c :
  cwp stepping m Q c [] [] -> inter stepping (fun _ _ _ _ => True) m c [] [].
Proof. intros Hm. by eapply inter_mono. Qed.

Lemma operation_steps {A} (p : prog A) : operation A p -> stepwise p.
Proof.
  intros Hp c. destruct Hp.
  all: first
    [ apply find_provider_session_reads | apply transaction_client_id_reads | apply callback_client_id_reads
    | apply session_upstream_auth_time_reads | apply consent_view_reads | apply user_profile_reads | idtac ].
  all: apply takes_stepwise with (Q := fun _ _ _ _ => True); eapply inter_mono; [|by intros []].
  - apply create_provider_session_takes.
  - apply issue_authorization_code_takes.
  - by apply (exchange_code_bound_takes (fun _ => True)).
  - apply exchange_code_request_takes.
  - by apply (rotate_refresh_bound_takes (fun _ => True)).
  - apply rotate_refresh_request_takes.
  - apply revoke_refresh_steps.
  - apply logout_steps.
  - apply begin_google_takes.
  - apply start_google_takes.
  - apply cancel_google_bound_takes.
  - apply begin_authenticated_takes.
  - apply claim_callback_takes.
  - apply fail_callback_takes.
  - apply deny_callback_takes.
  - apply complete_callback_bound_takes.
  - apply approve_takes.
  - apply approve_pre_authorized_takes.
  - apply deny_bound_takes.
  - apply begin_takes.
  - apply begin_local_takes.
  - apply finish_takes.
  - apply finish_inner_takes.
  - apply find_or_create_external_identity_steps.
  - apply find_or_create_verified_google_identity_steps.
Qed.

(** Only fine statements, whatever the others do. *)
Definition polite {A} (p : prog A) : Prop := forall c, inter blank (fun _ _ _ _ => True) p c [] ().

Lemma stepwise_polite {A} (p : prog A) : stepwise p -> polite p.
Proof. intros Hp c. eapply inter_ledger; [apply _|apply Hp]. Qed.
Lemma operation_polite {A} (p : prog A) : operation A p -> polite p.
Proof. intros Hp. by apply stepwise_polite, operation_steps. Qed.
End Polite.
