(* ===== verification/Revocation.v ===== *)
(** * Revocation: sessions and their refresh families, in a pool

    No row order says it: that a revoked session has no live family holds of
    the committed database because whoever adds a family holds its session's
    row, and whoever revokes a session revokes its families before it
    commits. A program settles when it keeps to that. *)

From Stdlib Require Import Ascii ZArith.
From S2P Require Import Prelude External Schema Effects Evolution Identity Cimd OAuth Jose Keys Google Credentials CredentialsSpec CredentialsTheory CredentialsInvariant Database Logout Browser StoresSpec DatabaseTheory LogoutTheory BrowserTheory StoresInvariant System Concurrency ConcurrencyTheory Pools Confinement Framing Contest Contenders Deciders Politeness.

(** ** What the others keep *)

(** No family is added to a session of the list. *)
Definition fam_keeps (rows : list RowId) (c c' : DB) : Prop :=
  forall i f, refresh_families c' !! i = Some f -> RowSession (rf_session_id f) ∈ rows ->
    is_Some (refresh_families c !! i).

(** What the others leave to a transaction. *)
Record senv (tx : list Level) (c c' : DB) : Prop := {
  se_env : env tx c c';
  se_keeps : fam_keeps (held tx) c c';
  se_inv : revoked_together c';
}.

Lemma session_revoked_row d d' s :
  row_get (RowSession s) d' = row_get (RowSession s) d -> session_revoked d s -> session_revoked d' s.
Proof. intros Hr (r & t & Hs & Ht). exists r, t. split; [|done]. etrans; [exact Hr|done]. Qed.
Lemma session_revoked_back d d' s :
  row_get (RowSession s) d' = row_get (RowSession s) d -> session_revoked d' s -> session_revoked d s.
Proof. intros Hr. by apply session_revoked_row. Qed.
Lemma family_moves d d' i f : moves d d' -> refresh_families d !! i = Some f ->
  exists f', refresh_families d' !! i = Some f' /\ rf_session_id f' = rf_session_id f.
Proof.
  intros [He _] Hf. destruct (ev_families _ _ He _ _ Hf) as (f' & Hf' & Hle). exists f'.
  unfold family_le in Hle. by destruct_and?.
Qed.

(** ** Transactions that revoke no session *)

(** Seen from the committed database, the transaction revokes no session,
    and adds families only to live sessions it holds. *)
Record steady (c : DB) (tx : list Level) : Prop := {
  sy_sessions : forall s, session_revoked (tx_view c tx) s -> session_revoked c s;
  sy_families : forall i f, refresh_families (tx_view c tx) !! i = Some f ->
    is_Some (refresh_families c !! i)
    \/ (RowSession (rf_session_id f) ∈ held tx /\ ~ session_revoked c (rf_session_id f));
}.
Fixpoint steady_all (c : DB) (tx : list Level) : Prop :=
  match tx with
  | [] => True
  | lv :: below => steady c (lv :: below) /\ steady_all c below
  end.

Lemma steady_nil c : steady c [].
Proof. split; [done|]. intros i f Hf. left. by exists f. Qed.
Lemma steady_top c tx : steady_all c tx -> steady c tx.
Proof. destruct tx; [by intros _; apply steady_nil|by intros []]. Qed.
Lemma steady_tail c tx : steady_all c tx -> steady_all c (tail tx).
Proof. destruct tx; [done|by intros []]. Qed.

Lemma steady_env tx c c1 : rely tx c c1 -> steady c tx -> steady c1 tx.
Proof.
  intros Hr [Hs Hf]. pose proof Hr as [Hm Ha]. split.
  - intros s Hv. destruct (decide (RowSession s ∈ held tx)) as [Hh|Hh].
    + apply (session_revoked_back _ _ _ (tx_view_rely _ _ _ _ Hr Hh)) in Hv.
      by apply (session_revoked_moves _ _ _ Hm), Hs.
    + exact (session_revoked_back _ _ _ (tx_view_free _ _ _ Hh) Hv).
  - intros i f Hv. destruct (decide (RowFamily i ∈ held tx)) as [Hh|Hh].
    + pose proof (tx_view_rely _ _ _ (RowFamily i) Hr Hh) as He. simpl in He. rewrite He in Hv.
      destruct (Hf _ _ Hv) as [[f0 Hf0]|[Hs0 Hl]].
      * left. destruct (family_moves _ _ _ _ Hm Hf0) as (f1 & Hf1 & _). by exists f1.
      * right. split; [done|]. intros Hl1. apply Hl. eapply session_revoked_back; [by apply Ha|done].
    + left. exists f. rewrite <- Hv. symmetry. exact (tx_view_free _ c1 (RowFamily i) Hh).
Qed.
Lemma steady_all_env tx c c1 : rely tx c c1 -> steady_all c tx -> steady_all c1 tx.
Proof.
  induction tx as [|lv below IH]; [done|]. intros Hr [Ht Hb].
  split; [by eapply steady_env|]. by eapply IH; [eapply rely_below|].
Qed.

(** It can commit. *)
Lemma steady_inv c tx : moves c (tx_view c tx) -> steady c tx -> revoked_together c -> revoked_together (tx_view c tx).
Proof.
  intros Hm [Hs Hf] Hc i f Hi Hr. apply Hs in Hr. apply (family_revoked_moves _ _ _ Hm).
  destruct (Hf _ _ Hi) as [[f0 Hf0]|[_ Hl]]; [|done].
  destruct (family_moves _ _ _ _ Hm Hf0) as (f1 & Hf1 & He). assert (f1 = f) as -> by congruence.
  eapply Hc; [exact Hf0|congruence].
Qed.
Lemma steady_keeps busy c tx : steady c tx -> apart (held tx) busy -> fam_keeps busy c (tx_view c tx).
Proof. intros [_ Hf] Ha i f Hi Hb. destruct (Hf _ _ Hi) as [?|[Hh _]]; [done|by destruct (Ha _ Hh)]. Qed.

(** ** Statements that revoke no session and add no family *)

Definition neutral (v v' : DB) : Prop :=
  (forall i f, refresh_families v' !! i = Some f -> is_Some (refresh_families v !! i))
  /\ (forall s, session_revoked v' s -> session_revoked v s).
Notation neutral_stmt := (stmt_steps neutral).

Lemma neutral_refl d : neutral d d.
Proof. split; [|done]. intros i f Hf. by exists f. Qed.
#[export] Instance neutral_preorder : PreOrder neutral.
Proof.
  split; [exact neutral_refl|]. intros d1 d2 d3 [F1 S1] [F2 S2]. split; [|auto].
  intros i f Hf. destruct (F2 _ _ Hf) as [f2 Hf2]. eauto.
Qed.

Section Statement.
Context {R : Type} (s : stmt R) (c : DB) (clk : Uuid -> Z) (r : R) (v' : DB).

Lemma neutral_steady lv below :
  let tx := lv :: below in
  fine s (tx_view c tx) -> exec s clk (tx_view c tx) = Ok (r, v') -> neutral (tx_view c tx) v' ->
  steady c tx -> steady c ({| lv_held := locks s (tx_view c tx) ++ lv_held lv; lv_db := v' |} :: below).
Proof.
  intros tx. subst tx. intros Hfine Hx [Hnf Hns] [Hs Hf]. split; rewrite (stmt_view _ _ _ _ Hfine _ _ _ Hx); [by auto|].
  intros i f Hi. destruct (Hnf _ _ Hi) as [f0 Hf0]. destruct (Hfine _ _ _ Hx) as [Hm _].
  destruct (family_moves _ _ _ _ Hm Hf0) as (f1 & Hf1 & He). assert (f1 = f) as -> by congruence.
  destruct (Hf _ _ Hf0) as [?|[Hh Hl]]; [by left|right]. rewrite He. split; [|done].
  apply new_level_rows. by right.
Qed.
Lemma neutral_inv :
  fine s c -> exec s clk c = Ok (r, v') -> neutral c v' -> revoked_together c ->
  revoked_together v' /\ forall busy, fam_keeps busy c v'.
Proof.
  intros Hfine Hx [Hnf Hns] Hc. destruct (Hfine _ _ _ Hx) as [Hm _]. split; [|by intros busy i f Hi _; eauto].
  intros i f Hi Hr. apply Hns in Hr. destruct (Hnf _ _ Hi) as [f0 Hf0].
  destruct (family_moves _ _ _ _ Hm Hf0) as (f1 & Hf1 & He). assert (f1 = f) as -> by congruence.
  apply (family_revoked_moves _ _ _ Hm). eapply Hc; [exact Hf0|congruence].
Qed.
End Statement.

(** ** Programs that settle

    Whenever such a program changes the committed database, the invariant
    holds of it and the others' sessions got no family. *)

Inductive settles {A} (Q : A -> DB -> list Level -> Prop) (p : prog A) (c : DB) (tx : list Level) : Prop :=
| Settles
    (settles_ret : forall a c1, p = Ret a -> senv tx c c1 -> Q a c1 tx)
    (settles_safe : forall c1 busy ch p' tx' c', senv tx c c1 -> stmt_fine p (tx_view c1 tx) ->
       apart (held tx) busy -> advance busy ch p tx c1 = Some (p', tx', c') ->
       revoked_together c' /\ fam_keeps busy c1 c')
    (settles_step : forall c1 busy ch p' tx' c', senv tx c c1 -> stmt_fine p (tx_view c1 tx) ->
       apart (held tx) busy -> advance busy ch p tx c1 = Some (p', tx', c') -> settles Q p' c' tx').

Lemma fam_keeps_refl rows c : fam_keeps rows c c.
Proof. intros i f Hf _. by exists f. Qed.
Lemma fam_keeps_trans rows c c1 c2 : moves c1 c2 -> fam_keeps rows c c1 -> fam_keeps rows c1 c2 -> fam_keeps rows c c2.
Proof.
  intros Hm H1 H2 i f Hf Hr. destruct (H2 _ _ Hf Hr) as [f1 Hf1]. apply (H1 _ _ Hf1).
  destruct (family_moves _ _ _ _ Hm Hf1) as (f2 & Hf2 & <-). assert (f2 = f) as -> by congruence. done.
Qed.
Lemma senv_trans tx c c1 c2 : senv tx c c1 -> senv tx c1 c2 -> senv tx c c2.
Proof.
  intros [[H1 _ _] K1 _] [[H2 U2 T2] K2 I2]. split; [split; [by etrans|done..]| |done].
  eapply fam_keeps_trans; [apply H2|done..].
Qed.
Lemma senv_self tx c c1 : senv tx c c1 -> senv tx c1 c1.
Proof. intros [He _ Hi]. split; [by eapply env_self|apply fam_keeps_refl|done]. Qed.

Lemma settles_env {A} Q (p : prog A) c c1 tx : senv tx c c1 -> settles Q p c tx -> settles Q p c1 tx.
Proof. intros He [Hret Hsafe Hstep]. split; eauto using senv_trans. Qed.
Lemma settles_later {A} Q (p : prog A) c tx :
  (forall c1, senv tx c c1 -> settles Q p c1 tx) -> settles Q p c tx.
Proof. intros H. split; intros; edestruct H as [Hret Hsafe Hstep]; eauto using senv_self. Qed.
Lemma settles_pure {A} (Q : A -> DB -> list Level -> Prop) a c tx :
  (forall c1, senv tx c c1 -> Q a c1 tx) -> settles Q (Ret a) c tx.
Proof. intros HQ. split; [intros a' c1 [= <-]; apply HQ|done..]. Qed.
Lemma settles_mono {A} (Q Q' : A -> DB -> list Level -> Prop) (p : prog A) c tx :
  settles Q p c tx -> (forall a c' tx', Q a c' tx' -> Q' a c' tx') -> settles Q' p c tx.
Proof. intros Hp HQ. induction Hp as [p c tx Hret Hsafe _ IH]. split; eauto. Qed.

Lemma stmt_fine_bind {A B} (p : prog A) (f : A -> prog B) v :
  ~ (exists a, p = Ret a) -> stmt_fine (bind p f) v -> stmt_fine p v.
Proof. intros Hp Hf. destruct p; [by edestruct Hp; eexists|exact Hf..]. Qed.
Lemma settles_bind {A B} Q (p : prog A) (f : A -> prog B) c tx :
  settles (fun a => settles Q (f a)) p c tx -> settles Q (bind p f) c tx.
Proof.
  induction 1 as [p c tx Hret Hsafe _ IH].
  destruct (is_ret p) as [[a ->]|Hp]; [by apply settles_later; eauto|]. split.
  - intros b c1 Hb. destruct p; [by edestruct Hp; eexists|done..].
  - intros c1 busy ch q tx' c' He Hf Ha Hadv.
    apply advance_bind in Hadv as [Hr|(p' & -> & Hadv)]; [done|]. eauto using stmt_fine_bind.
  - intros c1 busy ch q tx' c' He Hf Ha Hadv.
    apply advance_bind in Hadv as [Hr|(p' & -> & Hadv)]; [done|]. eauto using stmt_fine_bind.
Qed.

(** ** What is neutral settles *)

(** What a statement leaves: all as it was, or its effect. *)
Lemma advance_sql_state {A B} busy ch (s : stmt B) (k : result B DbError -> prog A) tx c p' tx' c' :
  advance busy ch (Sql s k) tx c = Some (p', tx', c') ->
  (exists r, p' = k r) /\ ((tx', c') = (tx, c)
  \/ exists r v', exec s (ch_clock ch) (tx_view c tx) = Ok (r, v')
     /\ (tx', c') = match tx with
                    | [] => ([], v')
                    | lv :: below =>
                        ({| lv_held := locks s (tx_view c tx) ++ lv_held lv; lv_db := v' |} :: below, c)
                    end).
Proof.
  cbn [advance]. intros Ha. repeat case_match; simplify_eq; split; eauto 8.
Qed.

Lemma steady_all_push c tx : steady_all c tx -> steady_all c (push_level c tx).
Proof.
  intros Hs. split; [|done]. pose proof (steady_top _ _ Hs) as [H1 H2].
  split; change (_ :: tx) with (push_level c tx); by rewrite push_view.
Qed.
Lemma steady_start c : steady_all c (push_level c []).
Proof. by apply steady_all_push. Qed.
Lemma steady_all_merge c lv lv' below :
  steady_all c (lv :: lv' :: below) -> steady_all c (merge_level lv lv' :: below).
Proof.
  intros ([H1 H2] & _ & Hb). split; [|done]. split; rewrite merge_view; [done|]. by rewrite merge_held.
Qed.

Lemma neutral_advance {A} busy ch (p : prog A) tx c p' tx' c' :
  stmts_ok neutral_stmt p -> stmt_fine p (tx_view c tx) -> apart (held tx) busy -> tx_ok c tx ->
  revoked_together c -> steady_all c tx -> advance busy ch p tx c = Some (p', tx', c') ->
  stmts_ok neutral_stmt p' /\ (revoked_together c' /\ fam_keeps busy c c') /\ steady_all c' tx'.
Proof.
  intros Hp Hfine Ha Htx Hc Hs. pose proof (tx_ok_moves _ _ Htx) as Hm.
  pose proof (fam_keeps_refl busy c) as Hk.
  destruct p as [a|R s k|k|k|k|k|k|k|k|k]; simpl in Hp.
  2: { destruct Hp as [Hn Hp].
    intros [[r ->] [[= -> ->]|(r' & v' & Hx & Hst)]]%advance_sql_state; [done|].
    split; [done|]. pose proof (Hn _ _ _ _ Hx) as Hv. destruct tx as [|lv below]; simplify_eq.
    - destruct (neutral_inv _ _ _ _ _ Hfine Hx Hv Hc). auto.
    - split; [done|]. destruct Hs as [Ht Hb]. split; [|done]. by eapply neutral_steady. }
  3: { destruct tx as [|lv [|lv' below]]; cbn [advance]; destruct (ch_fault ch); repeat case_match;
      intros; simplify_eq; (split; [done|]); eauto using steady_all_merge.
    all: try (by destruct Hs).
    all: split; [|done]; apply steady_top in Hs; split; [by apply steady_inv|by apply steady_keeps]. }
  all: cbn [advance]; repeat case_match; intros; simplify_eq; eauto using steady_all_push, steady_tail.
  all: split; [by eauto|]; split; [by split|]; done.
Qed.

Section Transfer.
Context {G : Type} (L : Ledger G).
(** What is known of a neutral program, in a steady transaction. *)
Lemma inter_settles {A} Q (p : prog A) c tx g :
  inter L Q p c tx g -> stmts_ok neutral_stmt p -> steady_all c tx ->
  settles (fun a c tx => (exists g, Q a c tx g) /\ steady_all c tx) p c tx.
Proof.
  intros Hi. induction Hi as [p c tx g Hret _ _ _ IH]. intros Hp Hs. split.
  - intros a c1 -> He. split; [exists g; apply Hret; [done|apply He]|].
    eapply steady_all_env; [apply He|done].
  - intros c1 busy ch p' tx' c' [[Hr Hu Ht] Hk Hc] Hf Ha Hadv.
    by eapply neutral_advance in Hadv as (_ & ? & _); [| |exact Hf| | | |eapply steady_all_env].
  - intros c1 busy ch p' tx' c' [[Hr Hu Ht] Hk Hc] Hf Ha Hadv.
    assert (He : env tx c c1) by done. pose proof Hadv as Hadv'.
    eapply neutral_advance in Hadv' as (Hp' & _ & Hs'); [|done|exact Hf|done|done|done|by eapply steady_all_env].
    by eapply IH.
Qed.
End Transfer.
Lemma polite_settles {A} (p : prog A) c :
  polite p -> stmts_ok neutral_stmt p -> settles (fun _ _ _ => True) p c [].
Proof. intros Hp Hn. eapply settles_mono; [by apply (inter_settles _ _ _ _ _ () (Hp c))|done]. Qed.

(** ** Pools *)

Record pool_settles (pool : Pool) : Prop := {
  ps_inv : revoked_together (pl_db pool);
  ps_threads : forall i th, pl_threads pool !! i = Some th ->
    settles (fun _ _ _ => True) (th_prog th) (pl_db pool) (th_tx th);
}.

Lemma pool_step_settles pool pool' :
  pool_ok pool -> pool_settles pool -> pool_step pool pool' -> pool_settles pool'.
Proof.
  intros Hok [Hc Hset] (i & ch & (th & th' & Had)%advance_thread_inv).
  pose proof (ad_thread _ _ _ _ _ _ Had) as Hi. pose proof (ad_advance _ _ _ _ _ _ Had) as Hadv.
  destruct (po_threads _ Hok _ _ Hi) as [_ Hap _].
  assert (Hse : senv (th_tx th) (pl_db pool) (pl_db pool)) by (split; [exact (advanced_env Had Hok)|apply fam_keeps_refl|done]).
  destruct (Hset _ _ Hi) as [_ Hsafe Hstep].
  destruct (Hsafe _ _ _ _ _ _ Hse (advanced_fine Had Hok) Hap Hadv) as [Hc' Hk].
  split; [done|]. intros j thj Hj. destruct (decide (j = i)) as [->|Hne].
  - rewrite (advanced_self Had) in Hj. injection Hj as <-.
    exact (Hstep _ _ _ _ _ _ Hse (advanced_fine Had Hok) Hap Hadv).
  - rewrite (advanced_other Had _ Hne) in Hj. eapply settles_env; [|by apply (Hset j)].
    pose proof (advanced_rely Had Hok _ _ Hne Hj) as Hr. split; [|intros k f Hf Hs; eapply Hk; [exact Hf|]|done].
    + split; [done| |eapply tx_ok_rely; [exact Hr|by apply (po_threads _ Hok _ _ Hj)]].
      by apply po_unique, (advanced_ok Had).
    + apply busy_rows_spec. by exists j, thj.
Qed.

Lemma pool_steps_settle pool pool' :
  pool_ok pool -> pool_settles pool -> rtc pool_step pool pool' -> pool_settles pool'.
Proof.
  intros Hok Hp Hs. induction Hs as [|pool pool1 pool2 Hs _ IH]; [done|].
  apply IH; [by eapply pool_step_ok|by eapply pool_step_settles].
Qed.

(** ** Rules for fallible programs *)

Definition swp {E A} (m : M E A) (Q : A -> DB -> list Level -> Prop) (c : DB) (tx : list Level) : Prop :=
  settles (fun r => match r with Ok a => Q a | Err _ => fun _ _ => True end) m c tx.
(** Nothing is asked of the answer. *)
Definition any {A} : A -> DB -> list Level -> Prop := fun _ _ _ => True.

Section Rules.
Context {E : Type} `{!FromDb E}.
Implicit Types (c : DB) (tx : list Level).

Lemma swp_raise {A} (e : E) (Q : A -> DB -> list Level -> Prop) c tx : swp (raise e) Q c tx.
Proof. by apply settles_pure. Qed.
Lemma swp_ret {A} (a : A) (Q : A -> DB -> list Level -> Prop) c tx :
  (forall c1, senv tx c c1 -> Q a c1 tx) -> swp (ret (E:=E) a) Q c tx.
Proof. intros HQ. by apply settles_pure. Qed.
Lemma swp_bindE {A B} (m : M E A) (f : A -> M E B) Q c tx :
  swp m (fun a => swp (f a) Q) c tx -> swp (bindE m f) Q c tx.
Proof.
  intros H. apply settles_bind. eapply settles_mono; [exact H|].
  intros [a|e] c' tx' Hq; [exact Hq|apply swp_raise].
Qed.
Lemma swp_mono {A} (m : M E A) (Q Q' : A -> DB -> list Level -> Prop) c tx :
  swp m Q c tx -> (forall a c' tx', Q a c' tx' -> Q' a c' tx') -> swp m Q' c tx.
Proof. intros Hm HQ. eapply settles_mono; [exact Hm|]. intros []; eauto. Qed.

(** A sound statement in a transaction. *)
Lemma swp_sql {A B} (s : stmt B) (f : B -> M E A) Q c lv below :
  (forall c1 clk r v', senv (lv :: below) c c1 -> fine s (tx_view c1 (lv :: below)) ->
     exec s clk (tx_view c1 (lv :: below)) = Ok (r, v') ->
     swp (f r) Q c1 ({| lv_held := locks s (tx_view c1 (lv :: below)) ++ lv_held lv; lv_db := v' |} :: below)) ->
  swp (bindE (sql s) f) Q c (lv :: below).
Proof.
  intros HQ. split; [done| |].
  - intros c1 busy ch p' tx' c' [_ _ Hi] _ _ Ha. pose proof (fam_keeps_refl busy c1).
    apply advance_sql_state in Ha as [_ [[= -> ->]|(r & v' & _ & [= -> ->])]]; done.
  - intros c1 busy ch p' tx' c' He Hf _ Ha. unfold bindE, sql in Ha. cbn [bind] in Ha.
    apply advance_sql in Ha as [[e ->]|(r & v' & Hx & -> & [= -> ->])]; [apply swp_raise|].
    by eapply HQ.
Qed.

(** COMMIT, when it can. *)
Lemma swp_commit {A} (m : M E A) c lv :
  (forall c1, senv [lv] c c1 -> revoked_together (tx_view c1 [lv])
     /\ forall busy, apart (held [lv]) busy -> fam_keeps busy c1 (tx_view c1 [lv])) ->
  (forall c1 tx1, swp m any c1 tx1) -> swp (commit ;;; m) any c [lv].
Proof.
  intros Hc Hm. split; [done| |].
  - intros c1 busy ch p' tx' c' He _ Hb Ha. destruct (Hc _ He) as [Hi Hk].
    pose proof (se_inv _ _ _ He). pose proof (fam_keeps_refl busy c1).
    unfold commit, bindE in Ha. cbn [bind advance] in Ha. repeat case_match; simplify_eq; auto.
  - intros c1 busy ch p' tx' c' _ _ _ Ha. unfold commit, bindE in Ha. cbn [bind advance] in Ha.
    destruct (ch_fault ch); simpl in Ha; [destruct (unique_db _)| |destruct (unique_db _)]; simplify_eq;
      first [apply Hm | by apply settles_pure].
Qed.

(** A transaction's scope. *)
Lemma swp_with_tx {A} (body : M E A) c :
  (forall c1, senv [] c c1 -> swp body any c1 (push_level c1 [])) -> swp (with_tx body) any c [].
Proof.
  intros H. apply settles_bind. eapply settles_mono; [apply (swp_bindE begin_tx (fun _ => body) any)|].
  - split; [done| |].
    + intros c1 busy ch p' tx' c' [_ _ Hi] _ _. pose proof (fam_keeps_refl busy c1). cbn [begin_tx advance].
      destruct (ch_fault ch); intros; by simplify_eq.
    + intros c1 busy ch p' tx' c' He _ _. cbn [begin_tx advance].
      destruct (ch_fault ch); intros; simplify_eq; apply settles_pure; [|done..].
      intros c2 He2. eapply settles_env; [exact He2|by apply H].
  - intros r c' tx' _. split; [done| |]; intros c1 busy ch p1 tx1 c1' [_ _ Hi] _ _; simpl; intros; simplify_eq.
    + split; [done|apply fam_keeps_refl].
    + apply settles_pure. intros. by destruct r.
Qed.

Lemma swp_lift {A} (r : result A E) (Q : A -> DB -> list Level -> Prop) c tx :
  match r with Ok a => forall c1, senv tx c c1 -> Q a c1 tx | Err _ => True end -> swp (lift r) Q c tx.
Proof. intros HQ. by destruct r; apply settles_pure. Qed.

(** What is known of a part, when it is neutral. *)
Lemma swp_neutral {A} (m : M E A) (Q : A -> DB -> list Level -> Prop) c tx :
  cwp blank m (fun a c tx _ => Q a c tx) c tx () -> stmts_ok neutral_stmt m -> steady_all c tx ->
  swp m (fun a c tx => Q a c tx /\ steady_all c tx) c tx.
Proof.
  intros Hm Hn Hs. eapply settles_mono; [by eapply inter_settles|].
  intros [a|e] c' tx' [[g Hq] Hs']; [by split|done].
Qed.
Lemma swp_rest {A} (m : M E A) c tx :
  stmts_ok sound_stmt m -> stmts_ok neutral_stmt m -> steady_all c tx -> swp m any c tx.
Proof.
  intros Hm Hn Hs. eapply swp_mono; [apply (swp_neutral m (fun _ _ _ => True)); [by apply cwp_sound|done..]|done].
Qed.
(** A part that keeps a framed fact. *)
Lemma swp_frame {A B} (m : M E B) (f : B -> M E A) Q F c lv below :
  (forall G (L : Ledger G), framing L m) -> stmts_ok neutral_stmt m -> framed F ->
  F c (lv :: below) -> steady_all c (lv :: below) ->
  (forall r c1 lv1, F c1 (lv1 :: below) -> steady_all c1 (lv1 :: below) -> swp (f r) Q c1 (lv1 :: below)) ->
  swp (bindE m f) Q c (lv :: below).
Proof.
  intros Hm Hn HF Hc Hs Hf. apply swp_bindE. eapply swp_mono.
  - apply (swp_neutral m (fun _ c tx => exists lv1, tx = lv1 :: below /\ F c tx)); [|done..].
    eapply Hm; [exact HF|exact Hc|]. intros a c1 lv1 H1. by exists lv1.
  - intros r c' tx' [(lv1 & -> & H1) H2]. by apply Hf.
Qed.
(** A part outside a transaction. *)
Lemma swp_outside {A B} (m : M E B) (f : B -> M E A) c :
  cwp blank m (fun _ _ tx _ => tx = []) c [] () -> stmts_ok neutral_stmt m ->
  (forall r c1, swp (f r) any c1 []) -> swp (bindE m f) any c [].
Proof.
  intros Hm Hn Hf. apply swp_bindE.
  eapply swp_mono; [by apply (swp_neutral m (fun _ _ tx => tx = []))|].
  intros r c1 tx [-> _]. apply Hf.
Qed.
End Rules.
