(* ===== verification/Settling.v ===== *)
(** * Settling: what each operation does to sessions and families, in a pool

    All operations but five are neutral: they revoke no session and add no
    family. The exchange of a code adds its family holding the live session;
    a logout revokes the session it holds, and then its families. *)

From Stdlib Require Import Ascii ZArith.
From S2P Require Import Prelude External Schema Effects Evolution Identity Cimd OAuth Jose Keys Google Credentials CredentialsSpec CredentialsTheory CredentialsInvariant Database Logout Browser StoresSpec DatabaseTheory LogoutTheory BrowserTheory StoresInvariant System Concurrency ConcurrencyTheory Pools Confinement Framing Contest Contenders Deciders Readers Politeness Revocation.

(** ** Neutral rows and statements *)

Lemma neutral_kept d d' :
  provider_sessions d' = provider_sessions d -> refresh_families d' = refresh_families d -> neutral d d'.
Proof.
  intros Hs Hf. split; rewrite ?Hf; [by intros i f ->; exists f|]. unfold session_revoked. by rewrite Hs.
Qed.
Lemma insert_session_neutral id r d d' : insert_session_row id r d = Ok d' -> ps_revoked_at r = None -> neutral d d'.
Proof.
  unfold insert_session_row. intros Hd Hr. case_match; simplify_eq. split; simpl; [by intros i f ->; exists f|].
  intros s (x & t & Hx & Ht). simpl in Hx. apply lookup_insert_Some in Hx as [[-> ->]|[_ Hx]]; [congruence|].
  by exists x, t.
Qed.
Lemma revoke_families_neutral p t d : neutral d (revoke_families_where p t d).
Proof.
  split; [|done]. intros i f Hf. simpl in Hf. rewrite lookup_update_rows in Hf.
  apply fmap_Some in Hf as (f0 & Hf & _). by exists f0.
Qed.
Lemma update_browser_neutral `{JsonDb} id f d d' : update_browser_row id f d = Ok d' -> neutral d d'.
Proof. unfold update_browser_row. intros. repeat case_match; simplify_eq; by apply neutral_kept. Qed.

Section Statements.
Context `{Crypto, UrlLib, JsonLib, JsonDb, UuidLib}.

(** The tables of sessions and families are kept. *)
Ltac kept :=
  intros ? ? ? ? Hd; cbn in Hd;
  repeat first
    [ case_match
    | match goal with Hd : rbind _ _ = Ok _ |- _ => apply rbind_Ok in Hd as (? & _ & Hd) end ];
  simplify_eq; by apply neutral_kept.

Lemma insert_session_stmt_neutral id h u secs up : neutral_stmt _ (insert_session_stmt id h u secs up).
Proof. intros clk d r d' Hd. simpl in Hd. case_match; simplify_eq. eapply insert_session_neutral; [eassumption|done]. Qed.
Lemma insert_login_session_stmt_neutral id h u t secs up :
  neutral_stmt _ (insert_login_session_stmt id h u t secs up).
Proof. intros clk d r d' Hd. simpl in Hd. case_match; simplify_eq. eapply insert_session_neutral; [eassumption|done]. Qed.
Lemma revoke_families_stmt_neutral p now : neutral_stmt _ (revoke_families_stmt p now).
Proof. intros clk d r d' Hd. simpl in Hd. simplify_eq. apply revoke_families_neutral. Qed.
Lemma revoke_family_now_neutral id : neutral_stmt _ (revoke_family_now id).
Proof. intros clk d r d' Hd. simpl in Hd. simplify_eq. apply revoke_families_neutral. Qed.
Lemma insert_code_stmt_neutral id h sid g n u secs : neutral_stmt _ (insert_code_stmt id h sid g n u secs).
Proof. unfold insert_code_stmt, insert_code_row. kept. Qed.
Lemma consume_code_stmt_neutral id now : neutral_stmt _ (consume_code_stmt id now).
Proof. kept. Qed.
Lemma insert_member_stmt_neutral id f h now : neutral_stmt _ (insert_member_stmt id f h now).
Proof. unfold insert_member_stmt, insert_member_row. kept. Qed.
Lemma consume_member_stmt_neutral id now s : neutral_stmt _ (consume_member_stmt id now s).
Proof. kept. Qed.
Lemma insert_logout_stmt_neutral id csrf s c r st : neutral_stmt _ (insert_logout_stmt id csrf s c r st).
Proof. unfold insert_logout_stmt, insert_logout_row. kept. Qed.
Lemma consume_logout_stmt_neutral id t : neutral_stmt _ (consume_logout_stmt id t).
Proof. kept. Qed.
Lemma insert_user_stmt_neutral id : neutral_stmt _ (insert_user_stmt id).
Proof. unfold insert_user_stmt, insert_user_row. kept. Qed.
Lemma insert_identity_stmt_neutral i s u : neutral_stmt _ (insert_identity_stmt i s u).
Proof. unfold insert_identity_stmt, insert_identity_row. kept. Qed.
Lemma upsert_profile_stmt_neutral u p : neutral_stmt _ (upsert_profile_stmt u p).
Proof. kept. Qed.
Lemma insert_start_stmt_neutral start p st n a : neutral_stmt _ (insert_start_stmt start p st n a).
Proof. unfold insert_start_stmt, insert_browser_row. kept. Qed.
Lemma insert_consent_stmt_neutral id csrf s p st n a : neutral_stmt _ (insert_consent_stmt id csrf s p st n a).
Proof. unfold insert_consent_stmt, insert_browser_row. kept. Qed.
Lemma update_browser_stmt_neutral id f : neutral_stmt _ (update_browser_stmt id f).
Proof. intros clk d r d' Hd. simpl in Hd. case_match; simplify_eq. by eapply update_browser_neutral. Qed.
Lemma update_where_stmt_neutral p f : neutral_stmt _ (update_where_stmt p f).
Proof.
  intros clk d r d' Hd. simpl in Hd. unfold update_browser_where in Hd. case_match; [|by simplify_eq].
  case_match. destruct (update_browser_row _ _ _) eqn:Hu; simplify_eq/=. by eapply update_browser_neutral.
Qed.
Lemma start_google_stmt_neutral id st b : neutral_stmt _ (start_google_stmt id st b).
Proof.
  intros clk d r d' Hd. simpl in Hd. destruct (find_row _ _) as [[k row]|]; [|by simplify_eq].
  apply rbind_Ok in Hd as (d1 & Hd & [= <- <-]). by eapply update_browser_neutral.
Qed.
End Statements.

#[export] Hint Resolve insert_session_stmt_neutral insert_login_session_stmt_neutral
  revoke_families_stmt_neutral revoke_family_now_neutral insert_code_stmt_neutral
  consume_code_stmt_neutral insert_member_stmt_neutral consume_member_stmt_neutral
  insert_logout_stmt_neutral consume_logout_stmt_neutral insert_user_stmt_neutral
  insert_identity_stmt_neutral upsert_profile_stmt_neutral insert_start_stmt_neutral
  insert_consent_stmt_neutral update_browser_stmt_neutral update_where_stmt_neutral
  start_google_stmt_neutral : stmts.

(** ** Facts about a held session *)

Definition session_held (s : Uuid) (_ : DB) (tx : list Level) : Prop := RowSession s ∈ held tx.
Definition live_held (s : Uuid) (c : DB) (tx : list Level) : Prop :=
  RowSession s ∈ held tx /\ ~ session_revoked c s.
(** Live, if it was seen live. *)
Definition live_if (b : bool) (s : Uuid) (c : DB) (tx : list Level) : Prop :=
  if b then live_held s c tx else session_held s c tx.

Lemma framed_session_held s : framed (session_held s).
Proof. split; [done|]. intros R st clk c lv below r v' _ _ Hh. apply new_level_rows. by right. Qed.
Lemma framed_live_held s : framed (live_held s).
Proof.
  split.
  - intros c c1 tx [[_ Ha] _ _] [Hh Hl]. split; [done|]. intros Hr. apply Hl.
    eapply session_revoked_back; [by apply Ha|done].
  - intros R st clk c lv below r v' _ _ [Hh Hl]. split; [|done]. apply new_level_rows. by right.
Qed.
Lemma framed_live_if b s : framed (live_if b s).
Proof. destruct b; [apply framed_live_held|apply framed_session_held]. Qed.
Definition framed_true : framed (fun _ _ => True).
Proof. by split. Qed.

(** The next neutral effects keep the fact [Hu] about [c] and [lv], and
    [Hs]: the transaction is steady; their answer is [x]. *)
Tactic Notation "settle" simple_intropattern(x) "keeping" constr(HF) "of" hyp(Hu) hyp(Hs) hyp(c) hyp(lv) :=
  eapply swp_frame;
    [intros ? ?; first [ solve [auto 2 with framing nocore]
           | apply framing_sql; solve [eauto with stmts typeclass_instances] ]
    |solve [solve_stmts]
    |apply HF
    |exact Hu
    |exact Hs|];
  clear c lv Hu Hs; intros x c lv Hu Hs.

Section Rules.
Context `{Crypto, UrlLib, JsonLib, JsonDb, UuidLib} {E : Type} `{!FromDb E}.

(** A locked read of a session. *)
Lemma swp_lock_session {A B} (st : stmt B) (f : B -> M E A) Q s c lv :
  sound_stmt _ st -> neutral_stmt _ st -> (forall d, RowSession s ∈ locks st d) -> steady_all c [lv] ->
  (forall clk d r v' c1 lv1, exec st clk d = Ok (r, v') -> session_held s c1 [lv1] ->
     (~ session_revoked d s -> live_held s c1 [lv1]) -> steady_all c1 [lv1] -> swp (f r) Q c1 [lv1]) ->
  swp (bindE (sql st) f) Q c [lv].
Proof.
  intros Hsd Hn Hl Hs Hf. apply swp_sql. intros c1 clk r v' [He Hk Hi] Hfine Hx.
  assert (Hh : forall tx, RowSession s ∈ held ({| lv_held := locks st (tx_view c1 [lv]) ++ lv_held lv; lv_db := v' |} :: tx)).
  { intros tx. rewrite held_cons. simpl. set_solver. }
  eapply Hf; [exact Hx|apply Hh| |].
  - intros Hlive. split; [apply Hh|]. intros Hr. apply Hlive. eapply session_revoked_moves; [|exact Hr].
    by apply tx_ok_moves; destruct He.
  - split; [|done]. eapply neutral_steady; [exact Hfine|exact Hx|by eapply Hn|].
    eapply steady_env; [apply He|apply Hs].
Qed.

(** ** A family added to a live session *)

Lemma insert_family_stmt_rows id code srow now clk d r d' :
  exec (insert_family_stmt id code srow now) clk d = Ok (r, d') ->
  provider_sessions d' = provider_sessions d
  /\ exists f, rf_session_id f = cr_session_id code /\ refresh_families d' = <[id := f]> (refresh_families d).
Proof.
  intros Hd. cbn in Hd. case_match; simplify_eq.
  match goal with Hd : rbind _ _ = Ok _ |- _ => apply rbind_Ok in Hd as (b & _ & Hd) end.
  unfold insert_family_row in *. case_match; simplify_eq. split; [done|].
  eexists. split; [|simpl; reflexivity]. done.
Qed.

Lemma swp_insert_family {A} id code srow now (f : unit -> M E A) Q c lv :
  live_held (cr_session_id code) c [lv] -> steady_all c [lv] ->
  (forall c1 lv1, steady_all c1 [lv1] -> swp (f tt) Q c1 [lv1]) ->
  swp (bindE (sql (insert_family_stmt id code srow now)) f) Q c [lv].
Proof.
  intros Hl [Hs _] Hf. apply swp_sql. intros c1 clk [] v' [He Hk Hi] Hfine Hx. apply Hf. split; [|done].
  apply (fr_env _ (framed_live_held _) _ _ _ He) in Hl as [Hh Hl].
  apply (steady_env _ _ _ (env_rely _ _ _ He)) in Hs as [Hs Hfam].
  assert (Hin : forall row, row ∈ held [lv] -> row ∈ held
    [{| lv_held := locks (insert_family_stmt id code srow now) (tx_view c1 [lv]) ++ lv_held lv; lv_db := v' |}]).
  { intros row Hrow. apply new_level_rows. by right. }
  split; rewrite (stmt_view _ _ _ _ Hfine _ _ _ Hx); apply insert_family_stmt_rows in Hx as (Es & f0 & Hf0 & Ef).
  - intros s Hr. apply Hs. unfold session_revoked in *. by rewrite Es in Hr.
  - intros i f'. rewrite Ef. intros [[-> <-]|[_ Hi']]%lookup_insert_Some.
    + rewrite Hf0. right. auto.
    + destruct (Hfam _ _ Hi') as [?|[Hh' Hl']]; [by left|right; auto].
Qed.

(** ** A session revoked, and then its families *)

(** The session [s] may be revoked, no other is. *)
Record ending (s : Uuid) (c : DB) (tx : list Level) : Prop := {
  en_held : RowSession s ∈ held tx;
  en_others : forall s', s' <> s -> session_revoked (tx_view c tx) s' -> session_revoked c s';
  en_families : forall i f, refresh_families (tx_view c tx) !! i = Some f ->
    is_Some (refresh_families c !! i)
    \/ (RowSession (rf_session_id f) ∈ held tx /\ ~ session_revoked c (rf_session_id f));
}.
(** All its families are. *)
Definition families_ended (s : Uuid) (v : DB) : Prop :=
  forall i f, refresh_families v !! i = Some f -> rf_session_id f = s -> family_revoked v i.

Lemma ending_env s tx c c1 : rely tx c c1 -> ending s c tx -> ending s c1 tx.
Proof.
  intros Hr [Hh Ho Hf]. pose proof Hr as [Hm Ha]. split; [done| |].
  - intros s' Hne Hv. destruct (decide (RowSession s' ∈ held tx)) as [Hin|Hin].
    + apply (session_revoked_back _ _ _ (tx_view_rely _ _ _ _ Hr Hin)) in Hv.
      by apply (session_revoked_moves _ _ _ Hm), Ho.
    + exact (session_revoked_back _ _ _ (tx_view_free _ _ _ Hin) Hv).
  - intros i f Hv. destruct (decide (RowFamily i ∈ held tx)) as [Hin|Hin].
    + pose proof (tx_view_rely _ _ _ (RowFamily i) Hr Hin) as He. simpl in He. rewrite He in Hv.
      destruct (Hf _ _ Hv) as [[f0 Hf0]|[Hs0 Hl]].
      * left. destruct (family_moves _ _ _ _ Hm Hf0) as (f1 & Hf1 & _). by exists f1.
      * right. split; [done|]. intros Hl1. apply Hl. eapply session_revoked_back; [by apply Ha|done].
    + left. exists f. rewrite <- Hv. symmetry. exact (tx_view_free _ c1 (RowFamily i) Hin).
Qed.
Lemma ending_commits s tx c : tx_ok c tx -> ending s c tx -> families_ended s (tx_view c tx) ->
  revoked_together c -> revoked_together (tx_view c tx)
  /\ forall busy, apart (held tx) busy -> fam_keeps busy c (tx_view c tx).
Proof.
  intros Htx [Hh Ho Hf] He Hc. split.
  - intros i f Hi Hr. destruct (decide (rf_session_id f = s)) as [Hs|Hs]; [by eapply He|].
    apply (Ho _ Hs) in Hr. pose proof (tx_ok_moves _ _ Htx) as Hm. apply (family_revoked_moves _ _ _ Hm).
    destruct (Hf _ _ Hi) as [[f0 Hf0]|[_ Hl]]; [|done].
    destruct (family_moves _ _ _ _ Hm Hf0) as (f1 & Hf1 & Hs1). assert (f1 = f) as -> by congruence.
    eapply Hc; [exact Hf0|congruence].
  - intros busy Ha i f Hi Hb. destruct (Hf _ _ Hi) as [?|[Hin _]]; [done|by destruct (Ha _ Hin)].
Qed.

(** The others add no family to the session: they would need its row. *)
Lemma ended_env s tx c c1 : senv tx c c1 -> RowSession s ∈ held tx ->
  families_ended s (tx_view c tx) -> families_ended s (tx_view c1 tx).
Proof.
  intros [[Hr Hu Ht] Hk Hi] Hh He i f Hv Hs. pose proof Hr as [Hm Ha].
  destruct (decide (RowFamily i ∈ held tx)) as [Hin|Hin].
  - pose proof (tx_view_rely _ _ _ (RowFamily i) Hr Hin) as Heq. simpl in Heq. rewrite Heq in Hv.
    destruct (He _ _ Hv Hs) as (f1 & t & Hf1 & Ht1). exists f1, t. by rewrite Heq.
  - pose proof (tx_view_free _ c1 (RowFamily i) Hin) as Heq. simpl in Heq.
    pose proof (tx_view_free _ c (RowFamily i) Hin) as Heq0. simpl in Heq0.
    rewrite Heq in Hv. rewrite <- Hs in Hh. destruct (Hk _ _ Hv Hh) as [f0 Hf0].
    assert (Hm' : family_revoked c i).
    { rewrite <- Heq0 in Hf0. destruct (He _ _ Hf0) as (f1 & t & Hf1 & Ht1).
      - rewrite Heq0 in Hf0. destruct (family_moves _ _ _ _ Hm Hf0) as (f1 & Hf1 & <-).
        assert (f1 = f) as -> by congruence. done.
      - exists f1, t. by rewrite <- Heq0. }
    apply (family_revoked_moves _ _ _ Hm) in Hm' as (f1 & t & Hf1 & Ht1). exists f1, t. by rewrite Heq.
Qed.

Lemma swp_end_session {A} s (st1 st2 : stmt unit) (m : M E A) c lv :
  (forall clk d r d', exec st1 clk d = Ok (r, d') -> refresh_families d' = refresh_families d
     /\ forall s', s' <> s -> session_revoked d' s' -> session_revoked d s') ->
  (forall clk d r d', exec st2 clk d = Ok (r, d') -> neutral d d' /\ families_ended s d') ->
  (forall c1 tx1, swp m any c1 tx1) ->
  session_held s c [lv] -> steady_all c [lv] -> swp (sql st1 ;;; sql st2 ;;; commit ;;; m) any c [lv].
Proof.
  intros Hst1 Hst2 Hm Hh [Hs _]. apply swp_sql. intros c1 clk [] v1 [He _ _] Hf1 Hx1.
  pose proof (steady_env _ _ _ (env_rely _ _ _ He) Hs) as [Hs1 Hfam].
  set (lv1 := {| lv_held := _; lv_db := v1 |}).
  assert (Hup : forall row, row ∈ held [lv] -> row ∈ held [lv1]) by (intros; apply new_level_rows; by right).
  assert (En : ending s c1 [lv1]).
  { pose proof (stmt_view _ _ _ _ Hf1 _ _ _ Hx1) as Hv1. fold lv1 in Hv1. destruct (Hst1 _ _ _ _ Hx1) as [Ef Es].
    split; [by apply Hup|rewrite Hv1; intros s' Hne Hr; by apply Hs1, Es|].
    rewrite Hv1, Ef. intros i f Hi. destruct (Hfam _ _ Hi) as [?|[Hh' Hl']]; [by left|right; auto]. }
  clearbody lv1. clear Hf1 Hx1 Hs Hs1 Hfam He c lv Hup Hh.
  apply swp_sql. intros c2 clk2 [] v2 [He _ _] Hf2 Hx2.
  destruct (ending_env _ _ _ _ (env_rely _ _ _ He) En) as [Hh Ho Hfam]. clear En.
  set (lv2 := {| lv_held := _; lv_db := v2 |}).
  assert (Hup : forall row, row ∈ held [lv1] -> row ∈ held [lv2]) by (intros; apply new_level_rows; by right).
  pose proof (stmt_view _ _ _ _ Hf2 _ _ _ Hx2) as Hv2. fold lv2 in Hv2.
  destruct (Hst2 _ _ _ _ Hx2) as [[Nf Ns] Hend]. destruct (Hf2 _ _ _ Hx2) as [Hmv _].
  assert (En : ending s c2 [lv2]).
  { split; [by apply Hup|rewrite Hv2; intros s' Hne Hr; by apply Ho, Ns|]. rewrite Hv2. intros i f Hi.
    destruct (Nf _ _ Hi) as [f0 Hf0]. destruct (family_moves _ _ _ _ Hmv Hf0) as (f1 & Hf1 & Hs1).
    assert (f1 = f) as -> by congruence. rewrite Hs1.
    destruct (Hfam _ _ Hf0) as [?|[Hh' Hl']]; [by left|right; auto]. }
  apply swp_commit; [|exact Hm]. intros c3 Hse. pose proof Hse as [[Hr _ Ht] _ Hi].
  apply (ending_commits s); [done|by eapply ending_env| |done].
  eapply ended_env; [exact Hse|apply En|by rewrite Hv2].
Qed.
End Rules.

(** ** The operations that are not neutral *)

Section Operations.
Context `{Crypto, UrlLib, JsonLib, JsonDb, UuidLib}.
#[local] Hint Resolve framing_check_binding framing_check_policy framing_insert_refresh : framing.

Lemma revoke_session_at_others id t d s :
  s <> id -> session_revoked (revoke_session_at id t d) s -> session_revoked d s.
Proof.
  intros Hne (r & u & Hr & Hu). unfold revoke_session_at in Hr. simpl in Hr.
  rewrite lookup_alter_ne in Hr by done. by exists r, u.
Qed.
Lemma families_where_ended id t d :
  families_ended id (revoke_families_where (fun _ f => rf_session_id f ==? id) t d).
Proof.
  intros i f Hf Hs. pose proof Hf as Hf'. simpl in Hf'. rewrite lookup_update_rows in Hf'.
  apply fmap_Some in Hf' as (f0 & Hf0 & Hf'). eapply revoke_families_where_revoked; [exact Hf0|].
  apply bool_decide_eq_true. rewrite <- Hs, Hf'. by case_match.
Qed.

Lemma logout_settles session c : swp (logout session) any c [].
Proof.
  unfold logout. apply swp_with_tx. intros c0 _. eapply (swp_lock_session _ _ _ (se_id session));
    [eauto with stmts|eauto with stmts typeclass_instances|simpl; set_solver|apply steady_start|].
  intros clk d r v' c1 lv _ Hh _ Hs. apply (swp_end_session (se_id session)); [| | |done|done].
  - intros clk' d' r' d1 Hx. simpl in Hx. simplify_eq. split; [done|]. intros s'. apply revoke_session_at_others.
  - intros clk' d' r' d1 Hx. simpl in Hx. simplify_eq. split; [apply revoke_families_neutral|apply families_where_ended].
  - intros c2 tx2. by apply swp_ret.
Qed.

Lemma end_session_settles id s row now c lv :
  session_held s c [lv] -> steady_all c [lv] -> swp (end_session_tx id s row now) any c [lv].
Proof.
  intros Hh Hs. unfold end_session_tx. settle ? keeping framed_session_held of Hh Hs c lv.
  apply (swp_end_session s); [| | |done|done].
  - intros clk' d' r' d1 Hx. simpl in Hx. simplify_eq. split; [done|]. intros s'. apply revoke_session_at_others.
  - intros clk' d' r' d1 Hx. simpl in Hx. simplify_eq. split; [apply revoke_families_neutral|apply families_where_ended].
  - intros c2 tx2. by apply swp_ret.
Qed.
Lemma finish_inner_settles session challenge reg hint c : swp (finish_inner session challenge reg hint) any c [].
Proof.
  unfold finish_inner. apply swp_with_tx. intros c0 _. eapply (swp_lock_session _ _ _ (se_id session));
    [eauto with stmts|eauto with stmts typeclass_instances|simpl; set_solver|apply steady_start|].
  intros clk d r v' c1 lv _ Hh _ Hs. destruct r as [srow|]; [|apply swp_raise].
  settle row keeping framed_session_held of Hh Hs c1 lv. destruct row as [row|]; [|apply swp_raise].
  settle now keeping framed_session_held of Hh Hs c1 lv. case_match; [apply swp_raise|].
  destruct (option_map _ hint) as [[| |]|]; [apply swp_raise|by apply swp_ret|..]; by apply end_session_settles.
Qed.
Lemma finish_settles session challenge reg c : swp (finish session challenge reg) any c [].
Proof.
  unfold finish. apply swp_bindE. eapply swp_mono; [apply finish_inner_settles|].
  intros [o|] c1 tx1 _; [by apply swp_ret|apply swp_raise].
Qed.

Lemma start_family_settles code session now c lv Q :
  live_held (cr_session_id code) c [lv] -> steady_all c [lv] ->
  (forall t c1 lv1, steady_all c1 [lv1] -> Q t c1 [lv1]) ->
  swp (start_family_tx code session now) Q c [lv].
Proof.
  intros Hl Hs HQ. unfold start_family_tx. case_match.
  - settle id keeping framed_live_held of Hl Hs c lv. apply swp_insert_family; [done..|].
    clear c lv Hl Hs. intros c lv Hs.
    eapply (swp_frame _ _ _ (fun _ _ => True)); [auto with framing| |apply framed_true|done|exact Hs|].
    { unfold insert_refresh, random_credential. solve_stmts. }
    intros t c1 lv1 _ Hs1. apply swp_ret. intros c2 He. apply HQ. eapply steady_all_env; [apply He|done].
  - apply swp_ret. intros c2 He. apply HQ. eapply steady_all_env; [apply He|done].
Qed.

Lemma exchange_code_bound_settles raw client uri res verifier reg c :
  swp (exchange_code_bound raw client uri res verifier reg) any c [].
Proof.
  unfold exchange_code_bound. apply swp_with_tx. intros c0 _. pose proof (steady_start c0) as Hs.
  assert (Ht : (fun _ _ => True) c0 (push_level c0 [])) by done. revert Ht Hs. unfold push_level.
  generalize {| lv_held := []; lv_db := tx_view c0 [] |} as lv. clear c. rename c0 into c. intros lv Ht Hs.
  settle found keeping framed_true of Ht Hs c lv. destruct found as [code|]; [|apply swp_raise].
  case_match; [apply swp_raise|].
  eapply (swp_lock_session _ _ _ (cr_session_id code));
    [eauto with stmts|eauto with stmts typeclass_instances|simpl; set_solver|done|].
  clear c lv Ht Hs. intros clk d srow v' c lv Hx Hh Hlive Hs. destruct srow as [srow|]; [|apply swp_raise].
  assert (Hu : live_if (is_none (sr_revoked_at srow)) (cr_session_id code) c [lv]).
  { destruct (sr_revoked_at srow) eqn:Hr; [done|]. apply Hlive. intros (x & t & Hx1 & Ht).
    cbn in Hx. rewrite Hx1 in Hx. simplify_eq. simpl in Hr. congruence. }
  clear clk d v' Hx Hh Hlive.
  settle locked keeping framed_live_if of Hu Hs c lv.
  settle current keeping framed_live_if of Hu Hs c lv.
  destruct (cr_session_id current =? cr_session_id code)%N eqn:Hid; [|apply swp_raise].
  apply N.eqb_eq in Hid. rewrite <- Hid in Hu. simpl. case_match; [apply swp_raise|].
  settle ? keeping framed_live_if of Hu Hs c lv. settle ? keeping framed_live_if of Hu Hs c lv.
  settle now keeping framed_live_if of Hu Hs c lv. settle ? keeping framed_live_if of Hu Hs c lv.
  case_match; [apply swp_rest; [unfold replay_code_tx; solve_stmts..|done]|].
  case_match eqn:Hg; [apply swp_raise|].
  assert (Hn : is_none (sr_revoked_at srow) = true).
  { apply orb_false_iff in Hg as [_ Hg]. by destruct (sr_revoked_at srow). }
  rewrite Hn in Hu. change (live_held (cr_session_id current) c [lv]) in Hu.
  settle ? keeping framed_live_held of Hu Hs c lv.
  eapply swp_bindE, start_family_settles; [exact Hu|exact Hs|]. clear c lv Hu Hs. intros t c lv Hs.
  apply swp_rest; [unfold check_binding_tx; solve_stmts..|done].
Qed.
Lemma exchange_code_request_settles raw client uri res verifier scopes reg c :
  swp (exchange_code_request raw client uri res verifier scopes reg) any c [].
Proof.
  unfold exchange_code_request. apply swp_outside; [|solve_stmts|].
  { apply cwp_sql_auto; [intros; by apply quiet_sound; eauto with stmts typeclass_instances|by split]. }
  intros r c1. destruct r as [[[ss sr] ch]|]; [|apply swp_raise]. case_match; [apply swp_raise|].
  apply swp_outside; [|solve_stmts|]; [by apply cwp_try_instant|]. intros t c2. apply exchange_code_bound_settles.
Qed.

Lemma deny_callback_stmt_neutral claim : neutral_stmt _ (deny_callback_stmt claim).
Proof. apply update_where_stmt_neutral. Qed.
Lemma fail_callback_stmt_neutral claim : neutral_stmt _ (fail_callback_stmt claim).
Proof. apply update_where_stmt_neutral. Qed.
Lemma sign_in_stmt_neutral id session csrf : neutral_stmt _ (sign_in_stmt id session csrf).
Proof. apply update_where_stmt_neutral. Qed.
#[local] Hint Resolve deny_callback_stmt_neutral fail_callback_stmt_neutral sign_in_stmt_neutral : stmts.

Lemma operation_settles {A} (p : prog A) c : operation A p -> settles any p c [].
Proof.
  intros Hp. assert (Hq : polite p) by by apply operation_polite.
  destruct Hp;
    try (eapply settles_mono;
      [first [apply exchange_code_bound_settles | apply exchange_code_request_settles
             | apply logout_settles | apply finish_settles | apply finish_inner_settles]|done]; fail);
    (apply (polite_settles); [exact Hq|]; clear Hq; unfold_operation; solve_stmts).
Qed.
End Operations.
