(* ===== verification/Composition.v ===== *)
(** * Composition: programs made of operations

    An operation leaves no transaction open, so programs that run operations
    one after another keep, however the others move, what each of them keeps.
    Requests are such programs (Serving.v). *)

From Stdlib Require Import Ascii ZArith Lia.
From S2P Require Import Prelude External Schema Effects Evolution Identity Cimd OAuth Jose Keys Google Credentials Database Logout Browser StoresSpec DatabaseTheory LogoutTheory BrowserTheory StoresInvariant Transitions System Concurrency ConcurrencyTheory Pools Confinement Drafts Readers Politeness Revocation Settling.

(** ** Programs that leave no transaction open *)

(** From [n] open levels. *)
Fixpoint closes {A} (n : nat) (p : prog A) : Prop :=
  match p with
  | Ret _ => n = 0%nat
  | Sql s k => forall r, closes n (k r)
  | Begin k => closes (S n) (k (Ok tt)) /\ forall e, closes n (k (Err e))
  | Commit k | Rollback k => forall r, closes (pred n) (k r)
  | EndTx k => closes 0 k
  | NewUuid k => forall u, closes n (k u)
  | RandomBytes k => forall b, closes n (k b)
  | InstantNow k | UtcNow k => forall t, closes n (k t)
  end.

Lemma closes_bind {A B} n (p : prog A) (f : A -> prog B) :
  closes n p -> (forall a, closes 0 (f a)) -> closes n (bind p f).
Proof.
  revert n. induction p as [a|R s k IH|k IH|k IH|k IH|k IH|k IH|k IH|k IH|k IH]; simpl; intros n Hp Hf;
    [subst; apply Hf|try (intros; by apply IH)..]. destruct Hp as [Hok He]. split; [by apply IH|]. intros e. by apply IH.
Qed.
(** The transaction goes out of scope. *)
Lemma closes_end {A B} n (p : prog A) (f : A -> prog B) :
  (forall a, closes 0 (f a)) -> closes n (bind p (fun a => EndTx (f a))).
Proof.
  intros Hf. revert n. induction p as [a|R s k IH|k IH|k IH|k IH|k IH|k IH|k IH|k IH|k IH]; simpl; intros n; auto.
Qed.
Lemma closes_with_tx {E A} `{!FromDb E} (m : M E A) : closes 0 (with_tx m).
Proof. by apply closes_end. Qed.
Lemma closes_bindE {E A B} (m : M E A) (f : A -> M E B) :
  closes 0 m -> (forall a, closes 0 (f a)) -> closes 0 (bindE m f).
Proof. intros Hm Hf. apply closes_bind; [done|]. by intros []. Qed.
Lemma closes_sql {E R} `{!FromDb E} (s : stmt R) : closes 0 (sql (E:=E) s).
Proof. intros []; done. Qed.

Ltac solve_closes :=
  repeat first
    [ progress intros | done | apply closes_with_tx | apply closes_sql | apply closes_bindE
    | apply closes_bind | case_match ].

Section Closed.
Context `{Crypto, UrlLib, JsonLib, JsonDb, UuidLib}.
Lemma closes_or_invalid {A} (o : option A) : closes 0 (or_invalid o).
Proof. by destruct o. Qed.
Lemma closes_decoded {A} (o : option A) : closes 0 (decoded o).
Proof. by destruct o. Qed.
Lemma closes_lift {E A} (r : result A E) : closes 0 (lift r).
Proof. by destruct r. Qed.

Lemma operation_closes {A} (p : prog A) : operation A p -> closes 0 p.
Proof.
  destruct 1; unfold_operation;
    repeat first [ progress intros | done | apply closes_with_tx | apply closes_sql | apply closes_or_invalid
                 | apply closes_decoded | apply closes_lift | apply closes_bindE | case_match ].
Qed.
End Closed.

(** ** What is left open when it answers *)

Lemma advance_depth {A} busy ch (p : prog A) tx c p' tx' c' :
  closes (length tx) p -> advance busy ch p tx c = Some (p', tx', c') -> closes (length tx') p'.
Proof.
  intros Hp. destruct p; cbn [advance closes] in *; repeat case_match; intros; simplify_eq/=; try done;
    try apply Hp; by destruct tx.
Qed.

Lemma inter_closes {A G} (L : Ledger G) Q (p : prog A) c tx g :
  inter L Q p c tx g -> closes (length tx) p -> inter L (fun a c tx g => tx = [] /\ Q a c tx g) p c tx g.
Proof.
  induction 1 as [p c tx g Hret Hfine Hall _ IH]. intros Hp. split; [|done..|].
  - intros a c1 -> He. split; [by apply nil_length_inv|by apply Hret].
  - intros c1 busy ch p' tx' c' He Ha. by eapply IH, advance_depth.
Qed.
Lemma settles_closes {A} Q (p : prog A) c tx :
  settles Q p c tx -> closes (length tx) p -> settles (fun a c tx => tx = [] /\ Q a c tx) p c tx.
Proof.
  induction 1 as [p c tx Hret Hsafe _ IH]. intros Hp. split; [|done|].
  - intros a c1 -> He. split; [by apply nil_length_inv|by apply Hret].
  - intros c1 busy ch p' tx' c' He Hf Hap Ha. by eapply IH, advance_depth.
Qed.

(** Where the ledger is not looked at, it may hold anything. *)
Lemma inter_any_note {A G} (L : Ledger G) (Q : A -> DB -> list Level -> Prop) (p : prog A) c tx g g' :
  inter L (fun a c tx _ => Q a c tx) p c tx g -> inter L (fun a c tx _ => Q a c tx) p c tx g'.
Proof.
  intros Hi. revert g'. induction Hi as [p c tx g Hret Hfine Hall _ IH]. intros g'.
  split; [exact Hret|exact Hfine|exact Hall|]. intros c1 busy ch p' tx' c' He Ha. by eapply IH.
Qed.

Section Composed.
Context `{Crypto, UrlLib, JsonLib, JsonDb, UuidLib}.

Lemma stepwise_bind {A B} (p : prog A) (f : A -> prog B) :
  stepwise p -> closes 0 p -> (forall a, stepwise (f a)) -> stepwise (bind p f).
Proof.
  intros Hp Hc Hf c. apply inter_bind. eapply inter_mono; [apply (inter_closes _ _ _ _ _ _ (Hp c) Hc)|].
  intros a c' tx' g [-> _]. apply (inter_any_note _ (fun _ _ _ => True) _ _ _ []). apply Hf.
Qed.

(** Effects that leave the database alone. *)
Definition settled_always {A} (p : prog A) : Prop := forall c, settles any p c [].

Lemma settled_bind {A B} (p : prog A) (f : A -> prog B) :
  settled_always p -> closes 0 p -> (forall a, settled_always (f a)) -> settled_always (bind p f).
Proof.
  intros Hp Hc Hf c. apply settles_bind. eapply settles_mono; [apply (settles_closes _ _ _ _ (Hp c) Hc)|].
  intros a c' tx' [-> _]. apply Hf.
Qed.

(** What it does with the draws and the clocks does not matter. *)
Definition asks {X A} (q : (X -> prog A) -> prog A) : Prop :=
  forall k busy ch tx c p' tx' c', advance busy ch (q k) tx c = Some (p', tx', c') ->
    (exists x, p' = k x) /\ tx' = tx /\ c' = c.
Lemma inter_asks {X A G} (L : Ledger G) q (k : X -> prog A) Q c tx g :
  asks q -> (forall a, q k <> Ret a) -> (forall v, stmt_fine (q k) v) ->
  (forall x c1, inter L Q (k x) c1 tx g) -> inter L Q (q k) c tx g.
Proof.
  intros Hq Hr Hf Hk. apply inter_quiet; [exact Hr|by intros; apply Hf|].
  intros c1 busy ch p' tx' c' He Ha. by destruct (Hq _ _ _ _ _ _ _ _ Ha) as ((x & ->) & -> & ->).
Qed.
Lemma settles_asks {X A} q (k : X -> prog A) Q c tx :
  asks q -> (forall a, q k <> Ret a) -> (forall x c1, settles Q (k x) c1 tx) -> settles Q (q k) c tx.
Proof.
  intros Hq Hr Hk. split.
  - intros a c1 Ha. by destruct (Hr a).
  - intros c1 busy ch p' tx' c' [_ _ Hi] _ _ Ha. destruct (Hq _ _ _ _ _ _ _ _ Ha) as (_ & _ & ->).
    split; [exact Hi|apply fam_keeps_refl].
  - intros c1 busy ch p' tx' c' _ _ _ Ha. by destruct (Hq _ _ _ _ _ _ _ _ Ha) as ((x & ->) & -> & ->).
Qed.
Lemma asks_all {A} : asks (A:=A) NewUuid /\ asks (A:=A) RandomBytes /\ asks (A:=A) InstantNow /\ asks (A:=A) UtcNow.
Proof. split_and!; intros k busy ch tx c p' tx' c'; simpl; intros; simplify_eq; eauto. Qed.

(** Operations of the stores, one after another, with clock readings and
    draws in between. *)
Inductive composed : forall A, prog A -> Prop :=
| ComposedRet A (a : A) : composed A (Ret a)
| ComposedOp A (p : prog A) : operation A p -> composed A p
| ComposedBind A B (p : prog A) (f : A -> prog B) :
    composed A p -> (forall a, composed B (f a)) -> composed B (bind p f)
| ComposedUuid A k : (forall x, composed A (k x)) -> composed A (NewUuid k)
| ComposedBytes A k : (forall x, composed A (k x)) -> composed A (RandomBytes k)
| ComposedInstant A k : (forall x, composed A (k x)) -> composed A (InstantNow k)
| ComposedUtc A k : (forall x, composed A (k x)) -> composed A (UtcNow k).

Lemma composed_closes {A} (p : prog A) : composed A p -> closes 0 p.
Proof. induction 1; simpl; [done|by apply operation_closes|by apply closes_bind|done..]. Qed.
Lemma composed_stepwise {A} (p : prog A) : composed A p -> stepwise p.
Proof.
  induction 1 as [|A p Hp|A B p f Hp IHp Hf IHf|A k Hk IH|A k Hk IH|A k Hk IH|A k Hk IH]; intros c;
    [by apply inter_pure|by apply operation_steps|apply stepwise_bind; auto using composed_closes|..];
    by apply inter_asks; [apply asks_all| | |intros; apply IH].
Qed.
Lemma composed_polite {A} (p : prog A) : composed A p -> polite p.
Proof. intros Hp. by apply stepwise_polite, composed_stepwise. Qed.
Lemma composed_settles {A} (p : prog A) : composed A p -> settled_always p.
Proof.
  induction 1 as [|A p Hp|A B p f Hp IHp Hf IHf|A k Hk IH|A k Hk IH|A k Hk IH|A k Hk IH]; intros c;
    [by apply settles_pure|by apply operation_settles|apply settled_bind; auto using composed_closes|..];
    by apply settles_asks; [apply asks_all| |intros; apply IH].
Qed.
Lemma bystand_fair done {A} (p : prog A) c : composed A p -> fair done (bystand p) c [] false.
Proof. intros Hp. apply fair_bystand. eapply inter_ledger; [apply _|]. by apply composed_polite. Qed.
End Composed.
