(* ===== verification/Serving.v ===== *)
(** * Serving: requests are made of operations

    Every handler of Web.v runs operations of the stores one after another,
    with clock readings and draws in between, whatever it is sent and
    whatever its outside answers. *)

From Stdlib Require Import Ascii ZArith.
From S2P Require Import Prelude External Schema Effects Cimd Jose Keys OAuth Config Identity Google Database Credentials Tokens Logout Browser Http Web System Composition.

Create HintDb composed.

(** The structure of a handler. *)
Ltac composing :=
  repeat first
    [ progress intros
    | solve [auto 2 with composed nocore]
    | apply ComposedRet
    | solve [apply ComposedOp; constructor]
    | apply ComposedBind
    | apply ComposedInstant | apply ComposedUtc | apply ComposedUuid | apply ComposedBytes
    | case_match ].

Section Handlers.
Context `{Crypto, JwtLib, UrlLib, JsonLib, JsonDb, UuidLib, HttpLib, FormLib, !AxumLib}.
Context (p : Provider) (leased : Leases) (keys : SigningKeys).

Lemma composed_attempts {A} (body : nat -> prog (option A)) (exhausted : prog A) :
  (forall n, composed _ (body n)) -> composed _ exhausted -> composed _ (for_attempts body exhausted).
Proof. intros Hb He. unfold for_attempts. composing; try apply Hb; try exact He. Qed.
Lemma composed_or_code {E A} code (m : M E A) : composed _ m -> composed _ (or_code code m).
Proof. intros Hm. unfold or_code. composing. Qed.
Lemma resolve_client_composed snapshot client : composed _ (resolve_client p snapshot client).
Proof. unfold resolve_client. composing. Qed.
Lemma registry_fresh_composed registry : composed _ (registry_fresh registry).
Proof. unfold registry_fresh. composing. Qed.
Lemma session_from_composed h : composed _ (session_from p h).
Proof. unfold session_from. composing. Qed.
#[local] Hint Resolve composed_attempts composed_or_code resolve_client_composed registry_fresh_composed
  session_from_composed : composed.

Lemma consent_page_composed base session handle : composed _ (consent_page p leased base session handle).
Proof. unfold consent_page. composing. Qed.
Lemma with_registry_composed {A} base client (op : ClientRegistry -> M BrowserError A) :
  (forall registry, composed _ (op registry)) -> composed _ (with_registry p leased base client op).
Proof. intros Hop. unfold with_registry. composing. Qed.
Lemma for_client_composed {A} base client (op : ClientRegistry -> M BrowserError A) :
  composed _ client -> (forall registry, composed _ (op registry)) ->
  composed _ (for_client p leased base client op).
Proof. intros Hc Hop. unfold for_client. composing. Qed.
#[local] Hint Resolve consent_page_composed : composed.

(** *** /authorize *)

Lemma check_max_age_composed session max_age : composed _ (check_max_age session max_age).
Proof. unfold check_max_age, utc_now. composing. Qed.
#[local] Hint Resolve check_max_age_composed : composed.
Lemma authorize_session_composed a pending allow registry base session :
  composed _ (authorize_session p leased a pending allow registry base session).
Proof. unfold authorize_session. composing. Qed.
Lemma authorize_sign_in_composed a pending allow registry headers :
  composed _ (authorize_sign_in p a pending allow registry headers).
Proof. unfold authorize_sign_in. composing. Qed.
#[local] Hint Resolve authorize_session_composed authorize_sign_in_composed : composed.
Lemma authorize_valid_composed q headers registry base :
  composed _ (authorize_valid p leased q headers registry base).
Proof. unfold authorize_valid. composing. Qed.
#[local] Hint Resolve authorize_valid_composed : composed.
Lemma authorize_composed raw headers : composed _ (authorize p leased raw headers).
Proof. unfold authorize. composing. Qed.

(** *** The federation with Google *)

Lemma google_start_composed headers body : composed _ (google_start_handler p leased headers body).
Proof. unfold google_start_handler, google_cancel. composing. Qed.
Lemma claim_with_composed state cookies : composed _ (claim_with state cookies).
Proof. induction cookies as [|[name binding] cookies IH]; cbn [claim_with]; composing. Qed.
Lemma callback_error_composed error claim name : composed _ (callback_error p leased error claim name).
Proof. unfold callback_error, for_client, with_registry. composing. Qed.
Lemma pre_authorized_end_composed completion : composed _ (pre_authorized_end p leased completion).
Proof. unfold pre_authorized_end. composing. Qed.
#[local] Hint Resolve claim_with_composed callback_error_composed pre_authorized_end_composed : composed.
Lemma callback_complete_composed claim name verified :
  composed _ (callback_complete p leased claim name verified).
Proof. unfold callback_complete, for_client, with_registry, complete_callback_with_registry. composing. Qed.
#[local] Hint Resolve callback_complete_composed : composed.
Lemma callback_composed exchange raw headers : composed _ (callback p leased exchange raw headers).
Proof. unfold callback. composing. Qed.

(** *** The consent page *)

Lemma consent_get_composed raw headers : composed _ (consent_get p leased raw headers).
Proof. unfold consent_get. composing. Qed.
Lemma consent_post_composed headers body : composed _ (consent_post p leased headers body).
Proof. unfold consent_post, consent_action, decide_consent. composing. Qed.

(** *** Tokens *)

Lemma token_composed headers body : composed _ (token p leased keys headers body).
Proof. unfold token, token_loop, token_grant, issue_tokens. composing. Qed.
Lemma userinfo_composed headers body : composed _ (userinfo p keys headers body).
Proof. unfold userinfo. composing. Qed.
Lemma revoke_composed headers body : composed _ (revoke p headers body).
Proof. unfold revoke. composing. Qed.

(** *** Logout *)

Lemma logout_rp_composed headers q : composed _ (logout_rp p keys headers q).
Proof. unfold logout_rp, logout_begin, finish_hint. composing. Qed.
#[local] Hint Resolve logout_rp_composed : composed.
Lemma logout_get_composed raw headers : composed _ (logout_get p keys raw headers).
Proof. unfold logout_get. composing. Qed.
Lemma logout_post_composed raw headers body : composed _ (logout_post p keys raw headers body).
Proof. unfold logout_post, logout_confirm. composing. Qed.

End Handlers.

Section Server.
Context `{Crypto, JwtLib, UrlLib, JsonLib, JsonDb, UuidLib, HttpLib, FormLib, !AxumLib}.

#[local] Hint Resolve authorize_composed google_start_composed callback_composed consent_get_composed
  consent_post_composed token_composed userinfo_composed revoke_composed logout_get_composed
  logout_post_composed : composed.

Lemma provider_route_composed p keys out route rq : composed _ (provider_route p keys out route rq).
Proof. destruct route; unfold provider_route, authorize_get, authorize_post, with_body; composing. Qed.
#[local] Hint Resolve provider_route_composed : composed.

(** Every request, on any route. *)
Lemma serve_composed s out rq : composed _ (serve s out rq).
Proof. unfold serve, route_handler. composing. Qed.
End Server.
