(* ===== verification/Steps.v ===== *)
(** * Steps: pools as runs of the atomic stores

    Each program made of operations, however the others move, publishes
    transitions only; so a pool of them is, on the committed database, a run
    of the atomic system of Transitions.v. *)

From Stdlib Require Import Ascii ZArith.
From S2P Require Import Prelude External Schema Effects Evolution Identity Cimd OAuth Jose Keys Google Credentials CredentialsSpec CredentialsTheory CredentialsInvariant Database Logout Browser StoresSpec DatabaseTheory LogoutTheory BrowserTheory StoresInvariant Transitions System Concurrency ConcurrencyTheory Pools Confinement Drafts Politeness Revocation Settling Composition Http Web Serving.

Section Steps.
Context `{Crypto, UrlLib, JsonLib, JsonDb, UuidLib}.

(** ** Pools of operations *)

(** Any program made of operations, a request of the server above all,
    whatever is made of its answer. *)
Inductive client : prog bool -> Prop :=
| Client A (p : prog A) (f : A -> bool) : composed A p -> client (bind p (fun a => Ret (f a))).

Lemma operation_client {A} (p : prog A) f : operation A p -> client (bind p (fun a => Ret (f a))).
Proof. intros Hp. by apply Client, ComposedOp. Qed.
Lemma client_fresh c p : client p -> fresh_ok c p.
Proof.
  intros [A q f Hq]. apply inter_bind. eapply inter_mono; [by apply composed_polite|].
  intros a c' tx' g _. by apply inter_pure.
Qed.
Lemma client_settles c p : client p -> settles any p c [].
Proof.
  intros [A q f Hq]. apply settles_bind. eapply settles_mono; [by apply composed_settles|].
  intros a c' tx' _. by apply settles_pure.
Qed.
Lemma client_steps p : client p -> stepwise p.
Proof.
  intros [A q f Hq] c. apply inter_bind. eapply inter_mono; [by apply composed_stepwise|].
  intros a c' tx' g _. by apply inter_pure.
Qed.

Record pool_atomic (pool : Pool) : Prop := {
  pt_ok : pool_ok pool;
  pt_settles : pool_settles pool;
  pt_steps : forall i, exists g, follows stepping (fun _ _ _ _ => True) i g pool;
}.

Lemma start_settles d ps : revoked_together d -> Forall client ps -> pool_settles (start d ps).
Proof.
  intros Hd Hps. split; simpl; [done|]. intros i th Hi. rewrite list_lookup_fmap in Hi.
  apply fmap_Some in Hi as (p & Hp & ->). rewrite Forall_lookup in Hps. by eapply client_settles, Hps.
Qed.
Lemma start_atomic d ps :
  unique_db d = true -> revoked_together d -> Forall client ps -> pool_atomic (start d ps).
Proof.
  intros Hu Hd Hps. split; [|by apply start_settles|].
  - apply start_ok; [done|]. eapply list.Forall_impl; [exact Hps|]. intros p. apply client_fresh.
  - intros i. exists []. intros th Hi. simpl in Hi. rewrite list_lookup_fmap in Hi.
    apply fmap_Some in Hi as (p & Hp & ->). rewrite Forall_lookup in Hps. by eapply client_steps, Hps.
Qed.

(** An effect of a thread is a transition of the stores, or changes nothing. *)
Lemma pool_step_atomic pool pool' : pool_atomic pool -> pool_step pool pool' ->
  pool_atomic pool' /\ may_change transition (pl_db pool) (pl_db pool') /\ moves (pl_db pool) (pl_db pool').
Proof.
  intros [Hok Hset Hf] Hs. pose proof (pool_step_settles _ _ Hok Hset Hs) as Hset'.
  destruct (pool_step_ok _ _ Hok Hs) as [Hok' Hm]. destruct Hs as (i & ch & (th & th' & Had)%advance_thread_inv).
  split_and!; [split; [done..|]| |done].
  - intros j. destruct (decide (j = i)) as [->|Hne]; [destruct (Hf i) as [g Hg]|destruct (Hf j) as [g Hg]].
    + eexists. exact (follows_self _ _ Had Hok _ Hg).
    + exists g. by apply (follows_other _ _ Had Hok).
  - destruct (Hf i) as [g Hg]. destruct (follows_allowed _ _ Had Hok _ Hg) as [Hc|Hc]; [by left|right].
    eapply but_families_together; [exact Hc|apply (ps_inv _ Hset')].
Qed.
Lemma pool_steps_atomic pool pool' : pool_atomic pool -> rtc pool_step pool pool' ->
  pool_atomic pool' /\ rtc (fun c c' => transition c c' /\ moves c c') (pl_db pool) (pl_db pool').
Proof.
  intros Hp Hs. induction Hs as [|pool pool1 pool2 Hs _ IH]; [done|].
  destruct (pool_step_atomic _ _ Hp Hs) as (Hp1 & [Hc|Hc] & Hm); destruct (IH Hp1) as [Hp2 Hr].
  - by rewrite Hc in Hr.
  - split; [done|]. by eapply rtc_l.
Qed.
End Steps.

(** A request to the server, whatever it is and whatever its outside answers. *)
Definition served_request `{Crypto, JwtLib, UrlLib, JsonLib, JsonDb, UuidLib, HttpLib, FormLib, !AxumLib}
    (s : AppState) (out : Outside) (rq : Request) : prog bool := bystand (serve s out rq).
Lemma served_request_client `{Crypto, JwtLib, UrlLib, JsonLib, JsonDb, UuidLib, HttpLib, FormLib, !AxumLib} s out rq :
  client (served_request s out rq).
Proof. apply (Client _ _ (fun _ => false)), serve_composed. Qed.
