(* ===== verification/Latecomers.v ===== *)
(** * Latecomers: operations on a revoked session, in a pool

    Once the revocation of a session is committed, an operation that begins
    gets nothing of it, whatever else is running: the row it locks is
    revoked, and so are the families. *)

From Stdlib Require Import Ascii ZArith.
From S2P Require Import Prelude External Schema Effects Evolution Identity Cimd OAuth Jose Keys Google Credentials CredentialsSpec CredentialsTheory CredentialsInvariant Database Logout Browser StoresSpec DatabaseTheory LogoutTheory BrowserTheory StoresInvariant System Concurrency ConcurrencyTheory Pools Confinement Framing Contest Contenders Deciders Readers Politeness Revocation.

(** The session is revoked, as a test. *)
Definition revoked_test (s : Uuid) (d : DB) : bool :=
  match provider_sessions d !! s with Some r => is_some (ps_revoked_at r) | None => false end.
Lemma revoked_test_true s d : revoked_test s d = true <-> session_revoked d s.
Proof.
  unfold revoked_test, session_revoked. destruct (provider_sessions d !! s) as [r|]; [|naive_solver].
  rewrite is_some_true. split; [intros [t Ht]; by exists r, t|intros (r' & t & [= <-] & Ht); by exists t].
Qed.
Lemma revoked_test_moves s c c' : moves c c' -> revoked_test s c = true -> revoked_test s c' = true.
Proof. rewrite !revoked_test_true. apply session_revoked_moves. Qed.

Section Latecomers.
Context `{Crypto, UrlLib, JsonLib, JsonDb, UuidLib} (s : Uuid).
Notation cwp := (cwp (marks (revoked_test s))).

(** It never answers what [win] accepts. *)
Definition loses {E A} (win : A -> bool) (m : M E A) (c : DB) : Prop :=
  cwp m (fun a _ _ _ => win a = false) c [] false.

Lemma loses_fair {E A} (win : A -> bool) (m : M E A) c :
  loses win m c -> fair (revoked_test s) (contend win m) c [] false.
Proof.
  intros Hm. apply fair_contend. eapply inter_mono; [exact Hm|].
  intros [a|e] c' tx' g; [|done]. intros Hw Hw'. congruence.
Qed.

(** What is known of the session: it is revoked. *)
Definition doomed (c : DB) (_ : list Level) : Prop := session_revoked c s.
Lemma framed_doomed : framed doomed.
Proof. split; [|done]. intros c c1 tx [[Hm _] _ _]. by apply session_revoked_moves. Qed.

Lemma doomed_row {A} (f : session_rec -> A) c0 d r :
  session_revoked c0 s -> moves c0 d -> option_map f (provider_sessions d !! s) = r ->
  exists row, r = Some (f row) /\ is_some (ps_revoked_at row) = true.
Proof.
  intros Hd Hm <-. apply (session_revoked_moves _ _ _ Hm) in Hd as (row & t & Hr & Ht). exists row.
  by rewrite Hr, Ht.
Qed.

Section Rules.
Context {A : Type}.
Implicit Types (Q : A -> DB -> list Level -> bool -> Prop) (c : DB).

(** *** browser.rs *)

Lemma cwp_lock_revoked (f : SessionRow -> M BrowserError A) Q c lv :
  session_revoked c s ->
  (forall row c1 lv1, is_some (sw_revoked_at row) = true -> cwp (f row) Q c1 [lv1] false) ->
  cwp (row <- lock_session s ;; f row) Q c [lv] false.
Proof.
  intros Hd Hf. apply cwp_bindE. unfold lock_session.
  eapply (cwp_read_ahead _ _ _ _ doomed); [apply framed_doomed|eauto with stmts typeclass_instances|exact Hd|].
  intros clk c0 d r v' c1 lv1 Hc0 _ Hm _ Hx Hc1. simpl in Hx. simplify_eq.
  destruct (doomed_row (fun s => {| sw_user_id := ps_user_id s; sw_upstream_auth_time := ps_upstream_auth_time s;
                            sw_expires_at := ps_expires_at s; sw_revoked_at := ps_revoked_at s |}) _ _ _ Hc0 Hm eq_refl)
    as (row & -> & Hr). apply cwp_ret. intros c2 _. by apply Hf.
Qed.
Lemma ensure_fresh_revoked row e (Q : unit -> DB -> list Level -> bool -> Prop) c tx g :
  is_some (sw_revoked_at row) = true -> cwp (Browser.ensure_fresh row e) Q c tx g.
Proof. intros Hr. unfold Browser.ensure_fresh. apply cwp_then; [apply _|solve_stmts|]. intros. rewrite Hr. apply cwp_raise. Qed.

Lemma open_revoked session (f : SessionRow -> M BrowserError A) (Q : A -> bool -> Prop) c :
  se_id session = s -> session_revoked c s ->
  (forall row c1 lv1, is_some (sw_revoked_at row) = true -> cwp (f row) (fun a _ _ => Q a) c1 [lv1] false) ->
  cwp (with_tx (session_row <- lock_session (se_id session) ;; f session_row)) (fun a _ _ => Q a) c [] false.
Proof.
  intros Hs Hd Hf. rewrite Hs. apply cwp_with_tx. intros c0 He. apply cwp_lock_revoked; [|exact Hf].
  exact (fr_env _ framed_doomed _ _ _ He Hd).
Qed.
Lemma consent_revoked session handle e row (f : ConsentRow -> M BrowserError A) Q c lv :
  is_some (sw_revoked_at row) = true ->
  cwp (crow <- lock_consent (ch_transaction_id handle) (se_id session) (ch_csrf handle) ;;
       Browser.ensure_fresh row (e crow) ;;; f crow) Q c [lv] false.
Proof.
  intros Hr. apply cwp_then; [apply _|unfold lock_consent; solve_stmts|]. intros. apply cwp_bindE.
  by apply ensure_fresh_revoked.
Qed.
End Rules.

Lemma approve_late session handle reg c : se_id session = s -> session_revoked c s ->
  loses (fun _ => true) (approve session handle reg) c.
Proof. intros He Hd. apply (open_revoked session _ (fun _ _ => true = false)); [done..|]. intros. by apply consent_revoked. Qed.
Lemma approve_pre_authorized_late session handle reg c : se_id session = s -> session_revoked c s ->
  loses (fun _ => true) (approve_pre_authorized session handle reg) c.
Proof. intros He Hd. apply (open_revoked session _ (fun _ _ => true = false)); [done..|]. intros. by apply consent_revoked. Qed.
Lemma deny_late session handle reg c : se_id session = s -> session_revoked c s ->
  loses (fun _ => true) (deny_bound session handle reg) c.
Proof. intros He Hd. apply (open_revoked session _ (fun _ _ => true = false)); [done..|]. intros. by apply consent_revoked. Qed.
Lemma consent_view_late session handle reg c : se_id session = s -> session_revoked c s ->
  loses (fun _ => true) (consent_view session handle reg) c.
Proof. intros He Hd. apply (open_revoked session _ (fun _ _ => true = false)); [done..|]. intros. by apply consent_revoked. Qed.
Lemma begin_authenticated_late session p st n a c : se_id session = s -> session_revoked c s ->
  loses (fun _ => true) (begin_authenticated_with_pre_authorization session p st n a) c.
Proof.
  intros He Hd. unfold loses, begin_authenticated_with_pre_authorization.
  apply cwp_bindE, cwp_new_uuid. intros id c1 E1. unfold random_credential.
  apply cwp_bindE, cwp_bindE, cwp_random_bytes. intros b c2 E2. apply cwp_ret. intros c3 E3.
  apply (open_revoked session _ (fun _ _ => true = false)); [done| |].
  - do 3 (eapply (fr_env _ framed_doomed); [eassumption|]). exact Hd.
  - intros. apply cwp_bindE. by apply ensure_fresh_revoked.
Qed.

(** *** credentials.rs *)

(** The session of a code, and that of a token's family. *)
Definition code_of (raw : string) (c : DB) : Prop :=
  exists id r, authorization_codes c !! id = Some r /\ ac_code_hash r = hash raw /\ ac_session_id r = s.
Definition token_of (raw : string) (c : DB) : Prop :=
  exists id m f, refresh_token_members c !! id = Some m /\ rt_token_hash m = hash raw
    /\ refresh_families c !! rt_family_id m = Some f /\ rf_session_id f = s.

Lemma framed_code_of raw : framed (fun c _ => session_revoked c s /\ code_of raw c).
Proof.
  split; [|done]. intros c c1 tx [[Hm _] _ _] [Hd (id & r & Hr & Hh & Hs)].
  split; [by eapply session_revoked_moves|]. destruct (ev_codes _ _ (mv_evolves _ _ Hm) _ _ Hr) as (r' & Hr' & Hle).
  unfold code_le in Hle. destruct_and?. exists id, r'. split_and!; congruence.
Qed.
Lemma framed_token_of raw : framed (fun c _ => session_revoked c s /\ token_of raw c).
Proof.
  split; [|done]. intros c c1 tx [[Hm _] _ _] [Hd (id & m & f & Hr & Hh & Hf & Hs)].
  split; [by eapply session_revoked_moves|]. destruct (ev_members _ _ (mv_evolves _ _ Hm) _ _ Hr) as (r' & Hr' & Hle).
  destruct (ev_families _ _ (mv_evolves _ _ Hm) _ _ Hf) as (f' & Hf' & Hfle).
  unfold member_le, family_le in *. destruct_and?. exists id, r', f'. split_and!; congruence.
Qed.

(** A locked read of the session's row. *)
Lemma cwp_lock_doomed {E B A} `{!FromDb E} (st : stmt B) (f : B -> M E A) (rev : B -> bool) F Q c lv g :
  framed F -> (forall c tx, F c tx -> session_revoked c s) -> quiet _ st ->
  (forall clk d r v', exec st clk d = Ok (r, v') -> session_revoked d s -> rev r = true) ->
  F c [lv] ->
  (forall r c1 lv1, rev r = true -> F c1 [lv1] -> cwp (f r) Q c1 [lv1] g) ->
  cwp (bindE (sql st) f) Q c [lv] g.
Proof.
  intros HF Hd Hq Hrev Hc Hf. eapply (cwp_read_ahead _ _ _ _ F); [done|done|exact Hc|].
  intros clk c0 d r v' c1 lv1 Hc0 _ Hm _ Hx Hc1. apply Hf; [|done].
  eapply Hrev; [exact Hx|]. eapply session_revoked_moves; [exact Hm|]. by eapply Hd.
Qed.
Lemma doomed_lookup d : session_revoked d s ->
  exists row, provider_sessions d !! s = Some row /\ is_some (ps_revoked_at row) = true.
Proof. intros (row & t & Hr & Ht). exists row. by rewrite Ht. Qed.

Lemma exchange_code_bound_late raw client uri res v reg c : session_revoked c s -> code_of raw c ->
  loses (fun _ => true) (exchange_code_bound raw client uri res v reg) c.
Proof.
  intros Hd Hc. unfold loses, exchange_code_bound. apply (cwp_with_tx _ _ (fun _ _ => true = false)).
  intros c0 He. assert (Hu := conj Hd Hc). apply (fr_env _ (framed_code_of raw) _ _ _ He) in Hu. clear Hd Hc He.
  unfold push_level. eapply (cwp_read_ahead _ _ _ _ _); [apply framed_code_of|eauto with stmts typeclass_instances|exact Hu|].
  clear c Hu. intros clk c1 d r v' c lv [_ (id & rc & Hrc & Hh & Hs)] Huniq _ Heq Hx Hu. rewrite (Heq eq_refl) in Hx.
  simpl in Hx. destruct (find_row _ _) as [[k rc']|] eqn:Hf; simplify_eq/=; [|apply cwp_raise].
  apply find_row_Some in Hf as [Hk Hh']. apply bool_decide_eq_true in Hh'.
  assert (k = id) as ->.
  { eapply (unique_codes _ Huniq); [exact Hk|exact Hrc|congruence]. }
  assert (rc' = rc) as -> by congruence. case_match; [apply cwp_raise|]. rewrite Hs.
  eapply (cwp_lock_doomed _ _ (fun r => match r with Some r => is_some (sr_revoked_at r) | None => true end));
    [apply framed_code_of|by intros ? ? []|eauto with stmts typeclass_instances| |exact Hu|].
  { intros clk' d' r' v'' Hx' (row & Hrow & Hr)%doomed_lookup. simpl in Hx'. rewrite Hrow in Hx'. by simplify_eq/=. }
  intros [srow|] c2 lv2 Hr _; [|apply cwp_raise]. do 2 (apply cwp_then; [apply _|solve_stmts|intros]).
  case_match; [apply cwp_raise|]. do 4 (apply cwp_then; [apply _|unfold check_binding_tx, check_policy_tx; solve_stmts|intros]).
  case_match.
  - unfold replay_code_tx. repeat (apply cwp_then; [apply _|solve_stmts|intros]). apply cwp_raise.
  - rewrite Hr, orb_true_r. apply cwp_raise.
Qed.
(** A read outside a transaction. *)
Lemma cwp_auto_read {E B A} `{!FromDb E} (st : stmt B) (f : B -> M E A) F Q c g :
  framed F -> quiet _ st -> (forall clk d r d', exec st clk d = Ok (r, d') -> d' = d) -> F c [] ->
  (forall clk c0 r d' c1, exec st clk c0 = Ok (r, d') -> F c0 [] -> F c1 [] -> cwp (f r) Q c1 [] g) ->
  cwp (bindE (sql st) f) Q c [] g.
Proof.
  intros HF Hq Hr Hc Hf. apply cwp_bindE, cwp_sql_auto; [intros; by apply quiet_sound|].
  intros c1 clk r v' E1 Hx _. split; [done|]. intros c2 E2. pose proof (Hr _ _ _ _ Hx) as ->. rewrite note_same.
  apply (fr_env _ HF _ _ _ E1) in Hc. eapply Hf; [exact Hx|exact Hc|]. by eapply (fr_env _ HF).
Qed.

Lemma exchange_code_request_late raw client uri res v sc reg c : session_revoked c s -> code_of raw c ->
  loses (fun _ => true) (exchange_code_request raw client uri res v sc reg) c.
Proof.
  intros Hd Hc. unfold loses, exchange_code_request.
  eapply (cwp_auto_read _ _ _ _ _ _ (framed_code_of raw)); [eauto with stmts typeclass_instances| |done|].
  { intros clk d r d' Hx. simpl in Hx. by simplify_eq. }
  intros _ _ r _ c1 _ _ Hu. destruct r as [[[ss sr] ch]|]; [|apply cwp_raise]. case_match; [apply cwp_raise|].
  apply cwp_bindE, cwp_try_instant. intros t a c2 _ E2.
  apply (fr_env _ (framed_code_of raw) _ _ _ E2) in Hu as [Hd2 Hc2]. by apply exchange_code_bound_late.
Qed.

Lemma rotate_refresh_bound_late raw client res reg c : session_revoked c s -> token_of raw c ->
  loses (fun _ => true) (rotate_refresh_bound raw client res reg) c.
Proof.
  intros Hd Hc. unfold loses, rotate_refresh_bound. apply (cwp_with_tx _ _ (fun _ _ => true = false)).
  intros c0 He. assert (Hu := conj Hd Hc). apply (fr_env _ (framed_token_of raw) _ _ _ He) in Hu. clear Hd Hc He.
  unfold push_level. eapply (cwp_read_ahead _ _ _ _ _); [apply framed_token_of|eauto with stmts typeclass_instances|exact Hu|].
  clear c Hu. intros clk c1 d r v' c lv [_ (id & m & fam & Hm & Hh & Hfam & Hs)] Huniq _ Heq Hx Hu. rewrite (Heq eq_refl) in Hx.
  simpl in Hx. unfold member_join_family in Hx.
  destruct (find_row _ _) as [[k m']|] eqn:Hf; simplify_eq/=; [|apply cwp_raise].
  apply find_row_Some in Hf as [Hk Hh']. apply bool_decide_eq_true in Hh'.
  assert (k = id) as ->.
  { eapply (unique_members _ Huniq); [exact Hk|exact Hm|congruence]. }
  assert (m' = m) as -> by congruence. rewrite Hfam. simpl. rewrite Hs.
  eapply (cwp_lock_doomed _ _ (fun r => is_some (sr_revoked_at r)));
    [apply framed_token_of|by intros ? ? []|eauto with stmts typeclass_instances| |exact Hu|].
  { intros clk' d' r' v'' Hx' (row & Hrow & Hr)%doomed_lookup. simpl in Hx'. rewrite Hrow in Hx'. by simplify_eq/=. }
  intros srow c2 lv2 Hr _. do 2 (apply cwp_then; [apply _|solve_stmts|intros]).
  case_match; [apply cwp_raise|]. apply cwp_then; [apply _|solve_stmts|intros].
  case_match; [apply cwp_raise|]. do 2 (apply cwp_then; [apply _|solve_stmts|intros]).
  case_match.
  - unfold replay_refresh_tx. repeat (apply cwp_then; [apply _|solve_stmts|intros]). apply cwp_raise.
  - rewrite Hr, orb_true_r. apply cwp_raise.
Qed.
Lemma rotate_refresh_request_late raw client res sc reg c : session_revoked c s -> token_of raw c ->
  loses (fun _ => true) (rotate_refresh_request raw client res sc reg) c.
Proof.
  intros Hd Hc. unfold loses, rotate_refresh_request.
  eapply (cwp_auto_read _ _ _ _ _ _ (framed_token_of raw)); [eauto with stmts typeclass_instances| |done|].
  { intros clk d r d' Hx. simpl in Hx. by simplify_eq. }
  intros _ _ r _ c1 _ _ [Hd1 Hc1]. destruct r as [[ss sr]|]; [|apply cwp_raise]. case_match; [apply cwp_raise|].
  by apply rotate_refresh_bound_late.
Qed.

Lemma issue_authorization_code_late session grant l c : se_id session = s -> session_revoked c s ->
  loses (fun _ => true) (issue_authorization_code session grant l) c.
Proof.
  intros Hs Hd. unfold loses, issue_authorization_code. apply cwp_bindE, cwp_lift.
  destruct (Credentials.bounded_seconds _ _) as [secs|]; [|done]. intros c1 E1.
  apply (cwp_with_tx _ _ (fun _ _ => true = false)). intros c2 E2. rewrite Hs.
  apply (fr_env _ framed_doomed _ _ _ E1), (fr_env _ framed_doomed _ _ _ E2) in Hd.
  unfold push_level. eapply (cwp_lock_doomed _ _ (fun _ => true) doomed); [apply framed_doomed|done|eauto with stmts typeclass_instances|done|exact Hd|].
  intros r c3 lv _ Hd3. case_match; [apply cwp_raise|].
  eapply (cwp_lock_doomed _ _ (fun active => negb active) doomed);
    [apply framed_doomed|done|eauto with stmts typeclass_instances| |exact Hd3|].
  { intros clk d r' d' Hx (row & Hrow & Hr)%doomed_lookup. simpl in Hx. rewrite Hrow in Hx. simplify_eq/=.
    unfold is_none. by rewrite Hr. }
  intros active c4 lv1 -> _. apply cwp_raise.
Qed.

(** *** logout.rs *)

Lemma begin_local_late session uri c : se_id session = s -> session_revoked c s ->
  loses (fun _ => true) (begin_local session uri) c.
Proof.
  intros Hs Hd. unfold loses, begin_local, insert. apply cwp_bindE, cwp_new_uuid. intros id c1 E1. unfold random_credential.
  apply cwp_bindE, cwp_bindE, cwp_random_bytes. intros b c2 E2. apply cwp_ret. intros c3 E3.
  apply (cwp_with_tx _ _ (fun _ _ => true = false)). intros c4 E4. rewrite Hs.
  do 4 (match goal with E : env _ _ _ |- _ => apply (fr_env _ framed_doomed _ _ _ E) in Hd; clear E end).
  unfold push_level. eapply (cwp_lock_doomed _ _ (fun a => is_none_or a (fun '(_, revoked) => is_some revoked)) doomed);
    [apply framed_doomed|done|eauto with stmts typeclass_instances| |exact Hd|].
  { intros clk d r' d' Hx (row & Hrow & Hr)%doomed_lookup. simpl in Hx. rewrite Hrow in Hx. by simplify_eq/=. }
  intros [[e r]|] c5 lv1 Hr _; (apply cwp_then; [apply _|solve_stmts|intros]); simpl in *; [rewrite Hr|]; apply cwp_raise.
Qed.

(** *** The session behind a cookie *)
Lemma find_provider_session_late raw c : session_revoked c s ->
  loses (fun found => se_id found ==? s) (find_provider_session raw) c.
Proof.
  intros Hd. unfold loses, find_provider_session.
  eapply (cwp_auto_read _ _ doomed); [apply framed_doomed|eauto with stmts typeclass_instances| |done|].
  { intros clk d r d' Hx. simpl in Hx. by simplify_eq. }
  intros clk c0 r d' c1 Hx (row & Hrow & Hr)%doomed_lookup _. simpl in Hx. simplify_eq.
  destruct (find_row _ _) as [[k row']|] eqn:Hf; simpl; [|apply cwp_raise].
  apply cwp_ret. intros c2 _. simpl. apply find_row_Some in Hf as [Hk Hm]. bools_all.
  apply bool_decide_eq_false. intros ->. unfold is_some, is_none in *. simplify_eq. by destruct (ps_revoked_at row).
Qed.
End Latecomers.
