(* ===== verification/ConcurrencyProperties.v ===== *)
(** * ConcurrencyProperties: what holds however operations interleave *)

From Stdlib Require Import Ascii ZArith.
From S2P Require Import Prelude External Schema Effects Evolution Identity Cimd OAuth Jose Keys Google Credentials CredentialsSpec Database Logout Browser StoresSpec StoresInvariant System Transitions Concurrency ConcurrencyTheory Pools Confinement Contest Contenders Deciders Politeness Drafts Atomicity Promises AtomicConsent AtomicBrowser AtomicSignIn AtomicLogout Revocation Settling Composition Steps Latecomers.

Section Properties.
Context `{Crypto, UrlLib, JsonLib, JsonDb, UuidLib}.

(** What can be had once: the grant of a code, the successor of a refresh
    token, the end of a session by a logout challenge, the decision on a
    consent page, the callback with an upstream state, the sign-in of a
    request. *)
Inductive Prize : Type :=
| GrantOf (code : string)
| SuccessorOf (token : string)
| LogoutBy (challenge : Uuid)
| DecisionOn (request : Uuid)
| CallbackOf (state : string)
| SignInOf (request : Uuid).

(** It was had: the row that stands for it is consumed, or at a later stage. *)
Definition had (prize : Prize) (d : DB) : Prop :=
  match prize with
  | GrantOf raw => exists id c, authorization_codes d !! id = Some c
      /\ ac_code_hash c = hash raw /\ is_Some (ac_consumed_at c)
  | SuccessorOf raw => exists id m, refresh_token_members d !! id = Some m
      /\ rt_token_hash m = hash raw /\ is_Some (rt_consumed_at m)
  | LogoutBy id => exists l, logout_challenges d !! id = Some l /\ is_Some (lc_consumed_at l)
  | DecisionOn id => exists b, browser_authorizations d !! id = Some b /\ final_stage (ba_stage b) = true
  | CallbackOf state => exists id b, browser_authorizations d !! id = Some b
      /\ ba_upstream_state_hash b = Some (hash state) /\ (rank awaiting_google < rank (ba_stage b))%nat
  | SignInOf id => exists b, browser_authorizations d !! id = Some b
      /\ (rank callback_claimed < rank (ba_stage b))%nat
  end.

(** The programs of a pool: those that are after the prize, and win when they
    answer it, and any other operation of the stores. *)
Inductive rival : Prize -> prog bool -> Prop :=
| Redeems raw client uri res verifier reg :
    rival (GrantOf raw) (contend (fun _ => true) (exchange_code_bound raw client uri res verifier reg))
| RedeemsRequest raw client uri res verifier scopes reg :
    rival (GrantOf raw)
      (contend (fun _ => true) (exchange_code_request raw client uri res verifier scopes reg))
| Rotates raw client res reg :
    rival (SuccessorOf raw) (contend (fun _ => true) (rotate_refresh_bound raw client res reg))
| RotatesRequest raw client res scopes reg :
    rival (SuccessorOf raw) (contend (fun _ => true) (rotate_refresh_request raw client res scopes reg))
| Finishes session challenge reg :
    rival (LogoutBy (lch_id challenge)) (contend (fun _ => true) (finish session challenge reg))
| FinishesHint session challenge reg hint :
    rival (LogoutBy (lch_id challenge)) (contend is_some (finish_inner session challenge reg hint))
| Approves session handle reg :
    rival (DecisionOn (ch_transaction_id handle)) (contend (fun _ => true) (approve session handle reg))
| PreApproves session handle reg :
    rival (DecisionOn (ch_transaction_id handle)) (contend is_some (approve_pre_authorized session handle reg))
| Denies session handle reg :
    rival (DecisionOn (ch_transaction_id handle)) (contend (fun _ => true) (deny_bound session handle reg))
| Claims state binding :
    rival (CallbackOf state) (contend (fun _ => true) (claim_callback state binding))
| SignsIn id claim identity l reg :
    rival (SignInOf id)
      (contend (fun done => ch_transaction_id (lg_consent done) ==? id)
         (complete_callback_bound claim identity l reg))
| Bystands prize A (p : prog A) : composed A p -> rival prize (bystand p).

(** The test the contests use. *)
Definition had_test (prize : Prize) : DB -> bool :=
  match prize with
  | GrantOf raw => all_spent (H:=code_contest (hash raw))
  | SuccessorOf raw => all_spent (H:=member_contest (hash raw))
  | LogoutBy id => all_spent (H:=logout_contest id)
  | DecisionOn id => all_spent (H:=request_contest (decision_on id))
  | CallbackOf state => all_spent (H:=request_contest (callback_of (hash state)))
  | SignInOf id => all_spent (H:=request_contest (sign_in_of id))
  end.

Lemma had_test_true prize d : had_test prize d = true <-> had prize d.
Proof.
  destruct prize; simpl; rewrite all_spent_true; split.
  all: try (intros (id & r & Hr & Hm & Hs); simpl in *; bools_all; subst;
            repeat match goal with |- exists _, _ => eexists | |- _ /\ _ => split end;
            eauto using leb_complete; fail).
  all: intros Hx; match type of Hx with
    | @ex Uuid _ => destruct Hx as (id & r & Hr & Hm & Hs)
    | _ => destruct Hx as (r & Hr & Hs)
    end; eexists; exists r; simpl; autorewrite with bools; split_and!; try done.
  all: by apply (leb_correct _ _ Hs).
Qed.
Lemma had_test_moves prize c c' : moves c c' -> had_test prize c = true -> had_test prize c' = true.
Proof. destruct prize; apply all_spent_moves. Qed.

Lemma rival_fair prize p d : rival prize p -> fair (had_test prize) p d [] false.
Proof.
  destruct 1; try (by apply bystand_fair); apply fair_contend.
  - apply exchange_code_bound_cwp.
  - apply exchange_code_request_cwp.
  - apply rotate_refresh_bound_cwp.
  - apply rotate_refresh_request_cwp.
  - apply finish_cwp.
  - apply finish_inner_cwp.
  - apply approve_cwp.
  - apply approve_pre_authorized_cwp.
  - apply deny_bound_cwp.
  - apply claim_callback_cwp.
  - apply complete_callback_bound_cwp.
Qed.

(** C3: Under concurrency, what can be had once is had once. Any number of
    requests that redeem the same code, rotate the same refresh token, finish
    the same logout, approve or deny the same consent page, claim the same
    callback or sign the same request in, among any other requests to the
    server (any programs made of operations of the stores, [composed]), with
    their effects interleaved in any order on the shared database (READ
    COMMITTED and the row locks their statements take), each failing or losing
    its answer anywhere: at most one of them ever succeeds, none does
    if it was had before, and when one did, the row is consumed (or the
    request at its later stage) in the committed database. Throughout, the
    committed database only moves forward: no row disappears, no grant is
    rebound, no revocation or consumption is undone, and no request comes back
    to a stage it left. *)
Theorem had_once_interleaved prize d ps pool :
  unique_db d = true -> Forall (rival prize) ps -> rtc pool_step (start d ps) pool ->
  (forall i j, won i pool -> won j pool -> i = j)
  /\ (forall i, won i pool -> ~ had prize d /\ had prize (pl_db pool))
  /\ moves d (pl_db pool).
Proof.
  intros Hu Hps Hs.
  assert (Hok : Forall (fun p => fair (had_test prize) p d [] false) ps).
  { eapply Forall_impl; [|exact Hps]. intros p. apply rival_fair. }
  destruct (at_most_one_winner _ (had_test_moves prize) _ _ _ Hu Hok Hs) as (Hone & Hhad & Hm).
  split_and!; [done| |done]. intros i Hi. destruct (Hhad i Hi) as [Hd Hw].
  split; [|by apply had_test_true]. intros Hh%had_test_true. by rewrite Hh in Hd.
Qed.

(** ** Revocation *)

Inductive bystander : prog bool -> Prop :=
| Bystander A (p : prog A) : composed A p -> bystander (bystand p).

(** Operations that begin when the session is revoked, and win when they get
    something of it: tokens for its codes and refresh tokens, a code, a
    consent page and what is decided there, a logout page, or the session
    itself. And any other operation. *)
Inductive latecomer (s : Uuid) (d : DB) : prog bool -> Prop :=
| LateExchange raw client uri res v reg : code_of s raw d ->
    latecomer s d (contend (fun _ => true) (exchange_code_bound raw client uri res v reg))
| LateExchangeRequest raw client uri res v sc reg : code_of s raw d ->
    latecomer s d (contend (fun _ => true) (exchange_code_request raw client uri res v sc reg))
| LateRotate raw client res reg : token_of s raw d ->
    latecomer s d (contend (fun _ => true) (rotate_refresh_bound raw client res reg))
| LateRotateRequest raw client res sc reg : token_of s raw d ->
    latecomer s d (contend (fun _ => true) (rotate_refresh_request raw client res sc reg))
| LateIssue session grant l : se_id session = s ->
    latecomer s d (contend (fun _ => true) (issue_authorization_code session grant l))
| LateBegin session p st n a : se_id session = s ->
    latecomer s d (contend (fun _ => true) (begin_authenticated_with_pre_authorization session p st n a))
| LateView session handle reg : se_id session = s ->
    latecomer s d (contend (fun _ => true) (consent_view session handle reg))
| LateApprove session handle reg : se_id session = s ->
    latecomer s d (contend (fun _ => true) (approve session handle reg))
| LatePreApprove session handle reg : se_id session = s ->
    latecomer s d (contend (fun _ => true) (approve_pre_authorized session handle reg))
| LateDeny session handle reg : se_id session = s ->
    latecomer s d (contend (fun _ => true) (deny_bound session handle reg))
| LateLogout session uri : se_id session = s ->
    latecomer s d (contend (fun _ => true) (begin_local session uri))
| LateFind raw :
    latecomer s d (contend (fun found => se_id found ==? s) (find_provider_session raw))
| LateOther p : bystander p -> latecomer s d p.

Lemma latecomer_fair s d p : session_revoked d s -> latecomer s d p -> fair (revoked_test s) p d [] false.
Proof.
  intros Hd [| | | | | | | | | | | |q [A r Hr]]; [apply loses_fair..|by apply bystand_fair].
  - by apply exchange_code_bound_late.
  - by apply exchange_code_request_late.
  - by apply rotate_refresh_bound_late.
  - by apply rotate_refresh_request_late.
  - by apply issue_authorization_code_late.
  - by apply begin_authenticated_late.
  - by apply consent_view_late.
  - by apply approve_late.
  - by apply approve_pre_authorized_late.
  - by apply deny_late.
  - by apply begin_local_late.
  - by apply find_provider_session_late.
Qed.

Lemma latecomer_client s d p : latecomer s d p -> client p.
Proof. intros [| | | | | | | | | | | |q [A r Hr]]; [apply operation_client; constructor..|]. by apply (Client A r (fun _ => false)). Qed.
Lemma latecomer_settles s d p c : latecomer s d p -> settles any p c [].
Proof. intros Hp. by eapply client_settles, latecomer_client. Qed.
Lemma bystander_client p : bystander p -> client p.
Proof. intros [A q Hq]. by apply (Client A q (fun _ => false)). Qed.

Lemma join_settles s d pool ps :
  pool_settles pool -> Forall (latecomer s d) ps -> pool_settles (join pool ps).
Proof.
  intros [Hi Hth] Hps. split; simpl; [done|]. intros i th Hl.
  apply lookup_app_Some in Hl as [Hl|[_ Hl]]; [by eapply Hth|]. rewrite list_lookup_fmap in Hl.
  apply fmap_Some in Hl as (p & Hp & ->). rewrite Forall_lookup in Hps. by eapply latecomer_settles, Hps.
Qed.

(** C4: Under concurrency, logout is final. Take any requests to the
    server, interleaved in any way up to a moment at which a session is
    revoked in the committed database, those still running included; and any
    that begin then. However all of them go on, every refresh family of the
    session is revoked, and none of the newcomers gets anything of it: no
    token for its codes or refresh tokens, no code, no consent page nor a
    decision there, no logout page, nor the session itself. (The exchange of
    a code holds its session's row when it adds the family, and a logout
    revokes the families holding it.) *)
Theorem logout_final_interleaved s d ps pool ps' pool' :
  unique_db d = true -> revoked_together d -> Forall bystander ps -> rtc pool_step (start d ps) pool ->
  session_revoked (pl_db pool) s -> Forall (latecomer s (pl_db pool)) ps' ->
  rtc pool_step (join pool ps') pool' ->
  session_revoked (pl_db pool') s
  /\ (forall i f, refresh_families (pl_db pool') !! i = Some f -> rf_session_id f = s ->
      family_revoked (pl_db pool') i)
  /\ (forall i, (length (pl_threads pool) <= i)%nat -> ~ won i pool').
Proof.
  intros Hu Hd Hps Hs Hrev Hps' Hs'. pose proof (revoked_test_moves s) as Hmv.
  assert (Hfair : Forall (fun p => fair (revoked_test s) p d [] false) ps).
  { eapply Forall_impl; [|exact Hps]. intros p [A q Hq]. by apply bystand_fair. }
  pose proof (start_contest _ _ _ Hu Hfair) as Hst. pose proof (co_pool _ _ _ Hst) as Hok.
  destruct (contest_steps _ Hmv _ _ _ Hst Hs) as (w & Hw & _).
  assert (Hset : pool_settles pool) by (eapply pool_steps_settle; [exact Hok|apply start_settles; [done|]|exact Hs];
      eapply list.Forall_impl; [exact Hps|exact bystander_client]).
  assert (Hfair' : Forall (fun p => fair (revoked_test s) p (pl_db pool) [] false) ps').
  { eapply Forall_impl; [|exact Hps']. intros p. by apply latecomer_fair. }
  pose proof (join_contest _ _ _ _ Hw Hfair') as Hj. pose proof (co_pool _ _ _ Hj) as Hok'.
  destruct (pool_steps_ok _ _ Hok' Hs') as [_ Hm].
  destruct (contest_steps _ Hmv _ _ _ Hj Hs') as (w' & Hw' & Hk).
  assert (Hset' : pool_settles pool') by (eapply pool_steps_settle; [exact Hok'|by eapply join_settles|exact Hs']).
  assert (Hrev' : session_revoked (pl_db pool') s) by by eapply session_revoked_moves.
  split_and!; [done| |].
  - intros i f Hf <-. by eapply (ps_inv _ Hset').
  - intros i Hi Hwon. apply (winner_unique _ _ _ _ Hw') in Hwon.
    rewrite Hk in Hwon by by apply revoked_test_true. apply (co_range _ _ _ Hw) in Hwon. lia.
Qed.

(** ** Atomicity *)

(** C1: Under concurrency, the server's database behaves as one atomic system.
    However any number of requests (any programs made of operations of the
    stores, [served_request_client]) are interleaved, effect by effect, with
    lost answers and failures anywhere: every change of the committed database
    is one of the transitions of Transitions.v, the specifications of the
    operations, each as if nothing ran beside it. So the well-formedness of
    the whole database, which those preserve one at a time, holds at every
    moment of every interleaving: of codes, families and refresh tokens, of
    sessions and what they start, of requests and the secrets of their stage,
    of logout challenges and of identities. *)
Theorem interleaved_atomic d ps pool :
  unique_db d = true -> system_wf d -> Forall client ps -> rtc pool_step (start d ps) pool ->
  rtc (fun c c' => transition c c' /\ moves c c') d (pl_db pool) /\ system_wf (pl_db pool)
  /\ unique_db (pl_db pool) = true.
Proof.
  intros Hu Hwf Hps Hs. pose proof (start_atomic _ _ Hu (sw_revoked _ Hwf) Hps) as Hst.
  destruct (pool_steps_atomic _ _ Hst Hs) as [Hp Hr]. split_and!; [exact Hr| |apply Hp].
  simpl in Hr. clear Hs Hst Hp Hps Hu. revert Hwf. generalize dependent (pl_db pool). intros c2 Hr.
  induction Hr as [c|c c1 c2 [Ht Hm] _ IH]; [done|].
  intros Hwf. by eapply IH, transition_wf.
Qed.

(** The operations that answer what they changed: [ok] are the answers that
    report a change, [spec] is the store's specification of it. *)
Inductive promise : forall {E A : Set}, M E A -> (A -> bool) -> (DB -> A -> DB -> Prop) -> Prop :=
(* credentials.rs *)
| PromiseSession user l :
    promise (create_provider_session user l) (fun _ => true) (session_created user l)
| PromiseIssue session grant l :
    promise (issue_authorization_code session grant l) (fun _ => true) (code_issued session grant l)
| PromiseExchange raw client uri res v reg :
    promise (exchange_code_bound raw client uri res v reg) (fun _ => true)
      (exchange_success raw client uri res v reg)
| PromiseExchangeRequest raw client uri res v scopes reg :
    promise (exchange_code_request raw client uri res v scopes reg) (fun _ => true)
      (exchange_requested raw client uri res v scopes reg)
| PromiseRotate raw client res reg :
    promise (rotate_refresh_bound raw client res reg) (fun _ => true) (rotate_success raw client res reg)
| PromiseRotateRequest raw client res scopes reg :
    promise (rotate_refresh_request raw client res scopes reg) (fun _ => true)
      (rotate_requested raw client res scopes reg)
(* browser.rs *)
| PromiseBegin p st n a :
    promise (begin_google_with_pre_authorization p st n a) (fun _ => true) (google_begun p st n a)
| PromiseStart id st bd :
    promise (start_google id st bd) (fun _ => true) (google_started id st bd)
| PromiseCancel id st bd reg :
    promise (cancel_google_bound id st bd reg) (fun _ => true) (google_cancelled id st bd reg)
| PromiseBeginConsent session p st n a :
    promise (begin_authenticated_with_pre_authorization session p st n a) (fun _ => true)
      (consent_begun session p st n a)
| PromiseClaim st bd : promise (claim_callback st bd) (fun _ => true) (callback_taken st bd)
| PromiseFail claim : promise (fail_callback claim) (fun _ => true) (callback_marked_failed claim)
| PromiseRefuse claim reg : promise (deny_callback claim reg) (fun _ => true) (callback_refused claim reg)
| PromiseSignIn claim i l reg :
    promise (complete_callback_bound claim i l reg) (fun _ => true) (signed_in_by claim i l reg)
| PromiseApprove session handle reg :
    promise (approve session handle reg) (fun _ => true) (consent_given by_user session handle reg)
| PromisePreApprove session handle reg :
    promise (approve_pre_authorized session handle reg) is_some (consent_decided session handle reg)
| PromiseDeny session handle reg :
    promise (deny_bound session handle reg) (fun _ => true) (consent_refused session handle reg)
(* logout.rs *)
| PromiseAsk session client uri st reg :
    promise (begin session client uri st reg) (fun _ => true) (logout_asked session client uri st)
| PromiseAskLocal session uri :
    promise (begin_local session uri) (fun _ => true) (logout_asked session EmptyString uri None)
| PromiseFinish session challenge reg :
    promise (finish session challenge reg) (fun _ => true)
      (fun c a c' => logout_finished session challenge reg None c (Some a) c')
| PromiseFinishHint session challenge reg hint :
    promise (finish_inner session challenge reg hint) is_some (logout_finished session challenge reg hint).

Lemma promise_operation {E A : Set} (m : M E A) ok spec : promise m ok spec -> operation (result A E) m.
Proof. destruct 1; constructor. Qed.

Lemma promise_takes {E A : Set} (m : M E A) ok spec c :
  promise m ok spec -> cwp stepping m (fun a _ _ l => ok a = true -> takes_effect spec a l) c [] [].
Proof.
  destruct 1; (eapply inter_mono;
    [first [ apply create_provider_session_takes | apply issue_authorization_code_takes
           | by apply (exchange_code_bound_takes (fun _ => True)) | apply exchange_code_request_takes
           | by apply (rotate_refresh_bound_takes (fun _ => True)) | apply rotate_refresh_request_takes
           | apply begin_google_takes | apply start_google_takes | apply cancel_google_bound_takes
           | apply begin_authenticated_takes | apply claim_callback_takes | apply fail_callback_takes
           | apply deny_callback_takes | apply complete_callback_bound_takes
           | apply approve_takes | apply approve_pre_authorized_takes | apply deny_bound_takes
           | apply begin_takes | apply begin_local_takes | apply finish_takes | apply finish_inner_takes ]
    |intros [answer|e] c' tx' g Hg; [|done]; intros Hok]); try exact Hg.
  - eapply takes_effect_mono, Hg. by intros ? ? (_ & _ & ?).
  - eapply takes_effect_mono, Hg. by intros ? ? (_ & _ & ?).
  - by apply Hg, is_some_true.
  - by apply Hg, is_some_true.
Qed.

(** C2: Under concurrency, an operation that succeeds takes effect once, at
    one moment, and does there what its specification says. Whatever the
    other requests to the server are doing meanwhile, with every effect
    interleaved in any order, and however the run goes: when creating a
    session, issuing or exchanging a code, rotating a refresh token, any step
    of a browser authorization (beginning, starting, cancelling, claiming the
    callback, failing or refusing it, signing in, approving or refusing the
    consent), asking for a logout or finishing one has answered, then all it
    did to the committed database is one change, made at one of its steps, and
    the specification (of CredentialsSpec.v and StoresSpec.v, where nothing
    runs beside the operation) relates the database just before that step, the
    answer, and the database just after. So an exchange that answered tokens
    found, at that moment, the code unconsumed and unexpired, bound to the
    request and allowed by the policy, in a live session, although it read all
    of that before; and a logout that answered ended, in one change, the
    challenge, the session and every refresh family the session then had. *)
Theorem answer_takes_effect {E A : Set} (m : M E A) ok spec win d ps i l pool :
  unique_db d = true -> revoked_together d -> Forall client ps -> promise m ok spec ->
  (forall a, win a = true -> ok a = true) ->
  ps !! i = Some (contend win m) -> publishes i (start d ps) l pool -> won i pool ->
  exists a c c', win a = true /\ l = [(c, c')] /\ spec c a c' /\ moves d c /\ moves c' (pl_db pool).
Proof.
  intros Hu Hrev Hps Hm Hwin Hi Hpub Hwon. pose proof (start_atomic _ _ Hu Hrev Hps) as Hst.
  pose (Q := fun (b : bool) (_ : DB) (_ : list Level) l =>
    b = true -> exists a, win a = true /\ takes_effect spec a l).
  assert (Hf : follows stepping Q i [] (start d ps)).
  { intros th Hth. simpl in Hth. rewrite list_lookup_fmap, Hi in Hth. injection Hth as <-.
    apply inter_bind. eapply inter_mono; [by apply (promise_takes m ok spec d)|].
    intros [a|e] c' tx' g Hg; apply inter_pure; intros c1 _; [|done]. intros Hw. exists a. auto. }
  destruct (publishes_follows _ _ _ _ _ _ _ Hpub (pt_ok _ Hst) Hf) as [Hok' Hf']. simpl in Hf'.
  destruct (follows_answer _ _ _ _ _ Hok' Hf' Hwon) as [tx Hq].
  destruct (Hq eq_refl) as (a & Ha & c & c' & -> & Hspec).
  destruct (publishes_at _ _ _ _ c c' Hpub) as (before & after & Hb & Hs & Ha' & <- & <-); [listed|].
  destruct (pool_steps_atomic _ _ Hst Hb) as [Hpb _]. destruct (pool_step_atomic _ _ Hpb Hs) as (Hpa & _).
  exists a, (pl_db before), (pl_db after). split_and!; [done|done| | |].
  - exact (but_families_together (fun c c' => spec c a c') _ _ Hspec (ps_inv _ (pt_settles _ Hpa))).
  - apply (pool_steps_ok _ _ (pt_ok _ Hst) Hb).
  - apply (pool_steps_ok _ _ (pt_ok _ Hpa) Ha').
Qed.
End Properties.
