(* ===== verification/SystemProperties.v ===== *)
(** * SystemProperties: what the stores guarantee together

    Properties of single operations (from the specifications of
    StoresSpec.v) and of whole histories (from the invariant and the order
    of StoresInvariant.v, over the steps of System.v). *)

From Stdlib Require Import Ascii ZArith.
From S2P Require Import Prelude External Schema Effects Evolution Identity Cimd OAuth Jose Keys Google Credentials CredentialsSpec CredentialsTheory CredentialsInvariant Database Logout Browser StoresSpec DatabaseTheory LogoutTheory BrowserTheory StoresInvariant System.

Section Properties.
Context `{Crypto, UrlLib, JsonLib, JsonDb, UuidLib}.

(** ** Helpers: what a successful run did *)

Lemma approve_run session handle reg d o n r w :
  run o (approve session handle reg) (idle d n) = (Ok r, w) ->
  consent_given by_user session handle reg d r (w_db w).
Proof. intros Hr. by destruct (wp_run _ _ _ _ _ _ _ (approve_wp _ _ _ _) Hr). Qed.
Lemma approve_pre_authorized_run session handle reg d o n r w :
  run o (approve_pre_authorized session handle reg) (idle d n) = (Ok r, w) ->
  consent_decided session handle reg d r (w_db w).
Proof. intros Hr. by destruct (wp_run _ _ _ _ _ _ _ (approve_pre_authorized_wp _ _ _ _) Hr). Qed.
Lemma deny_run session handle reg d o n r w :
  run o (deny_bound session handle reg) (idle d n) = (Ok r, w) ->
  consent_refused session handle reg d r (w_db w).
Proof. intros Hr. by destruct (wp_run _ _ _ _ _ _ _ (deny_bound_wp _ _ _ _) Hr). Qed.
Lemma consent_view_run session handle reg d o n r w :
  run o (consent_view session handle reg) (idle d n) = (Ok r, w) ->
  consent_shown session handle reg d r (w_db w).
Proof. intros Hr. by destruct (wp_run _ _ _ _ _ _ _ (consent_view_wp _ _ _ _) Hr). Qed.

(** A request at a stage. *)
Definition at_stage (d : DB) (id : Uuid) (s : Stage) : Prop :=
  exists b, browser_authorizations d !! id = Some b /\ ba_stage b = s.

Lemma at_stage_moves d d' id s :
  moves d d' -> at_stage d id s -> exists s', at_stage d' id s' /\ rtc stage_step s s'.
Proof.
  intros [_ Hs] (b & Hb & <-). destruct (Hs _ _ Hb) as (b' & Hb' & Hle).
  exists (ba_stage b'). split; [by exists b'|done].
Qed.
Lemma at_stage_unique d id s s' : at_stage d id s -> at_stage d id s' -> s = s'.
Proof. intros (b & Hb & <-) (b' & Hb' & <-). congruence. Qed.
Lemma at_final_stage_moves d d' id s :
  moves d d' -> final_stage s = true -> at_stage d id s -> at_stage d' id s.
Proof.
  intros Hm Hf Hs. destruct (at_stage_moves _ _ _ _ Hm Hs) as (s' & Hs' & Hr).
  by rewrite (final_stage_rtc _ _ Hr Hf) in Hs'.
Qed.

Lemma update_stage id f d d' b :
  update_browser_row id f d = Ok d' -> browser_authorizations d !! id = Some b ->
  at_stage d' id (ba_stage (f b)).
Proof.
  unfold update_browser_row. intros Hu Hb. rewrite Hb in Hu. case_match; simplify_eq.
  exists (f b). simpl. by rewrite lookup_insert_eq.
Qed.
Lemma consent_open_stage session handle d s b now :
  consent_open session handle d s b now -> at_stage d (ch_transaction_id handle) awaiting_consent.
Proof. intros (_ & Hb & _ & _ & Hs & _). by exists b. Qed.
Lemma consent_given_stage P session handle reg d r d' :
  consent_given P session handle reg d r d' ->
  at_stage d (ch_transaction_id handle) awaiting_consent /\ at_stage d' (ch_transaction_id handle) approved.
Proof.
  intros [s b now p g ti raw id t bd d1 d2 Ho _ _ _ _ Hi Hu]. split; [by eapply consent_open_stage|].
  destruct Ho as (_ & Hb & _). eapply update_stage in Hu; [exact Hu|].
  by rewrite (ok_browser _ _ (insert_code_kept _ _ _ _ Hi)).
Qed.

(** ** Consent *)

(** The request was decided: a code was issued for it, by its user or by the
    policy, or it was denied. *)
Inductive decided (handle : ConsentHandle) (d : DB) (w : World) : Prop :=
| DecidedByUser session reg o n outcome :
    run o (approve session handle reg) (idle d n) = (Ok outcome, w) -> decided handle d w
| DecidedByPolicy session reg o n outcome :
    run o (approve_pre_authorized session handle reg) (idle d n) = (Ok (Some outcome), w) ->
    decided handle d w
| DecidedNo session reg o n outcome :
    run o (deny_bound session handle reg) (idle d n) = (Ok outcome, w) -> decided handle d w.

Lemma decided_stage handle d w : decided handle d w ->
  exists s, final_stage s = true /\ at_stage (w_db w) (ch_transaction_id handle) s.
Proof.
  intros [session reg o n out Hr|session reg o n out Hr|session reg o n out Hr].
  - apply approve_run, consent_given_stage in Hr as [_ Hs]. by exists approved.
  - apply approve_pre_authorized_run in Hr. inversion Hr; subst.
    match goal with Hg : consent_given _ _ _ _ _ _ _ |- _ => apply consent_given_stage in Hg as [_ Hs] end.
    by exists approved.
  - apply deny_run in Hr as [s b now d1 (_ & Hb & _) _ Hu]. exists denied.
    split; [done|]. exact (update_stage _ _ _ _ _ Hu Hb).
Qed.
Lemma decided_step handle d w : decided handle d w -> step d (w_db w).
Proof. intros []; by eapply Step; [constructor|]. Qed.

(** C11: A request is decided once. After it was approved by its user, passed
    by the policy or denied, then whatever operations ran since, no session,
    no token, no registry makes the provider show it, approve it, pass it or
    deny it again: at most one authorization code is ever issued for it. *)
Theorem consent_single_use handle d w d' session handle' reg oreg o n :
  reachable d -> decided handle d w -> rtc step (w_db w) d' ->
  ch_transaction_id handle' = ch_transaction_id handle ->
  is_ok (run o (approve session handle' reg) (idle d' n)).1 = false
  /\ is_ok (run o (approve_pre_authorized session handle' reg) (idle d' n)).1 = false
  /\ is_ok (run o (deny_bound session handle' oreg) (idle d' n)).1 = false
  /\ is_ok (run o (consent_view session handle' reg) (idle d' n)).1 = false.
Proof.
  intros Hd Hdone Hlater Hid. pose proof (decided_step _ _ _ Hdone) as Hstep.
  assert (Hr1 : reachable (w_db w)) by (eapply rtc_r; [exact Hd|exact Hstep]).
  destruct (decided_stage _ _ _ Hdone) as (s & Hf & Hs).
  apply (at_final_stage_moves _ _ _ _ (reachable_moves _ _ Hr1 Hlater) Hf) in Hs.
  rewrite <- Hid in Hs.
  assert (Hno : at_stage d' (ch_transaction_id handle') awaiting_consent -> False).
  { intros Ha. by rewrite (at_stage_unique _ _ _ _ Hs Ha) in Hf. }
  split_and!.
  - destruct (run o _ _) as [[r|e] w'] eqn:Hr; [exfalso|done].
    apply approve_run, consent_given_stage in Hr as [? _]. auto.
  - destruct (run o _ _) as [[r|e] w'] eqn:Hr; [exfalso|done].
    apply approve_pre_authorized_run in Hr. inversion Hr; subst.
    + eauto using consent_open_stage.
    + match goal with Hg : consent_given _ _ _ _ _ _ _ |- _ => apply consent_given_stage in Hg as [? _] end. auto.
  - destruct (run o _ _) as [[r|e] w'] eqn:Hr; [exfalso|done].
    apply deny_run in Hr as [s' b now d1 Ho _ _]. eauto using consent_open_stage.
  - destruct (run o _ _) as [[r|e] w'] eqn:Hr; [exfalso|done].
    apply consent_view_run in Hr as [s' b now p name Ho _ _]. eauto using consent_open_stage.
Qed.

(** C12: A code is issued only for an open request, and only what the request
    asked: an approval that answers a code found the request awaiting consent
    in this very session, which is live, with this very token, before its
    ten minutes were over, and the policy accepted it again; it stored one
    code bound to the session and to the request's client, redirect, scopes,
    resource and challenge, and closed the request. Passing the consent page
    moreover needs the request's permission and the policy's. Otherwise the
    database is as it was, but for a lost COMMIT answer. *)
Theorem consent_refines session handle reg c o n :
  (let '(r, w) := run o (approve session handle reg) (idle c n) in
   w_tx w = [] /\ settled (consent_given by_user session handle reg c) never c r (w_db w))
  /\ (let '(r, w) := run o (approve_pre_authorized session handle reg) (idle c n) in
   w_tx w = [] /\ settled (consent_decided session handle reg c) never c r (w_db w)).
Proof.
  split.
  - pose proof (approve_wp session handle reg c o n) as Hw. unfold idle. by destruct (run _ _ _).
  - pose proof (approve_pre_authorized_wp session handle reg c o n) as Hw. unfold idle. by destruct (run _ _ _).
Qed.

(** ** The callback *)

(** C13: A sign-in happens entirely or not at all: completing a callback finds
    or creates the user of the Google identity, replaces the profile, stores
    one session and binds the request to it, awaiting consent; or, when the
    request expired meanwhile, it only marks the request expired, and the
    user, profile and session staged behind the savepoint are gone; or the
    database is as it was, but for a lost COMMIT answer. No transaction and
    no savepoint stays open. *)
Theorem complete_callback_refines claim identity lifetime reg c o n :
  let '(r, w) := run o (complete_callback_bound claim identity lifetime reg) (idle c n) in
  w_tx w = [] /\ settled (signed_in_by claim identity lifetime reg c) (sign_in_late claim c) c r (w_db w).
Proof.
  pose proof (complete_callback_bound_wp claim identity lifetime reg c o n) as Hw.
  unfold idle. by destruct (run _ _ _).
Qed.

(** A callback's state names one request, whatever its stage. *)
Lemma claim_callback_run st bd d o n r w :
  run o (claim_callback st bd) (idle d n) = (Ok r, w) -> callback_taken st bd d r (w_db w).
Proof. intros Hr. by destruct (wp_run _ _ _ _ _ _ _ (claim_callback_wp _ _ _) Hr). Qed.

(** The row a state names, at its stage. *)
Definition state_at (d : DB) (state : string) (id : Uuid) (s : Stage) : Prop :=
  exists b, browser_authorizations d !! id = Some b
    /\ ba_upstream_state_hash b = Some (hash state) /\ ba_stage b = s.

Lemma state_at_moves d d' state id s :
  moves d d' -> state_at d state id s -> exists s', state_at d' state id s' /\ rtc stage_step s s'.
Proof.
  intros [He Hs] (b & Hb & Hh & <-). destruct (Hs _ _ Hb) as (b' & Hb' & Hle).
  destruct (ev_browser _ _ He _ _ Hb) as (b2 & Hb2 & Hble). simplify_eq.
  exists (ba_stage b'). split; [|done]. exists b'. split_and!; [done| |done].
  unfold browser_le in Hble. destruct_and!. congruence.
Qed.
Lemma state_at_unique d state id id' s s' :
  browser_wf d -> state_at d state id s -> state_at d state id' s' -> s = s'.
Proof.
  intros Hwf (b & Hb & Hh & <-) (b' & Hb' & Hh' & <-).
  assert (id = id') as <- by (eapply (bw_state _ Hwf); eauto). congruence.
Qed.

(** C14: A callback is claimed once: after Google's redirect with a state was
    claimed, then whatever operations ran since, no callback with that state
    is claimed again, from any browser, and no sign-in with that state
    starts or is cancelled. *)
Theorem callback_single_use state binding d o n r w d' binding' id reg o' n' :
  reachable d -> run o (claim_callback state binding) (idle d n) = (Ok r, w) -> rtc step (w_db w) d' ->
  is_ok (run o' (claim_callback state binding') (idle d' n')).1 = false
  /\ is_ok (run o' (start_google id state binding') (idle d' n')).1 = false
  /\ is_ok (run o' (cancel_google_bound id state binding' reg) (idle d' n')).1 = false.
Proof.
  intros Hd Hrun Hlater.
  assert (Hr1 : reachable (w_db w)) by (eapply reachable_step; [exact Hd| |exact Hrun]; constructor).
  assert (Hr' : reachable d') by (unfold reachable in *; by etrans).
  pose proof (sw_browser _ (reachable_system_wf _ Hr')) as Hwf.
  assert (Hat : exists k, state_at (w_db w) state k callback_claimed).
  { apply claim_callback_run in Hrun as [k b cl nc v now d1 (Hb & _ & Hst & _)%find_awaiting_Some _ _ _ Hu].
    exists k. unfold update_browser_row in Hu. rewrite Hb in Hu. case_match; simplify_eq.
    exists (claimed (hash cl) b). simpl. by rewrite lookup_insert_eq. }
  destruct Hat as (k & Hat).
  destruct (state_at_moves _ _ _ _ _ (reachable_moves _ _ Hr1 Hlater) Hat) as (s & Hs & Hle).
  assert (Hno : forall k' s', (rank s' < 2)%nat -> state_at d' state k' s' -> False).
  { intros k' s' Hrank Hs'. pose proof (state_at_unique _ _ _ _ _ _ Hwf Hs Hs') as <-.
    apply stage_rtc_rank in Hle as [->|Hle]; simpl in *; lia. }
  split_and!.
  - destruct (run o' _ _) as [[r'|e] w'] eqn:Hr; [exfalso|done].
    apply claim_callback_run in Hr as [k' b cl nc v now d1 (Hb & Hst & Hh & _)%find_awaiting_Some _ _ _ _].
    apply (Hno k' awaiting_google); [simpl; lia|]. by exists b.
  - destruct (run o' _ _) as [[r'|e] w'] eqn:Hr; [exfalso|done].
    destruct (wp_run _ _ _ _ _ _ _ (start_google_wp _ _ _ _) Hr) as [_ [b nc v d1 (Hb & Hh & _ & Hst & _) _ _ _]].
    apply (Hno id awaiting_start); [simpl; lia|]. by exists b.
  - destruct (run o' _ _) as [[r'|e] w'] eqn:Hr; [exfalso|done].
    destruct (wp_run _ _ _ _ _ _ _ (cancel_google_bound_wp _ _ _ _ _) Hr) as [_ [b d1 (Hb & Hh & _ & Hst & _) _ _]].
    apply (Hno id awaiting_start); [simpl; lia|]. by exists b.
Qed.

(** ** Logout *)

(** C15: A relying party's logout ends exactly one session: it succeeds only
    for an open challenge of this live session, presented with its secret,
    whose redirect is still registered, and, with an identity token as hint,
    only when the token is this session's; then it consumes the challenge,
    revokes the session and every refresh family the session started, in one
    transaction, and answers the redirect that was stored. A hint of another
    session or user is put aside and changes nothing. Otherwise the database
    is as it was, but for a lost COMMIT answer. *)
Theorem logout_refines session challenge reg hint c o n :
  let '(r, w) := run o (finish_inner session challenge reg hint) (idle c n) in
  w_tx w = [] /\ settled (logout_finished session challenge reg hint c) never c r (w_db w).
Proof.
  pose proof (finish_inner_wp session challenge reg hint c o n) as Hw.
  unfold idle. by destruct (run _ _ _).
Qed.

Lemma finish_inner_run session ch reg hint d o n r w :
  run o (finish_inner session ch reg hint) (idle d n) = (Ok r, w) ->
  logout_finished session ch reg hint d r (w_db w).
Proof. intros Hr. by destruct (wp_run _ _ _ _ _ _ _ (finish_inner_wp _ _ _ _ _) Hr). Qed.

Lemma session_revoked_not_live d id s now : session_revoked d id -> live_session d id s now -> False.
Proof. intros (s' & t & Hs & Ht) (Hs' & Hr & _). congruence. Qed.

Lemma session_ended_revokes ch session now d s :
  provider_sessions d !! session = Some s -> session_revoked (session_ended ch session now d) session.
Proof. intros Hs. eexists _, _. simpl. by rewrite lookup_alter_eq, Hs. Qed.

(** A refused operation of a revoked session. *)
Lemma refused {E A} `{!FromDb E} (m : M E A) (Done : A -> DB -> Prop) (Failed : E -> DB -> Prop) d o n :
  wp m (fun r d' tx => tx = [] /\ settled Done Failed d r d') d [] ->
  (forall a d', Done a d' -> False) -> is_ok (run o m (idle d n)).1 = false.
Proof.
  intros Hw Hno. destruct (run o m (idle d n)) as [[a|e] w] eqn:Hr; [exfalso|done].
  destruct (wp_run _ _ _ _ _ _ _ Hw Hr) as [_ Hs]. by eapply Hno.
Qed.

(** The challenge was used. *)
Definition logout_consumed (d : DB) (id : Uuid) : Prop :=
  exists l, logout_challenges d !! id = Some l /\ is_Some (lc_consumed_at l).
Lemma logout_consumed_moves d d' id : moves d d' -> logout_consumed d id -> logout_consumed d' id.
Proof.
  intros [He _] (l & Hl & Hc). destruct (ev_logouts _ _ He _ _ Hl) as (l' & Hl' & Hle).
  exists l'. split; [done|]. unfold logout_le in Hle. destruct_and!. auto.
Qed.

Lemma finished_logout_leaves session ch reg hint d outcome d' :
  logout_finished session ch reg hint d (Some outcome) d' ->
  session_revoked d' (se_id session) /\ logout_consumed d' (lch_id ch).
Proof.
  inversion 1 as [|s l now ((Hs & _) & Hl & _) _]; subst. split; [by eapply session_ended_revokes|].
  exists (consume_logout now l). simpl. rewrite lookup_alter_eq, Hl. split; [done|by eexists].
Qed.

(** C16: A finished logout is final. Whatever operations run after it, every
    refresh family the session ever had is revoked, also those of codes
    exchanged later; the session can neither begin, show, approve, pass nor
    deny a request, nor begin another logout; and the challenge is not
    accepted again, by any session. *)
Theorem finished_logout_is_final session ch reg hint d o n outcome w d' :
  reachable d -> run o (finish_inner session ch reg hint) (idle d n) = (Ok (Some outcome), w) ->
  rtc step (w_db w) d' ->
  session_revoked d' (se_id session)
  /\ (forall i f, refresh_families d' !! i = Some f -> rf_session_id f = se_id session -> family_revoked d' i)
  /\ (forall s o' n', se_id s = se_id session ->
      (forall handle reg', is_ok (run o' (approve s handle reg') (idle d' n')).1 = false)
      /\ (forall handle reg', is_ok (run o' (approve_pre_authorized s handle reg') (idle d' n')).1 = false)
      /\ (forall handle reg', is_ok (run o' (consent_view s handle reg') (idle d' n')).1 = false)
      /\ (forall handle reg', is_ok (run o' (deny_bound s handle reg') (idle d' n')).1 = false)
      /\ (forall p st nc a, is_ok (run o' (begin_authenticated_with_pre_authorization s p st nc a) (idle d' n')).1 = false)
      /\ (forall uri, is_ok (run o' (begin_local s uri) (idle d' n')).1 = false))
  /\ (forall s ch' reg' hint' o' n', lch_id ch' = lch_id ch ->
      is_ok (run o' (finish_inner s ch' reg' hint') (idle d' n')).1 = false).
Proof.
  intros Hd Hrun Hlater.
  assert (Hr1 : reachable (w_db w)) by (eapply reachable_step; [exact Hd| |exact Hrun]; constructor).
  assert (Hr' : reachable d') by (unfold reachable in *; by etrans).
  pose proof (reachable_moves _ _ Hr1 Hlater) as Hm.
  apply finish_inner_run in Hrun.
  destruct (finished_logout_leaves _ _ _ _ _ _ _ Hrun) as [Hrev Hcons].
  apply (session_revoked_moves _ _ _ Hm) in Hrev. apply (logout_consumed_moves _ _ _ Hm) in Hcons.
  split_and!; [done| | |].
  - intros i f Hf Heq. eapply (sw_revoked _ (reachable_system_wf _ Hr')); [exact Hf|]. by rewrite Heq.
  - intros s o' n' Hs. rewrite <- Hs in Hrev. split_and!; intros; (eapply refused; [|intros res d1 Hdone]).
    + apply approve_wp.
    + destruct Hdone as [ses b now p g ti raw k t bd d1 d2 [Hlive _] _ _ _ _ _ _].
      by eapply session_revoked_not_live.
    + apply approve_pre_authorized_wp.
    + destruct Hdone as [ses b now p [Hlive _] _ _|out d1 [ses b now p g ti raw k t bd d2 d3 [Hlive _] _ _ _ _ _ _]];
        by eapply session_revoked_not_live.
    + apply consent_view_wp.
    + destruct Hdone as [ses b now p name [Hlive _] _ _]. by eapply session_revoked_not_live.
    + apply deny_bound_wp.
    + destruct Hdone as [ses b now d1 [Hlive _] _ _]. by eapply session_revoked_not_live.
    + apply begin_authenticated_wp.
    + destruct Hdone as [k csrf ses now t bd d1 Hlive _ _ _]. by eapply session_revoked_not_live.
    + apply logout_insert_wp.
    + destruct Hdone as [k csrf ses now t d1 Hlive _]. by eapply session_revoked_not_live.
  - intros s ch' reg' hint' o' n' Hid. eapply refused; [apply finish_inner_wp|]. intros a d1 Hdone.
    assert (Hopen : exists ses l now, logout_open s ch' reg' d' ses l now)
      by (destruct Hdone; by eexists _, _, _).
    destruct Hopen as (ses & l & now & _ & Hl & _ & _ & Hnone & _).
    destruct Hcons as (l' & Hl' & t & Ht). rewrite Hid in Hl. congruence.
Qed.

(** ** Users *)

Definition find_user_run (i : ExternalIdentity) (d : DB) (u : Uuid) (w : World) : Prop :=
  exists o n, run o (find_or_create_external_identity i) (idle d n) = (Ok u, w).

Lemma find_user_of i d u w : find_user_run i d u w ->
  user_of (ei_issuer i) (ei_subject i) d u (w_db w) /\ step d (w_db w).
Proof.
  intros (o & n & Hr). split; [|by eapply Step; [constructor|exact Hr]].
  by destruct (wp_run _ _ _ _ _ _ _ (find_or_create_external_identity_wp _ _) Hr).
Qed.

Lemma user_of_known i s d u d' : user_of i s d u d' -> external_identities d' !! (i, s) = Some u.
Proof.
  intros [v Hv|v d1 d2 _ _ Hi]; [done|]. unfold insert_identity_row in Hi. case_match; simplify_eq.
  simpl. by rewrite lookup_insert_eq.
Qed.
Lemma identity_moves d d' k u : moves d d' -> external_identities d !! k = Some u ->
  external_identities d' !! k = Some u.
Proof. intros [He _] Hk. by destruct (ev_identities _ _ He _ _ Hk) as (? & ? & <-). Qed.

(** C17: Users do not mix. Once an identity got its user, it gets the same
    user whenever it is looked up again, whatever operations ran in between,
    and no other identity is ever given that user. *)
Theorem identity_owns_user i d u w d' i' u' w' :
  reachable d -> find_user_run i d u w -> rtc step (w_db w) d' -> find_user_run i' d' u' w' ->
  (u' = u <-> (ei_issuer i', ei_subject i') = (ei_issuer i, ei_subject i)).
Proof.
  intros Hd [Hu Hs1]%find_user_of Hlater [Hu' Hs2]%find_user_of.
  assert (Hr1 : reachable (w_db w)) by (eapply rtc_r; [exact Hd|exact Hs1]).
  assert (Hr2 : reachable (w_db w')).
  { eapply rtc_r; [|exact Hs2]. unfold reachable in *. by etrans. }
  assert (Hm : moves (w_db w) (w_db w')).
  { apply reachable_moves; [done|]. eapply rtc_r; [exact Hlater|exact Hs2]. }
  apply user_of_known in Hu, Hu'. apply (identity_moves _ _ _ _ Hm) in Hu.
  split.
  - intros ->. by eapply (iw_inj _ (sw_identities _ (reachable_system_wf _ Hr2))).
  - intros Heq. rewrite Heq in Hu'. congruence.
Qed.

(** ** Every reachable database *)

(** C18: From an empty database, whatever operations run in whatever order,
    with whatever parameters, clock readings and failures, the database is
    well-formed: codes, families and refresh tokens belong to sessions and
    consumed codes and do not outlive them, with one live token a family; a
    revoked session has no live family; a request at each stage holds
    exactly the secrets of that stage, its Google verifier erased once its
    callback was claimed, and lives ten minutes at most; an identity is
    Google's and one user's. And nothing is ever undone: no row vanishes,
    what a grant is bound to does not change, consumed and revoked stay so,
    and a request only moves along its stages. *)
Theorem reachable_invariant d d' :
  reachable d -> rtc step d d' -> system_wf d' /\ moves d d'.
Proof.
  intros Hd Hs. split; [|by apply reachable_moves].
  apply reachable_system_wf. unfold reachable in *. by etrans.
Qed.
End Properties.
