(* ===== verification/Termination.v ===== *)
(** * Termination: how many effects an operation or a request has

    [costs p n]: along every path, whatever is answered to it, [p] ends after
    at most [n] effects (statements, transaction commands, draws, readings of
    clocks). Every operation of the stores and every handler is given its
    bound; the retry loops of web.rs are what multiplies them. *)

From Stdlib Require Import Ascii ZArith Lia.
From S2P Require Import Prelude External Schema Effects Cimd Jose Keys OAuth Config Identity Google Database Credentials Tokens Logout Browser Http Web HttpTheory.

Fixpoint costs {A} (p : prog A) (n : nat) : Prop :=
  match p with
  | Ret _ => True
  | Sql _ k => match n with O => False | S n' => forall r, costs (k r) n' end
  | Begin k | Commit k | Rollback k => match n with O => False | S n' => forall r, costs (k r) n' end
  | EndTx k => match n with O => False | S n' => costs k n' end
  | NewUuid k => match n with O => False | S n' => forall r, costs (k r) n' end
  | RandomBytes k => match n with O => False | S n' => forall r, costs (k r) n' end
  | InstantNow k | UtcNow k => match n with O => False | S n' => forall r, costs (k r) n' end
  end.

(** ** Rules *)

Lemma costs_run {A} o (p : prog A) n w : costs p n -> (w_tick (run o p w).2 <= w_tick w + n)%nat.
Proof.
  revert n w.
  induction p as [a|R s k IH|k IH|k IH|k IH|k IH|k IH|k IH|k IH|k IH]; intros n w; simpl;
    [lia|destruct n as [|n]; [done|]; intros Hc..].
  - destruct (o_fault o (w_tick w)); [|by etrans; [apply (IH _ n), Hc|simpl; lia]|];
      (destruct (exec s _ _) as [[r d]|e]; [|by etrans; [apply (IH _ n), Hc|simpl; lia]]);
      (etrans; [apply (IH _ n), Hc|]); unfold set_view, tick; destruct (w_tx w); simpl; lia.
  - destruct (o_fault o (w_tick w)); (etrans; [apply (IH _ n), Hc|simpl; lia]).
  - destruct (o_fault o (w_tick w)); (etrans; [apply (IH _ n), Hc|]); unfold merge_tx;
      repeat case_match; simpl; lia.
  - destruct (o_fault o (w_tick w)); (etrans; [apply (IH _ n), Hc|simpl; lia]).
  - etrans; [apply (IH n), Hc|simpl; lia].
  - etrans; [apply (IH _ n), Hc|simpl; lia].
  - etrans; [apply (IH _ n), Hc|simpl; lia].
  - etrans; [apply (IH _ n), Hc|simpl; lia].
  - etrans; [apply (IH _ n), Hc|simpl; lia].
Qed.

Lemma costs_mono {A} (p : prog A) n m : costs p n -> (n <= m)%nat -> costs p m.
Proof.
  revert n m. induction p; intros [|n] [|m]; simpl; intros Hc Hle; try done; try lia; eauto with lia.
Qed.

Lemma costs_bind {A B} (p : prog A) (f : A -> prog B) n m :
  costs p n -> (forall a, costs (f a) m) -> costs (bind p f) (n + m).
Proof.
  revert n. induction p; intros [|n]; simpl; intros Hc Hf; try done; eauto.
  by apply costs_mono with m; [|lia].
Qed.

(** With [m] effects of [p] off the [n] allowed. *)
Lemma costs_bind_off {A B} m (p : prog A) (f : A -> prog B) n :
  costs p m -> (m <=? n)%nat = true -> (forall a, costs (f a) (n - m)) -> costs (bind p f) n.
Proof.
  intros Hp Hle%Nat.leb_le Hf. apply costs_mono with (m + (n - m))%nat; [by apply costs_bind|lia].
Qed.
Lemma costs_bindE_off {E A B} m (p : M E A) (f : A -> M E B) n :
  costs p m -> (m <=? n)%nat = true -> (forall a, costs (f a) (n - m)) -> costs (bindE p f) n.
Proof. intros Hp Hle Hf. eapply costs_bind_off; [done..|]. by intros []. Qed.

Section Rules.
Context {E : Type} `{!FromDb E}.

Lemma costs_ret {A} (a : A) n : costs (ret (E:=E) a) n.
Proof. done. Qed.
Lemma costs_sql {R} (s : stmt R) : costs (sql (E:=E) s) 1.
Proof. by intros r. Qed.
Lemma costs_begin : costs (begin_tx (E:=E)) 1.
Proof. by intros r. Qed.
Lemma costs_commit : costs (commit (E:=E)) 1.
Proof. by intros r. Qed.
Lemma costs_rollback : costs (rollback (E:=E)) 1.
Proof. by intros r. Qed.
Lemma costs_new_uuid : costs (new_uuid (E:=E)) 1.
Proof. by intros r. Qed.
Lemma costs_random_credential `{Crypto} : costs (random_credential (E:=E)) 1.
Proof. by intros r. Qed.
Lemma costs_at_instant {A} (f : Z -> A) : costs (at_instant (E:=E) f) 1.
Proof. by intros r. Qed.
Lemma costs_try_instant {A} (f : Z -> result A E) : costs (try_instant f) 1.
Proof. by intros r. Qed.
Lemma costs_utc_now : costs (utc_now (E:=E)) 1.
Proof. by intros r. Qed.
Lemma costs_or_rollback {A} (r : result A E) : costs (or_rollback r) 1.
Proof. destruct r; [exact I|by intros []]. Qed.
Lemma costs_with_tx {A} (m : M E A) n : costs m n -> costs (with_tx m) (S (n + 1)).
Proof.
  intros Hm. unfold with_tx. apply (costs_bind _ _ (S n) 1); [|done].
  intros [[]|]; [exact Hm|done].
Qed.
Lemma costs_with_tx_off {A} (m : M E A) n : (2 <=? n)%nat = true -> costs m (n - 2) -> costs (with_tx m) n.
Proof. intros Hn%Nat.leb_le Hm. eapply costs_mono; [by apply costs_with_tx|lia]. Qed.
End Rules.

Lemma costs_utc_off {A} (k : Z -> prog A) n :
  (1 <=? n)%nat = true -> (forall t, costs (k t) (n - 1)) -> costs (UtcNow k) n.
Proof. destruct n as [|n]; [done|]. simpl. by rewrite Nat.sub_0_r. Qed.
Lemma costs_utc_ret {A} (f : Z -> A) : costs (UtcNow (fun now => Ret (f now))) 1.
Proof. by intros r. Qed.
Lemma costs_instant_off {A} (k : Z -> prog A) n :
  (1 <=? n)%nat = true -> (forall t, costs (k t) (n - 1)) -> costs (InstantNow k) n.
Proof. destruct n as [|n]; [done|]. simpl. by rewrite Nat.sub_0_r. Qed.
Lemma costs_uuid_off {A} (k : Uuid -> prog A) n :
  (1 <=? n)%nat = true -> (forall t, costs (k t) (n - 1)) -> costs (NewUuid k) n.
Proof. destruct n as [|n]; [done|]. simpl. by rewrite Nat.sub_0_r. Qed.

(** A retry loop: twice its body. *)
Lemma costs_attempts {A} (body : nat -> prog (option A)) (exhausted : prog A) n :
  (forall i, costs (body i) n) -> costs exhausted 0 -> costs (for_attempts body exhausted) (n + n).
Proof.
  intros Hb He. unfold for_attempts. apply costs_bind; [done|]. intros [a|]; [done|].
  eapply costs_mono; [eapply (costs_bind _ _ n 0); [done|]|lia]. by intros [].
Qed.
Lemma costs_attempts_off {A} m (body : nat -> prog (option A)) (exhausted : prog A) n :
  (forall i, costs (body i) m) -> costs exhausted 0 -> (m + m <=? n)%nat = true ->
  costs (for_attempts body exhausted) n.
Proof. intros Hb He Hn%Nat.leb_le. eapply costs_mono; [by apply costs_attempts|done]. Qed.

Create HintDb costs.
#[export] Hint Resolve costs_sql costs_begin costs_commit costs_rollback costs_new_uuid
  costs_random_credential costs_at_instant costs_try_instant costs_utc_now costs_utc_ret costs_or_rollback : costs.

(** Walks down a program, taking the bounds of its calls from the hints. *)
Ltac cost_step :=
  lazymatch goal with
  | |- costs (Ret _) _ => exact I
  | |- costs (ret _) _ => exact I
  | |- costs (raise _) _ => exact I
  | |- costs (respond _) _ => exact I
  | |- costs (lift _) _ => exact I
  | |- costs (UtcNow _) _ => apply costs_utc_off; [reflexivity|intros ?; simpl Nat.sub]
  | |- costs (InstantNow _) _ => apply costs_instant_off; [reflexivity|intros ?; simpl Nat.sub]
  | |- costs (NewUuid _) _ => apply costs_uuid_off; [reflexivity|intros ?; simpl Nat.sub]
  | |- costs (with_tx _) _ => apply costs_with_tx_off; [reflexivity|simpl Nat.sub]
  | |- costs (bindE (ret _) _) _ => apply (costs_bindE_off 0); [exact I|reflexivity|intros ?; simpl Nat.sub]
  | |- costs (bindE (lift _) _) _ => apply (costs_bindE_off 0); [exact I|reflexivity|intros ?; simpl Nat.sub]
  | |- costs (bindE (match ?x with _ => _ end) _) _ => destruct x
  | |- costs (bindE _ _) _ =>
      eapply costs_bindE_off; [solve [eauto with costs]|reflexivity|intros ?; simpl Nat.sub]
  | |- costs (bind (Ret _) _) _ => cbn [bind]
  | |- costs (bind (raise _) _) _ => unfold raise at 1; cbn [bind]
  | |- costs (bind (match ?x with _ => _ end) _) _ => destruct x
  | |- costs (bind _ _) _ =>
      eapply costs_bind_off; [solve [eauto with costs]|reflexivity|intros ?; simpl Nat.sub]
  | |- costs (match ?x with _ => _ end) _ => destruct x
  | |- costs _ _ => eapply costs_mono; [solve [eauto with costs]|apply Nat.leb_le; reflexivity]
  end; cbv beta zeta.
Ltac solve_costs := repeat cost_step.

(** ** The stores *)

Section Stores.
Context `{Crypto, UrlLib, JsonLib, JsonDb, UuidLib}.

(** *** Credentials *)

Lemma costs_check_binding_tx registry client binding : costs (check_binding_tx registry client binding) 2.
Proof. unfold check_binding_tx. solve_costs. Qed.
Lemma costs_check_policy_tx registry client uri code res :
  costs (check_policy_tx registry client uri code res) 2.
Proof. unfold check_policy_tx. solve_costs. Qed.
Lemma costs_insert_refresh {E} `{!FromDb E} family now : costs (insert_refresh (E:=E) family now) 3.
Proof. unfold insert_refresh. solve_costs. Qed.
Lemma costs_insert_code {E} `{!FromDb E} session grant nonce upstream secs :
  costs (insert_authorization_code_tx (E:=E) session grant nonce upstream secs) 3.
Proof. unfold insert_authorization_code_tx. solve_costs. Qed.
#[local] Hint Resolve costs_check_binding_tx costs_check_policy_tx costs_insert_refresh : costs.
Lemma costs_start_family_tx code session now : costs (start_family_tx code session now) 5.
Proof. unfold start_family_tx. solve_costs. Qed.
Lemma costs_replay_code_tx registry client code now : costs (replay_code_tx registry client code now) 4.
Proof. unfold replay_code_tx. solve_costs. Qed.
Lemma costs_replay_refresh_tx registry client lookup family now :
  costs (replay_refresh_tx registry client lookup family now) 4.
Proof. unfold replay_refresh_tx. solve_costs. Qed.
#[local] Hint Resolve costs_start_family_tx costs_replay_code_tx costs_replay_refresh_tx : costs.

Lemma costs_find_provider_session raw : costs (find_provider_session raw) 1.
Proof. unfold find_provider_session. solve_costs. Qed.
Lemma costs_exchange_code_bound raw client uri res v registry :
  costs (exchange_code_bound raw client uri res v registry) 22.
Proof. unfold exchange_code_bound. solve_costs. Qed.
#[local] Hint Resolve costs_exchange_code_bound : costs.
Lemma costs_exchange_code_request raw client uri res v scopes registry :
  costs (exchange_code_request raw client uri res v scopes registry) 24.
Proof. unfold exchange_code_request. solve_costs. Qed.
Lemma costs_rotate_refresh_bound raw client res registry :
  costs (rotate_refresh_bound raw client res registry) 19.
Proof. unfold rotate_refresh_bound. solve_costs. Qed.
#[local] Hint Resolve costs_rotate_refresh_bound : costs.
Lemma costs_rotate_refresh_request raw client res scopes registry :
  costs (rotate_refresh_request raw client res scopes registry) 20.
Proof. unfold rotate_refresh_request. solve_costs. Qed.
Lemma costs_revoke_refresh raw client : costs (revoke_refresh raw client) 7.
Proof. unfold revoke_refresh. solve_costs. Qed.

(** *** Browser authorizations *)

Lemma costs_or_invalid {A} (x : option A) : costs (or_invalid x) 0.
Proof. by destruct x. Qed.
Lemma costs_decoded {A} (x : option A) : costs (decoded x) 0.
Proof. by destruct x. Qed.
#[local] Hint Resolve costs_or_invalid costs_decoded costs_insert_code : costs.
Lemma costs_instant : costs instant 1.
Proof. apply costs_at_instant. Qed.
#[local] Hint Resolve costs_instant : costs.
Lemma costs_checked_revalidate registry row : costs (checked_revalidate registry row) 3.
Proof. unfold checked_revalidate. solve_costs. Qed.
Lemma costs_checked_registry registry row : costs (checked_registry registry row) 3.
Proof. unfold checked_registry. solve_costs. Qed.
Lemma costs_checked_fresh pending : costs (checked_fresh pending) 2.
Proof. unfold checked_fresh. solve_costs. Qed.
Lemma costs_checked_approve pending : costs (checked_approve pending) 2.
Proof. unfold checked_approve. solve_costs. Qed.
Lemma costs_staged_registry registry row : costs (staged_registry registry row) 4.
Proof. unfold staged_registry. solve_costs. Qed.
Lemma costs_lock_session id : costs (lock_session id) 1.
Proof. unfold lock_session. solve_costs. Qed.
Lemma costs_lock_consent id session csrf : costs (lock_consent id session csrf) 1.
Proof. unfold lock_consent. solve_costs. Qed.
Lemma costs_ensure_fresh session expiry : costs (Browser.ensure_fresh session expiry) 1.
Proof. unfold Browser.ensure_fresh. solve_costs. Qed.
#[local] Hint Resolve costs_checked_revalidate costs_checked_registry costs_checked_fresh
  costs_checked_approve costs_staged_registry costs_lock_session costs_lock_consent costs_ensure_fresh : costs.
Lemma costs_store_approval session handle session_row row pending :
  costs (store_approval session handle session_row row pending) 6.
Proof. unfold store_approval. solve_costs. Qed.
Lemma costs_lock_google_identity {E} `{!FromDb E} identity :
  costs (lock_verified_google_identity_tx (E:=E) identity) 1.
Proof. unfold lock_verified_google_identity_tx. solve_costs. Qed.
Lemma costs_find_or_insert {E} `{!FromDb E} issuer subject :
  costs (find_or_insert_identity (E:=E) issuer subject) 4.
Proof. unfold find_or_insert_identity. solve_costs. Qed.
#[local] Hint Resolve costs_store_approval costs_lock_google_identity costs_find_or_insert : costs.
Lemma costs_upsert_identity {E} `{!FromDb E} identity now :
  costs (upsert_verified_google_identity_tx (E:=E) identity now) 5.
Proof. unfold upsert_verified_google_identity_tx. solve_costs. Qed.
#[local] Hint Resolve costs_upsert_identity : costs.

Lemma costs_transaction_client_id id : costs (transaction_client_id id) 1.
Proof. unfold transaction_client_id. solve_costs. Qed.
Lemma costs_callback_client_id claim : costs (callback_client_id claim) 1.
Proof. unfold callback_client_id. solve_costs. Qed.
Lemma costs_begin_google pending state nonce allow :
  costs (begin_google_with_pre_authorization pending state nonce allow) 13.
Proof. unfold begin_google_with_pre_authorization. solve_costs. Qed.
Lemma costs_start_google id state binding : costs (start_google id state binding) 1.
Proof. unfold start_google. solve_costs. Qed.
Lemma costs_cancel_google id state binding registry :
  costs (cancel_google_with_registry id state binding registry) 11.
Proof. unfold cancel_google_with_registry, cancel_google_bound. solve_costs. Qed.
Lemma costs_begin_authenticated session pending state nonce allow :
  costs (begin_authenticated_with_pre_authorization session pending state nonce allow) 12.
Proof. unfold begin_authenticated_with_pre_authorization. solve_costs. Qed.
Lemma costs_session_upstream_auth_time session : costs (session_upstream_auth_time session) 5.
Proof. unfold session_upstream_auth_time. solve_costs. Qed.
Lemma costs_claim_callback state binding : costs (claim_callback state binding) 7.
Proof. unfold claim_callback. solve_costs. Qed.
Lemma costs_fail_callback claim : costs (fail_callback claim) 1.
Proof. unfold fail_callback. solve_costs. Qed.
Lemma costs_deny_callback claim registry : costs (deny_callback claim registry) 12.
Proof. unfold deny_callback. solve_costs. Qed.
Lemma costs_complete_callback claim identity lifetime registry :
  costs (complete_callback_with_registry claim identity lifetime registry) 34.
Proof. unfold complete_callback_with_registry, complete_callback_bound. solve_costs. Qed.
Lemma costs_approve session handle registry : costs (approve session handle registry) 18.
Proof. unfold approve. solve_costs. Qed.
Lemma costs_approve_pre_authorized session handle registry :
  costs (approve_pre_authorized session handle registry) 19.
Proof. unfold approve_pre_authorized. solve_costs. Qed.
Lemma costs_consent_view session handle registry : costs (consent_view session handle registry) 13.
Proof. unfold consent_view. solve_costs. Qed.
Lemma costs_deny session handle registry : costs (deny_with_registry session handle registry) 13.
Proof. unfold deny_with_registry, deny_bound. solve_costs. Qed.

(** *** Logout and profiles *)

Lemma costs_logout_insert session client redirect state : costs (insert session client redirect state) 8.
Proof. unfold insert. solve_costs. Qed.
#[local] Hint Resolve costs_logout_insert : costs.
Lemma costs_logout_begin session client redirect state registry :
  costs (begin session client redirect state registry) 8.
Proof. unfold begin. solve_costs. Qed.
Lemma costs_begin_local session uri : costs (begin_local session uri) 8.
Proof. unfold begin_local. solve_costs. Qed.
Lemma costs_end_session_tx id session row now : costs (end_session_tx id session row now) 4.
Proof. unfold end_session_tx. solve_costs. Qed.
#[local] Hint Resolve costs_end_session_tx : costs.
Lemma costs_finish_inner session challenge registry hint :
  costs (finish_inner session challenge registry hint) 9.
Proof. unfold finish_inner. solve_costs. Qed.
#[local] Hint Resolve costs_finish_inner : costs.
Lemma costs_finish session challenge registry : costs (finish session challenge registry) 9.
Proof. unfold finish. solve_costs. Qed.
Lemma costs_finish_hint session challenge registry hint :
  costs (finish_hint session challenge registry hint) 9.
Proof. unfold finish_hint. solve_costs. Qed.
Lemma costs_user_profile u : costs (user_profile u) 1.
Proof. unfold user_profile. solve_costs. Qed.
End Stores.

#[export] Hint Resolve costs_find_provider_session costs_exchange_code_request costs_rotate_refresh_request
  costs_revoke_refresh costs_transaction_client_id costs_callback_client_id costs_begin_google
  costs_start_google costs_cancel_google costs_begin_authenticated costs_session_upstream_auth_time
  costs_claim_callback costs_fail_callback costs_deny_callback costs_complete_callback costs_approve
  costs_approve_pre_authorized costs_consent_view costs_deny costs_logout_begin costs_begin_local
  costs_finish costs_finish_hint costs_user_profile : costs.

(** ** The handlers *)

Section Handlers.
Context `{Crypto, JwtLib, UrlLib, JsonLib, JsonDb, UuidLib, HttpLib, FormLib, !AxumLib}.
Context (p : Provider) (leased : Leases) (keys : SigningKeys).

Lemma costs_resolve_client snapshot client : costs (resolve_client p snapshot client) 1.
Proof. unfold resolve_client. solve_costs. Qed.
Lemma costs_registry_fresh registry : costs (registry_fresh registry) 1.
Proof. unfold registry_fresh. solve_costs. Qed.
Lemma costs_session_from h : costs (session_from p h) 1.
Proof. unfold session_from. solve_costs. Qed.
#[local] Hint Resolve costs_resolve_client costs_registry_fresh costs_session_from : costs.

Lemma costs_consent_page base session handle : costs (consent_page p leased base session handle) 29.
Proof.
  unfold consent_page. do 2 cost_step; [|cost_step].
  apply (costs_attempts_off 14); [intros i|done|done]. solve_costs.
Qed.
Lemma costs_with_registry {A} base client (op : ClientRegistry -> M BrowserError A) n :
  (forall registry, costs (op registry) n) ->
  costs (with_registry p leased base client op) (S n + S n).
Proof.
  intros Hop. unfold with_registry. apply costs_attempts; [intros i|done].
  eapply (costs_bind _ _ 1 n); [apply costs_resolve_client|]. intros [registry|]; [|done].
  eapply costs_mono; [eapply (costs_bind _ _ n 0); [apply Hop|]|lia].
  intros r. repeat case_match; done.
Qed.
Lemma costs_for_client {A} base client (op : ClientRegistry -> M BrowserError A) n :
  costs client 1 -> (forall registry, costs (op registry) n) ->
  costs (for_client p leased base client op) (S (S n + S n)).
Proof.
  intros Hc Hop. unfold for_client. eapply (costs_bind _ _ 1); [done|]. intros [c|]; [|done].
  by apply costs_with_registry.
Qed.
#[local] Hint Resolve costs_consent_page : costs.

(** *** /authorize *)

Lemma costs_or_code {A E} code (m : M E A) n : costs m n -> costs (or_code code m) n.
Proof.
  intros Hm. unfold or_code. eapply costs_mono; [eapply (costs_bind _ _ n 0); [done|]|lia]. by intros [].
Qed.
Lemma costs_code_result {A} (r : result A string) : costs (code_result r) 0.
Proof. by destruct r. Qed.
Lemma costs_or_panic {A} (r : result A Panic) : costs (or_panic r) 0.
Proof. by destruct r. Qed.
Lemma costs_then_ret {A B E} (m : M E A) (b : B) n : costs m n -> costs (bindE m (fun _ => ret b)) n.
Proof.
  intros Hm. eapply costs_mono; [eapply (costs_bind _ _ n 0); [done|]|lia]. by intros [].
Qed.
#[local] Hint Resolve costs_or_code costs_code_result costs_or_panic costs_then_ret : costs.

Lemma costs_check_max_age session max_age : costs (check_max_age session max_age) 6.
Proof. unfold check_max_age. solve_costs. Qed.
#[local] Hint Resolve costs_check_max_age : costs.
Lemma costs_authorize_session a pending allow registry base session :
  costs (authorize_session p leased a pending allow registry base session) 66.
Proof. unfold authorize_session. solve_costs. Qed.
Lemma costs_authorize_sign_in a pending allow registry headers :
  costs (authorize_sign_in p a pending allow registry headers) 14.
Proof. unfold authorize_sign_in. solve_costs. Qed.
#[local] Hint Resolve costs_authorize_session costs_authorize_sign_in : costs.
Lemma costs_authorize_valid q headers registry base :
  costs (authorize_valid p leased q headers registry base) 68.
Proof. unfold authorize_valid. solve_costs. Qed.
#[local] Hint Resolve costs_authorize_valid : costs.
Lemma costs_authorize raw headers : costs (authorize p leased raw headers) 142.
Proof.
  unfold authorize. do 3 (cost_step; [|cost_step]).
  apply (costs_attempts_off 71); [intros i|done|done]. solve_costs.
Qed.

(** *** The other routes *)

Lemma costs_google_start headers body : costs (google_start_handler p leased headers body) 25.
Proof.
  assert (Hc : forall client id state binding, costs (with_registry p leased 0 client
      (cancel_google_with_registry id state binding)) 24).
  { intros. apply (costs_with_registry 0 _ _ 11). eauto with costs. }
  unfold google_start_handler, google_cancel. solve_costs.
Qed.

Lemma costs_claim_with state cookies : costs (claim_with state cookies) (7 * length cookies).
Proof.
  induction cookies as [|[name binding] cookies IH]; [done|]. cbn [claim_with length].
  replace (7 * S (length cookies))%nat with (7 + 7 * length cookies)%nat by lia.
  apply costs_bind; [apply costs_claim_callback|]. by intros [[[claim verifier] nonce]|].
Qed.
Lemma costs_callback_error error claim name : costs (callback_error p leased error claim name) 27.
Proof.
  assert (Hd : costs (for_client p leased 0 (callback_client_id claim) (deny_callback claim)) 27).
  { apply (costs_for_client 0 _ _ 12); eauto with costs. }
  unfold callback_error. solve_costs.
Qed.
Lemma costs_pre_authorized_end completion : costs (pre_authorized_end p leased completion) 41.
Proof.
  unfold pre_authorized_end. do 2 cost_step; [|cost_step].
  apply (costs_attempts_off 20); [intros i|done|done]. solve_costs.
Qed.
#[local] Hint Resolve costs_callback_error costs_pre_authorized_end : costs.
Lemma costs_callback_complete claim name verified :
  costs (callback_complete p leased claim name verified) 141.
Proof.
  assert (Hd : costs (for_client p leased 0 (callback_client_id claim) (fun registry =>
      complete_callback_with_registry claim verified session_duration registry)) 71).
  { apply (costs_for_client 0 _ _ 34); eauto with costs. }
  unfold callback_complete. solve_costs.
Qed.
#[local] Hint Resolve costs_callback_complete : costs.

Lemma transaction_cookies_length h secure : (length (transaction_cookies h secure) <= 4)%nat.
Proof.
  unfold transaction_cookies. destruct (4 <? _)%nat eqn:Hn; [simpl; lia|].
  apply Nat.ltb_ge in Hn. destruct (negb _); simpl; lia.
Qed.
Lemma costs_claims state h secure : costs (claim_with state (transaction_cookies h secure)) 28.
Proof.
  eapply costs_mono; [apply costs_claim_with|]. pose proof (transaction_cookies_length h secure). lia.
Qed.
#[local] Hint Resolve costs_claims : costs.
Lemma costs_callback exchange raw headers : costs (callback p leased exchange raw headers) 169.
Proof. unfold callback. solve_costs. Qed.

Lemma costs_consent_get raw headers : costs (consent_get p leased raw headers) 30.
Proof. unfold consent_get. solve_costs. Qed.
Lemma costs_decide_consent {A} client (op : ClientRegistry -> M BrowserError A) return_ :
  (forall registry, costs (op registry) 18) -> costs (decide_consent p leased client op return_) 38.
Proof.
  intros Hop. unfold decide_consent. eapply costs_mono; [|apply (Nat.le_refl (19 + 19 + 0))].
  apply costs_bind; [by apply costs_with_registry|done].
Qed.
Lemma costs_deny_18 session handle registry : costs (deny_with_registry session handle registry) 18.
Proof. apply costs_mono with 13%nat; [apply costs_deny|lia]. Qed.
#[local] Hint Resolve costs_decide_consent costs_deny_18 : costs.
Lemma costs_consent_action action client session handle :
  costs (consent_action p leased action client session handle) 38.
Proof. unfold consent_action. solve_costs. Qed.
#[local] Hint Resolve costs_consent_action : costs.
Lemma costs_consent_post headers body : costs (consent_post p leased headers body) 40.
Proof. unfold consent_post. solve_costs. Qed.

Lemma costs_token_grant q client resource scope registry :
  costs (token_grant q client resource scope registry) 24.
Proof. unfold token_grant. solve_costs. Qed.
#[local] Hint Resolve costs_token_grant : costs.
Lemma costs_token_loop q client resource scope : costs (token_loop p leased q client resource scope) 50.
Proof. unfold token_loop. apply (costs_attempts_off 25); [intros i|done|done]. solve_costs. Qed.
Lemma costs_issue_tokens v initial : costs (issue_tokens p keys v initial) 2.
Proof. unfold issue_tokens. solve_costs. Qed.
#[local] Hint Resolve costs_token_loop costs_issue_tokens : costs.
Lemma costs_token headers body : costs (token p leased keys headers body) 52.
Proof. unfold token. solve_costs. Qed.
Lemma costs_userinfo headers body : costs (userinfo p keys headers body) 3.
Proof. unfold userinfo. solve_costs. Qed.
Lemma costs_revoke headers body : costs (revoke p headers body) 7.
Proof. unfold revoke. solve_costs. Qed.

Lemma costs_bind_ret {A E} (m : prog A) n : costs m n -> costs (bind m (ret (E:=E))) n.
Proof. intros Hm. apply (costs_mono _ (n + 0)); [by apply costs_bind|lia]. Qed.
#[local] Hint Resolve costs_bind_ret : costs.
Lemma costs_logout_begin_handler session client redirect state hint :
  costs (logout_begin p session client redirect state hint) 17.
Proof. unfold logout_begin. solve_costs. Qed.
#[local] Hint Resolve costs_logout_begin_handler : costs.
Lemma costs_logout_rp headers q : costs (logout_rp p keys headers q) 19.
Proof. unfold logout_rp. solve_costs. Qed.
#[local] Hint Resolve costs_logout_rp : costs.
Lemma costs_logout_get raw headers : costs (logout_get p keys raw headers) 19.
Proof. unfold logout_get. solve_costs. Qed.
Lemma costs_logout_post raw headers body : costs (logout_post p keys raw headers body) 19.
Proof. unfold logout_post, logout_confirm. solve_costs. Qed.
End Handlers.

(** ** Requests *)

(** The most a request may take: a callback with four transaction cookies
    whose client's document expires at every attempt. *)
Definition max_effects : nat := 169.

Section Server.
Context `{Crypto, JwtLib, UrlLib, JsonLib, JsonDb, UuidLib, HttpLib, FormLib, !AxumLib}.

Lemma costs_max {A} (p : prog A) n : costs p n -> (n <=? max_effects)%nat = true -> costs p max_effects.
Proof. intros Hp Hn%Nat.leb_le. by eapply costs_mono. Qed.
Lemma costs_with_body rq handler :
  (forall body, costs (handler body) max_effects) -> costs (with_body rq handler) max_effects.
Proof. intros Hh. unfold with_body. destruct (_ <? _)%Z; [exact I|apply Hh]. Qed.

Lemma costs_provider_route p keys out route rq :
  costs (provider_route p keys out route rq) max_effects.
Proof.
  unfold provider_route, authorize_get, authorize_post.
  destruct route; try exact I; try (apply costs_with_body; intros body);
    (eapply costs_max;
      [first [apply costs_authorize|apply costs_google_start|apply costs_callback|apply costs_consent_get
             |apply costs_consent_post|apply costs_token|apply costs_userinfo|apply costs_revoke
             |apply costs_logout_get|apply costs_logout_post]|reflexivity]).
Qed.

Lemma costs_serve s out rq : costs (serve s out rq) max_effects.
Proof.
  unfold serve. rewrite <- (Nat.add_0_r max_effects). apply costs_bind; [|by intros []].
  unfold route_handler. destruct (router _ _ _); try exact I;
    (destruct (st_provider s); [apply costs_provider_route|exact I]).
Qed.
End Server.
