(* ===== verification/WebTheory.v ===== *)
(** * WebTheory: handlers as sequences of store operations

    [yields]: a program runs operations of the stores one after another and
    answers what a predicate says. Every handler of Web.v is proved to, by
    rules that follow its structure; the predicates exclude the panics. *)

From Stdlib Require Import Ascii ZArith Lia.
From S2P Require Import Prelude External Schema Effects Evolution Cimd Jose Keys OAuth Config Identity Google Database Credentials Tokens Logout Browser Http Web HttpTheory StoresSpec StoresInvariant System.

(** [OsRng.fill_bytes] fills all 32 bytes. *)
Definition draws_32_bytes (o : Oracle) : Prop := forall n, len (o_random o n) = 32%Z.

(** ** What a program answers, wherever it starts *)

Definition answers (o : Oracle) {A} (p : prog A) (P : A -> Prop) : Prop := forall w, P (run o p w).1.
(** An error is any. *)
Definition or_err {E A} (P : A -> Prop) (r : result A E) : Prop :=
  match r with Ok a => P a | Err _ => True end.

Section Answers.
Context {o : Oracle}.

Lemma answers_any {A} (p : prog A) : answers o p (fun _ => True).
Proof. by intros w. Qed.
Lemma answers_mono {A} (p : prog A) (P Q : A -> Prop) :
  answers o p P -> (forall a, P a -> Q a) -> answers o p Q.
Proof. intros Hp HPQ w. by apply HPQ, Hp. Qed.
Lemma answers_bind {A B} (p : prog A) (f : A -> prog B) (P : A -> Prop) (Q : B -> Prop) :
  answers o p P -> (forall a, P a -> answers o (f a) Q) -> answers o (bind p f) Q.
Proof.
  intros Hp Hf w. rewrite run_bind. specialize (Hp w). destruct (run o p w) as [a w']. by apply Hf.
Qed.
Lemma answers_bindE {E A B} (m : M E A) (f : A -> M E B) (P : A -> Prop) (Q : B -> Prop) :
  answers o m (or_err P) -> (forall a, P a -> answers o (f a) (or_err Q)) ->
  answers o (bindE m f) (or_err Q).
Proof. intros Hm Hf. eapply answers_bind; [exact Hm|]. intros [a|e] Ha; [by apply Hf|by intros w]. Qed.
Lemma answers_then {E A B} (m : M E A) (f : A -> M E B) (Q : B -> Prop) :
  (forall a, answers o (f a) (or_err Q)) -> answers o (bindE m f) (or_err Q).
Proof.
  intros Hf. apply (answers_bindE m f (fun _ => True)); [|intros a _; apply Hf].
  apply (answers_mono m (fun _ => True)); [apply answers_any|]. by intros [].
Qed.
Lemma answers_ret {E A} (a : A) (P : A -> Prop) : P a -> answers o (ret (E:=E) a) (or_err P).
Proof. by intros Ha w. Qed.
Lemma answers_raise {E A} (e : E) (P : A -> Prop) : answers o (raise (A:=A) e) (or_err P).
Proof. by intros w. Qed.
Lemma answers_with_tx {E A} `{!FromDb E} (m : M E A) (P : A -> Prop) :
  answers o m (or_err P) -> answers o (with_tx m) (or_err P).
Proof.
  intros Hm. unfold with_tx. eapply answers_bind; [apply answers_then; intros _; exact Hm|].
  intros r Hr w. exact Hr.
Qed.
End Answers.

(** The secrets: 43 characters of the URL-safe alphabet. *)
Section Secrets.
Context `{Crypto, UrlLib, JsonLib, JsonDb, UuidLib, !CryptoLaws} {o : Oracle} (Ho : draws_32_bytes o).

Definition secret_text (s : string) : Prop := bytes_all b64url_char s = true /\ len s = 43%Z.

Lemma random_credential_answers {E} : answers o (random_credential (E:=E)) (or_err secret_text).
Proof. intros w. split; [apply b64_encode_alphabet|apply b64_encode_32, Ho]. Qed.

Lemma begin_google_answers pending state nonce allow :
  answers o (begin_google_with_pre_authorization pending state nonce allow)
    (or_err (fun start => secret_text (bs_browser_binding start)
                          /\ secret_text (bs_upstream_verifier start))).
Proof.
  unfold begin_google_with_pre_authorization. apply answers_then; intros id.
  apply answers_then; intros st.
  eapply answers_bindE; [apply random_credential_answers|]. intros bd Hbd. apply answers_then; intros nc.
  eapply answers_bindE; [apply random_credential_answers|]. intros v Hv.
  apply answers_with_tx. do 4 (apply answers_then; intros _). by apply answers_ret.
Qed.

Lemma complete_callback_answers claim identity lifetime reg :
  answers o (complete_callback_with_registry claim identity lifetime reg)
    (or_err (fun completion => secret_text (se_raw (lg_session completion)))).
Proof.
  unfold complete_callback_with_registry, complete_callback_bound. apply answers_then; intros secs.
  apply answers_with_tx, answers_then. intros [[id expires]|]; [|apply answers_raise].
  do 2 (apply answers_then; intros ?). eapply answers_bindE; [apply random_credential_answers|].
  intros raw Hraw. do 8 (apply answers_then; intros ?). case_match.
  - do 3 (apply answers_then; intros ?). apply answers_raise.
  - do 4 (apply answers_then; intros ?). case_match; [apply answers_raise|].
    do 2 (apply answers_then; intros ?). by apply answers_ret.
Qed.

(** A generated verifier is one RFC 7636 allows. *)
Lemma upstream_challenge_ok start : secret_text (bs_upstream_verifier start) -> is_ok (upstream_challenge start) = true.
Proof.
  intros [Hs Hl]. unfold upstream_challenge, s256_challenge, validate_pkce_verifier. rewrite Hl.
  rewrite (bytes_all_impl b64url_char _ _) by
    (done || (intros a; unfold b64url_char, pkce_verifier_char; rewrite !orb_true_iff; tauto)).
  done.
Qed.
End Secrets.

(** ** Programs made of operations *)

Section Yields.
Context `{Crypto, UrlLib, JsonLib, JsonDb, UuidLib}.

(** From any database, [p] runs operations of the stores and leaves no
    transaction open. *)
Definition yields (o : Oracle) {A} (p : prog A) (P : A -> Prop) : Prop :=
  forall d n, let '(a, w) := run o p (idle d n) in w_tx w = [] /\ rtc step d (w_db w) /\ P a.

Context {o : Oracle}.

Lemma yields_ret {A} (a : A) (P : A -> Prop) : P a -> yields o (Ret a) P.
Proof. intros Ha d n. split_and!; [done|apply rtc_refl|done]. Qed.
Lemma yields_mono {A} (p : prog A) (P Q : A -> Prop) :
  yields o p P -> (forall a, P a -> Q a) -> yields o p Q.
Proof.
  intros Hp HPQ d n. specialize (Hp d n). destruct (run o p _) as [a w].
  destruct Hp as (? & ? & ?). eauto.
Qed.
Lemma yields_bind {A B} (p : prog A) (f : A -> prog B) (P : A -> Prop) (Q : B -> Prop) :
  yields o p P -> (forall a, P a -> yields o (f a) Q) -> yields o (bind p f) Q.
Proof.
  intros Hp Hf d n. rewrite run_bind. specialize (Hp d n).
  destruct (run o p _) as [a [d1 tx1 n1]]. destruct Hp as (Htx & Hs & Ha). simpl in *. subst tx1.
  specialize (Hf a Ha d1 n1). unfold idle in Hf. destruct (run o (f a) _) as [b w].
  destruct Hf as (? & ? & ?). split_and!; [done|by etrans|done].
Qed.
Lemma yields_op {A} (p : prog A) (P : A -> Prop) : operation A p -> answers o p P -> yields o p P.
Proof.
  intros Hp Ha d n. specialize (Ha (idle d n)). destruct (run o p _) as [a w] eqn:Hr.
  split_and!; [|apply rtc_once; by eapply Step|done].
  by destruct (operation_safe p Hp _ _ _ _ _ Hr).
Qed.
(** An operation about whose answer nothing is needed. *)
Lemma yields_run {A B} (p : prog A) (f : A -> prog B) (Q : B -> Prop) :
  operation A p -> (forall a, yields o (f a) Q) -> yields o (bind p f) Q.
Proof.
  intros Hp Hf. apply (yields_bind p f (fun _ => True)); [|intros a _; apply Hf].
  apply yields_op; [done|apply answers_any].
Qed.

Lemma yields_instant {A} (k : Z -> prog A) (Q : A -> Prop) :
  (forall t, yields o (k t) Q) -> yields o (InstantNow k) Q.
Proof. intros Hk d n. exact (Hk _ d (S n)). Qed.
Lemma yields_utc {A} (k : Z -> prog A) (Q : A -> Prop) :
  (forall t, yields o (k t) Q) -> yields o (UtcNow k) Q.
Proof. intros Hk d n. exact (Hk _ d (S n)). Qed.
Lemma yields_uuid {A} (k : Uuid -> prog A) (Q : A -> Prop) :
  (forall t, yields o (k t) Q) -> yields o (NewUuid k) Q.
Proof. intros Hk d n. exact (Hk _ d (S n)). Qed.

Lemma yields_bindE {E A B} (m : M E A) (f : A -> M E B) (P : result A E -> Prop) (Q : result B E -> Prop) :
  yields o m P -> (forall a, P (Ok a) -> yields o (f a) Q) -> (forall e, P (Err e) -> Q (Err e)) ->
  yields o (bindE m f) Q.
Proof.
  intros Hm Hf He. eapply yields_bind; [exact Hm|]. intros [a|e] Ha; [by apply Hf|].
  apply yields_ret. by apply He.
Qed.

Lemma yields_attempts {A} (body : nat -> prog (option A)) (exhausted : prog A) (Q : A -> Prop) :
  (forall n, yields o (body n) (fun r => match r with Some a => Q a | None => True end)) ->
  yields o exhausted Q -> yields o (for_attempts body exhausted) Q.
Proof.
  intros Hb He. unfold for_attempts.
  eapply yields_bind; [apply Hb|]. intros [a|] Ha; [by apply yields_ret|].
  eapply yields_bind; [apply Hb|]. intros [a|] Ha'; [by apply yields_ret|exact He].
Qed.
End Yields.

(** The same, with what holds of the database it started from and the one it
    leaves. *)
Section Serves.
Context `{Crypto, UrlLib, JsonLib, JsonDb, UuidLib}.

Definition serves (o : Oracle) (d : DB) {A} (p : prog A) (P : A -> DB -> Prop) : Prop :=
  forall n, let '(a, w) := run o p (idle d n) in w_tx w = [] /\ rtc step d (w_db w) /\ P a (w_db w).

Context {o : Oracle}.

Lemma serves_bind {A B} d (p : prog A) (f : A -> prog B) (P : A -> DB -> Prop) (Q : B -> DB -> Prop) :
  serves o d p P -> (forall a d', P a d' -> serves o d' (f a) Q) -> serves o d (bind p f) Q.
Proof.
  intros Hp Hf n. rewrite run_bind. specialize (Hp n).
  destruct (run o p _) as [a [d1 tx1 n1]]. destruct Hp as (Htx & Hs & Ha). simpl in *. subst tx1.
  specialize (Hf a d1 Ha n1). unfold idle in Hf. destruct (run o (f a) _) as [b w].
  destruct Hf as (? & ? & ?). split_and!; [done|by etrans|done].
Qed.
Lemma serves_ret {A} d (a : A) (P : A -> DB -> Prop) : P a d -> serves o d (Ret a) P.
Proof. intros Ha n. split_and!; [done|apply rtc_refl|done]. Qed.
Lemma serves_yields {A} d (p : prog A) (P : A -> Prop) : yields o p P -> serves o d p (fun a _ => P a).
Proof. intros Hp n. apply Hp. Qed.
Lemma yields_serves {A} (p : prog A) (P : A -> Prop) :
  (forall d, serves o d p (fun a _ => P a)) -> yields o p P.
Proof. intros Hp d n. apply Hp. Qed.
(** An operation, by its specification. *)
Lemma serves_op {A} d (p : prog A) (S : A -> DB -> Prop) :
  operation A p -> wp p (fun a d' tx => tx = [] /\ S a d') d [] -> serves o d p S.
Proof.
  intros Hp Hw n. destruct (run o p _) as [a w] eqn:Hr.
  destruct (wp_run _ _ _ _ _ _ _ Hw Hr) as [Htx Ha]. split_and!; [done|apply rtc_once; by eapply Step|done].
Qed.
End Serves.

(** ** Cookies *)

Section Cookies.
Context `{UuidLaws, HttpLaws}.

(** What [HeaderValue::from_str] accepts. *)
Definition sendable (s : string) : Prop :=
  bytes_all (fun a => header_char a || (a ==? "009"%char)) s = true.

Lemma sendable_app s t : sendable s -> sendable t -> sendable (s +:+ t).
Proof. unfold sendable. intros Hs Ht. by rewrite bytes_all_app, Hs, Ht. Qed.
Lemma sendable_impl (q : ascii -> bool) s :
  (forall a, q a = true -> header_char a = true) -> bytes_all q s = true -> sendable s.
Proof. intros Hq. apply bytes_all_impl. intros a Ha. by rewrite (Hq a Ha). Qed.
Lemma secret_sendable s : secret_text s -> sendable s.
Proof.
  intros [Hs _]. eapply sendable_impl; [|exact Hs]. intros a.
  by destruct a as [[] [] [] [] [] [] [] []].
Qed.
Lemma uuid_text_sendable u : sendable (uuid_text u).
Proof.
  eapply sendable_impl; [|exact (proj1 (uuid_text_visible u))]. intros a.
  by destruct a as [[] [] [] [] [] [] [] []].
Qed.

Lemma set_cookie_sendable name value extra secure :
  sendable name -> sendable value -> sendable extra -> sendable (set_cookie name value extra secure).
Proof.
  intros Hn Hv He. unfold set_cookie. repeat apply sendable_app; try done. by destruct secure.
Qed.
Lemma tx_cookie_sendable id secure : sendable (tx_cookie id secure).
Proof. apply sendable_app; [by destruct secure|apply uuid_text_sendable]. Qed.

(** The name of a transaction cookie came in a header. *)
Lemma cookie_pairs_sendable h kv : kv ∈ cookie_pairs h -> sendable kv.1.
Proof.
  unfold cookie_pairs. intros (part & Hpart & Hkv)%list_elem_of_omap.
  apply list_elem_of_In, List.in_concat in Hpart as (parts & Hparts & Hpart).
  apply List.in_map_iff in Hparts as (text & <- & Htext).
  apply list_elem_of_In, list_elem_of_omap in Htext as (v & _ & Hv%to_str_visible).
  apply (bytes_all_split_on (fun a => a ==? ";"%char)) in Hv.
  eapply List.Forall_forall in Hv; [|exact Hpart].
  apply bytes_all_trim in Hv. destruct kv as [k v']. by eapply bytes_all_split_once in Hkv as [? _].
Qed.
Lemma transaction_cookie_sendable h secure kv : kv ∈ transaction_cookies h secure -> sendable kv.1.
Proof.
  unfold transaction_cookies. case_match; [by intros ?%elem_of_nil|].
  intros [Hin _]%list_elem_of_In%List.filter_In. by apply (cookie_pairs_sendable h), list_elem_of_In.
Qed.

Lemma put_cookie_ok put text r : sendable text -> is_ok (put_cookie put text r) = true.
Proof. intros Hs. unfold put_cookie. by rewrite (from_str_visible _ Hs). Qed.
End Cookies.

(** ** The handlers *)

Create HintDb operations.
#[export] Hint Constructors operation : operations.

Section Handlers.
Context `{Crypto, JwtLib, UrlLib, JsonLib, JsonDb, UuidLib, HttpLib, FormLib, !AxumLib,
  !CryptoLaws, !UuidLaws, !HttpLaws}.
Context {o : Oracle} (Ho : draws_32_bytes o) (p : Provider) (leased : Leases) (keys : SigningKeys).

Definition anything {A} (_ : A) : Prop := True.
(** The code does not panic. *)
Definition answered {A} (r : result A Panic) : Prop := is_ok r = true.
Definition no_panic {A} (r : result A AuthorizeError) : Prop :=
  match r with Err (Panicked _) => False | _ => True end.

Lemma is_ok_map_ok {A B E} (f : A -> B) (r : result A E) : is_ok r = true -> is_ok (map_ok f r) = true.
Proof. by destruct r. Qed.
Lemma yields_then {A B} (q : prog A) (f : A -> prog B) (Q : B -> Prop) :
  yields o q anything -> (forall a, yields o (f a) Q) -> yields o (bind q f) Q.
Proof. intros Hq Hf. eapply yields_bind; [exact Hq|]. intros a _. apply Hf. Qed.
Lemma yields_any {A} (q : prog A) : operation A q -> yields o q anything.
Proof. intros Hq. apply yields_op; [done|apply answers_any]. Qed.
Lemma yields_thenE {A B} (m : M AuthorizeError A) (f : A -> M AuthorizeError B) :
  yields o m no_panic -> (forall a, yields o (f a) no_panic) -> yields o (bindE m f) no_panic.
Proof. intros Hm Hf. eapply yields_bindE; [exact Hm|by intros a _|by intros []]. Qed.

Lemma resolve_client_yields snapshot client : yields o (resolve_client p snapshot client) anything.
Proof.
  unfold resolve_client. destruct (contains_client _ _); [by apply yields_ret|].
  destruct (pv_cimd_policy p), snapshot; try by apply yields_ret.
  apply yields_instant. intros t. by apply yields_ret.
Qed.
Lemma registry_fresh_yields registry : yields o (registry_fresh registry) anything.
Proof. apply yields_instant. intros t. by apply yields_ret. Qed.
Lemma session_from_yields h : yields o (session_from p h) anything.
Proof.
  unfold session_from. destruct (cookie _ _); [|by apply yields_ret].
  apply yields_run; [constructor|]. intros []; by apply yields_ret.
Qed.

Lemma consent_page_yields base session handle : yields o (consent_page p leased base session handle) anything.
Proof.
  unfold consent_page. apply yields_run; [constructor|]. intros [client|e]; [|by apply yields_ret].
  apply yields_attempts; [|by apply yields_ret]. intros n.
  apply yields_then; [apply resolve_client_yields|]. intros [registry|]; [|by apply yields_ret].
  apply yields_run; [constructor|]. intros [v|[]]; try by apply yields_ret. by destruct (_ =? _)%nat; apply yields_ret.
Qed.

Lemma with_registry_yields {A} base client (op : ClientRegistry -> M BrowserError A) (P : A -> Prop) :
  (forall registry, yields o (op registry) (or_err P)) ->
  yields o (with_registry p leased base client op) (fun r => match r with Some a => P a | None => True end).
Proof.
  intros Hop. apply yields_attempts; [|by apply yields_ret]. intros n.
  apply yields_then; [apply resolve_client_yields|]. intros [registry|]; [|by apply yields_ret].
  eapply yields_bind; [apply Hop|]. intros [v|[]] Hv; try by apply yields_ret.
  by destruct (_ =? _)%nat; apply yields_ret.
Qed.
Lemma for_client_yields {A} base client (op : ClientRegistry -> M BrowserError A) (P : A -> Prop) :
  operation _ client -> (forall registry, yields o (op registry) (or_err P)) ->
  yields o (for_client p leased base client op) (fun r => match r with Some a => P a | None => True end).
Proof.
  intros Hc Hop. apply yields_run; [done|]. intros [c|e]; [by apply with_registry_yields|by apply yields_ret].
Qed.
Lemma operation_or_err {A E : Set} (m : M E A) : operation _ m -> yields o m (or_err anything).
Proof. intros Hm. eapply yields_mono; [by apply yields_any|]. by intros []. Qed.
Lemma operation_or_code {A E : Set} code (m : M E A) : operation _ m -> yields o (or_code code m) no_panic.
Proof. intros Hm. apply yields_run; [done|]. by intros []; apply yields_ret. Qed.
Lemma code_result_yields {A} (r : result A string) : yields o (code_result r) no_panic.
Proof. by destruct r; apply yields_ret. Qed.

(** *** /authorize *)

Lemma put_cookie_answered put text r : sendable text -> answered (put_cookie put text r).
Proof. apply put_cookie_ok. Qed.
Lemma clear_transaction_cookie_answered name r :
  sendable name -> answered (clear_transaction_cookie p (Some name) r).
Proof. intros Hn. by apply put_cookie_answered, set_cookie_sendable. Qed.

Lemma or_panic_yields {A} (r : result A Panic) : answered r -> yields o (or_panic r) no_panic.
Proof. destruct r; [|done]. intros _. by apply yields_ret. Qed.

Lemma check_max_age_yields session max_age : yields o (check_max_age session max_age) no_panic.
Proof.
  unfold check_max_age. destruct max_age as [m|]; [|by apply yields_ret].
  apply yields_thenE; [apply operation_or_code; constructor|]. intros [t|]; [|by apply yields_ret].
  apply yields_utc. intros now. simpl. by destruct (_ <? _)%Z; apply yields_ret.
Qed.

Lemma authorize_session_yields a pending allow registry base session :
  yields o (authorize_session p leased a pending allow registry base session) no_panic.
Proof.
  unfold authorize_session. apply yields_thenE; [apply check_max_age_yields|]. intros _.
  destruct (_ && _); [by apply yields_ret|].
  apply yields_thenE; [apply operation_or_code; constructor|]. intros handle.
  apply yields_thenE.
  { destruct allow; [apply operation_or_code; constructor|by apply yields_ret]. }
  intros [outcome|]; [by apply yields_ret|]. destruct (_ && _); [by apply yields_ret|].
  apply yields_then; [apply consent_page_yields|]. intros page. by apply yields_ret.
Qed.

Lemma authorize_sign_in_yields a pending allow registry headers :
  yields o (authorize_sign_in p a pending allow registry headers) no_panic.
Proof.
  unfold authorize_sign_in. destruct (_ || _); [by apply yields_ret|].
  destruct (_ <=? _)%nat; [by apply yields_ret|].
  eapply (yields_bindE _ _ (fun r => match r with
    | Ok start => secret_text (bs_browser_binding start) /\ secret_text (bs_upstream_verifier start)
    | Err e => no_panic (A := BrowserStart) (Err e) end)); [|intros start [Hbd Hv]|done].
  { eapply yields_bind; [apply yields_op; [constructor|by apply begin_google_answers]|].
    by intros [start|e] Hs; apply yields_ret. }
  apply yields_thenE.
  { destruct allow; [|by apply yields_ret].
    apply yields_thenE; [apply operation_or_code; constructor|]. intros _. by apply yields_ret. }
  intros _. apply yields_thenE; [by apply or_panic_yields, upstream_challenge_ok|]. intros challenge.
  apply yields_thenE; [apply code_result_yields|]. intros upstream.
  apply yields_thenE; [apply code_result_yields|]. intros client_name.
  apply or_panic_yields. apply is_ok_map_ok, put_cookie_answered, set_cookie_sendable;
    [apply tx_cookie_sendable|by apply secret_sendable|done].
Qed.

Lemma authorize_valid_yields q headers registry base :
  yields o (authorize_valid p leased q headers registry base) no_panic.
Proof.
  unfold authorize_valid. apply yields_thenE; [apply code_result_yields|]. intros a.
  apply yields_thenE; [apply yields_instant; intros t; by apply yields_ret|]. intros pending.
  apply yields_thenE; [apply code_result_yields|]. intros grant.
  apply yields_then; [apply session_from_yields|]. intros session.
  destruct (_ ==? _); [by apply yields_ret|].
  destruct (opt_filter _ _); [apply authorize_session_yields|apply authorize_sign_in_yields].
Qed.

Lemma authorize_yields raw headers : yields o (authorize p leased raw headers) answered.
Proof.
  unfold authorize. destruct (pairs raw 8192) as [q|]; [|by apply yields_ret].
  destruct (one q "client_id") as [client|], (one q "redirect_uri") as [redirect|]; try by apply yields_ret.
  apply yields_attempts; [|by apply yields_ret]. intros n.
  apply yields_then; [apply resolve_client_yields|]. intros [registry|]; [|by apply yields_ret].
  destruct (negb _); [by apply yields_ret|]. destruct (optional q "state"); [|by apply yields_ret].
  eapply yields_bind; [apply authorize_valid_yields|].
  intros [response|[code|panic]] Hr; [by apply yields_ret| |done].
  apply yields_then; [apply registry_fresh_yields|]. intros fresh.
  destruct (_ && _); [by apply yields_ret|].
  apply yields_then; [apply registry_fresh_yields|]. intros fresh'. by apply yields_ret.
Qed.

(** *** The federation with Google *)

Lemma lift_answered {A} (r : result A Panic) : answered r -> yields o (lift r) answered.
Proof. intros Hr. by apply yields_ret. Qed.

Lemma google_start_yields headers body : yields o (google_start_handler p leased headers body) answered.
Proof.
  unfold google_start_handler. destruct (negb _); [by apply yields_ret|].
  destruct (pairs_bytes body 1024) as [q|]; [|by apply yields_ret].
  destruct (required_uuid _ _) as [id|], (required q "state") as [state|], (required q "action") as [action|];
    try by apply yields_ret.
  destruct (negb _); [by apply yields_ret|]. destruct (cookie _ _) as [binding|]; [|by apply yields_ret].
  destruct (_ ==? _).
  - unfold google_cancel. apply yields_run; [constructor|]. intros [client|]; [|by apply yields_ret].
    eapply yields_bind; [apply with_registry_yields; intros registry; apply operation_or_err; constructor|].
    intros [outcome|] _; [|by apply yields_ret].
    by apply lift_answered, clear_transaction_cookie_answered, tx_cookie_sendable.
  - apply yields_run; [constructor|]. intros [[nonce verifier]|]; [|by apply yields_ret].
    destruct (s256_challenge _); [|by apply yields_ret]. by destruct (google_url _ _ _ _); apply yields_ret.
Qed.

Lemma claim_with_yields state cookies :
  (forall kv, kv ∈ cookies -> sendable kv.1) ->
  yields o (claim_with state cookies)
    (fun r => match r with Some (name, _, _, _) => sendable name | None => True end).
Proof.
  induction cookies as [|[name binding] cookies IH]; intros Hall; [by apply yields_ret|].
  cbn [claim_with]. apply yields_run; [constructor|]. intros [[[claim verifier] nonce]|].
  - apply yields_ret. apply (Hall (name, binding)), list_elem_of_here.
  - apply IH. intros kv Hkv. by apply Hall, list_elem_of_further.
Qed.

Lemma callback_error_yields error claim name :
  sendable name -> yields o (callback_error p leased error claim name) answered.
Proof.
  intros Hn. unfold callback_error. destruct (_ <>? _).
  - apply yields_run; [constructor|]. intros _. by apply lift_answered, clear_transaction_cookie_answered.
  - eapply yields_bind.
    + apply for_client_yields; [constructor|]. intros registry. apply operation_or_err. constructor.
    + intros outcome _. by apply lift_answered, clear_transaction_cookie_answered.
Qed.

Lemma pre_authorized_end_yields completion : yields o (pre_authorized_end p leased completion) anything.
Proof.
  unfold pre_authorized_end. apply yields_run; [constructor|]. intros [client|]; [|by apply yields_ret].
  apply yields_attempts; [|by apply yields_ret]. intros n.
  apply yields_then; [apply resolve_client_yields|]. intros [registry|]; [|by apply yields_ret].
  apply yields_run; [constructor|]. intros [[outcome|]|[]]; try by apply yields_ret.
  by destruct (_ =? _)%nat; apply yields_ret.
Qed.

Lemma callback_complete_yields claim name verified :
  sendable name -> yields o (callback_complete p leased claim name verified) answered.
Proof.
  intros Hn. unfold callback_complete. eapply yields_bind.
  { apply for_client_yields; [constructor|]. intros registry.
    apply yields_op; [unfold complete_callback_with_registry; constructor|].
    by apply complete_callback_answers. }
  intros [completion|] Hraw; [|by apply lift_answered, clear_transaction_cookie_answered].
  apply yields_then; [apply pre_authorized_end_yields|].
  intros [r|]; [|by apply lift_answered, clear_transaction_cookie_answered].
  apply yields_then; [destruct r; [by apply yields_ret|apply consent_page_yields]|]. intros page.
  apply lift_answered. unfold put_cookie at 1.
  rewrite from_str_visible; [|by apply set_cookie_sendable; [destruct (pv_secure p)|apply secret_sendable|]].
  cbn [ok_or rbind]. apply is_ok_map_ok. by apply clear_transaction_cookie_answered.
Qed.

Lemma callback_yields exchange raw headers : yields o (callback p leased exchange raw headers) answered.
Proof.
  unfold callback. destruct (pairs _ 4096) as [q|]; [|by apply yields_ret].
  destruct (one q "state") as [state|]; [|by apply yields_ret].
  destruct (optional q "code") as [code|]; [|by apply yields_ret].
  destruct (optional q "error") as [error|]; [|by apply yields_ret].
  destruct (Bool.eqb _ _) eqn:Hone; [by apply yields_ret|].
  eapply yields_bind; [apply claim_with_yields; apply transaction_cookie_sendable|].
  intros [[[[name claim] verifier] nonce]|] Hn; [|by apply yields_ret].
  destruct error as [error|]; [by apply callback_error_yields|].
  destruct code as [code|]; [|done]. destruct (exchange _ _ _); [by apply callback_complete_yields|].
  apply yields_run; [constructor|]. intros _. by apply lift_answered, clear_transaction_cookie_answered.
Qed.

(** *** /consent *)

Lemma consent_get_yields raw headers : yields o (consent_get p leased raw headers) answered.
Proof.
  unfold consent_get. destruct (pairs _ 2048) as [q|]; [|by apply yields_ret].
  destruct (one q "transaction_id") as [id|], (one q "csrf") as [csrf|]; try by apply yields_ret.
  destruct (uuid_parse id); [|by apply yields_ret].
  apply yields_then; [apply session_from_yields|]. intros [session|]; [|by apply yields_ret].
  apply yields_then; [apply consent_page_yields|]. intros page. by apply yields_ret.
Qed.

Lemma decide_consent_yields {A : Set} client (op : ClientRegistry -> M BrowserError A) return_ :
  (forall registry, operation _ (op registry)) ->
  yields o (decide_consent p leased client op return_) answered.
Proof.
  intros Hop. unfold decide_consent. eapply yields_bind.
  { apply with_registry_yields. intros registry. apply operation_or_err, Hop. }
  intros outcome _. by apply yields_ret.
Qed.

Lemma consent_post_yields headers body : yields o (consent_post p leased headers body) answered.
Proof.
  unfold consent_post. destruct (pairs_bytes _ 4096) as [q|]; [|by apply yields_ret].
  destruct (one q "transaction_id") as [id|], (one q "csrf") as [csrf|], (one q "action") as [action|];
    try by apply yields_ret.
  destruct (uuid_parse id); [|by apply yields_ret]. destruct (negb _); [by apply yields_ret|].
  apply yields_then; [apply session_from_yields|]. intros [session|]; [|by apply yields_ret].
  apply yields_run; [constructor|]. intros [client|]; [|by apply yields_ret].
  unfold consent_action. destruct (_ ==? _); [apply decide_consent_yields; constructor|].
  destruct (_ ==? _); [apply decide_consent_yields; constructor|].
  apply yields_then; [apply resolve_client_yields|]. intros registry. by apply yields_ret.
Qed.

(** *** /token, /userinfo, /revoke *)

Lemma token_grant_yields q client resource scope registry :
  yields o (token_grant q client resource scope registry) anything.
Proof.
  unfold token_grant. destruct (one q "grant_type"); [|by apply yields_ret]. destruct (_ ==? _).
  - destruct (one q "code"), (one q "redirect_uri"), (one q "code_verifier"); try by apply yields_ret.
    apply yields_run; [constructor|]. intros r. by apply yields_ret.
  - destruct (_ ==? _); [|by apply yields_ret].
    destruct (one q "refresh_token"); [|by apply yields_ret].
    apply yields_run; [constructor|]. intros r. by apply yields_ret.
Qed.

Lemma token_loop_yields q client resource scope : yields o (token_loop p leased q client resource scope) anything.
Proof.
  apply yields_attempts; [|by apply yields_ret]. intros n.
  apply yields_then; [apply resolve_client_yields|]. intros [registry|]; [|by apply yields_ret].
  apply yields_then; [apply token_grant_yields|].
  intros [[r|[]]|code]; try by apply yields_ret. by destruct (_ =? _)%nat; apply yields_ret.
Qed.

Lemma issue_tokens_yields v initial : yields o (issue_tokens p keys v initial) anything.
Proof. apply yields_utc. intros now. apply yields_uuid. intros jti. by apply yields_ret. Qed.

Lemma token_yields headers body : yields o (token p leased keys headers body) answered.
Proof.
  unfold token. destruct (pairs_bytes _ 8192) as [q|]; [|by apply yields_ret].
  destruct (one q "client_id") as [client|]; [|by apply yields_ret].
  destruct (existsb _ _); [by apply yields_ret|]. destruct (foreign_origin _ _ _); [by apply yields_ret|].
  destruct (optional q "resource"), (optional q "scope"); try by apply yields_ret.
  apply yields_then; [apply token_loop_yields|]. intros [result|code]; [|by apply yields_ret].
  apply yields_then; [|by intros; apply yields_ret].
  destruct result as [[v initial]|]; [apply issue_tokens_yields|by apply yields_ret].
Qed.

Lemma userinfo_yields headers body : yields o (userinfo p keys headers body) answered.
Proof.
  unfold userinfo. destruct (userinfo_form _) as [form|]; [|by apply yields_ret].
  destruct (bearer _ _); [|by apply yields_ret]. apply yields_utc. intros now.
  destruct (verify _ _ _ _ _) as [claims|]; [|by apply yields_ret]. apply yields_utc. intros now'.
  destruct (negb _); [by apply yields_ret|]. destruct (foreign_origin _ _ _); [by apply yields_ret|].
  apply yields_run; [constructor|]. by intros [[profile|]|]; apply yields_ret.
Qed.

Lemma revoke_yields headers body : yields o (revoke p headers body) answered.
Proof.
  unfold revoke. destruct (pairs_bytes _ 4096) as [q|]; [|by apply yields_ret].
  destruct (one q "client_id"), (one q "token"); try by apply yields_ret.
  destruct (foreign_origin _ _ _); [by apply yields_ret|].
  apply yields_run; [constructor|]. intros r. by apply yields_ret.
Qed.

(** *** /logout *)

Lemma logout_response_answered v : answered (logout_response p v).
Proof.
  unfold logout_response. apply is_ok_map_ok, put_cookie_answered, set_cookie_sendable;
    [by destruct (pv_secure p)|done|done].
Qed.

Lemma logout_begin_yields session client redirect state hint :
  (is_some redirect = true -> is_some client = true) ->
  yields o (logout_begin p session client redirect state hint) answered.
Proof.
  intros Hc. unfold logout_begin. eapply (yields_bind _ _ answered).
  { destruct client, redirect; try (by specialize (Hc eq_refl));
      (apply yields_run; [constructor|]; intros r; by apply yields_ret). }
  intros [[challenge|]|] Hr; [|by apply yields_ret|done].
  destruct (opt_filter _ _) as [h|]; [|by apply yields_ret].
  apply yields_run; [unfold finish_hint; constructor|].
  intros [[outcome|]|]; [apply lift_answered, logout_response_answered|by apply yields_ret..].
Qed.

Lemma logout_rp_yields headers q : yields o (logout_rp p keys headers q) answered.
Proof.
  unfold logout_rp. destruct (existsb _ _); [by apply yields_ret|].
  destruct (optional q "client_id") as [client|], (optional q "post_logout_redirect_uri") as [redirect|],
    (optional q "state") as [state|], (optional q "id_token_hint") as [hint|]; try by apply yields_ret.
  apply yields_then.
  { destruct hint; [apply yields_utc; intros now|]; by apply yields_ret. }
  intros [claims|]; [|by apply yields_ret]. destruct (is_some_and _ _); [by apply yields_ret|].
  destruct (_ || _) eqn:Hbad; [by apply yields_ret|].
  apply yields_then; [apply session_from_yields|]. intros [session|]; [|by apply yields_ret].
  apply logout_begin_yields. intros Hr. rewrite Hr in Hbad. apply orb_false_iff in Hbad as [Hbad _].
  by apply negb_false_iff in Hbad.
Qed.

Lemma logout_get_yields raw headers : yields o (logout_get p keys raw headers) answered.
Proof. unfold logout_get. destruct (pairs _ _); [apply logout_rp_yields|by apply yields_ret]. Qed.

Lemma logout_post_yields raw headers body : yields o (logout_post p keys raw headers body) answered.
Proof.
  unfold logout_post. destruct (_ || _); [by apply yields_ret|].
  destruct (pairs_bytes _ _) as [q|]; [|by apply yields_ret].
  destruct (negb _); [apply logout_rp_yields|]. unfold logout_confirm.
  destruct (existsb _ _); [by apply yields_ret|].
  destruct (optional q "challenge") as [[id|]|], (optional q "csrf") as [[csrf|]|]; try by apply yields_ret.
  destruct (uuid_parse id); [|by apply yields_ret]. destruct (negb _); [by apply yields_ret|].
  apply yields_then; [apply session_from_yields|]. intros [session|]; [|by apply yields_ret].
  apply yields_run; [constructor|].
  intros [outcome|]; [apply lift_answered, logout_response_answered|by apply yields_ret].
Qed.
End Handlers.

(** ** The server *)

Section Server.
Context `{Crypto, JwtLib, UrlLib, JsonLib, JsonDb, UuidLib, HttpLib, FormLib, !AxumLib,
  !CryptoLaws, !UuidLaws, !HttpLaws}.
Context {o : Oracle} (Ho : draws_32_bytes o).

Lemma with_body_yields rq handler :
  (forall body, yields o (handler body) answered) -> yields o (with_body rq handler) answered.
Proof. intros Hh. unfold with_body. destruct (_ <? _)%Z; [by apply yields_ret|apply Hh]. Qed.

Create HintDb served.
#[local] Hint Resolve with_body_yields google_start_yields callback_yields
  consent_get_yields consent_post_yields token_yields userinfo_yields revoke_yields logout_get_yields
  logout_post_yields : served.

Lemma authorize_get_yields p leased raw headers : yields o (authorize_get p leased raw headers) answered.
Proof. by apply authorize_yields. Qed.
Lemma authorize_post_yields p leased headers body : yields o (authorize_post p leased headers body) answered.
Proof. by apply authorize_yields. Qed.
#[local] Hint Resolve authorize_get_yields authorize_post_yields : served.

Lemma provider_route_yields p keys out route rq : yields o (provider_route p keys out route rq) answered.
Proof. destruct route; simpl; try (by apply yields_ret); auto with served. Qed.

Lemma serve_yields s out rq : yields o (serve s out rq) answered.
Proof.
  unfold serve. eapply yields_bindE; [|intros r _; by apply yields_ret|done].
  unfold route_handler.
  destruct (router _ _ _); try (by apply yields_ret);
    (destruct (st_provider s); [apply provider_route_yields|by apply yields_ret]).
Qed.
End Server.
