(* ===== verification/Inert.v ===== *)
(** * Inert: requests that change nothing

    A request that carries another site's Origin is answered by programs
    whose statements only read, unless it is a navigation that starts or
    returns to an authorization, or asks for a logout. *)

From Stdlib Require Import Ascii ZArith.
From S2P Require Import Prelude External Schema Effects Cimd Jose Keys OAuth Config Identity Google Database Credentials Tokens Logout Browser Http Web System StoresInvariant Drafts Readers WebTheory.

(** ** Programs that only read *)

Notation only_reads := (stmts_ok Drafts.reads).
(** Every level of the connection shows [d]. *)
Definition shows_only (d : DB) (w : World) : Prop := w_db w = d /\ Forall (eq d) (w_tx w).

Lemma shows_only_view d w : shows_only d w -> view w = d.
Proof. intros [<- Hf]. unfold view. destruct Hf; [done|]. by subst. Qed.
Lemma shows_only_set d w : shows_only d w -> shows_only d (set_view d w).
Proof. intros [<- Hf]. unfold set_view, shows_only. destruct Hf; simpl; auto. Qed.
Lemma shows_only_merge d w : shows_only d w -> shows_only d (merge_tx w).
Proof.
  intros [<- Hf]. unfold merge_tx, shows_only.
  destruct (w_tx w) as [|d1 [|d2 tx]] eqn:Ht; simpl; [by rewrite Ht|..]; apply Forall_cons_1 in Hf as [He Hf]; [by split|].
  apply Forall_cons_1 in Hf as [_ Hf]. split; [done|]. by constructor.
Qed.
Lemma shows_only_pop d w : shows_only d w -> shows_only d (pop_tx w).
Proof. intros [<- Hf]. unfold pop_tx, shows_only. destruct Hf; simpl; auto. Qed.

Lemma only_reads_run {A} o (p : prog A) d w :
  only_reads p -> shows_only d w -> shows_only d (run o p w).2.
Proof.
  revert w. induction p as [a|R s k IH|k IH|k IH|k IH|k IH|k IH|k IH|k IH|k IH]; intros w Hp Hw; cbn [run];
    simpl in Hp; [done| |..]; try (apply IH; [apply Hp|apply Hw]).
  - destruct Hp as [Hr Hp]. rewrite (shows_only_view _ _ Hw).
    pose proof (shows_only_set _ _ Hw) as Hs.
    destruct (o_fault _ _); try (apply IH; [apply Hp|apply Hw]);
      (destruct (exec s _ d) as [[r d']|] eqn:Hx; [apply Hr in Hx as ->|]; (apply IH; [apply Hp|first [apply Hs|apply Hw]])).
  - destruct (o_fault _ _); (apply IH; [apply Hp|]); [|apply Hw..].
    split; [apply Hw|]. simpl. constructor; [|apply Hw]. symmetry. by apply shows_only_view.
  - pose proof (shows_only_merge _ _ Hw) as Hm. pose proof (shows_only_pop _ _ Hw) as Hpop.
    destruct (o_fault _ _); (apply IH; [apply Hp|first [apply Hm|apply Hpop]]).
  - pose proof (shows_only_pop _ _ Hw) as Hpop. destruct (o_fault _ _); (apply IH; [apply Hp|first [apply Hm|apply Hpop]]).
  - apply IH; [apply Hp|]. split; [apply Hw|constructor].
Qed.

(** The structure of a handler that only reads. *)
Create HintDb inert.
#[export] Hint Resolve reads_select reads_for_update reads_fetch_one : inert.
Ltac reading :=
  repeat first
    [ progress intros
    | done
    | solve [auto 2 with stmts inert nocore]
    | apply stmts_ok_bindE
    | apply stmts_ok_bind
    | apply stmts_ok_with_tx
    | apply stmts_ok_or_rollback
    | apply stmts_ok_sql; solve [eauto with inert typeclass_instances]
    | match goal with |- stmts_ok _ (UtcNow _) => intros ? end
    | case_match ].

Section Handlers.
Context `{Crypto, JwtLib, UrlLib, JsonLib, JsonDb, UuidLib, HttpLib, FormLib, !AxumLib}.
Context (p : Provider) (leased : Leases) (keys : SigningKeys).

Lemma session_from_inert h : only_reads (session_from p h).
Proof. unfold session_from. unfold_operation. reading. Qed.
Lemma consent_page_inert base session handle : only_reads (consent_page p leased base session handle).
Proof. unfold consent_page, for_attempts, resolve_client. unfold_operation. reading. Qed.
#[local] Hint Resolve session_from_inert consent_page_inert : inert.
Lemma consent_get_inert raw headers : only_reads (consent_get p leased raw headers).
Proof. unfold consent_get. reading. Qed.
Lemma userinfo_inert headers body : only_reads (userinfo p keys headers body).
Proof. unfold userinfo. unfold_operation. reading. Qed.

(** *** Requests of another site *)

Lemma consent_post_foreign headers body :
  same_origin headers (pv_issuer p) = false -> only_reads (consent_post p leased headers body).
Proof. intros Ho. unfold consent_post. rewrite Ho. reading. Qed.
Lemma google_start_foreign headers body :
  same_origin headers (pv_issuer p) = false -> only_reads (google_start_handler p leased headers body).
Proof. intros Ho. unfold google_start_handler. by rewrite Ho. Qed.
Lemma logout_confirm_foreign headers q :
  same_origin headers (pv_issuer p) = false -> only_reads (logout_confirm p headers q).
Proof. intros Ho. unfold logout_confirm. rewrite Ho. reading. Qed.
Lemma token_foreign headers body :
  (forall client, foreign_origin p headers client = true) -> only_reads (token p leased keys headers body).
Proof. intros Ho. unfold token. reading; by rewrite Ho in *. Qed.
Lemma revoke_foreign headers body :
  (forall client, foreign_origin p headers client = true) -> only_reads (revoke p headers body).
Proof. intros Ho. unfold revoke. reading; by rewrite Ho in *. Qed.
End Handlers.

(** ** The server *)

(** The page that sends the request is of no site the provider knows: its
    Origin is neither the issuer's nor one that a client registered. *)
Definition foreign_page `{HttpLib} (p : Provider) (h : HeaderMap) : bool :=
  is_some_and (origin h) (fun v =>
    (v <>? pv_issuer p) && negb (reviewed_browser_origin (pv_registry p) v)).

(** What other sites may ask for by the protocol: an authorization, the way
    back from Google, and a logout, as opposed to its confirmation. *)
Definition navigation `{FormLib} (route : Route) (body : string) : bool :=
  match route with
  | RAuthorizeGet | RAuthorizePost | RCallback | RLogoutGet => true
  | RLogoutPost =>
      is_some_and (pairs_bytes body 4096) (fun q => negb (has_key q "challenge" || has_key q "csrf"))
  | _ => false
  end.

Lemma reviewed_valid registry client v :
  valid_browser_origin registry client v = true -> reviewed_browser_origin registry v = true.
Proof.
  unfold valid_browser_origin, reviewed_browser_origin. intros Hv.
  destruct (cr_clients registry !! client) as [c|] eqn:Hc; [|done]. apply existsb_exists.
  exists (client, c). split; [|done]. by apply list_elem_of_In, elem_of_map_to_list.
Qed.

Section Server.
Context `{Crypto, JwtLib, UrlLib, JsonLib, JsonDb, UuidLib, HttpLib, FormLib, !AxumLib}.

Lemma foreign_page_origins p h : foreign_page p h = true ->
  same_origin h (pv_issuer p) = false /\ forall client, foreign_origin p h client = true.
Proof.
  unfold foreign_page, same_origin, foreign_origin. destruct (origin h) as [v|]; [|done]. simpl.
  intros [Hn Hr]%andb_true_iff. split; [by apply negb_true_iff|]. intros client.
  apply negb_true_iff in Hr. apply negb_true_iff.
  destruct (valid_browser_origin _ _ _) eqn:Hv; [|done]. apply reviewed_valid in Hv. congruence.
Qed.

Lemma provider_route_inert p keys out route rq :
  foreign_page p (rq_headers rq) = true -> navigation route (rq_body rq) = false ->
  only_reads (provider_route p keys out route rq).
Proof.
  intros [Hs Hf]%foreign_page_origins Hn. destruct route; try done; unfold provider_route, with_body.
  - case_match; [done|]. by apply google_start_foreign.
  - by apply consent_get_inert.
  - case_match; [done|]. by apply consent_post_foreign.
  - case_match; [done|]. by apply token_foreign.
  - case_match; [done|]. apply userinfo_inert.
  - case_match; [done|]. by apply revoke_foreign.
  - case_match; [done|]. unfold logout_post. case_match; [done|]. simpl in Hn.
    destruct (pairs_bytes _ _) as [q|]; [|done]. simpl in Hn. rewrite Hn. by apply logout_confirm_foreign.
Qed.

Lemma serve_inert s out rq :
  (forall p, st_provider s = Some p -> foreign_page p (rq_headers rq) = true) ->
  navigation (router (is_some (st_provider s)) (rq_method rq) (rq_path rq)) (rq_body rq) = false ->
  only_reads (serve s out rq).
Proof.
  intros Hp Hn. unfold serve. apply stmts_ok_bindE; [|done]. unfold route_handler.
  destruct (st_provider s) as [p|]; [specialize (Hp p eq_refl)|by case_match].
  case_match; try done; by apply provider_route_inert.
Qed.
End Server.
