(* ===== verification/WebProperties.v ===== *)
(** * WebProperties: what holds of the requests a server answers

    Every request is answered, in a bounded number of effects, by operations
    of the stores; a request of another site's page changes nothing; and an
    authorization request is redirected nowhere but to its registered target
    or to Google. *)

From Stdlib Require Import Ascii ZArith Lia.
From S2P Require Import Prelude Sets External Schema Effects Evolution Cimd Jose Keys OAuth Config Identity Google Database Credentials Tokens Logout Browser Http Web HttpTheory OAuthTheory StoresSpec BrowserTheory StoresInvariant System Termination Drafts WebTheory Inert.

(** ** Answers *)

Section Requests.
Context `{Crypto, JwtLib, UrlLib, JsonLib, JsonDb, UuidLib, HttpLib, FormLib, !AxumLib,
  !CryptoLaws, !UuidLaws, !HttpLaws}.

(** C19: Every request is answered: on any route, with any headers and body,
    whatever the database, Google, the client documents and the clocks answer
    and wherever the database fails, no handler reaches a panic of the code
    (a header value that is refused, a verifier out of range, an unreachable
    branch), and none leaves a transaction open. A request is a sequence of
    operations of the stores, so that what holds of their histories holds of
    a server's. *)
Theorem request_answered s out rq d o n :
  draws_32_bytes o ->
  let '(r, w) := run o (serve s out rq) (idle d n) in
  is_ok r = true /\ w_tx w = [] /\ rtc step d (w_db w).
Proof.
  intros Ho. pose proof (serve_yields Ho s out rq d n) as Hs.
  destruct (run o (serve s out rq) (idle d n)) as [r w]. by destruct Hs as (? & ? & ?).
Qed.

(** C22: Every request ends: whatever is answered to it, a handler issues at
    most 169 statements, transaction commands, draws and clock readings. The
    retry loops run twice at most and a callback tries four transaction
    cookies at most. *)
Theorem request_bounded s out rq o w :
  (w_tick (run o (serve s out rq) w).2 <= w_tick w + max_effects)%nat.
Proof. apply costs_run, costs_serve. Qed.

(** C21: No cross-site request forgery: a request that carries the Origin of
    a site that is neither the issuer nor registered by a client changes
    nothing, whatever cookies, transaction identifiers, CSRF tokens, codes and
    tokens it holds, whatever is answered to it and wherever the database
    fails. Every statement it may issue only reads, so that this holds too
    when it runs beside others. The exceptions are what the protocol has
    other sites ask for: an authorization, the way back from Google, and a
    logout (but not its confirmation). *)
Theorem foreign_page_inert s out rq :
  (forall p, st_provider s = Some p -> foreign_page p (rq_headers rq) = true) ->
  navigation (router (is_some (st_provider s)) (Web.rq_method rq) (rq_path rq)) (rq_body rq) = false ->
  stmts_ok Drafts.reads (serve s out rq)
  /\ forall o d n, w_db (run o (serve s out rq) (idle d n)).2 = d.
Proof.
  intros Hp Hn. pose proof (serve_inert s out rq Hp Hn) as Hr. split; [done|]. intros o d n.
  by apply (only_reads_run o (serve s out rq) d (idle d n) Hr).
Qed.
End Requests.

(** ** Redirects *)

Section Redirects.
Context `{Crypto, JwtLib, UrlLib, JsonLib, JsonDb, UuidLib, HttpLib, FormLib, !AxumLib,
  !CryptoLaws, !UuidLaws, !HttpLaws, !AxumLaws}.

Definition locations (r : Response) : list string := hm_get_all (rs_headers r) "location".
(** Every target of the response satisfies [T]. *)
Definition leads_to (T : string -> Prop) (r : Response) : Prop := forall v, v ∈ locations r -> T v.

Lemma leads_sensitive T r : leads_to T r -> leads_to T (sensitive r).
Proof. intros Hr v Hv. apply Hr. unfold locations, sensitive in *. simpl in Hv. by rewrite sensitive_other in Hv. Qed.
Lemma leads_redirect (T : string -> Prop) uri : T uri -> leads_to T (redirect_to uri).
Proof. intros Ht v Hv. by apply redirect_to_location in Hv as ->. Qed.
Lemma leads_nowhere T r : locations r = [] -> leads_to T r.
Proof. intros Hr v. rewrite Hr. by intros ?%elem_of_nil. Qed.
Lemma leads_html T s b : leads_to T (html_response s b).
Proof. apply leads_nowhere. apply (proj2 (proj2 (html_response_ok s b))). done. Qed.
Lemma leads_status T s : leads_to T (status_response s).
Proof. apply leads_nowhere, status_response_headers. Qed.
Lemma leads_local_error T m : leads_to T (local_error m).
Proof. apply leads_sensitive, leads_html. Qed.
Lemma insert_csp_other sources h n :
  n <> "content-security-policy" -> hm_get_all (insert_csp sources h) n = hm_get_all h n.
Proof.
  intros Hn. unfold insert_csp. destruct sources; [|done]. destruct (hv_from_str _); [|done].
  by rewrite get_all_insert_ne.
Qed.
Lemma leads_form_page T html uri : leads_to T (form_page html uri).
Proof.
  intros v. unfold locations, form_page. simpl. rewrite insert_csp_other, get_all_insert_ne by done.
  rewrite sensitive_other by done. apply leads_html.
Qed.
Lemma leads_login_page T html google uri : leads_to T (login_page html google uri).
Proof.
  intros v. unfold locations, login_page. simpl. rewrite insert_csp_other, get_all_insert_ne by done.
  rewrite sensitive_other by done. apply leads_html.
Qed.
Lemma leads_put_cookie T put text r r' :
  (put = hm_insert \/ put = hm_append) -> leads_to T r -> put_cookie put text r = Ok r' -> leads_to T r'.
Proof.
  intros Hput Hr. unfold put_cookie. destruct (hv_from_str text) as [value|]; [|done]. intros [= <-] v.
  unfold locations. simpl. destruct Hput as [->| ->];
    rewrite ?get_all_insert_ne, ?get_all_append_ne by done; apply Hr.
Qed.

Create HintDb leads.
#[local] Hint Resolve leads_sensitive leads_local_error leads_form_page leads_login_page : leads.

Context {o : Oracle} (p : Provider) (leased : Leases).

(** The answer is an error, or leads where [T] says. *)
Definition answer_leads {E} (T : string -> Prop) (r : result Response E) : Prop := or_err (leads_to T) r.

Lemma consent_page_leads T base session handle :
  yields o (consent_page p leased base session handle) (leads_to T).
Proof.
  unfold consent_page, expired_request. apply yields_run; [constructor|].
  intros [client|e]; [|apply yields_ret; auto with leads].
  apply yields_attempts; [|apply yields_ret; auto with leads]. intros n.
  apply yields_then; [apply resolve_client_yields|]. intros [registry|]; [|apply yields_ret; auto with leads].
  apply yields_run; [constructor|]. intros [v|[]]; try (apply yields_ret; auto with leads).
  destruct (_ =? _)%nat; apply yields_ret; auto with leads.
Qed.

(** The targets a request's own answers have. *)
Definition answers_to (redirect : string) (v : string) : Prop :=
  exists items, v = redirect_url redirect items.
Lemma leads_code_redirect redirect state code :
  leads_to (answers_to redirect) (code_redirect redirect state (pv_issuer p) code).
Proof. apply leads_sensitive, leads_redirect. by eexists. Qed.

(** A fresh request is stored with the redirect of its grant. *)
Definition stored_redirect (uri : string) (d : DB) (r : result ConsentHandle AuthorizeError) : Prop :=
  forall handle, r = Ok handle -> exists b,
    browser_authorizations d !! ch_transaction_id handle = Some b /\ ba_redirect_uri b = uri.

Lemma begun_stored session pending state nonce allow d handle d' :
  consent_begun session pending state nonce allow d handle d' ->
  exists b, browser_authorizations d' !! ch_transaction_id handle = Some b
            /\ ba_redirect_uri b = pg_redirect_uri pending.
Proof.
  intros [id csrf s now t binding d1 _ _ _ Hi]. unfold insert_browser_row in Hi.
  case_match; simplify_eq. eexists. simpl. by rewrite lookup_insert_eq.
Qed.
Lemma begin_authenticated_serves session pending state nonce allow d :
  serves o d (or_code "server_error"
    (begin_authenticated_with_pre_authorization session pending state nonce allow))
    (fun r d' => stored_redirect (pg_redirect_uri pending) d' r).
Proof.
  eapply serves_bind.
  { eapply serves_op; [constructor|apply begin_authenticated_wp]. }
  intros [handle|e] d' Hs; apply serves_ret; intros h Hh; [|done]. simplify_eq/=.
  by eapply begun_stored.
Qed.

(** A code passed without the user goes to the redirect that is stored. *)
Lemma decided_redirect session handle registry d outcome d' b :
  consent_decided session handle registry d (Some outcome) d' ->
  browser_authorizations d !! ch_transaction_id handle = Some b ->
  co_redirect_uri outcome = ba_redirect_uri b.
Proof.
  inversion 1 as [|outcome' d1 Hg]; subst.
  destruct Hg as [s b' now pending grant ti raw id t binding d1 d2 (_ & Hb & _) _ _ _ _ _ _].
  intros Hb'. simpl. congruence.
Qed.

Definition outcome_to (uri : string) (r : result (option ConsentOutcome) AuthorizeError) : Prop :=
  forall outcome, r = Ok (Some outcome) -> co_redirect_uri outcome = uri.
Lemma approve_pre_authorized_serves session handle registry uri d :
  stored_redirect uri d (Ok handle) ->
  serves o d (or_code "server_error" (approve_pre_authorized session handle registry))
    (fun r _ => outcome_to uri r).
Proof.
  intros Hst. destruct (Hst _ eq_refl) as (b & Hb & <-). eapply serves_bind.
  { eapply serves_op; [constructor|apply approve_pre_authorized_wp]. }
  intros [out|e] d' Hs; apply serves_ret; intros outcome Ho; [|done]. simplify_eq/=.
  by eapply decided_redirect.
Qed.

Lemma serves_thenE {A} d (m : M AuthorizeError A) (f : A -> M AuthorizeError Response) T (P : result A AuthorizeError -> DB -> Prop) :
  serves o d m P -> (forall a d', P (Ok a) d' -> serves o d' (f a) (fun r _ => answer_leads T r)) ->
  serves o d (bindE m f) (fun r _ => answer_leads T r).
Proof.
  intros Hm Hf. eapply serves_bind; [exact Hm|]. intros [a|e] d' Ha; [by apply Hf|by apply serves_ret].
Qed.
Lemma yields_anyE {A} (m : M AuthorizeError A) (f : A -> M AuthorizeError Response) T :
  yields o m no_panic -> (forall a, yields o (f a) (answer_leads T)) -> yields o (bindE m f) (answer_leads T).
Proof. intros Hm Hf. eapply yields_bindE; [exact Hm|by intros a _|done]. Qed.

Lemma authorize_session_leads a pending allow registry base session :
  yields o (authorize_session p leased a pending allow registry base session)
    (answer_leads (answers_to (pg_redirect_uri pending))).
Proof.
  unfold authorize_session. apply yields_anyE; [apply check_max_age_yields|]. intros _.
  destruct (_ && _); [by apply yields_ret|]. apply yields_serves. intros d.
  eapply serves_thenE; [apply begin_authenticated_serves|]. intros handle d1 Hst.
  eapply serves_thenE with (P := fun r _ => outcome_to (pg_redirect_uri pending) r).
  { destruct allow; [by apply approve_pre_authorized_serves|by apply serves_ret]. }
  intros [outcome|] d2 Hout.
  - apply serves_ret. rewrite <- (Hout _ eq_refl). apply leads_code_redirect.
  - apply (serves_yields _ _ (answer_leads _)). destruct (_ && _); [by apply yields_ret|].
    eapply yields_bind; [apply consent_page_leads|]. intros page Hp. by apply yields_ret.
Qed.

Definition google_target (v : string) : Prop :=
  exists state nonce challenge, google_url p state nonce challenge = Ok v.

Lemma yields_value {E} (m : M AuthorizeError E) : yields o m no_panic -> yields o m anything.
Proof. intros Hm. by eapply yields_mono. Qed.

Lemma sign_in_page_leads pending (allow : bool) client_name start upstream r r' :
  google_target upstream ->
  r = (if allow then sensitive (redirect_to upstream)
       else login_page
              (render_login client_name (pg_scopes pending) (pg_resource pending)
                 (bs_transaction_id start) (bs_upstream_state start)) upstream (pg_redirect_uri pending)) ->
  map_ok sensitive (put_cookie hm_insert
    (start_cookie (bs_transaction_id start) (bs_browser_binding start) (pv_secure p)) r) = Ok r' ->
  leads_to google_target r'.
Proof.
  intros Hg Hr Hput. destruct (put_cookie _ _ _) as [r1|] eqn:Hc; [|done]. simpl in Hput. simplify_eq.
  apply leads_sensitive. eapply leads_put_cookie; [by left| |exact Hc].
  destruct allow; [by apply leads_sensitive, leads_redirect|apply leads_login_page].
Qed.

Lemma authorize_sign_in_leads a pending allow registry headers :
  yields o (authorize_sign_in p a pending allow registry headers) (answer_leads google_target).
Proof.
  unfold authorize_sign_in. destruct (_ || _); [by apply yields_ret|].
  destruct (_ <=? _)%nat; [by apply yields_ret|].
  apply yields_anyE; [apply operation_or_code; constructor|]. intros start.
  apply yields_anyE.
  { destruct allow; [|by apply yields_ret].
    apply yields_thenE; [apply operation_or_code; constructor|]. intros _. by apply yields_ret. }
  intros _. eapply (yields_bindE _ _ anything); [by apply yields_ret| |done]. intros challenge _.
  destruct (google_url _ _ _ _) as [upstream|] eqn:Hg; [|by apply yields_ret].
  destruct (display_name _ _) as [name|]; [|by apply yields_ret].
  apply yields_ret. unfold map_err.
  destruct (map_ok _ _) as [r'|] eqn:Hr; [|done]. simpl.
  eapply sign_in_page_leads; [unfold google_target; eauto| |exact Hr]. reflexivity.
Qed.

(** The redirect of a grant is the request's one [redirect_uri]. *)
Lemma authorize_params_redirect q a : authorize_params q = Ok a -> one q "redirect_uri" = Some (ap_redirect a).
Proof.
  unfold authorize_params. rewrite rbind_Ok. intros (_ & _ & Ha).
  rewrite rbind_Ok in Ha. destruct Ha as (client & _ & Ha).
  rewrite rbind_Ok in Ha. destruct Ha as (redirect & Hr & Ha).
  assert (Heq : ap_redirect a = redirect).
  { repeat (rewrite rbind_Ok in Ha; destruct Ha as (? & _ & Ha)). destruct (is_some_and _ _); [done|].
    do 2 (rewrite rbind_Ok in Ha; destruct Ha as (? & _ & Ha)). by simplify_eq. }
  unfold required in Hr. apply ok_or_Ok, opt_filter_Some in Hr as [Hr _]. by rewrite Heq.
Qed.
Lemma pending_redirect now registry a g :
  validate_pending now registry (params_request a) = Ok g -> pg_redirect_uri g = ap_redirect a.
Proof. intros (client & granted & _ & ->)%validate_pending_spec. done. Qed.

Lemma authorize_valid_leads q headers registry base redirect :
  one q "redirect_uri" = Some redirect ->
  yields o (authorize_valid p leased q headers registry base)
    (answer_leads (fun v => answers_to redirect v \/ google_target v)).
Proof.
  intros Hredirect. unfold authorize_valid.
  destruct (authorize_params q) as [a|] eqn:Ha; [|by apply yields_ret].
  apply authorize_params_redirect in Ha. rewrite Hredirect in Ha. injection Ha as ->.
  eapply yields_bindE; [by apply (yields_ret _ (fun r => r = Ok a))| |done]. intros a' [= <-].
  apply yields_instant. intros now. cbn [bind].
  destruct (validate_pending _ _ _) as [g|] eqn:Hg; [|by apply yields_ret].
  apply pending_redirect in Hg. eapply yields_bindE; [by apply (yields_ret _ (fun r => r = Ok g))| |done].
  intros g' [= <-]. apply yields_then; [apply session_from_yields|]. intros session.
  destruct (_ ==? _); [by apply yields_ret|]. rewrite <- Hg.
  destruct (opt_filter _ _); eapply yields_mono; [apply authorize_session_leads| |apply authorize_sign_in_leads|];
    intros [r|]; try done; intros Hr v Hv; [left|right]; by apply Hr.
Qed.

(** A registry the server resolves a client to: its own, or its own with the
    client of a leased document that its policy projects. *)
Definition resolved (client : string) (registry : ClientRegistry) : Prop :=
  (contains_client (pv_registry p) client = true /\ registry = pv_registry p)
  \/ (contains_client (pv_registry p) client = false
      /\ exists now policy snapshot k, pv_cimd_policy p = Some policy /\ leased k client = Some snapshot
         /\ project_cimd now (pv_registry p) snapshot (cp_scopes policy) (cp_resources policy)
              (cp_allow_refresh policy) = Ok registry).
Lemma resolve_client_resolved k client :
  yields o (resolve_client p (leased k client) client)
    (fun r => match r with Some registry => resolved client registry | None => True end).
Proof.
  unfold resolve_client, resolved. destruct (contains_client _ _) eqn:Hc; [apply yields_ret; by left|].
  destruct (pv_cimd_policy p) as [policy|] eqn:Hp, (leased k client) as [snapshot|] eqn:Hl; try by apply yields_ret.
  apply yields_instant. intros now. apply yields_ret.
  destruct (project_cimd _ _ _ _ _ _) as [registry|] eqn:Hproj; [|done].
  right. split; [done|]. by exists now, policy, snapshot, k.
Qed.

(** Where an authorization request may be sent on. *)
Definition permitted_target (raw v : string) : Prop :=
  google_target v
  \/ exists q client redirect registry,
       pairs raw 8192 = Some q /\ one q "client_id" = Some client /\ one q "redirect_uri" = Some redirect
       /\ resolved client registry /\ trusted_redirect registry client redirect = true
       /\ answers_to redirect v.

Lemma authorize_leads raw headers :
  yields o (authorize p leased raw headers) (answer_leads (permitted_target raw)).
Proof.
  unfold authorize, invalid_request, invalid_client, expired_request.
  destruct (pairs raw 8192) as [q|] eqn:Hq; [|apply yields_ret, leads_local_error].
  destruct (one q "client_id") as [client|] eqn:Hc, (one q "redirect_uri") as [redirect|] eqn:Hr;
    try apply yields_ret, leads_local_error.
  apply yields_attempts; [|apply yields_ret, leads_local_error]. intros n.
  eapply yields_bind; [apply resolve_client_resolved|].
  intros [registry|] Hres; [|apply yields_ret, leads_local_error].
  destruct (trusted_redirect _ _ _) eqn:Ht; cbn [negb]; [|apply yields_ret, leads_local_error].
  assert (Hperm : forall v, answers_to redirect v -> permitted_target raw v).
  { intros v Hv. right. by exists q, client, redirect, registry. }
  destruct (optional q "state"); [|apply yields_ret, leads_local_error].
  eapply yields_bind; [by apply authorize_valid_leads|]. intros [r|[code|panic]] Hlead; [| |by apply yields_ret].
  - apply yields_ret. intros v Hv. destruct (Hlead v Hv); [auto|by left].
  - apply yields_then; [apply registry_fresh_yields|]. intros f. destruct (_ && _); [by apply yields_ret|].
    apply yields_then; [apply registry_fresh_yields|]. intros f'. apply yields_ret.
    destruct (is_ok f'); [|apply leads_local_error].
    apply leads_sensitive, leads_redirect, Hperm. by eexists.
Qed.

(** C20: The authorization endpoint is no open redirector: whatever a request
    holds, the only places it is sent on to are Google's authorization
    endpoint, and the one redirect target it names, when that is registered
    for the one client it names (in the configuration, or in the client's own
    document) and with nothing added but a query. Errors that come before the
    target is known to be registered are answered by a page. *)
Theorem authorize_never_redirects_elsewhere raw headers d n r w v :
  run o (authorize p leased raw headers) (idle d n) = (Ok r, w) -> v ∈ locations r ->
  permitted_target raw v.
Proof.
  intros Hrun. pose proof (authorize_leads raw headers d n) as Hl. rewrite Hrun in Hl.
  destruct Hl as (_ & _ & Hl). apply Hl.
Qed.
End Redirects.
