(* ===== verification/Instances.v ===== *)
(** * Instances: concrete functions for the parameters of the model

    The witnesses evaluate the model with SHA-256 (FIPS 180-4), the
    unpadded base64url of RFC 4648, the URLs of an example deployment as the
    [url] crate reads them, and small JSON tables. The laws the theorems
    assume of the cryptographic crates are proved of these functions. *)

From Stdlib Require Import Ascii String ZArith.
From S2P Require Import Prelude External Schema Effects Cimd.

(** ** SHA-256 *)

Module Sha256.
Definition mask : Z := 4294967295.
Definition add32 (x y : Z) : Z := Z.land (x + y) mask.
Definition rotr (n x : Z) : Z := Z.lor (Z.shiftr x n) (Z.land (Z.shiftl x (32 - n)) mask).

(** The constants of the standard are fractional parts of square and cube
    roots of the first primes. *)
Definition is_prime (n : nat) : bool := forallb (fun k => negb (Nat.modulo n k =? 0)%nat) (seq 2 (n - 2)).
Definition primes : list Z := map Z.of_nat (List.filter is_prime (seq 2 310)).
(** The largest [r] below [2^36] with [r^3 <= x]. *)
Definition cube_root (x : Z) : Z :=
  fold_left (fun r bit =>
    let r' := (r + Z.shiftl 1 (Z.of_nat bit))%Z in if (r' * r' * r' <=? x)%Z then r' else r)
    (rev (seq 0 36)) 0%Z.
Definition round_constants : list Z := Eval vm_compute in
  map (fun p => Z.land (cube_root (Z.shiftl p 96)) mask) primes.
Definition square_constant (i : nat) : Z := Z.land (Z.sqrt (Z.shiftl (nth i primes 2%Z) 64)) mask.

Record state := State { h0 : Z; h1 : Z; h2 : Z; h3 : Z; h4 : Z; h5 : Z; h6 : Z; h7 : Z }.

Definition initial : state := Eval vm_compute in
  State (square_constant 0) (square_constant 1) (square_constant 2) (square_constant 3)
        (square_constant 4) (square_constant 5) (square_constant 6) (square_constant 7).

(** The last sixteen words of the schedule, newest first. *)
Definition next_word (w : list Z) : Z :=
  let at_ i := nth i w 0%Z in
  let s0 := Z.lxor (Z.lxor (rotr 7 (at_ 14%nat)) (rotr 18 (at_ 14%nat))) (Z.shiftr (at_ 14%nat) 3) in
  let s1 := Z.lxor (Z.lxor (rotr 17 (at_ 1%nat)) (rotr 19 (at_ 1%nat))) (Z.shiftr (at_ 1%nat) 10) in
  add32 (add32 (at_ 15%nat) s0) (add32 (at_ 6%nat) s1).

Fixpoint schedule (n : nat) (w : list Z) : list Z :=
  match n with
  | O => w
  | S n' => schedule n' (next_word w :: w)
  end.

Definition round (s : state) (kw : Z * Z) : state :=
  let '(State a b c d e f g h) := s in
  let s1 := Z.lxor (Z.lxor (rotr 6 e) (rotr 11 e)) (rotr 25 e) in
  let ch := Z.lxor (Z.land e f) (Z.land (Z.lxor e mask) g) in
  let t1 := add32 (add32 (add32 h s1) (add32 ch kw.1)) kw.2 in
  let s0 := Z.lxor (Z.lxor (rotr 2 a) (rotr 13 a)) (rotr 22 a) in
  let maj := Z.lxor (Z.lxor (Z.land a b) (Z.land a c)) (Z.land b c) in
  State (add32 t1 (add32 s0 maj)) a b c (add32 d t1) e f g.

(** A block is sixteen words. *)
Definition compress (s : state) (block : list Z) : state :=
  let words := rev (schedule 48 (rev block)) in
  let '(State a b c d e f g h) := fold_left round (combine round_constants words) s in
  State (add32 (h0 s) a) (add32 (h1 s) b) (add32 (h2 s) c) (add32 (h3 s) d)
        (add32 (h4 s) e) (add32 (h5 s) f) (add32 (h6 s) g) (add32 (h7 s) h).

Fixpoint words (l : list Z) : list Z :=
  match l with
  | a :: b :: c :: d :: l' => (a * 16777216 + b * 65536 + c * 256 + d)%Z :: words l'
  | _ => []
  end.

Fixpoint blocks (n : nat) (w : list Z) : list (list Z) :=
  match n with
  | O => []
  | S n' => firstn 16 w :: blocks n' (skipn 16 w)
  end.

Definition byte_of (w : Z) (shift : Z) : ascii := ascii_of_N (Z.to_N (Z.land (Z.shiftr w shift) 255)).
Definition word_bytes (w : Z) (s : string) : string :=
  String (byte_of w 24) (String (byte_of w 16) (String (byte_of w 8) (String (byte_of w 0) s))).

Definition padded (s : string) : list Z :=
  let l := map (fun a => Z.of_N (N_of_ascii a)) (list_ascii_of_string s) in
  let n := length l in
  let bits := (Z.of_nat n * 8)%Z in
  l ++ [128%Z] ++ repeat 0%Z (Z.to_nat ((55 - Z.of_nat n) mod 64))
    ++ map (fun i => Z.land (Z.shiftr bits i) 255) [56; 48; 40; 32; 24; 16; 8; 0]%Z.

Definition sha256 (s : string) : string :=
  let w := words (padded s) in
  let '(State a b c d e f g h) := fold_left compress (blocks (Nat.div (length w) 16) w) initial in
  word_bytes a (word_bytes b (word_bytes c (word_bytes d
    (word_bytes e (word_bytes f (word_bytes g (word_bytes h EmptyString))))))).

Lemma length_32 s : len (sha256 s) = 32%Z.
Proof. unfold sha256. by destruct (fold_left _ _ _). Qed.
End Sha256.

(** ** base64url without padding *)

Module B64.
Definition alphabet : list ascii :=
  list_ascii_of_string "ABCDEFGHIJKLMNOPQRSTUVWXYZabcdefghijklmnopqrstuvwxyz0123456789-_".
Definition sextet_char (n : N) : ascii := nth (N.to_nat n) alphabet "A"%char.
Fixpoint index_of (a : ascii) (l : list ascii) (i : N) : option N :=
  match l with
  | [] => None
  | b :: l' => if a ==? b then Some i else index_of a l' (N.succ i)
  end.
Definition char_sextet (a : ascii) : option N := index_of a alphabet 0.

Definition ch (n : N) (s : string) : string := String (sextet_char n) s.
Definition by_ (n : N) (s : string) : string := String (ascii_of_N n) s.

Fixpoint encode (s : string) : string :=
  match s with
  | EmptyString => EmptyString
  | String a EmptyString =>
      let a := N_of_ascii a in
      ch (a / 4) (ch (a mod 4 * 16) EmptyString)
  | String a (String b EmptyString) =>
      let a := N_of_ascii a in let b := N_of_ascii b in
      ch (a / 4) (ch (a mod 4 * 16 + b / 16) (ch (b mod 16 * 4) EmptyString))
  | String a (String b (String c s')) =>
      let a := N_of_ascii a in let b := N_of_ascii b in let c := N_of_ascii c in
      ch (a / 4) (ch (a mod 4 * 16 + b / 16) (ch (b mod 16 * 4 + c / 64) (ch (c mod 64) (encode s'))))
  end.

Fixpoint decode_raw (s : string) : option string :=
  match s with
  | EmptyString => Some EmptyString
  | String p (String q EmptyString) =>
      match char_sextet p, char_sextet q with
      | Some p, Some q => Some (by_ (p * 4 + q / 16) EmptyString)
      | _, _ => None
      end
  | String p (String q (String r EmptyString)) =>
      match char_sextet p, char_sextet q, char_sextet r with
      | Some p, Some q, Some r => Some (by_ (p * 4 + q / 16) (by_ (q mod 16 * 16 + r / 4) EmptyString))
      | _, _, _ => None
      end
  | String p (String q (String r (String t s'))) =>
      match char_sextet p, char_sextet q, char_sextet r, char_sextet t, decode_raw s' with
      | Some p, Some q, Some r, Some t, Some rest =>
          Some (by_ (p * 4 + q / 16) (by_ (q mod 16 * 16 + r / 4) (by_ (r mod 4 * 64 + t) rest)))
      | _, _, _, _, _ => None
      end
  | _ => None
  end.

(** Non-canonical trailing bits are refused. *)
Definition decode (s : string) : option string :=
  opt_filter (fun d => encode d ==? s) (decode_raw s).

Lemma char_sextet_char n : (n < 64)%N -> char_sextet (sextet_char n) = Some n.
Proof.
  assert (Hall : forallb (fun i => char_sextet (sextet_char (N.of_nat i)) ==? Some (N.of_nat i))
            (seq 0 64) = true) by (vm_compute; reflexivity).
  intros Hn. rewrite forallb_forall in Hall. specialize (Hall (N.to_nat n)).
  rewrite N2Nat.id in Hall. apply bool_decide_eq_true in Hall; [done|]. apply in_seq. lia.
Qed.

Lemma sextet_char_ok n : b64url_char (sextet_char n) = true.
Proof.
  unfold sextet_char. assert (Hall : forallb b64url_char alphabet = true) by (vm_compute; reflexivity).
  rewrite forallb_forall in Hall. destruct (nth_in_or_default (N.to_nat n) alphabet "A"%char) as [Hi| ->].
  - by apply Hall.
  - done.
Qed.

(** Induction three bytes at a time. *)
Lemma triple_ind (P : string -> Prop) :
  P EmptyString -> (forall a, P (String a EmptyString)) ->
  (forall a b, P (String a (String b EmptyString))) ->
  (forall a b c s, P s -> P (String a (String b (String c s)))) -> forall s, P s.
Proof.
  intros H0 H1 H2 H3. fix IH 1. intros [|a [|b [|c s]]]; [apply H0|apply H1|apply H2|].
  apply H3, IH.
Qed.

Lemma byte_N a : (N_of_ascii a < 256)%N.
Proof. apply N_ascii_bounded. Qed.

Lemma by_cons n a s t : n = N_of_ascii a -> s = t -> by_ n s = String a t.
Proof. intros -> ->. unfold by_. by rewrite ascii_N_embedding. Qed.

Lemma decode_raw_encode s : decode_raw (encode s) = Some s.
Proof.
  induction s as [|a|a b|a b c s IH] using triple_ind; simpl; [done|..];
    pose proof (byte_N a); try pose proof (byte_N b); try pose proof (byte_N c);
    repeat (rewrite char_sextet_char by (zify; Z.to_euclidean_division_equations; lia));
    rewrite ?IH; f_equal;
    repeat (apply by_cons); try done; zify; Z.to_euclidean_division_equations; lia.
Qed.

Lemma decode_encode s : decode (encode s) = Some s.
Proof. unfold decode. rewrite decode_raw_encode. simpl. by rewrite bool_decide_eq_true_2. Qed.

Lemma encode_alphabet s : bytes_all b64url_char (encode s) = true.
Proof.
  induction s as [|a|a b|a b c s IH] using triple_ind; simpl; rewrite ?sextet_char_ok, ?IH; done.
Qed.

Lemma encode_length s : (3 * len (encode s) = 4 * len s + (- len s) mod 3)%Z.
Proof.
  unfold len. induction s as [|a|a b|a b c s IH] using triple_ind; [done..|].
  cbn [encode ch String.length]. rewrite !Nat2Z.inj_succ.
  set (x := Z.of_nat (String.length s)) in *. set (y := Z.of_nat (String.length (encode s))) in *.
  replace (- Z.succ (Z.succ (Z.succ x)))%Z with (- x + (-1) * 3)%Z by lia.
  rewrite Z.mod_add by lia. lia.
Qed.
End B64.

#[export] Instance crypto : Crypto :=
  {| sha256 := Sha256.sha256; b64_encode := B64.encode; b64_decode := B64.decode |}.

#[export] Instance crypto_laws : CryptoLaws.
Proof.
  split; simpl.
  - apply Sha256.length_32.
  - apply B64.decode_encode.
  - apply B64.encode_alphabet.
  - intros s Hs. pose proof (B64.encode_length s) as Hl. rewrite Hs in Hl.
    Z.to_euclidean_division_equations. lia.
Qed.

(** ** URLs of an example deployment *)

Definition mk_url (scheme : string) (host : Host) (port known : option Z) (path : string)
    (query : option string) (origin text : string) : Url :=
  {| url_as_str := text; url_scheme := scheme; url_username := ""; url_password := None;
     url_host := Some host; url_port := port; url_port_or_known_default := known;
     url_path := path; url_query := query; url_fragment := None; url_cannot_be_a_base := false;
     url_origin := origin |}.

(** The texts are in the serialized form, so parsing keeps them; an origin
    is read as its root. *)
Definition example_urls : list Url :=
  [ mk_url "https" (Domain "auth.example.com") None (Some 443%Z) "/" None
      "https://auth.example.com" "https://auth.example.com/";
    mk_url "https" (Domain "auth.example.com") None (Some 443%Z) "/userinfo" None
      "https://auth.example.com" "https://auth.example.com/userinfo";
    mk_url "https" (Domain "auth.example.com") None (Some 443%Z) "/federation/google/callback" None
      "https://auth.example.com" "https://auth.example.com/federation/google/callback";
    mk_url "https" (Domain "policy.example.org") None (Some 443%Z) "/callback" None
      "https://policy.example.org" "https://policy.example.org/callback";
    mk_url "https" (Domain "accounts.google.com") None (Some 443%Z) "/o/oauth2/v2/auth" None
      "https://accounts.google.com" "https://accounts.google.com/o/oauth2/v2/auth";
    mk_url "https" (Domain "api.example.com") None (Some 443%Z) "/" None
      "https://api.example.com" "https://api.example.com/";
    mk_url "https" (Domain "app.example.com") None (Some 443%Z) "/" None
      "https://app.example.com" "https://app.example.com/";
    mk_url "https" (Domain "app.example.com") None (Some 443%Z) "/callback" None
      "https://app.example.com" "https://app.example.com/callback";
    mk_url "http" (Ipv4 127 0 0 1) None (Some 80%Z) "/callback" None
      "http://127.0.0.1" "http://127.0.0.1/callback";
    mk_url "http" (Ipv4 127 0 0 1) (Some 49152%Z) (Some 49152%Z) "/callback" None
      "http://127.0.0.1:49152" "http://127.0.0.1:49152/callback";
    mk_url "https" (Domain "client.example.org") None (Some 443%Z) "/metadata" None
      "https://client.example.org" "https://client.example.org/metadata" ].

#[export] Instance example_url_lib : UrlLib :=
  {| url_parse s := List.find (fun u => (url_as_str u ==? s) || (url_as_str u ==? s +:+ "/")) example_urls;
     url_join base s := List.find (fun u => url_as_str u ==? url_as_str base +:+ s) example_urls |}.

(** ** JSON *)

Definition example_document : list (string * Json) :=
  [ ("client_id", JString "https://client.example.org/metadata");
    ("client_name", JString "Example Client");
    ("redirect_uris", JArray [JString "http://127.0.0.1:49152/callback"]);
    ("grant_types", JArray [JString "authorization_code"; JString "refresh_token"]);
    ("token_endpoint_auth_method", JString "none") ].

Definition example_binding : CimdSecurityBinding :=
  {| cb_version := 1; cb_client_id := "https://client.example.org/metadata";
     cb_redirects := [{| br_uri := "http://127.0.0.1:49152/callback"; br_kind := CimdNativeLoopback |}];
     cb_refresh_allowed := true |}.

#[export] Instance example_json_lib : JsonLib :=
  {| json_entries body := if body ==? "document" then Some example_document else None;
     binding_to_json b := if b ==? example_binding then "binding" else "other";
     binding_from_json s := if s ==? "binding" then Some example_binding else None |}.

#[export] Instance example_json_db : JsonDb :=
  {| jsonb_text s := Some s; cimd_shape _ _ := true |}.

(** ** Oracles *)

(** An oracle that answers the same at every tick: the clock at [t]
    seconds, fresh identifiers [u], secrets of the byte [b]. *)
Fixpoint repeat_byte (n : nat) (b : ascii) : string :=
  match n with O => EmptyString | S n' => String b (repeat_byte n' b) end.
Definition steady (t : Z) (u : Uuid) (b : ascii) : Oracle :=
  {| o_clock := fun _ _ => seconds t; o_instant := fun _ => nanos t;
     o_utc := fun _ => seconds t; o_uuid := fun _ => u;
     o_random := fun _ => repeat_byte 32 b; o_fault := fun _ => NoFault |}.

Lemma steady_calm t u b : calm (steady t u b).
Proof. by intros n. Qed.
