(* ===== verification/CredentialsProperties.v ===== *)
(** * CredentialsProperties: what the credential store guarantees *)

From Stdlib Require Import Ascii ZArith.
From S2P Require Import Prelude External Schema Effects Evolution Identity Cimd OAuth Credentials CredentialsSpec CredentialsTheory CredentialsInvariant CredentialsProgress.

Section Properties.
Context `{Crypto, UrlLib, JsonLib, JsonDb}.

(** ** Rows that decide, after any evolution *)

Lemma find_code_same raw d d' id code :
  find_code raw d = Some (id, code) -> evolves d d' -> store_wf d' ->
  exists code', find_code raw d' = Some (id, code') /\ code_le code code'.
Proof.
  intros Hf He Hwf. apply find_row_Some in Hf as [Hc Hh].
  destruct (ev_codes _ _ He _ _ Hc) as (code' & Hc' & Hle). exists code'. split; [|done].
  bools_all. unfold code_le in Hle. destruct_and!.
  apply find_row_unique; [done|apply bool_decide_eq_true; congruence|].
  intros k v Hk Hv. bools_all. eapply (wf_code_hash _ Hwf); [done..|congruence].
Qed.

Lemma exchange_success_of_run raw client uri res v reg d o n r w :
  run o (exchange_code_bound raw client uri res v reg) (idle d n) = (Ok r, w) ->
  exchange_success raw client uri res v reg d r (w_db w).
Proof. intros Hr. by destruct (wp_run _ _ _ _ _ _ _ (exchange_code_bound_wp _ _ _ _ _ _ _) Hr). Qed.

Lemma rotate_success_of_run raw client res reg d o n r w :
  run o (rotate_refresh_bound raw client res reg) (idle d n) = (Ok r, w) ->
  rotate_success raw client res reg d r (w_db w).
Proof. intros Hr. by destruct (wp_run _ _ _ _ _ _ _ (rotate_refresh_bound_wp _ _ _ _ _) Hr). Qed.

Lemma find_session_of_run raw d o n r w :
  run o (find_provider_session raw) (idle d n) = (Ok r, w) ->
  exists s, provider_sessions d !! se_id r = Some s /\ ps_revoked_at s = None.
Proof.
  assert (Hw : wp (find_provider_session raw) (fun r _ _ => match r with
    | Ok p => exists s, provider_sessions d !! se_id p = Some s /\ ps_revoked_at s = None
    | Err _ => True end) d []); [|intros Hr; exact (wp_run _ _ _ _ _ _ _ Hw Hr)].
  unfold find_provider_session. apply wp_ewp. ewp_step. ewp_step; [|done].
  answered Hexec. split; [|done]. case_match eqn:Hf; [|by ewp_step].
  apply fmap_Some in Hf as ([id s] & Hf & ->). simpl. ewp_step. simpl.
  apply find_row_Some in Hf as [Hs Hp]. bools_all. eauto.
Qed.

(** An exchange that answers tokens leaves the code consumed. *)
Lemma exchange_consumes raw client uri res v reg d r d' :
  exchange_success raw client uri res v reg d r d' ->
  exists id code code', find_code raw d = Some (id, code) /\ authorization_codes d' !! id = Some code'
    /\ is_Some (ac_consumed_at code').
Proof.
  intros [id code s now token d1 Hf Hs Hb Ha Hn Hx Hy Hr Hfam].
  exists id, code, (consume_code now code). split_and!; [done| |by eexists].
  pose proof (find_row_Some _ _ _ _ Hf) as [Hc _].
  assert (authorization_codes d1 = alter (consume_code now) id (authorization_codes d)) as ->.
  { destruct Hfam as [|fam mem tok b d2 d3 _ _ Hfam Hmem]; [done|].
    unfold insert_member_row, insert_family_row in *. repeat case_match; by simplify_eq. }
  by rewrite lookup_alter_eq, Hc.
Qed.

Lemma code_le_consumed c c' : code_le c c' -> is_Some (ac_consumed_at c) -> is_Some (ac_consumed_at c').
Proof. unfold code_le. intros. by destruct_and!; auto. Qed.

(** ** Authorization codes *)

(** C5: An exchange of an authorization code either answers a token set, and
    then the code was stored for exactly this client, redirect URI, resource
    and PKCE verifier, was allowed by the registry, unconsumed and
    unexpired in a live session, and is now consumed; or it fails and the
    database is as before, except that the replay of a consumed code
    revokes its family and that a lost COMMIT answer can hide a success. No
    transaction stays open, whatever fails and whenever. *)
Theorem exchange_code_refines raw client uri res verifier reg c o n :
  let '(r, w) := run o (exchange_code_bound raw client uri res verifier reg) (idle c n) in
  w_tx w = [] /\ outcome (exchange_success raw client uri res verifier reg c)
                   (exchange_replay raw client uri res verifier reg c) c r (w_db w).
Proof.
  pose proof (exchange_code_bound_wp raw client uri res verifier reg c o n) as Hw.
  unfold idle. by destruct (run _ _ _).
Qed.

(** C6: A rotation either answers a successor of the refresh token presented,
    which was the live member of a live family bound to this client and
    resource, and is now consumed; or it fails and the database is as
    before, except that the replay of a consumed member revokes its family
    and that a lost COMMIT answer can hide a success. *)
Theorem rotate_refresh_refines raw client res reg c o n :
  let '(r, w) := run o (rotate_refresh_bound raw client res reg) (idle c n) in
  w_tx w = [] /\ outcome (rotate_success raw client res reg c) (rotate_replay raw client res reg c)
                   c r (w_db w).
Proof.
  pose proof (rotate_refresh_bound_wp raw client res reg c o n) as Hw.
  unfold idle. by destruct (run _ _ _).
Qed.

(** A code is redeemed at most once: after an exchange that answered
    tokens, however the database evolved since, no exchange of the same code
    by anyone, with any parameters, answers tokens. *)
Theorem code_redeemed_once raw client uri res v reg c o n r w d client' uri' res' v' reg' o' n' r' w'
    (Hwf : store_wf d)
    (Hfirst : run o (exchange_code_bound raw client uri res v reg) (idle c n) = (Ok r, w))
    (Hlater : evolves (w_db w) d)
    (Hagain : run o' (exchange_code_bound raw client' uri' res' v' reg') (idle d n') = (r', w')) :
  is_ok r' = false.
Proof.
  destruct r' as [r'|e]; [exfalso|done].
  pose proof Hfirst as Hrun. apply exchange_success_of_run in Hfirst, Hagain.
  pose proof (run_evolves _ _ _ _ _ _ (exchange_code_bound_evolves _ _ _ _ _ _) Hrun) as He.
  destruct (exchange_consumes _ _ _ _ _ _ _ _ _ Hfirst) as (id & code & code1 & Hf & Hc1 & Hcons).
  destruct (find_code_same _ _ _ _ _ Hf (transitivity He Hlater) Hwf) as (code2 & Hf2 & _).
  pose proof (find_row_Some _ _ _ _ Hf2) as [Hc2 _].
  destruct (ev_codes _ _ Hlater _ _ Hc1) as (code3 & Hc3 & Hle). simplify_eq.
  destruct Hagain as [id' code' ? ? ? ? Hf' _ _ _ Hn' _ _ _ _]. simplify_eq.
  destruct (code_le_consumed _ _ Hle Hcons). congruence.
Qed.

(** C7: An exchange does what it is asked: when nothing fails, a request that
    presents an unconsumed, unexpired code of a live session with its
    bindings, and that the registry accepts, is answered the grant of the
    code, with a refresh token exactly if the code grants one. *)
Theorem exchange_code_progress `{!CryptoLaws} raw client uri res verifier reg c o n id code s
    (Hcalm : calm o) (Hwf : store_wf c)
    (Hreq : exchange_request o raw client uri res verifier reg c id code s)
    (Hfresh : ac_consumed_at code = None) (Hready : redeemable o c code s) :
  let '(r, w) := run o (exchange_code_bound raw client uri res verifier reg) (idle c n) in
  exists token, r = Ok (code_result code s token) /\ is_some token = ac_issue_refresh_token code.
Proof.
  pose proof (calm_exchange o Hcalm _ _ _ _ _ _ _ _ _ _ Hreq Hwf (fun _ => Hready) n) as Hw.
  unfold idle. destruct (run _ _ _). rewrite Hfresh in Hw. destruct Hw as (_ & token & ? & ?). eauto.
Qed.

(** C8: When nothing fails, presenting a consumed code as its client would
    (with its client, redirect URI, resource and verifier, where the registry
    still accepts its binding and its request) is answered InvalidGrant and
    revokes the refresh family the code started. *)
Theorem replayed_code_revokes_family `{!CryptoLaws} raw client uri res verifier reg c o n id code s t
    (Hcalm : calm o) (Hwf : store_wf c)
    (Hreq : exchange_request o raw client uri res verifier reg c id code s)
    (Hcons : ac_consumed_at code = Some t) :
  let '(r, w) := run o (exchange_code_bound raw client uri res verifier reg) (idle c n) in
  r = Err InvalidGrant /\
  forall i f, refresh_families c !! i = Some f -> rf_source_code_id f = id -> family_revoked (w_db w) i.
Proof.
  assert (Hn : ac_consumed_at code = None -> redeemable o c code s) by congruence.
  pose proof (calm_exchange o Hcalm _ _ _ _ _ _ _ _ _ _ Hreq Hwf Hn n) as Hw.
  unfold idle. destruct (run _ _ _) as [r w]. rewrite Hcons in Hw. destruct Hw as (_ & -> & t' & ->).
  split; [done|]. intros i f Hf Hs. eapply revoke_families_where_revoked; [done|]. by apply bool_decide_eq_true.
Qed.

(** ** Refresh tokens *)

(** C9: A rotation does what it is asked: when nothing fails, a request of the
    family's own client for the family's own resource, where the registry
    accepts the family's binding and permits it to refresh, that presents the
    unconsumed member of a family neither revoked nor expired, in a session
    neither revoked nor expired, is answered the family's grant with a
    successor, provided that no token has the identifier or the secret drawn for
    the successor. *)
Theorem rotate_refresh_progress `{!CryptoLaws} raw client res reg c o n id m f s
    (Hcalm : calm o) (Hreq : refresh_request o raw client res reg c id m f s)
    (Hlive : rt_consumed_at m = None) (Hready : rotatable o c f s) :
  let '(r, w) := run o (rotate_refresh_bound raw client res reg) (idle c n) in
  exists token, r = Ok (refresh_result f s token).
Proof.
  pose proof (calm_rotate o Hcalm _ _ _ _ _ _ _ _ _ Hreq (fun _ => Hready) n) as Hw.
  unfold idle. destruct (run _ _ _). rewrite Hlive in Hw. by destruct Hw as (_ & ?).
Qed.

(** C10: When nothing fails, a request of the family's own client for the
    family's own resource, where the registry accepts the family's binding and
    permits it to refresh, that presents a refresh token that was rotated away,
    is answered InvalidGrant and revokes the whole family. (Only such a request
    is evidence of a replay: any other failure leaves the family alone,
    [rotate_refresh_refines].) *)
Theorem replayed_refresh_revokes_family `{!CryptoLaws} raw client res reg c o n id m f s t
    (Hcalm : calm o) (Hreq : refresh_request o raw client res reg c id m f s)
    (Hcons : rt_consumed_at m = Some t) :
  let '(r, w) := run o (rotate_refresh_bound raw client res reg) (idle c n) in
  r = Err InvalidGrant /\ family_revoked (w_db w) (rt_family_id m).
Proof.
  assert (Hn : rt_consumed_at m = None -> rotatable o c f s) by congruence.
  pose proof (calm_rotate o Hcalm _ _ _ _ _ _ _ _ _ Hreq Hn n) as Hw.
  unfold idle. destruct (run _ _ _) as [r w]. rewrite Hcons in Hw. destruct Hw as (_ & -> & t' & ->).
  split; [done|]. destruct (member_join_family_Some _ _ _ _ _ (rr_member _ _ _ _ _ _ _ _ _ _ Hreq))
    as (_ & Hf & _).
  eapply revoke_families_where_revoked; [done|]. by apply bool_decide_eq_true.
Qed.

(** A revoked family is dead: however the database evolves, no token of
    it is ever rotated again. *)
Theorem revoked_family_never_rotates raw client res reg d d' o n r w id m f
    (Hrev : family_revoked d (rt_family_id m)) (Hlater : evolves d d')
    (Hmem : member_join_family (hash raw) d' = Some (id, m, f))
    (Hrun : run o (rotate_refresh_bound raw client res reg) (idle d' n) = (r, w)) :
  is_ok r = false.
Proof.
  destruct r as [r|]; [exfalso|done]. apply rotate_success_of_run in Hrun.
  destruct (family_revoked_evolves _ _ _ Hlater Hrev) as (f1 & t & Hf1 & Ht).
  destruct Hrun as [id' m' f' ? ? ? ? ? Hj _ _ _ _ Hn _ _ _ _].
  destruct (member_join_family_Some _ _ _ _ _ Hmem) as (_ & Hf & _). simplify_eq.
Qed.

(** Revocation by token needs the token's client: presented by any other
    client, a refresh token is left alone whatever happens, and when nothing
    fails the answer is the one for an unknown token. *)
Theorem revoke_refresh_foreign raw client c o n id m f r w
    (Hmem : member_join_family (hash raw) c = Some (id, m, f))
    (Hforeign : rf_client_id f <> client)
    (Hrun : run o (revoke_refresh raw client) (idle c n) = (r, w)) :
  w_db w = c /\ (calm o -> r = Ok tt).
Proof.
  split.
  - destruct (wp_run _ _ _ _ _ _ _ (revoke_refresh_wp raw client c) Hrun) as [_ Ho].
    assert (Hsame : forall u d, token_revoked raw client c u d -> d = c)
      by (intros u d Hd; inversion Hd; congruence).
    destruct r; simpl in Ho; [by eauto|]. destruct Ho as [?|[[[] _]|(_ & u & Hd)]]; eauto.
  - intros Hcalm.
    assert (Hw : calm_wp o (revoke_refresh raw client) (fun r _ _ => r = Ok tt) c []).
    { unfold revoke_refresh. do 2 calm_step Hcalm. calm_step Hcalm. rewrite Hmem. simpl.
      rewrite (bool_decide_eq_false_2 _ Hforeign). do 2 calm_step Hcalm. by calm_step Hcalm. }
    specialize (Hw n). unfold idle in Hrun. by rewrite Hrun in Hw.
Qed.

(** Once a logout answered, however the database evolves, the session is found by nobody, issues no code, and none of its codes and
    refresh tokens is ever exchanged or rotated. *)
Theorem logout_is_final session c o n w d
    (Hlogout : run o (logout session) (idle c n) = (Ok tt, w)) (Hlater : evolves (w_db w) d) :
  (forall raw client uri res v reg o' n' r w' id code,
     find_code raw d = Some (id, code) -> ac_session_id code = se_id session ->
     run o' (exchange_code_bound raw client uri res v reg) (idle d n') = (r, w') -> is_ok r = false)
  /\ (forall raw client res reg o' n' r w' id m f,
     member_join_family (hash raw) d = Some (id, m, f) -> rf_session_id f = se_id session ->
     run o' (rotate_refresh_bound raw client res reg) (idle d n') = (r, w') -> is_ok r = false)
  /\ (forall grant lifetime o' n' r w',
     run o' (issue_authorization_code session grant lifetime) (idle d n') = (r, w') -> is_ok r = false)
  /\ (forall raw o' n' r w',
     run o' (find_provider_session raw) (idle d n') = (Ok r, w') -> se_id r <> se_id session).
Proof.
  assert (Hrev : session_revoked d (se_id session)).
  { destruct (wp_run _ _ _ _ _ _ _ (logout_wp _ _) Hlogout) as [_ Hl]. simpl in Hl.
    eapply session_revoked_evolves; [exact Hlater|]. inversion Hl as [s t t' Hs]. subst.
    eexists _, _. simpl. by rewrite lookup_alter_eq, Hs. }
  destruct Hrev as (s & t & Hs & Ht). split_and!.
  - intros * Hf Hse Hr. destruct r as [r|]; [|done]. apply exchange_success_of_run in Hr.
    destruct Hr. congruence.
  - intros * Hj Hse Hr. destruct r as [r|]; [|done]. apply rotate_success_of_run in Hr.
    destruct Hr. congruence.
  - intros * Hr. destruct r as [r|]; [|done].
    destruct (wp_run _ _ _ _ _ _ _ (issue_authorization_code_wp _ _ _ _) Hr) as [_ Hi].
    destruct Hi. congruence.
  - intros * Hr Heq. apply find_session_of_run in Hr as (s' & Hs' & Hn). congruence.
Qed.
End Properties.
