(* ===== verification/HttpInstances.v ===== *)
(** * HttpInstances: concrete header maps, form codec and responses

    Instances of the interfaces of Http.v, with their laws: header maps as
    association lists, [application/x-www-form-urlencoded] as the URL standard
    describes it (on ASCII texts), and axum's responses with the headers the
    library sets. *)

From Stdlib Require Import Ascii ZArith Lia.
From S2P Require Import Prelude External Cimd Http.

(** ** Header maps *)

Definition is_header_text (s : string) : bool :=
  bytes_all (fun a => header_char a || (a ==? "009"%char)) s.

#[export] Instance http_lib : HttpLib :=
  {| HeaderMap := list (string * string);
     hm_empty := [];
     hm_get_all h n := map snd (List.filter (fun kv => kv.1 ==? n) h);
     hm_insert n v h := List.filter (fun kv => kv.1 <>? n) h ++ [(n, v)];
     hm_append n v h := h ++ [(n, v)];
     hv_to_str v := if is_header_text v then Some v else None;
     hv_from_str s := if is_header_text s then Some s else None |}.

Lemma filter_key_other (h : list (string * string)) n :
  List.filter (fun kv => kv.1 ==? n) (List.filter (fun kv => kv.1 <>? n) h) = [].
Proof.
  induction h as [|[k v] h IH]; [done|]. simpl. case_bool_decide; simpl; [done|].
  by rewrite bool_decide_eq_false_2.
Qed.
Lemma filter_key_ne (h : list (string * string)) n n' : n <> n' ->
  List.filter (fun kv => kv.1 ==? n') (List.filter (fun kv => kv.1 <>? n) h)
  = List.filter (fun kv => kv.1 ==? n') h.
Proof.
  intros Hne. induction h as [|[k v] h IH]; [done|]. simpl.
  destruct (decide (k = n)) as [->|Hk].
  - rewrite bool_decide_eq_true_2, bool_decide_eq_false_2 by done. exact IH.
  - rewrite bool_decide_eq_false_2 by done. simpl. by rewrite IH.
Qed.

#[export] Instance http_laws : HttpLaws.
Proof.
  split; simpl.
  - done.
  - intros n v h. by rewrite List.filter_app, filter_key_other; simpl; rewrite bool_decide_eq_true_2.
  - intros n n' v h Hne. rewrite List.filter_app, filter_key_ne by done. simpl.
    by rewrite bool_decide_eq_false_2, app_nil_r.
  - intros n v h. rewrite List.filter_app, map_app. simpl. by rewrite bool_decide_eq_true_2.
  - intros n n' v h Hne. rewrite List.filter_app, map_app. simpl.
    by rewrite bool_decide_eq_false_2, app_nil_r.
  - intros v s. destruct (is_header_text v) eqn:Hv; [|done]. by intros [= <-].
  - intros s Hs. unfold is_header_text. by rewrite Hs.
Qed.

(** ** Forms *)

Module Form.
Definition hex_digit (n : N) : ascii := ascii_of_N (if (n <? 10)%N then 48 + n else 55 + n).
Definition unhex (a : ascii) : option N :=
  let x := N_of_ascii a in
  if is_ascii_digit a then Some (x - 48)%N
  else if byte_in 65 70 a then Some (x - 55)%N
  else if byte_in 97 102 a then Some (x - 87)%N
  else None.

Definition unreserved (a : ascii) : bool :=
  is_ascii_alphanumeric a || (a ==? "*"%char) || (a ==? "-"%char) || (a ==? "."%char) || (a ==? "_"%char).
Definition encode_char (a : ascii) : string :=
  if unreserved a then String a EmptyString
  else if a ==? " "%char then "+"
  else String "%" (String (hex_digit (N_of_ascii a / 16)) (String (hex_digit (N_of_ascii a mod 16)) EmptyString)).
Fixpoint encode (s : string) : string :=
  match s with
  | EmptyString => EmptyString
  | String a s' => encode_char a +:+ encode s'
  end.

Fixpoint decode (s : string) : string :=
  match s with
  | EmptyString => EmptyString
  | String a s1 =>
      let plain := String (if a ==? "+"%char then " "%char else a) (decode s1) in
      if a ==? "%"%char then
        match s1 with
        | String h s2 =>
            match s2 with
            | String l s3 =>
                match unhex h, unhex l with
                | Some x, Some y => String (ascii_of_N (16 * x + y)) (decode s3)
                | _, _ => plain
                end
            | EmptyString => plain
            end
        | EmptyString => plain
        end
      else plain
  end.

Definition pair_text (kv : string * string) : string := encode kv.1 +:+ "=" +:+ encode kv.2.
Definition serialize (l : list (string * string)) : string := str_join "&" (map pair_text l).
Definition parse_pair (s : string) : string * string :=
  match split_once "=" s with
  | Some (k, v) => (decode k, decode v)
  | None => (decode s, EmptyString)
  end.
Definition parse (s : string) : list (string * string) :=
  map parse_pair (List.filter (fun p => negb (str_empty p)) (split_char "&" s)).

Lemma decode_encode_char a s : decode (encode_char a +:+ s) = String a (decode s).
Proof. by destruct a as [[] [] [] [] [] [] [] []]. Qed.
Lemma form_decode_encode s : decode (encode s) = s.
Proof. induction s as [|a s IH]; [done|]. cbn [encode]. by rewrite decode_encode_char, IH. Qed.

(** Neither separator occurs in an encoded text. *)
Definition inner (a : ascii) : bool := form_char a && (a <>? "&"%char) && (a <>? "="%char).
Lemma encode_inner s : bytes_all inner (encode s) = true.
Proof.
  induction s as [|a s IH]; [done|]. cbn [encode]. rewrite bytes_all_app, IH.
  by destruct a as [[] [] [] [] [] [] [] []].
Qed.

Lemma split_once_inner c s t :
  bytes_all (fun a => a <>? c) s = true -> split_once c (s +:+ String c t) = Some (s, t).
Proof.
  induction s as [|a s IH]; simpl.
  - intros _. by rewrite bool_decide_eq_true_2.
  - rewrite andb_true_iff, negb_true_iff. intros [-> Hs]. by rewrite (IH Hs).
Qed.

Lemma parse_pair_text kv : parse_pair (pair_text kv) = kv.
Proof.
  destruct kv as [k v]. unfold parse_pair, pair_text. simpl.
  rewrite split_once_inner; [by rewrite !form_decode_encode|].
  eapply bytes_all_impl; [|apply encode_inner]. intros a. unfold inner.
  rewrite !andb_true_iff. by intros [_ ?].
Qed.

Lemma pair_text_no_amp kv : bytes_all (fun a => a <>? "&"%char) (pair_text kv) = true.
Proof.
  unfold pair_text. rewrite !bytes_all_app. simpl.
  rewrite !(bytes_all_impl inner (fun a => a <>? "&"%char)); try done; try apply encode_inner;
    intros a; unfold inner; rewrite !andb_true_iff; tauto.
Qed.
Lemma pair_text_nonempty kv : str_empty (pair_text kv) = false.
Proof. destruct kv as [k v]. apply str_empty_false. unfold pair_text. simpl. by destruct (encode k). Qed.

Lemma parse_serialize l : parse (serialize l) = l.
Proof.
  unfold parse, serialize. destruct l as [|kv l]; [done|]. revert kv.
  induction l as [|kv' l IH]; intros kv; cbn [map].
  - simpl. rewrite split_char_none by apply pair_text_no_amp. simpl.
    rewrite pair_text_nonempty. simpl. by rewrite parse_pair_text.
  - rewrite str_join_cons. change ("&" +:+ ?x) with (String "&" x).
    rewrite split_char_app by apply pair_text_no_amp.
    simpl. rewrite pair_text_nonempty. simpl. rewrite parse_pair_text. f_equal. apply IH.
Qed.

Lemma pair_text_alphabet kv : bytes_all form_char (pair_text kv) = true.
Proof.
  unfold pair_text. rewrite !bytes_all_app. simpl.
  rewrite !(bytes_all_impl inner form_char); try done; try apply encode_inner;
    intros a; unfold inner; rewrite !andb_true_iff; tauto.
Qed.
Lemma serialize_alphabet l : bytes_all form_char (serialize l) = true.
Proof.
  unfold serialize. destruct l as [|kv l]; [done|]. revert kv.
  induction l as [|kv' l IH]; intros kv; cbn [map str_join]; [apply pair_text_alphabet|].
  rewrite !bytes_all_app, pair_text_alphabet. apply IH.
Qed.
End Form.

#[export] Instance form_lib : FormLib :=
  {| form_parse := Form.parse;
     form_serialize := Form.serialize;
     url_with_pairs u l :=
       url_as_str u +:+ (if is_some (url_query u) then "&" else "?") +:+ Form.serialize l |}.

#[export] Instance form_laws : FormLaws.
Proof.
  split; simpl; [apply Form.serialize_alphabet|by intros; apply Form.parse_serialize|done].
Qed.

(** ** Responses *)

Definition content_type (t : string) : HeaderMap := [("content-type", t)].
(** JSON texts without escapes: the keys and values are not inspected. *)
Definition example_json_text (j : Json) : string :=
  match j with
  | JObject m =>
      str_join "," (map (fun kv => kv.1 +:+ ":" +:+
        match kv.2 with JString s => s | JNumber n => n | JBool true => "true" | JBool false => "false"
                   | _ => "null" end) m)
  | _ => "null"
  end.

#[export] Instance axum_lib : AxumLib :=
  {| status_response s := {| rs_status := s; rs_headers := []; rs_body := EmptyString |};
     content_response s hs b := {| rs_status := s; rs_headers := hs; rs_body := b |};
     html_response s b :=
       {| rs_status := s; rs_headers := content_type "text/html; charset=utf-8"; rs_body := b |};
     redirect_to uri :=
       if is_header_text uri
       then {| rs_status := 303; rs_headers := [("location", uri)]; rs_body := EmptyString |}
       else {| rs_status := 500; rs_headers := []; rs_body := EmptyString |};
     body_rejection := {| rs_status := 413; rs_headers := []; rs_body := EmptyString |};
     json_text := example_json_text |}.

#[export] Instance axum_laws : AxumLaws.
Proof.
  split; simpl.
  - done.
  - done.
  - done.
  - intros s b. split_and!; [done..|]. intros n Hn. by rewrite bool_decide_eq_false_2.
  - intros uri Hu. unfold is_header_text.
    rewrite (bytes_all_impl header_char _ uri) by (done || by intros a ->). simpl.
    split_and!; [done..|]. intros n Hn. by rewrite bool_decide_eq_false_2.
  - intros uri v. destruct (is_header_text uri); simpl; [|by intros ?%elem_of_nil].
    by intros ?%list_elem_of_singleton.
Qed.
