(* ===== verification/Scenario.v ===== *)
(** * Scenario: one concrete history of the provider

    A first-party client, a user who signs in, a code issued, exchanged,
    rotated and replayed, a logout: the databases and answers the witnesses
    of the properties use, computed by running the model with the functions
    of Instances.v. *)

From Stdlib Require Import Ascii ZArith.
From S2P Require Import Prelude External Schema Effects Evolution Identity Cimd OAuth Credentials CredentialsSpec CredentialsTheory CredentialsInvariant CredentialsProgress Instances.

Definition from_ok {A E} (default : A) (r : result A E) : A :=
  match r with Ok a => a | Err _ => default end.

(** The verifier and challenge of RFC 7636, appendix B. *)
Definition verifier : string := "dBjftJeZ4CVP-mB92K27uhbUJU1p1r_wW1gFWFOEjXk".
Definition challenge : string := "E9Melhoa2OwvFrEMTJguCHaoeK1t8URWbuGJSstw-cM".
Definition uri : string := "http://127.0.0.1:49152/callback".
Definition resource : string := "https://api.example.com/".

(** ** The registry *)

Definition redirects : list RegisteredRedirect :=
  from_ok [] (try_map (fun '(u, k) => new_redirect u k)
    [("http://127.0.0.1/callback", NativeLoopback); ("https://app.example.com/callback", AppClaimedHttps)]).
Definition client_result : result FirstPartyClient OAuthError :=
  with_authorization_flow "app" "App" redirects ["openid"; "email"; "offline_access"] [resource] None
    ["https://app.example.com"] ["https://app.example.com/callback"] GooglePreauthorized.
Definition empty_registry : ClientRegistry :=
  {| cr_clients := ∅; cr_userinfo_resource := None; cr_dynamic := None |}.
Definition registry : ClientRegistry := Eval vm_compute in
  from_ok empty_registry (rbind client_result (fun c => new_registry [c])).

Definition pending : result PendingAuthorizationGrant OAuthError := Eval vm_compute in
  validate_pending_parts 0 registry "app" uri "code" "S256" challenge
    ["openid"; "offline_access"] (Some resource).
Definition no_grant : ValidatedAuthorizationGrant :=
  {| vg_client_id := ""; vg_redirect_uri := ""; vg_scopes := []; vg_resource := "";
     vg_code_challenge := ""; vg_issue_refresh_token := false; vg_dynamic := None |}.
Definition grant : ValidatedAuthorizationGrant := Eval vm_compute in
  from_ok no_grant (rbind pending (fun p => approve_grant 0 p true)).

(** ** The history *)

Definition user : AuthenticatedUser := {| au_id := 1; au_upstream_auth_time := Some (seconds 990) |}.
Definition db0 : DB := Eval vm_compute in set_users {[1%N := tt]} empty_db.
Definition hour : Duration := {| dur_secs := 3600; dur_nanos := 0 |}.
Definition minute : Duration := {| dur_secs := 60; dur_nanos := 0 |}.
Definition no_session : ProviderSession := {| se_raw := ""; se_id := 0; se_expires_at := 0 |}.
Definition no_result : ExchangeResult :=
  {| er_session_id := 0; er_user_id := 0; er_client_id := ""; er_scopes := []; er_resource := "";
     er_refresh_token := None; er_oidc_nonce := None; er_upstream_auth_time := None |}.

Definition oracle1 := steady 1000 2 "a".
Definition sign_in := create_provider_session user hour.
Definition session : ProviderSession := Eval vm_compute in from_ok no_session (run oracle1 sign_in (idle db0 0)).1.
Definition db1 : DB := Eval vm_compute in w_db (run oracle1 sign_in (idle db0 0)).2.

Definition oracle2 := steady 1001 3 "b".
Definition issue := issue_authorization_code session grant minute.
Definition code : string := Eval vm_compute in from_ok EmptyString (run oracle2 issue (idle db1 0)).1.
Definition db2 : DB := Eval vm_compute in w_db (run oracle2 issue (idle db1 0)).2.

Definition oracle3 := steady 1002 4 "c".
Definition exchange := exchange_code_bound code "app" uri resource verifier (Some registry).
Definition result3 : ExchangeResult := Eval vm_compute in from_ok no_result (run oracle3 exchange (idle db2 0)).1.
Definition token3 : string := Eval vm_compute in
  match er_refresh_token result3 with Some t => t | None => EmptyString end.
Definition db3 : DB := Eval vm_compute in w_db (run oracle3 exchange (idle db2 0)).2.

Definition oracle4 := steady 1003 5 "d".
Definition rotation := rotate_refresh_bound token3 "app" resource (Some registry).
Definition result4 : ExchangeResult := Eval vm_compute in from_ok no_result (run oracle4 rotation (idle db3 0)).1.
Definition db4 : DB := Eval vm_compute in w_db (run oracle4 rotation (idle db3 0)).2.

Definition oracle5 := steady 1004 6 "e".
(** The rotated token presented again. *)
Definition db5 : DB := Eval vm_compute in w_db (run oracle5 rotation (idle db4 0)).2.
(** Logout instead. *)
Definition world6 : World := Eval vm_compute in (run oracle5 (logout session) (idle db4 0)).2.

(** The value a look-up finds. *)
Ltac found o := let x := eval vm_compute in o in match x with Some ?v => exact v end.
Definition session1 : session_rec := ltac:(found (provider_sessions db1 !! 2%N)).
Definition code2 : code_rec := ltac:(found (authorization_codes db2 !! 3%N)).
Definition code3 : code_rec := ltac:(found (authorization_codes db3 !! 3%N)).
Definition family3 : family_rec := ltac:(found (refresh_families db3 !! 4%N)).
Definition member3 : member_rec := ltac:(found (refresh_token_members db3 !! 4%N)).
Definition member4 : member_rec := ltac:(found (refresh_token_members db4 !! 4%N)).
Definition member5 : member_rec := ltac:(found (refresh_token_members db5 !! 5%N)).
Definition token4 : string := Eval vm_compute in
  match er_refresh_token result4 with Some t => t | None => EmptyString end.
Definition family5 : family_rec := ltac:(found (refresh_families db5 !! 4%N)).
Definition family6 : family_rec := ltac:(found (refresh_families (w_db world6) !! 4%N)).

(** ** Facts of the history *)

Example sign_in_ok : run oracle1 sign_in (idle db0 0)
  = (Ok session, (run oracle1 sign_in (idle db0 0)).2).
Proof. vm_compute. reflexivity. Qed.
Example exchange_ok : (run oracle3 exchange (idle db2 0)).1 = Ok result3.
Proof. vm_compute. reflexivity. Qed.
Example rotation_ok : (run oracle4 rotation (idle db3 0)).1 = Ok result4.
Proof. vm_compute. reflexivity. Qed.

Lemma db0_wf : store_wf db0.
Proof. by apply store_wf_no_sessions. Qed.

(** The database a program leaves. *)
Lemma keeps_run {A} (p : prog A) P o d n d' :
  keeps P p -> w_db (run o p (idle d n)).2 = d' -> P d -> P d'.
Proof. intros Hk <- Hp. by eapply Hk; [apply surjective_pairing|]. Qed.

Lemma db1_wf : store_wf db1.
Proof.
  apply (keeps_run sign_in _ oracle1 db0 0); [apply create_provider_session_keeps_wf| |apply db0_wf].
  vm_compute. reflexivity.
Qed.
Lemma db2_wf : store_wf db2.
Proof.
  apply (keeps_run issue _ oracle2 db1 0); [apply issue_authorization_code_keeps_wf| |apply db1_wf].
  vm_compute. reflexivity.
Qed.
Lemma db3_wf : store_wf db3.
Proof.
  apply (keeps_run exchange _ oracle3 db2 0); [apply exchange_code_bound_keeps_wf| |apply db2_wf].
  vm_compute. reflexivity.
Qed.
Lemma db4_wf : store_wf db4.
Proof.
  apply (keeps_run rotation _ oracle4 db3 0); [apply rotate_refresh_bound_keeps_wf| |apply db3_wf].
  vm_compute. reflexivity.
Qed.

(** The registry accepts the app at every instant. *)
Lemma registry_policy t : exists p,
  validate_pending_parts t registry "app" uri "code" "S256" (ac_code_challenge code2)
    (ac_scopes code2) (Some resource) = Ok p.
Proof. eexists. vm_compute. reflexivity. Qed.

(** Constant secrets and identifiers absent from a database. *)
Lemma steady_members_fresh t u b d :
  refresh_token_members d !! u = None ->
  exists_row (fun _ m => rt_token_hash m ==? hash (b64_encode (repeat_byte 32 b)))
    (refresh_token_members d) = false ->
  members_fresh (steady t u b) d.
Proof.
  intros Hu Hh n. split; [exact Hu|]. intros i m Hm.
  exact (exists_key_false rt_token_hash _ _ Hh i m Hm).
Qed.
