(* ===== verification/TokenInstances.v ===== *)
(** * TokenInstances: concrete identifiers, keys and tokens

    Instances of the interfaces of External.v, Jose.v, Keys.v and Google.v with
    their laws: hyphenated hexadecimal for identifiers, and tables of one
    signed token of each kind, for the exchange of Scenario.v. *)

From Stdlib Require Import Ascii ZArith Lia.
From S2P Require Import Prelude External Schema Cimd Jose Keys Google Credentials Tokens KeysTheory Instances Scenario.

(** ** Identifiers *)

Module Hex.
Definition digit (n : N) : ascii := ascii_of_N (if (n <? 10)%N then 48 + n else 87 + n).
Definition value (a : ascii) : N := let x := N_of_ascii a in (if x <? 58 then x - 48 else x - 87)%N.

(** The last [n] digits of [u], most significant first. *)
Fixpoint digits (n : nat) (u : N) (s : string) : string :=
  match n with
  | O => s
  | S n' => digits n' (u / 16) (String (digit (u mod 16)) s)
  end.

(** The number hexadecimal digits write, hyphens skipped. *)
Fixpoint number (s : string) (acc : N) : N :=
  match s with
  | EmptyString => acc
  | String a s' => number s' (if a ==? "-"%char then acc else 16 * acc + value a)
  end.

Definition text (u : N) : string :=
  digits 8 (u / 2 ^ 96) ("-" +:+ digits 4 (u / 2 ^ 80) ("-" +:+ digits 4 (u / 2 ^ 64)
    ("-" +:+ digits 4 (u / 2 ^ 48) ("-" +:+ digits 12 u EmptyString)))).
Definition parse (s : string) : option N :=
  let u := number s 0 in if (text u ==? s) && (u <? 2 ^ 128)%N then Some u else None.

Lemma digit_ok n : (n < 16)%N ->
  value (digit n) = n /\ digit n <> "-"%char /\ is_ascii_graphic (digit n) = true.
Proof.
  assert (Hall : forallb (fun i => let n := N.of_nat i in
      (value (digit n) =? n)%N && (digit n <>? "-"%char) && is_ascii_graphic (digit n))
            (seq 0 16) = true) by (vm_compute; reflexivity).
  intros Hn. rewrite forallb_forall in Hall. specialize (Hall (N.to_nat n)).
  cbv zeta in Hall. rewrite N2Nat.id, !andb_true_iff, N.eqb_eq, bool_decide_neq_true in Hall.
  rewrite in_seq in Hall. destruct Hall as [[? ?] ?]; [lia|done].
Qed.

Lemma number_digits n u s acc :
  number (digits n u s) acc = number s (acc * 16 ^ N.of_nat n + u mod 16 ^ N.of_nat n)%N.
Proof.
  revert u s acc. induction n as [|n IH]; intros u s acc.
  - simpl. f_equal. rewrite N.mod_1_r. lia.
  - cbn [digits]. rewrite IH. cbn [number].
    destruct (digit_ok (u mod 16)) as (Hv & Hm & _); [by apply N.mod_lt|].
    rewrite bool_decide_eq_false_2, Hv by done. f_equal.
    rewrite Nat2N.inj_succ, N.pow_succ_r by lia.
    rewrite (N.mul_comm 16 (16 ^ N.of_nat n)), N.mul_comm.
    set (p := (16 ^ N.of_nat n)%N). assert (0 < p)%N by (unfold p; lia).
    rewrite (N.mul_comm p 16), N.Div0.mod_mul_r. lia.
Qed.

Lemma digits_graphic n u s :
  bytes_all is_ascii_graphic s = true -> bytes_all is_ascii_graphic (digits n u s) = true.
Proof.
  revert u s. induction n as [|n IH]; intros u s Hs; [done|]. cbn [digits]. apply IH. simpl.
  destruct (digit_ok (u mod 16)) as (_ & _ & ->); [by apply N.mod_lt|]. done.
Qed.

Lemma digits_nonempty n u s : s <> EmptyString -> digits n u s <> EmptyString.
Proof. revert u s. induction n as [|n IH]; intros u s Hs; [done|]. cbn [digits]. by apply IH. Qed.

Lemma number_dash s acc : number ("-" +:+ s) acc = number s acc.
Proof. done. Qed.

(** Two adjacent groups make one. *)
Lemma join_groups u a b : (a <> 0)%N -> (b <> 0)%N ->
  (u / (a * b) * b + (u / a) mod b = u / a)%N.
Proof. intros Ha Hb. rewrite <- N.Div0.div_div, N.mul_comm, <- N.div_mod; done. Qed.

Lemma number_text u : (u < 2 ^ 128)%N -> number (text u) 0 = u.
Proof.
  intros Hu. unfold text. repeat (rewrite number_digits || rewrite number_dash). cbn [number].
  rewrite N.mul_0_l, N.add_0_l, (N.mod_small (u / 2 ^ 96)) by (apply N.Div0.div_lt_upper_bound; done).
  pose proof (join_groups u (2 ^ 80) (2 ^ 16)) as H1. pose proof (join_groups u (2 ^ 64) (2 ^ 16)) as H2.
  pose proof (join_groups u (2 ^ 48) (2 ^ 16)) as H3. pose proof (join_groups u 1 (2 ^ 48)) as H4.
  rewrite <- N.pow_add_r in H1, H2, H3. rewrite N.mul_1_l, N.div_1_r in H4.
  change (80 + 16)%N with 96%N in H1. change (64 + 16)%N with 80%N in H2. change (48 + 16)%N with 64%N in H3.
  change (16 ^ N.of_nat 4)%N with (2 ^ 16)%N. change (16 ^ N.of_nat 12)%N with (2 ^ 48)%N.
  rewrite H1, H2, H3, H4; done.
Qed.

Lemma parse_text u : (u < 2 ^ 128)%N -> parse (text u) = Some u.
Proof.
  intros Hu. unfold parse. rewrite number_text by done.
  by rewrite bool_decide_eq_true_2, (proj2 (N.ltb_lt _ _) Hu).
Qed.

Lemma text_visible u : bytes_all is_ascii_graphic (text u) = true /\ text u <> EmptyString.
Proof.
  assert (Hdash : forall s, bytes_all is_ascii_graphic s = true ->
    bytes_all is_ascii_graphic ("-" +:+ s) = true) by (intros s Hs; exact Hs).
  unfold text. split; [|by apply digits_nonempty].
  repeat (apply digits_graphic || apply Hdash). reflexivity.
Qed.
End Hex.

#[export] Instance uuid_lib : UuidLib := {| uuid_text := Hex.text; uuid_parse := Hex.parse |}.
#[export] Instance uuid_laws : UuidLaws.
Proof. split; [apply Hex.parse_text|apply Hex.text_visible]. Qed.

(** ** The tokens *)

#[export] Instance JwtHeader_eq_dec : EqDecision JwtHeader.
Proof. solve_decision. Defined.
#[export] Instance AccessClaims_eq_dec : EqDecision AccessClaims.
Proof. solve_decision. Defined.
#[export] Instance IdClaims_eq_dec : EqDecision IdClaims.
Proof. solve_decision. Defined.

Definition issuer : string := "https://auth.example.com".
Definition userinfo : string := "https://auth.example.com/userinfo".
Definition jti : Uuid := 7.
Definition rs256 (typ kid : string) : JwtHeader :=
  {| jh_alg := RS256; jh_typ := Some typ; jh_kid := Some kid |}.

Definition signed_access : AccessClaims := Eval vm_compute in access_claims issuer userinfo result3 1002 jti.
Definition signed_id : IdClaims := Eval vm_compute in id_claims issuer result3 1002.

(** A token: the encoding of its header, then what is not inspected. *)
Definition token_text (rest : string) : string := B64.encode "header" +:+ "." +:+ rest.
Definition access_token : string := Eval vm_compute in token_text "access.signature".
Definition id_token : string := Eval vm_compute in token_text "id.signature".
Definition google_token : string := Eval vm_compute in token_text "google.signature".

(** One key pair; both halves are written by its name. *)
#[export] Instance jwt_lib : JwtLib :=
  {| DecodingKey := string;
     EncodingKey := string;
     jwt_header t :=
       if t ==? access_token then Some (rs256 "at+jwt" "key-1")
       else if t ==? id_token then Some (rs256 "JWT" "key-1")
       else if t ==? google_token then Some (rs256 "JWT" "google-1")
       else None;
     json_value s := if s ==? "header" then Some (JObject [("alg", JString "RS256")]) else None;
     encode_access h c k :=
       if (h ==? rs256 "at+jwt" "key-1") && (c ==? signed_access) && (k ==? "active")
       then Some access_token else None;
     encode_id h c k :=
       if (h ==? rs256 "JWT" "key-1") && (c ==? signed_id) && (k ==? "active") then Some id_token else None;
     decode_access now t k iss aud leeway :=
       if (t ==? access_token) && (k ==? "active") && (iss ==? at_iss signed_access)
          && existsb (fun a => a ==? aud) (at_aud signed_access)
          && (now - leeway <=? at_exp signed_access)%Z
       then Some signed_access else None;
     decode_id t k iss :=
       if (t ==? id_token) && (k ==? "active") && (iss ==? id_iss signed_id) then Some signed_id else None;
     signs_for k k' := k = k' |}.

Lemma token_text_plain rest : plain_header (token_text rest).
Proof.
  exists (B64.encode "header"), (split_char "." rest), "header", [("alg", JString "RS256")].
  split_and!; [|reflexivity..]. exact (split_char_app "." (B64.encode "header") rest eq_refl).
Qed.

#[export] Instance jwt_laws : JwtLaws.
Proof.
  split; cbn [encode_access encode_id decode_access decode_id signs_for jwt_lib].
  - intros h c k t. destruct (_ && _); [|done]. intros [= <-]. exact (token_text_plain "access.signature").
  - intros h c k t. destruct (_ && _); [|done]. intros [= <-]. exact (token_text_plain "id.signature").
  - intros h c k t. destruct (_ && _) eqn:He; [|done]. intros [= <-]. bools_all. by subst.
  - intros h c k t. destruct (_ && _) eqn:He; [|done]. intros [= <-]. bools_all. by subst.
  - intros h c k k' t now iss aud leeway. destruct (_ && _) eqn:He; [|done]. bools_all. subst h c k.
    intros [= <-] <- <- Hin Hexp.
    rewrite !bool_decide_eq_true_2, (proj2 (Z.leb_le _ _) Hexp) by done.
    replace (existsb _ _) with true; [done|]. symmetry. apply existsb_exists.
    exists aud. by rewrite bool_decide_eq_true_2.
  - intros h c k k' t iss. destruct (_ && _) eqn:He; [|done]. bools_all. subst h c k.
    intros [= <-] <- <-. by rewrite !bool_decide_eq_true_2.
  - intros now t k iss aud leeway c. destruct (_ && _) eqn:He; [|done]. intros [= <-].
    rewrite !andb_true_iff, existsb_exists, Z.leb_le, !bool_decide_eq_true in He.
    destruct He as [[[_ ->] (a & Ha & Heq)] Hexp]. apply bool_decide_eq_true in Heq as ->. done.
  - intros t k iss c. destruct (_ && _) eqn:He; [|done]. intros [= <-]. bools_all. by subst.
Qed.

(** ** The key files *)

Definition modulus : string := Eval vm_compute in repeat_byte 256 "m".
Definition rsa_key (n : string) : RsaPublicKey := {| rk_n := n; rk_e := "e"; rk_bits := 2048 |}.

#[export] Instance keys_lib : KeysLib :=
  {| private_pkcs8 s := if s ==? "private" then Some (rsa_key modulus) else None;
     private_pkcs1 s := None;
     public_spki s :=
       if s ==? "public" then Some (rsa_key modulus)
       else if s ==? "previous" then Some (rsa_key "previous") else None;
     public_pkcs1 s := None;
     encoding_from_pem s := if s ==? "private" then Some "active" else None;
     decoding_from_pem s :=
       if s ==? "public" then Some "active" else if s ==? "previous" then Some "previous" else None;
     parse_manifest s :=
       if s ==? "manifest"
       then Some {| mf_active := {| ak_kid := "key-1"; ak_private_key := "1.pem"; ak_public_key := "1.pub" |};
                    mf_previous := [{| pk_kid := "key-0"; pk_public_key := "0.pub" |}];
                    mf_next := [] |}
       else None;
     jwks_to_json l := str_join "," (map Keys.jwk_kid l) |}.

#[export] Instance keys_laws : KeysLaws.
Proof.
  split. intros private public key k k'. unfold parse_private, parse_public.
  cbn [private_pkcs8 private_pkcs1 public_spki public_pkcs1 encoding_from_pem decoding_from_pem keys_lib
       signs_for jwt_lib].
  destruct (negb _); [done|]. destruct (negb _); [done|].
  case_bool_decide; [|done]. intros [= <-].
  case_bool_decide; [|case_bool_decide]; [| |done]; simpl; intros Hk [= <-]; [by intros [= <-]|].
  discriminate Hk.
Qed.

Definition key_file (mode : Z) (bytes : string) : FileEntry :=
  {| fe_is_file := true; fe_mode := mode; fe_bytes := bytes |}.
Definition key_files (path : string) : option FileEntry :=
  if path ==? "1.pem" then Some (key_file 384 "private")      (* 0o600 *)
  else if path ==? "1.pub" then Some (key_file 420 "public")  (* 0o644 *)
  else if path ==? "0.pub" then Some (key_file 420 "previous")
  else None.
Definition no_keys : SigningKeys :=
  {| sk_active_kid := EmptyString; sk_encoding := EmptyString : EncodingKey;
     sk_decoding := ∅; sk_jwks_json := EmptyString |}.
Definition signing_keys : SigningKeys := Eval vm_compute in from_ok no_keys (load (Some "manifest") key_files).

(** ** Google's tokens and keys *)

Definition nonce : string := "upstream-nonce".
Definition google_claims : Claims :=
  {| gc_iss := "https://accounts.google.com"; gc_sub := "1234567890"; gc_aud := One "google-client";
     gc_azp := None; gc_exp := 4600; gc_iat := 1000; gc_nbf := None; gc_nonce := nonce;
     gc_auth_time := Some 990%Z; gc_name := Some "Ada"; gc_given_name := None; gc_family_name := None;
     gc_picture := None; gc_email := Some "ada@example.com"; gc_email_verified := Some (Bool true) |}.
Definition google_jwk : Google.Jwk := Eval vm_compute in
  {| jwk_kty := "RSA"; jwk_kid := "google-1"; jwk_n := B64.encode modulus; jwk_e := B64.encode "e";
     jwk_alg := Some "RS256"; jwk_use := Some "sig"; jwk_key_ops := None |}.

#[export] Instance google_lib : GoogleLib :=
  {| google_decode t k :=
       if (t ==? google_token) && ((k : string) ==? "google") then Some google_claims else None;
     rsa_bits n e := Some (8 * len n)%Z;
     rsa_decoding_key n e := if n ==? jwk_n google_jwk then Some ("google" : DecodingKey) else None;
     parse_token_response s := if s ==? "tokens" then Some google_token else None;
     parse_jwks s := if s ==? "keys" then Some [google_jwk] else None |}.
