(* ===== verification/Flow.v ===== *)
(** * Flow: a concrete history through all the stores

    A browser that signs in with Google and consents, from the empty
    database: the request begins and starts, its callback is claimed and
    completed, the user approves, and logs out; and the witnesses of
    SystemProperties.v on it. *)

From Stdlib Require Import Ascii ZArith.
From S2P Require Import Prelude External Schema Effects Evolution Identity Cimd OAuth Jose Keys Google Credentials CredentialsSpec Database Logout Browser StoresSpec StoresInvariant System SystemProperties Instances Scenario TokenInstances.

(** ** The history *)

Definition no_pending : PendingAuthorizationGrant :=
  {| pg_client_id := ""; pg_redirect_uri := ""; pg_scopes := []; pg_resource := "";
     pg_code_challenge := ""; pg_dynamic := None |}.
Definition pending_grant : PendingAuthorizationGrant := Eval vm_compute in from_ok no_pending pending.
Definition identity : VerifiedGoogleIdentity :=
  {| vi_subject := "1234567890"; vi_name := Some "Ada"; vi_given_name := None; vi_family_name := None;
     vi_picture := None; vi_verified_email := Some "ada@example.com"; vi_auth_time := Some 990%Z |}.

Definition at1 := steady 1000 1 "a".
Definition begin_op := begin_google_with_pre_authorization pending_grant (Some "client-state"%string) None true.
Definition no_start : BrowserStart :=
  {| bs_transaction_id := 0; bs_upstream_state := ""; bs_browser_binding := "";
     bs_upstream_nonce := ""; bs_upstream_verifier := "" |}.
Definition start : BrowserStart := Eval vm_compute in from_ok no_start (run at1 begin_op (idle empty_db 0)).1.
Definition flow1 : World := Eval vm_compute in (run at1 begin_op (idle empty_db 0)).2.

Definition at2 := steady 1001 2 "b".
Definition start_op := start_google (bs_transaction_id start) (bs_upstream_state start) (bs_browser_binding start).
Definition flow2 : World := Eval vm_compute in (run at2 start_op (idle (w_db flow1) 0)).2.

Definition at3 := steady 1002 3 "c".
Definition claim_op := claim_callback (bs_upstream_state start) (bs_browser_binding start).
Definition claim : string * string * string := Eval vm_compute in
  from_ok (EmptyString, EmptyString, EmptyString) (run at3 claim_op (idle (w_db flow2) 0)).1.
Definition flow3 : World := Eval vm_compute in (run at3 claim_op (idle (w_db flow2) 0)).2.

Definition at4 := steady 1003 4 "d".
Definition complete_op := complete_callback_bound claim.1.1 identity hour (Some registry).
Definition no_login : LoginCompletion :=
  {| lg_session := no_session; lg_consent := {| ch_transaction_id := 0; ch_csrf := "" |} |}.
Definition login : LoginCompletion := Eval vm_compute in
  from_ok no_login (run at4 complete_op (idle (w_db flow3) 0)).1.
Definition flow4 : World := Eval vm_compute in (run at4 complete_op (idle (w_db flow3) 0)).2.

Definition at5 := steady 1004 5 "e".
Definition approve_op := approve (lg_session login) (lg_consent login) registry.
Definition no_outcome : ConsentOutcome :=
  {| co_code := ""; co_redirect_uri := ""; co_downstream_state := None |}.
Definition outcome5 : ConsentOutcome := Eval vm_compute in
  from_ok no_outcome (run at5 approve_op (idle (w_db flow4) 0)).1.
Definition flow5 : World := Eval vm_compute in (run at5 approve_op (idle (w_db flow4) 0)).2.

Definition at6 := steady 1005 6 "f".
Definition ask_op := begin_local (lg_session login) "/".
Definition asked : LogoutChallenge := Eval vm_compute in
  from_ok {| lch_id := 0; lch_csrf := ""; lch_redirect_uri := "" |} (run at6 ask_op (idle (w_db flow5) 0)).1.
Definition flow6 : World := Eval vm_compute in (run at6 ask_op (idle (w_db flow5) 0)).2.

Definition at7 := steady 1006 7 "g".
Definition finish_op := finish_inner (lg_session login) asked registry None.
Definition logged_out7 : LogoutOutcome := {| lo_redirect_uri := "/"; lo_state := None |}.
Definition flow7 : World := Eval vm_compute in (run at7 finish_op (idle (w_db flow6) 0)).2.

(** ** Its steps *)

(** Evaluated once, by the kernel. *)
Ltac by_running r := vm_cast_no_check (eq_refl r).

Lemma flow1_run : run at1 begin_op (idle empty_db 0) = (Ok start, flow1).
Proof. by_running (Ok (E := BrowserError) start, flow1). Qed.
Lemma flow2_run : run at2 start_op (idle (w_db flow1) 0)
  = (Ok (bs_upstream_nonce start, bs_upstream_verifier start), flow2).
Proof. by_running (Ok (E := BrowserError) (bs_upstream_nonce start, bs_upstream_verifier start), flow2). Qed.
Lemma flow3_run : run at3 claim_op (idle (w_db flow2) 0) = (Ok claim, flow3).
Proof. by_running (Ok (E := BrowserError) claim, flow3). Qed.
Lemma flow4_run : run at4 complete_op (idle (w_db flow3) 0) = (Ok login, flow4).
Proof. by_running (Ok (E := BrowserError) login, flow4). Qed.
Lemma flow5_run : run at5 approve_op (idle (w_db flow4) 0) = (Ok outcome5, flow5).
Proof. by_running (Ok (E := BrowserError) outcome5, flow5). Qed.
Lemma flow6_run : run at6 ask_op (idle (w_db flow5) 0) = (Ok asked, flow6).
Proof. by_running (Ok (E := CredentialError) asked, flow6). Qed.
Lemma flow7_run : run at7 finish_op (idle (w_db flow6) 0) = (Ok (Some logged_out7), flow7).
Proof. by_running (Ok (E := CredentialError) (Some logged_out7), flow7). Qed.

Lemma flow2_reachable : reachable (w_db flow2).
Proof.
  eapply reachable_step; [|constructor|exact flow2_run].
  eapply reachable_step; [apply rtc_refl|constructor|exact flow1_run].
Qed.
Lemma flow4_reachable : reachable (w_db flow4).
Proof.
  eapply reachable_step; [|constructor|exact flow4_run].
  eapply reachable_step; [exact flow2_reachable|constructor|exact flow3_run].
Qed.
Lemma flow6_reachable : reachable (w_db flow6).
Proof.
  eapply reachable_step; [|constructor|exact flow6_run].
  eapply reachable_step; [exact flow4_reachable|constructor|exact flow5_run].
Qed.
Lemma flow6_later : rtc step (w_db flow5) (w_db flow6).
Proof. apply rtc_once. eapply Step; [|exact flow6_run]. constructor. Qed.
Lemma flow4_later : rtc step (w_db flow3) (w_db flow4).
Proof. apply rtc_once. eapply Step; [|exact flow4_run]. constructor. Qed.

(** ** Witnesses *)

Lemma consent_single_use_witness :
  is_ok (run at7 (approve (lg_session login) (lg_consent login) registry) (idle (w_db flow6) 0)).1 = false.
Proof.
  apply (consent_single_use (lg_consent login) (w_db flow4) flow5 (w_db flow6) (lg_session login)
           (lg_consent login) registry None at7 0).
  - exact flow4_reachable.
  - exact (DecidedByUser _ _ _ _ _ _ _ _ flow5_run).
  - exact flow6_later.
  - reflexivity.
Defined.

Lemma callback_single_use_witness :
  is_ok (run at7 claim_op (idle (w_db flow4) 0)).1 = false.
Proof.
  apply (callback_single_use (bs_upstream_state start) (bs_browser_binding start) (w_db flow2) at3 0 claim flow3
           (w_db flow4) (bs_browser_binding start) 0 None at7 0).
  - exact flow2_reachable.
  - exact flow3_run.
  - exact flow4_later.
Defined.

Lemma finished_logout_is_final_witness :
  is_ok (run at7 finish_op (idle (w_db flow7) 0)).1 = false.
Proof.
  destruct (finished_logout_is_final (lg_session login) asked registry None (w_db flow6) at7 0 logged_out7
              flow7 (w_db flow7) flow6_reachable flow7_run (rtc_refl _ _)) as (_ & _ & _ & Hagain).
  exact (Hagain (lg_session login) asked registry None at7 0%nat eq_refl).
Defined.

(** The user of the flow, looked up by the identity. *)
Definition ada : ExternalIdentity :=
  {| ei_issuer := "https://accounts.google.com"; ei_subject := "1234567890" |}.
Definition found : World := Eval vm_compute in
  (run at7 (find_or_create_external_identity ada) (idle (w_db flow6) 0)).2.
Lemma found_run : find_user_run ada (w_db flow6) 4 found.
Proof. exists at7, 0%nat. by_running (Ok (E := DbError) 4%N, found). Qed.
Lemma identity_owns_user_witness : 4%N = 4%N <-> ("https://accounts.google.com", "1234567890") = ("https://accounts.google.com", "1234567890").
Proof.
  apply (identity_owns_user ada (w_db flow6) 4 found (w_db found) ada 4 found).
  - exact flow6_reachable.
  - exact found_run.
  - apply rtc_refl.
  - exists at7, 0%nat. by_running (Ok (E := DbError) 4%N, found).
Defined.

Lemma reachable_invariant_witness : system_wf (w_db flow6) /\ moves (w_db flow4) (w_db flow6).
Proof.
  apply (reachable_invariant (w_db flow4) (w_db flow6)); [exact flow4_reachable|].
  eapply rtc_l; [|exact flow6_later]. eapply Step; [|exact flow5_run]. constructor.
Defined.
