(* ===== verification/Witnesses.v ===== *)
(** * Witnesses: the properties at concrete inputs *)

From Stdlib Require Import Ascii ZArith.
From S2P Require Import Prelude External Schema Effects Evolution Identity Cimd OAuth Credentials CredentialsSpec CredentialsTheory CredentialsInvariant CredentialsProgress CredentialsProperties Instances Scenario.

(** ** The steps of the history *)

Lemma exchange_step : run oracle3 exchange (idle db2 0) = (Ok result3, idle db3 18).
Proof. vm_compute. reflexivity. Qed.
Lemma rotation_step : run oracle4 rotation (idle db3 0) = (Ok result4, idle db4 16).
Proof. vm_compute. reflexivity. Qed.
Lemma db3_evolves_db4 : evolves db3 db4.
Proof. exact (run_evolves _ _ _ _ _ _ (rotate_refresh_bound_evolves _ _ _ _) rotation_step). Qed.

(** A hypothesis of a theorem, by evaluation. *)
Ltac computed := repeat split; vm_compute; reflexivity.

(** ** Credentials *)

Lemma code_redeemed_once_witness :
  is_ok (run oracle5 exchange (idle db4 0)).1 = false.
Proof.
  apply (code_redeemed_once code "app" uri resource verifier (Some registry) db2 oracle3 0 result3
           (idle db3 18) db4 "app" uri resource verifier (Some registry) oracle5 0 _
           (run oracle5 exchange (idle db4 0)).2).
  - exact db4_wf.
  - exact exchange_step.
  - exact db3_evolves_db4.
  - apply surjective_pairing.
Defined.

Lemma exchange_code_progress_witness :
  let '(r, w) := run oracle3 exchange (idle db2 0) in
  exists token, r = Ok (code_result code2 session1 token) /\ is_some token = ac_issue_refresh_token code2.
Proof.
  unfold exchange. apply (exchange_code_progress code "app" uri resource verifier (Some registry) db2 oracle3 0 3 code2 session1).
  - apply steady_calm.
  - exact db2_wf.
  - split; [computed..| |].
    + intros n. vm_compute. reflexivity.
    + intros n r [= <-]. apply registry_policy.
  - vm_compute. reflexivity.
  - split; [intros n; computed|intros n; computed|computed|intros n; computed| |].
    + apply steady_members_fresh; vm_compute; reflexivity.
    + eexists. split; vm_compute; reflexivity.
Defined.

Lemma replayed_code_revokes_family_witness :
  let '(r, w) := run oracle5 exchange (idle db3 0) in
  r = Err InvalidGrant /\
  forall i f, refresh_families db3 !! i = Some f -> rf_source_code_id f = 3%N -> family_revoked (w_db w) i.
Proof.
  unfold exchange. apply (replayed_code_revokes_family code "app" uri resource verifier (Some registry) db3 oracle5 0 3
           code3 session1 (seconds 1002)).
  - apply steady_calm.
  - exact db3_wf.
  - split; [computed..| |].
    + intros n. vm_compute. reflexivity.
    + intros n r [= <-]. apply registry_policy.
  - vm_compute. reflexivity.
Defined.

Lemma rotate_refresh_progress_witness :
  let '(r, w) := run oracle4 rotation (idle db3 0) in
  exists token, r = Ok (refresh_result family3 session1 token).
Proof.
  unfold rotation. apply (rotate_refresh_progress token3 "app" resource (Some registry) db3 oracle4 0 4 member3).
  - apply steady_calm.
  - split; [computed..| |].
    + intros n. vm_compute. reflexivity.
    + intros r [= <-]. vm_compute. reflexivity.
  - vm_compute. reflexivity.
  - split; [computed|computed|intros n; computed|intros n; computed|].
    apply steady_members_fresh; vm_compute; reflexivity.
Defined.

Lemma replayed_refresh_revokes_family_witness :
  let '(r, w) := run oracle5 rotation (idle db4 0) in
  r = Err InvalidGrant /\ family_revoked (w_db w) 4.
Proof.
  unfold rotation. apply (replayed_refresh_revokes_family token3 "app" resource (Some registry) db4 oracle5 0 4 member4
           family3 session1 (seconds 1003)).
  - apply steady_calm.
  - split; [computed..| |].
    + intros n. vm_compute. reflexivity.
    + intros r [= <-]. vm_compute. reflexivity.
  - vm_compute. reflexivity.
Defined.

(** The token of the first rotation, after the replay of its predecessor. *)
Lemma revoked_family_never_rotates_witness :
  is_ok (run oracle5 (rotate_refresh_bound token4 "app" resource (Some registry)) (idle db5 0)).1 = false.
Proof.
  apply (revoked_family_never_rotates token4 "app" resource (Some registry) db5 db5 oracle5 0 _
           (run oracle5 (rotate_refresh_bound token4 "app" resource (Some registry)) (idle db5 0)).2
           5 member5 family5).
  - exists family5. eexists. split; vm_compute; reflexivity.
  - reflexivity.
  - vm_compute. reflexivity.
  - apply surjective_pairing.
Defined.

Lemma revoke_refresh_foreign_witness :
  w_db (run oracle5 (revoke_refresh token3 "other") (idle db3 0)).2 = db3
  /\ (calm oracle5 -> (run oracle5 (revoke_refresh token3 "other") (idle db3 0)).1 = Ok tt).
Proof.
  apply (revoke_refresh_foreign token3 "other" db3 oracle5 0 4 member3 family3 _
           (run oracle5 (revoke_refresh token3 "other") (idle db3 0)).2).
  - vm_compute. reflexivity.
  - vm_compute. discriminate.
  - apply surjective_pairing.
Defined.

Lemma logout_is_final_witness :
  is_ok (run oracle5 exchange (idle (w_db world6) 0)).1 = false
  /\ is_ok (run oracle5 (rotate_refresh_bound token4 "app" resource (Some registry)) (idle (w_db world6) 0)).1 = false
  /\ is_ok (run oracle5 issue (idle (w_db world6) 0)).1 = false.
Proof.
  destruct (logout_is_final session db4 oracle5 0 world6 (w_db world6)) as (Hexchange & Hrotate & Hissue & _).
  - vm_compute. reflexivity.
  - reflexivity.
  - split; [|split].
    + eapply (Hexchange code "app" uri resource verifier (Some registry) oracle5 0 _ _ 3%N code3);
        [vm_compute; reflexivity|reflexivity|apply surjective_pairing].
    + eapply (Hrotate token4 "app" resource (Some registry) oracle5 0 _ _ 5%N member5 family6);
        [vm_compute; reflexivity|reflexivity|apply surjective_pairing].
    + eapply (Hissue grant minute oracle5 0). apply surjective_pairing.
Defined.
