(* ===== verification/PolicyWitnesses.v ===== *)
(** * PolicyWitnesses: the policy, protocol and token properties at concrete inputs *)

From Stdlib Require Import Ascii ZArith Sorted Lia.
From S2P Require Import Prelude Sets External Schema Effects Cimd Jose Keys OAuth Google Credentials Tokens Http CimdTransport Web HttpTheory CimdTheory OAuthTheory GoogleTheory KeysTheory Instances HttpInstances Scenario TokenInstances.

(** ** Responses *)

Definition adapter : GoogleAdapter :=
  {| ga_client_id := "google-client"; ga_client_secret_env := "GOOGLE_SECRET";
     ga_callback := "https://auth.example.com/federation/google/callback";
     ga_endpoints := {| ep_authorize := AUTHORIZE_ENDPOINT; ep_token := TOKEN_ENDPOINT;
                        ep_jwks := JWKS_ENDPOINT |} |}.
Definition provider : Provider :=
  {| pv_registry := registry; pv_cimd_policy := None; pv_google := adapter; pv_issuer := issuer;
     pv_userinfo := userinfo; pv_secure := true |}.

Lemma security_middleware_sensitive_witness :
  hm_get_all (rs_headers (security_middleware "/login" (status_response 200))) "cache-control" = ["no-store"].
Proof. exact (proj1 (security_middleware_sensitive "/login" (status_response 200) eq_refl)). Defined.


Definition preflight : HeaderMap :=
  [("origin", "https://app.example.com"); ("access-control-request-method", "POST");
   ("access-control-request-headers", "Authorization, content-type")].

Lemma preflight_reviewed_witness :
  exists o v, preflight_permitted provider preflight o v
    /\ hm_get_all (rs_headers (api_options provider preflight)) "access-control-allow-origin" = [v].
Proof.
  destruct (preflight_reviewed provider preflight) as [Hgrant Hrefuse].
  destruct (Hrefuse "access-control-allow-origin"%string) as (o & v & Hp); [reflexivity|vm_compute; discriminate|].
  exists o, v. exact (conj Hp (proj1 (Hgrant o v Hp))).
Defined.

(** ** Authorization requests *)

Definition no_pending : PendingAuthorizationGrant :=
  {| pg_client_id := ""; pg_redirect_uri := ""; pg_scopes := []; pg_resource := "";
     pg_code_challenge := ""; pg_dynamic := None |}.
Definition pending_grant : PendingAuthorizationGrant := Eval vm_compute in from_ok no_pending pending.

Lemma registry_keys : registry_wf registry.
Proof.
  refine (bool_decide_unpack (map_Forall (fun id c => fc_id c = id) (cr_clients registry)) _).
  vm_compute. exact I.
Qed.

Lemma revalidate_stable_witness : revalidate_pending 5000 registry pending_grant = Ok pending_grant.
Proof.
  apply (revalidate_stable 0 5000 registry "app" uri "code" "S256" challenge
           ["openid"; "offline_access"] (Some resource)).
  - exact registry_keys.
  - vm_compute. reflexivity.
  - reflexivity.
Defined.

Definition loopback_redirect : RegisteredRedirect :=
  {| rr_uri := "http://127.0.0.1/callback"; rr_kind := NativeLoopback |}.
Lemma redirect_matches_only_port_witness :
  rr_uri loopback_redirect = uri \/ rr_kind loopback_redirect = NativeLoopback.
Proof.
  assert (Hm : redirect_matches loopback_redirect uri = true) by (vm_compute; reflexivity).
  destruct (redirect_matches_only_port loopback_redirect uri Hm) as [H|[H _]]; [by left|by right].
Defined.

(** The example of RFC 7636. *)
Lemma verify_s256_iff_witness : verify_s256 verifier challenge = true.
Proof. apply (verify_s256_iff verifier challenge). split; [split|]; vm_compute; try split; congruence. Defined.

(** ** Client documents *)

Definition client_id : string := "https://client.example.org/metadata".
Definition document : ClientMetadataDocument :=
  {| cm_client_id := client_id; cm_client_name := "Example Client";
     cm_redirect_uris := ["http://127.0.0.1:49152/callback"]; cm_refresh_allowed := true |}.
Definition snapshot : LeasedClientMetadata := lease 0 document (Some 60%Z).
Definition projected : ClientRegistry := Eval vm_compute in
  from_ok registry (project_cimd 1 registry snapshot ["openid"; "offline_access"] [resource] true).

Lemma project_cimd_isolated_witness : cr_clients projected !! "app" = cr_clients registry !! "app".
Proof.
  assert (Hp : project_cimd 1 registry snapshot ["openid"; "offline_access"] [resource] true = Ok projected)
    by (vm_compute; reflexivity).
  destruct (project_cimd_isolated _ _ _ _ _ _ _ Hp) as (_ & _ & Hothers & _).
  apply Hothers. discriminate.
Defined.

Lemma public_v4_blocks_witness : Exists (in_block (ipv4 172 31 0 1)) refused_blocks.
Proof. apply (public_v4_blocks 172 31 0 1); try (unfold octet; lia). reflexivity. Defined.

Definition document_url : Url := Eval vm_compute in
  match url_parse client_id with Some u => u | None => mk_url "" (Domain "") None None "" None "" "" end.
Definition site : SocketAddr := {| sa_ip := V4 93 184 216 34; sa_port := 443 |}.
Definition lookup_host (host : string) (port : Z) : option (list SocketAddr) :=
  Some [{| sa_ip := V4 93 184 216 34; sa_port := port |}].
Definition document_answer (peer : SocketAddr) : HttpAnswer :=
  {| ha_remote_addr := Some peer; ha_content_length := None; ha_status := 200;
     ha_headers := [("content-type", "application/json; charset=utf-8"); ("age", "20");
                    ("cache-control", "max-age=120"); ("age", "7")];
     ha_chunks := ["docu"; "ment"]; ha_broken := false |}.
Definition http_client (peer : SocketAddr) (config : ClientConfig) : option (Url -> option HttpAnswer) :=
  Some (fun _ => Some (document_answer peer)).

(** A peer that is not one of the resolved addresses is refused. *)
Example rebound_peer_refused :
  fetch_exchange (system_resolve lookup_host) (pinned_fetch (http_client {| sa_ip := V4 10 0 0 1; sa_port := 443 |}))
    client_id document_url "client.example.org" 443 = Err UnsafeDestination.
Proof. vm_compute. reflexivity. Qed.

Lemma pinned_fetch_sound_witness : exists obj, json_entries "document" = Some obj /\ document_ok client_id obj document.
Proof.
  destruct (pinned_fetch_sound lookup_host (http_client site) client_id document_url "client.example.org" 443
              document (Some 100%Z)) as (addrs & send & answer & peer & obj & Hl & _ & Hb & Hs & _ & _ & _ & _ & _ & Hobj & _ & Hok & _).
  - vm_compute. reflexivity.
  - exists obj. injection Hb as <-. injection Hs as <-. by split.
Defined.

(** Two fetches in flight, the first of which ends with its document
    cached. *)
Definition other_id : string := "https://other.example.org/metadata".
Definition one_permit : CimdFetcher := from_ok new_fetcher (take_permit new_fetcher).
Definition two_permits : CimdFetcher := from_ok new_fetcher (take_permit one_permit).
Definition one_flight : CimdFetcher := from_ok new_fetcher (enter_flight other_id two_permits).
Definition two_flights : CimdFetcher := from_ok new_fetcher (enter_flight client_id one_flight).
Definition first_key (m : gmap string LeasedClientMetadata) : option string := head (map fst (map_to_list m)).
Definition fetched_lease : LeasedClientMetadata := lease 0 document (Some 100%Z).
Definition published : CimdFetcher := fetch_publish (fun _ => 0%Z) first_key client_id fetched_lease two_flights.
Definition task (id : string) (phase : FetchPhase) : FetchTask := {| ft_client := id; ft_phase := phase |}.

Lemma first_key_ok : some_key first_key.
Proof.
  intros m Hm. unfold first_key. destruct (map_to_list m) as [|[k l] rest] eqn:Hl.
  - by apply map_to_list_empty_iff in Hl.
  - exists k. split; [done|]. exists l. apply elem_of_map_to_list. rewrite Hl. by left.
Qed.

Lemma fetched_document : exists url host port,
  validate_client_id client_id = Ok (url, host, port)
  /\ fetch_exchange (system_resolve lookup_host) (pinned_fetch (http_client site)) client_id url host port
     = Ok (document, Some 100%Z).
Proof. eexists _, _, _. split; vm_compute; reflexivity. Qed.

Lemma fetcher_bounded_witness :
  (cf_permits (return_permit (leave_flight client_id published)) + 1 = 8)%nat
  /\ cm_client_id (lm_document fetched_lease) = client_id.
Proof.
  assert (Hreach : fetcher_reachable {| fs_fetcher := return_permit (leave_flight client_id published);
                                        fs_tasks := [task other_id Flying] |}).
  { destruct fetched_document as (url & host & port & Hv & Hx).
    eapply rtc_l; [by apply (step_permit other_id _ one_permit)|].
    eapply rtc_l; [by apply (step_permit client_id _ two_permits)|].
    eapply rtc_l; [by apply (step_task two_permits (task other_id Permitted) one_flight [task other_id Flying]
      [task client_id Permitted] []), task_enter|].
    eapply rtc_l; [by eapply step_first; [apply (task_enter client_id one_flight two_flights)|]|].
    eapply rtc_l; [by eapply step_first; [exact (task_fetched _ _ _ _ _ _ _ _ _ 0%Z Hv Hx)|]|].
    eapply rtc_l; [by eapply step_first; [exact (task_stored client_id two_flights fetched_lease 100%Z (fun _ => 0%Z)
      first_key first_key_ok)|]|].
    eapply rtc_l; [by eapply step_first; [by apply task_landed|]|].
    apply rtc_once. by eapply step_first; [apply task_ended|]. }
  destruct (fetcher_bounded _ Hreach) as (Hp & _ & _ & _ & Hc). split; [exact Hp|].
  apply (Hc client_id fetched_lease). vm_compute. reflexivity.
Defined.

(** ** Google *)

Definition jwks_response : Google.Response :=
  {| re_status := 200; re_content_length := None; re_cache_control := Some "public, max-age=600";
     re_age := None; re_chunks := [Some "ke"%string; Some "ys"%string] |}.
Definition token_reply : Google.Response :=
  {| re_status := 200; re_content_length := Some 6%Z; re_cache_control := None;
     re_age := None; re_chunks := [Some "tokens"%string] |}.

Definition fetched_keys : result (gmap string DecodingKey * Z) GoogleError := Eval vm_compute in
  fetch_keys true (Some jwks_response).
Definition fetched_map : gmap string DecodingKey := Eval vm_compute in from_ok ∅ (map_ok fst fetched_keys).
Lemma fetch_keys_run : fetch_keys true (Some jwks_response) = Ok (fetched_map, 600%Z).
Proof. vm_cast_no_check (eq_refl (Ok (E := GoogleError) (fetched_map, 600%Z))). Qed.

Lemma fetch_keys_sound_witness : (0 <= 600 <= MAX_CACHE_AGE)%Z /\ jwks_response.(re_status) = 200%Z.
Proof.
  destruct (fetch_keys_sound true (Some jwks_response) fetched_map 600 fetch_keys_run)
    as (_ & Hf & r & _ & _ & Hr & Hs & _).
  split; [exact Hf|]. injection Hr as Hr. rewrite Hr. exact Hs.
Defined.

(** Three calls: one whose request fails, one that is refused, and one that
    gets the keys. *)
Definition failed_request : KeyRequest :=
  {| kr_sent := nanos 6; kr_outcome := Some (nanos 7, true, None) |}.
Definition keys_request : KeyRequest :=
  {| kr_sent := nanos 12; kr_outcome := Some (nanos 13, true, Some jwks_response) |}.
Definition key_history1 : KeyHistory :=
  {| kh_cache := {| kc_keys := ∅; kc_fresh_until := 0; kc_last_attempt := Some (nanos 6) |};
     kh_clock := nanos 7; kh_requests := [failed_request] |}.
Definition key_history2 : KeyHistory :=
  {| kh_cache := kh_cache key_history1; kh_clock := nanos 10; kh_requests := [failed_request] |}.
Definition key_history3 : KeyHistory :=
  {| kh_cache := {| kc_keys := fetched_map; kc_fresh_until := nanos 613; kc_last_attempt := Some (nanos 12) |};
     kh_clock := nanos 13; kh_requests := [keys_request; failed_request] |}.

Lemma key_history_reached : rtc key_step (key_start 0) key_history3.
Proof.
  apply (rtc_l _ _ key_history1).
  { eapply (step_requested "unknown" (nanos 6) (nanos 7) true None _ _ _ (key_start 0)); vm_compute; done. }
  apply (rtc_l _ _ key_history2).
  { eapply (step_answered "unknown" (nanos 10) _ _ key_history1); vm_compute; done. }
  apply rtc_once.
  eapply (step_requested "google-1" (nanos 12) (nanos 13) true (Some jwks_response) _ _ _ key_history2);
    [by vm_compute..|reflexivity|]. rewrite fetch_keys_run. reflexivity.
Qed.

Lemma key_requests_spaced_witness :
  StronglySorted (fun later earlier => (earlier + nanos UNKNOWN_KID_BACKOFF <= later)%Z) [nanos 12; nanos 6].
Proof. exact (key_requests_spaced 0 key_history3 key_history_reached). Defined.

Definition post_code (url : string) (form : list (string * string)) : option Google.Response :=
  if url ==? TOKEN_ENDPOINT then Some token_reply else None.

(** With the keys of the third call. *)
Lemma exchange_code_run :
  Google.exchange_code adapter (Some "secret"%string) true post_code "google-code" verifier nonce
    (nanos 20) (nanos 20) 1002 (fetch_keys false None) (kh_cache key_history3)
  = (Ok (claimed_identity google_claims), kh_cache key_history3).
Proof.
  vm_cast_no_check (eq_refl (Ok (E := GoogleError) (claimed_identity google_claims), kh_cache key_history3)).
Qed.

Lemma exchange_code_sound_witness :
  exists r k, r ∈ kh_requests key_history3 /\ answers_key r "google-1" k (nanos 20).
Proof.
  assert (Hclock : (kh_clock key_history3 <= nanos 20)%Z) by by vm_compute.
  destruct (exchange_code_sound 0 key_history3 _ _ _ _ _ _ _ _ _ _ _ _ _ _ key_history_reached Hclock
    exchange_code_run) as (secret & response & body & token & kid & k & claims & _ & _ & _ & _ & Hpost & _ & Hbody & Htoken
      & Hkid & Hk & _).
  vm_compute in Hpost. injection Hpost as <-. vm_compute in Hbody. injection Hbody as <-.
  vm_compute in Htoken. injection Htoken as <-. vm_compute in Hkid. injection Hkid as <-.
  destruct Hk as [(r & Hr & Hk)|(keys & freshness & Hf & _)]; [by exists r, k|vm_compute in Hf; discriminate Hf].
Defined.

(** ** The provider's keys and tokens *)

Lemma load_signing_keys : load (Some "manifest"%string) key_files = Ok signing_keys.
Proof. vm_cast_no_check (eq_refl (Ok (E := KeyError) signing_keys)). Qed.

Lemma load_coherent_witness :
  exists k, sk_decoding signing_keys !! "key-1" = Some k /\ signs_for (sk_encoding signing_keys) k.
Proof.
  destruct (load_coherent (Some "manifest"%string) key_files signing_keys load_signing_keys)
    as (t & manifest & key & publics & _ & _ & _ & _ & _ & _ & _ & _ & _ & Hk).
  exact Hk.
Defined.

Definition no_response : TokenResponse :=
  {| tr_access_token := ""; tr_token_type := ""; tr_expires_in := 0; tr_scope := "";
     tr_refresh_token := None; tr_id_token := None |}.
Definition token_response : TokenResponse := Eval vm_compute in
  from_ok no_response (Tokens.issue signing_keys issuer userinfo result3 true 1002 jti).

Lemma issued_tokens_typed_witness :
  verify signing_keys 1310 (tr_access_token token_response) issuer resource = Ok signed_access
  /\ is_Some (tr_id_token token_response).
Proof.
  destruct (issued_tokens_typed (Some "manifest"%string) key_files signing_keys issuer userinfo result3 true 1002
              jti token_response 1310) as (Ha & _ & _ & _ & Hid & _).
  - exact load_signing_keys.
  - vm_compute. reflexivity.
  - discriminate.
  - repeat constructor.
  - discriminate.
  - unfold CLOCK_SKEW_SECONDS. lia.
  - split; [exact Ha|]. apply Hid. split; [reflexivity|]. by right; left.
Defined.
