(* ===== verification/WebWitnesses.v ===== *)
(** * WebWitnesses: a server started from a configuration, and its answers *)

From Stdlib Require Import Ascii ZArith.
From S2P Require Import Prelude External Schema Effects Evolution Cimd Jose Keys OAuth Config Identity Google Credentials Tokens Http Web ConfigTheory System Drafts WebTheory Inert WebProperties Instances HttpInstances Scenario TokenInstances PolicyWitnesses.

(** ** A configuration *)

Definition issuer_url : Url :=
  mk_url "https" (Domain "auth.example.com") None (Some 443%Z) "/" None
    "https://auth.example.com" "https://auth.example.com/".
Definition app_declaration : ClientDeclaration :=
  {| cd_id := "app"; cd_display_name := "App";
     cd_redirects := [{| rd_uri := "http://127.0.0.1/callback"; rd_kind := ConfiguredNativeLoopback |};
                      {| rd_uri := "https://app.example.com/callback"; rd_kind := ConfiguredAppClaimedHttps |}];
     cd_scopes := ["openid"; "email"; "offline_access"]; cd_resources := [resource];
     cd_default_resource := None; cd_browser_origins := ["https://app.example.com"];
     cd_post_logout_redirects := ["https://app.example.com/callback"];
     cd_authorization_flow := ConfiguredInteractive; cd_logout_flow := ConfiguredIdTokenHint |}.
Definition config : Config :=
  {| cfg_mode := Production; cfg_issuer := issuer_url;
     cfg_bind := {| sa_ip := V4 127 0 0 1; sa_port := 8080 |};
     cfg_database := {| db_url := None; db_url_env := default_database_env;
                        db_max_connections := default_max_connections;
                        db_min_connections := default_min_connections;
                        db_connect_timeout_seconds := default_timeout;
                        db_acquire_timeout_seconds := default_timeout;
                        db_readiness_timeout_milliseconds := default_ready_timeout |};
     cfg_signing_manifest := "keys.toml";
     cfg_authorization := Some
       {| az_google := Some {| gg_client_id := "google-client"; gg_client_secret_env := "GOOGLE_SECRET" |};
          az_clients := [app_declaration];
          az_cimd := Some {| cp_scopes := ["openid"]; cp_resources := [resource]; cp_allow_refresh := false |} |} |}.
Definition environment (name : string) : option string :=
  if name ==? "GOOGLE_SECRET" then Some "secret"%string else None.

Definition started : Provider := Eval vm_compute in
  match new_provider config environment with Ok (Some p) => p | _ => provider end.
Lemma config_starts : new_provider config environment = Ok (Some started).
Proof. vm_cast_no_check (eq_refl (Ok (E := StartError) (Some started))). Qed.
Lemma validated_config_starts_witness : provider_typed config started.
Proof.
  assert (Hv : validate config = Ok tt) by (vm_compute; reflexivity).
  pose proof (validated_config_starts config environment Hv) as Hs.
  rewrite config_starts in Hs. exact Hs.
Defined.

(** ** Requests *)

Definition server : AppState := {| st_keys := signing_keys; st_provider := Some started; st_css := "" |}.
Definition outside : Outside :=
  {| out_leased := fun _ _ => None; out_exchange := fun _ _ _ => Err InvalidConfiguration;
     out_database_ready := true |}.
Definition authorize_query (prompt : string) : string :=
  form_serialize [("client_id", "app"); ("redirect_uri", uri); ("response_type", "code");
    ("code_challenge_method", "S256"); ("code_challenge", challenge); ("scope", "openid email");
    ("resource", resource); ("state", "client state"); ("prompt", prompt)].
Definition request (prompt : string) : Request :=
  {| rq_method := GET; rq_path := "/authorize"; rq_query := Some (authorize_query prompt);
     rq_headers := []; rq_body := "" |}.

Lemma steady_draws t u b : draws_32_bytes (steady t u b).
Proof. intros n. reflexivity. Qed.

Definition at9 := steady 1009 9 "z".
Lemma request_answered_witness :
  is_ok (run at9 (serve server outside (request "consent")) (idle empty_db 0)).1 = true.
Proof.
  pose proof (request_answered server outside (request "consent") empty_db at9 0 (steady_draws 1009 9 "z")) as Hr.
  destruct (run at9 (serve server outside (request "consent")) (idle empty_db 0)) as [r w].
  exact (proj1 Hr).
Defined.

(** An approval sent by the page of another site, with the user's cookie. *)
Definition forged : Request :=
  {| rq_method := POST; rq_path := "/consent"; rq_query := None;
     rq_headers := [("origin", "https://evil.example"); ("cookie", "__Host-eri_session=secret")];
     rq_body := form_serialize [("transaction_id", uuid_text 7); ("csrf", "csrf"); ("action", "approve")] |}.
Lemma foreign_page_inert_witness :
  stmts_ok Drafts.reads (serve server outside forged)
  /\ forall o d n, w_db (run o (serve server outside forged) (idle d n)).2 = d.
Proof.
  apply (foreign_page_inert server outside forged); [|by vm_compute].
  intros p Hp. vm_compute in Hp. injection Hp as <-. by vm_compute.
Defined.

(** Without a session, [prompt=none] is answered at the registered target. *)
Definition no_answer : Response := status_response 500.
Definition refusal : Response := Eval vm_compute in
  from_ok no_answer (run at9 (authorize started (out_leased outside) (authorize_query "none") hm_empty) (idle empty_db 0)).1.
Definition refused_world : World := Eval vm_compute in
  (run at9 (authorize started (out_leased outside) (authorize_query "none") hm_empty) (idle empty_db 0)).2.
Definition refusal_target : string :=
  uri +:+ "?error=login_required&state=client+state&iss=https%3A%2F%2Fauth.example.com".
Lemma authorize_never_redirects_elsewhere_witness :
  permitted_target started (out_leased outside) (authorize_query "none") refusal_target.
Proof.
  apply (authorize_never_redirects_elsewhere (o := at9) started (out_leased outside) (authorize_query "none") hm_empty
           empty_db 0 refusal refused_world refusal_target).
  - vm_cast_no_check (eq_refl (Ok (E := Panic) refusal, refused_world)).
  - vm_compute. apply list_elem_of_here.
Defined.
