(* ===== verification/ConcurrencyWitnesses.v ===== *)
(** * ConcurrencyWitnesses: races on the scenario

    Two requests redeem the code of Scenario.v step by step in turn while a
    third signs its user in: one of them gets tokens, the other, which had to
    wait for its row locks, is refused. Then a logout races a rotation, and
    more requests begin when the session is revoked. *)

From Stdlib Require Import Ascii ZArith.
From S2P Require Import Prelude External Schema Effects Evolution Identity Cimd OAuth Credentials CredentialsSpec Database Logout Browser StoresInvariant System SystemProperties Http Web Instances HttpInstances TokenInstances Scenario Flow WebWitnesses Transitions Concurrency ConcurrencyTheory Pools Confinement Contest Contenders Settling Composition Serving Steps Latecomers ConcurrencyProperties.

Definition choice (o : Oracle) (n : nat) : Choice :=
  {| ch_fault := NoFault; ch_clock := o_clock o n; ch_uuid := o_uuid o n;
     ch_bytes := o_random o n; ch_time := o_instant o n |}.

Definition racers : list (prog bool) :=
  [contend (fun _ => true) exchange; contend (fun _ => true) exchange; bystand sign_in].

(** The three in turn. *)
Definition turns (n : nat) : list (nat * Choice) :=
  flat_map (fun k => [(0%nat, choice oracle3 k); (1%nat, choice oracle4 k); (2%nat, choice oracle5 k)])
    (seq 0 n).
Definition race : Pool := schedule (turns 40) (start db2 racers).

Definition verdict (i : nat) (pool : Pool) : option bool :=
  match pl_threads pool !! i with
  | Some {| th_prog := Ret b |} => Some b
  | _ => None
  end.
Lemma verdict_won i pool : verdict i pool = Some true -> won i pool.
Proof.
  unfold verdict. destruct (pl_threads pool !! i) as [[p tx]|] eqn:Hi; [|done].
  destruct p; intros; simplify_eq. by eexists.
Qed.

Example race_verdicts :
  verdict 0 race = Some true /\ verdict 1 race = Some false /\ verdict 2 race = Some false.
Proof. vm_compute. auto. Qed.
(** Half-way both redemptions are still running, the second waiting. *)
Example race_halfway : verdict 0 (schedule (turns 8) (start db2 racers)) = None
  /\ verdict 1 (schedule (turns 8) (start db2 racers)) = None
  /\ advance_thread 1 (choice oracle4 0) (schedule (turns 8) (start db2 racers)) = None.
Proof. vm_compute. auto. Qed.

Lemma had_once_interleaved_witness :
  won 0 race /\ ~ won 1 race /\ ~ had (GrantOf code) db2 /\ had (GrantOf code) (pl_db race)
  /\ moves db2 (pl_db race).
Proof.
  destruct (had_once_interleaved (GrantOf code) db2 racers race) as (Hone & Hhad & Hev).
  - vm_compute. reflexivity.
  - repeat constructor.
  - apply schedule_steps.
  - assert (Hw : won 0 race) by (apply verdict_won; vm_compute; reflexivity).
    destruct (Hhad 0%nat Hw) as [Hno Hyes]. split_and!; [exact Hw| |exact Hno|exact Hyes|exact Hev].
    intros Hw1. by specialize (Hone _ _ Hw Hw1).
Defined.

(** No session was revoked yet. *)
Lemma none_revoked d :
  exists_row (fun _ r => is_some (ps_revoked_at r)) (provider_sessions d) = false -> revoked_together d.
Proof.
  intros Hn i f _ (r & t & Hr & Ht). exfalso. rewrite exists_row_false in Hn. specialize (Hn _ _ Hr). by rewrite Ht in Hn.
Qed.

(** The exchange that got tokens did so in one change of the database. *)
Lemma answer_takes_effect_witness :
  exists l a c c', publishes 0 (start db2 racers) l race /\ l = [(c, c')]
    /\ exchange_success code "app" uri resource verifier (Some registry) c a c'
    /\ moves db2 c /\ moves c' (pl_db race).
Proof.
  assert (Hs : exists l, publishes 0 (start db2 racers) l race).
  { apply publishes_total, schedule_steps. }
  destruct Hs as (l & Hl). exists l.
  destruct (answer_takes_effect exchange (fun _ => true)
    (exchange_success code "app" uri resource verifier (Some registry))
    (fun _ => true) db2 racers 0 l race) as (a & c & c' & _ & Hc & Hspec & Hm & Hm').
  - vm_compute. reflexivity.
  - apply none_revoked. vm_compute. reflexivity.
  - repeat (constructor; [apply operation_client; constructor|]). constructor.
  - constructor.
  - done.
  - reflexivity.
  - exact Hl.
  - apply verdict_won. vm_compute. reflexivity.
  - exists a, c, c'. by split_and!.
Defined.

(** ** A logout and a rotation of the session's token *)

Definition leaving : list (prog bool) := [bystand (logout session); bystand rotation].
Definition pair_turns (n : nat) : list (nat * Choice) :=
  flat_map (fun k => [(0%nat, choice oracle4 k); (1%nat, choice oracle5 k)]) (seq 0 n).
Definition left_pool : Pool := schedule (pair_turns 5) (start db3 leaving).
(** When the logout has committed the rotation is still running. *)
Definition late : list (prog bool) :=
  [contend (fun _ => true) rotation; contend (fun _ => true) exchange;
   contend (fun found => se_id found ==? 2%N) (find_provider_session (se_raw session))].
Definition late_turns (n : nat) : list (nat * Choice) :=
  flat_map (fun k => map (fun i => (i, choice oracle5 k)) (seq 1 4)) (seq 0 n).
Definition end_pool : Pool := schedule (late_turns 40) (join left_pool late).

Example left_running : verdict 1 left_pool = None.
Proof. vm_compute. reflexivity. Qed.
Example end_verdicts : map (fun i => verdict i end_pool) (seq 1 4)
  = [Some false; Some false; Some false; Some false].
Proof. vm_compute. reflexivity. Qed.

Lemma logout_final_interleaved_witness :
  session_revoked (pl_db end_pool) 2%N
  /\ (exists f, refresh_families (pl_db end_pool) !! 4%N = Some f) /\ family_revoked (pl_db end_pool) 4%N
  /\ ~ won 2 end_pool.
Proof.
  assert (Hf : exists f, refresh_families (pl_db end_pool) !! 4%N = Some f /\ rf_session_id f = 2%N).
  { eexists. split; [vm_compute; reflexivity|reflexivity]. }
  destruct (logout_final_interleaved 2%N db3 leaving left_pool late end_pool) as (Hr & Hfam & Hw).
  - vm_compute. reflexivity.
  - apply none_revoked. vm_compute. reflexivity.
  - repeat constructor.
  - apply schedule_steps.
  - eexists _, _. split; [vm_compute; reflexivity|reflexivity].
  - assert (Hc : code_of 2%N code (pl_db left_pool)).
    { exists 3%N. eexists. split; [vm_compute; reflexivity|]. split; vm_compute; reflexivity. }
    assert (Ht : token_of 2%N token3 (pl_db left_pool)).
    { exists 4%N. eexists _, _. split; [vm_compute; reflexivity|]. split; [vm_compute; reflexivity|].
      split; [vm_compute; reflexivity|reflexivity]. }
    repeat constructor; done.
  - apply schedule_steps.
  - destruct Hf as (f & Hf & Hs). split_and!; [exact Hr|by exists f|by eapply Hfam|].
    apply Hw. vm_compute. repeat constructor.
Defined.

(** ** Two answers to a consent page, and a request of the server *)

(** The page of Flow.v approved and denied in turns, while the server of
    WebWitnesses.v answers an authorization request by beginning a sign-in. *)
Definition deny_op := deny_bound (lg_session login) (lg_consent login) (Some registry).
Definition deciders : list (prog bool) :=
  [contend (fun _ => true) approve_op; contend (fun _ => true) deny_op;
   served_request server outside (request "consent")].
Definition decision_turns (n : nat) : list (nat * Choice) :=
  flat_map (fun k => [(0%nat, choice at5 k); (1%nat, choice at6 k); (2%nat, choice at9 k)]) (seq 0 n).
Definition decided : Pool := schedule (decision_turns 60) (start (w_db flow4) deciders).

Example decided_verdicts : map (fun i => verdict i decided) (seq 0 3) = [Some true; Some false; Some false].
Proof. vm_compute. reflexivity. Qed.

Lemma interleaved_atomic_witness :
  rtc (fun c c' => transition c c' /\ moves c c') (w_db flow4) (pl_db decided) /\ system_wf (pl_db decided)
  /\ ba_stage <$> browser_authorizations (pl_db decided) !! ch_transaction_id (lg_consent login) = Some approved
  /\ ba_stage <$> browser_authorizations (pl_db decided) !! 9%N = Some awaiting_start.
Proof.
  destruct (interleaved_atomic (w_db flow4) deciders decided) as (Hr & Hwf & _).
  - vm_compute. reflexivity.
  - apply reachable_system_wf, flow4_reachable.
  - constructor; [apply operation_client; constructor|]. constructor; [apply operation_client; constructor|].
    constructor; [apply served_request_client|constructor].
  - apply schedule_steps.
  - split_and!; [exact Hr|exact Hwf|vm_compute; reflexivity|vm_compute; reflexivity].
Defined.
